(* ===== verification/_CoqProject ===== *)
-Q . S2P
Prelude.v
CLib.v
Endian.v
NetBuffer.v
LogStream.v
Date.v
Timestamp.v
TimeZone.v
FileUtil.v
ProcessInfo.v
LogFile.v
Threads.v
ThreadLife.v
Logging.v
Monitor.v
Latch.v
QueueEvents.v
BlockingQueue.v
BoundedBlockingQueue.v
ThreadPool.v
SysLocks.v
TimeSem.v
Sockets.v
SocketVariants.v
Channel.v
Acceptor.v
Connector.v
AsyncLogging.v
Globals.v
LogFileTest.v
UnitTests.v
QueueTests.v
