(* ===== verification/Prelude.v ===== *)
(** * A verification library for MyNet

    MyNet (src/MyNet) is a C++ network library in the style of muduo: base/
    holds threads, synchronisation, time, files and logging, net/ the buffer,
    sockets and the parts of an event loop.  src/time-sem.c is a stand-alone C
    program.  This library models the code, file by file, as executable
    definitions and proves what makes each part correct.

    ** Conventions (this file)

    A C++ integer is a Z with its wrap-around written out ([wrapU], [wrapS]) or,
    where signed overflow is undefined, with a check ([ckS], [iadd], ...).  An
    operation that can go wrong returns an [outcome]: a value or a [fault], so
    that a theorem that states a value also states that no assert fails, no
    memory is accessed out of bounds and no loop runs out of fuel.  Code that is
    instantiated with a type for which it is ill-formed is the fault
    DoesNotCompile.  Memory is a
    list of characters read and written by [read_at] and [blit].  Objects are
    records passed through the operations; a function on an object of class C
    that changes it returns the changed record.  What the code calls in the
    operating system, in Boost or in a client is a parameter: an argument, a
    Section variable or, where several components share it, a class whose laws
    are a second class (Kernel and KernelLaws, EventLoop and EventLoopLaws, Fcntl,
    CircularBuffer, OS, LogSink, TextSink, SharedCell, TestQueue), each with an
    instance.

    ** The parts, in the order in which they are built

    - CLib: decimal and hexadecimal conversion, C strings and the like, as the C
      and C++ standard libraries define them; Endian: net/Endian.h.
    - NetBuffer: net/Buffer.h, .cc.  [content] is the byte queue between the two
      indices; every operation keeps [wf] and acts on [content] as the queue
      operation does (buffer_refines_queue), space is made without a loss
      (append_grows_only_when_needed), integers come back as they were put
      (integer_roundtrip), readFd appends what readv received.
    - LogStream: base/LogStream.h, .cc.  FixedBuffer implements the contract
      TextSink for every SIZE; the stream operators print each value as the
      reference conversion does, entirely or not at all.
    - Date, Timestamp, TimeZone: base/Date, base/Timestamp, base/TimeZone.  Day
      numbers and calendar dates are inverse on the whole range that does not
      overflow, and ordered alike (date_order); texts of times denote them; zone files are parsed as tzfile(5)
      lays them out, and any file that is accepted gives safe lookups if
      it has a local time type (parsed_zone_safe).
    - FileUtil, ProcessInfo, LogFile: base/FileUtil, base/ProcessInfo,
      base/LogFile.  Files are a map from names to contents; a log file that is
      rolled loses, repeats and reorders nothing, and a listing shows its files
      in the order of their lines (log_file_keeps_lines); with a mutex it
      deadlocks only when it has to flush within append (append_keeps), and not if the clock is read often enough (append_calm).
    - Threads, ThreadLife, Logging: base/Atomic.h, base/Thread, base/ThreadOp.h
      and base/Logging: the calls of thread objects and their threads one by one
      (Threads) and interleaved over the storage that they share
      (thread_life_safe), thread numbers, the text of a line.
    - Monitor: base/Mutex.h and base/Condition as an interleaving semantics with
      spurious wake-ups and arbitrary choice of the thread that is signalled,
      over data that the mutex protects and Thread objects that it does not.
      [safe] is a verification condition computed from a thread's command;
      [reachable_ok] turns it into an invariant of all interleavings, and
      [one_user] shows that the asserts of the Thread objects hold when one
      thread uses them.
    - Latch, QueueEvents, BlockingQueue, BoundedBlockingQueue, ThreadPool: the
      clients of the monitor.  For any number of threads that call the
      operations in any order: queues are first-in first-out, bounds hold, no
      set of calls that can be served deadlocks.  A pool that start has given a
      thread, and that nobody stops, runs every task (pool_runs_every_task);
      stop joins its threads through Thread::join, whose asserts hold if all
      were created and one client stops the pool once (pool_stop_ends_threads),
      and fail otherwise (second_stop_aborts, stop_without_thread_aborts).
    - AsyncLogging: base/AsyncLogging: appends, the calls of the owner (start,
      stop, the destructor) and the logging thread interleaved; log and buffers
      together hold the lines in order, and stop returns.  Its log is an
      interface that LogFile is proved to implement, its thread object is that
      of Threads.
    - Sockets, SocketVariants, Channel, Acceptor, Connector: net/SocketsOps, net/InetAddress,
      net/Socket, net/Channel, net/Acceptor, net/Connector over a class of
      system calls and an event loop.  The builds that set the flags of
      descriptors with fcntl give the same descriptors as the default build but
      for the close-on-exec flag, which is what the undefined macro CLOEXEC makes
      of it (other_builds_agree).  Channels dispatch as a list of
      actions says; what a channel asks of its loop, whatever that does, is
      channel_lifecycle; an acceptor conserves
      descriptors, even when the process runs out of them (without accept4 it
      does not notice that, no_accept4_keeps_waiting); a connector that starts
      passes its one new socket to connecting or to retry, or closes it, as the
      error of connect says (connector_dispatches_error).
    - Globals: base/Exception, base/Singleton.h, base/ThreadLocal.h,
      base/ThreadLocalSingleton.h, with their completeness checks, which reject
      every type that has a size (complete_type_rejected); for one that has none
      the templates per thread refine a map from threads to objects; deleting a
      key leaves its objects (deleted_key_leaks).
    - SysLocks, TimeSem: src/time-sem.c: six variants of an accept mutex over an
      operating system with laws (SysLocks: what the calls do to fcntl and flock
      locks, semaphores and mutexes, what fork shares and what exit releases),
      both ways to get shared memory, the arguments of main, parent and children
      interleaved.  Mutual exclusion holds whatever fails; without failures the
      count is right; the program runs to its end unless a process that exited
      with an error holds a lock that outlives it (timesem_terminates), which
      happens (fork_failure_hangs_flock, fork_failure_hangs_pthread).
    - LogFileTest, UnitTests, QueueTests: the programs of base/tests, which
      compose the parts.  LogFile_test writes exactly what it logs
      (logfile_test_writes_all); Date_unittest passes for any range of years
      (date_test_passes); the programs that use the queues end, and pass on all
      elements, in every interleaving (queue_tests_finish).

    ** Bounds and fuel

    Recursion that the code's loops do not bound takes fuel: 20 and 16 digits
    for conversions of 64-bit numbers (LogStream), the length of the line plus
    one for writeLine, whose fwrite makes progress (FileUtil, LogFile), any
    amount for loops that a hypothesis of progress ends.  Theorems state the
    fuel that is enough; [OutOfFuel] is proved of the loops that do not end
    (put_float_diverges, pread_error_never_returns).  Machine bounds are those
    of the types: int 32, long, size_t and time_t 64 bits, both byte orders.

    ** What is not modelled

    net/EventLoop.h is empty, and Connector's retry, connecting and channel
    functions, TimeZone's fromLocalTime and Logger's constructor for LOG_TRACE
    are declared only: there is no code to model, and their callers take them as
    parameters.  The acceptor's theorem assumes of its event loop EventLoopLaws,
    that it does what its channel asks.  Printing a double and backtraces are the C library's.
    CLOEXEC, which the code for VALGRIND and NO_ACCEPT4 names and no header
    defines, is an argument.  The code for MOVEBREAK in time-sem.c, which is not
    compiled by default and returns no value from a function that has one, is
    left out.  FileUtil_test.cc calls a
    function that is commented out.  What the tests print is left out.

    The last part of most files, "Behaviour that callers may not expect", proves
    what the code does where that differs from what its names, comments or
    callers suggest. *)
From Stdlib Require Import ZArith Lia Ascii String.
From stdpp Require Import base list strings gmap.

#[local] Open Scope Z_scope.

(** ** Machine integers *)

(** Value of [z] once stored in a [w]-bit unsigned, respectively signed
    (two's complement), integer. *)
Definition wrapU (w z : Z) : Z := z mod 2 ^ w.
Definition wrapS (w z : Z) : Z := (z + 2 ^ (w - 1)) mod 2 ^ w - 2 ^ (w - 1).

(** Representability in [w] bits. *)
Definition inU (w z : Z) : bool := (0 <=? z) && (z <? 2 ^ w).
Definition inS (w z : Z) : bool := (- 2 ^ (w - 1) <=? z) && (z <? 2 ^ (w - 1)).

(** ** Faults

    An operation of the code either returns a value or does something the
    program is not meant to do. *)
Inductive fault :=
| AssertFail      (* an assert(...) of the source is false: the process aborts *)
| Undefined       (* undefined behaviour: out-of-bounds access, signed overflow *)
| LengthError     (* std::length_error thrown by a container *)
| DoesNotCompile  (* the code is instantiated with a type for which it is ill-formed *)
| Deadlock        (* locking a mutex that the calling thread holds: no return *)
| OutOfFuel.      (* the loop has not finished within the fuel given *)

Inductive outcome (A : Type) :=
| Ok (a : A)
| Fault (f : fault).
Arguments Ok {A} a.
Arguments Fault {A} f.

#[export] Instance outcome_ret : MRet outcome := fun A a => Ok a.
#[export] Instance outcome_bind : MBind outcome := fun A B k m =>
  match m with Ok a => k a | Fault f => Fault f end.
#[export] Instance outcome_fmap : FMap outcome := fun A B g m =>
  match m with Ok a => Ok (g a) | Fault f => Fault f end.

(** assert(b) in a debug build (the default build type of CMakeLists.txt). *)
Definition assert_ (b : bool) : outcome unit :=
  if b then Ok tt else Fault AssertFail.

(** ** Signed arithmetic with overflow as a fault *)
Definition ckS (w z : Z) : outcome Z := if inS w z then Ok z else Fault Undefined.
Definition iadd (a b : Z) : outcome Z := ckS 32 (a + b).
Definition isub (a b : Z) : outcome Z := ckS 32 (a - b).
Definition imul (a b : Z) : outcome Z := ckS 32 (a * b).
Definition idiv (a b : Z) : outcome Z :=
  if b =? 0 then Fault Undefined else ckS 32 (Z.quot a b).
Definition irem (a b : Z) : outcome Z :=
  _ ← idiv a b; Ok (Z.rem a b).

(** ** Characters and strings: a char is an [ascii], a std::string a list *)
Abbreviation bytes := (list ascii).
Definition byte_of_Z (z : Z) : ascii := ascii_of_N (Z.to_N (z mod 256)).
Definition Z_of_byte (b : ascii) : Z := Z.of_N (N_of_ascii b).
Definition lit (s : string) : bytes := list_ascii_of_string s.
Definition NUL : ascii := "000"%char.

(** ** Z-indexed views of lists: arrays, vectors and raw memory *)
Definition zlen {A} (l : list A) : Z := Z.of_nat (length l).

(** The [n] elements from index [i]. *)
Definition slice {A} (i n : Z) (l : list A) : list A :=
  take (Z.to_nat n) (drop (Z.to_nat i) l).

(** Overwriting the elements from index [i] with [xs]. *)
Definition splice {A} (i : Z) (xs l : list A) : list A :=
  take (Z.to_nat i) l ++ xs ++ drop (Z.to_nat i + length xs) l.

(** memcpy into an object of the length of [l]: out of bounds is undefined. *)
Definition blit {A} (i : Z) (xs l : list A) : outcome (list A) :=
  if (0 <=? i) && (i + zlen xs <=? zlen l) then Ok (splice i xs l) else Fault Undefined.

(** Reading [n] elements from index [i] of an object. *)
Definition read_at {A} (i n : Z) (l : list A) : outcome (list A) :=
  if (0 <=? i) && (0 <=? n) && (i + n <=? zlen l) then Ok (slice i n l) else Fault Undefined.

(** vector::operator[] and array indexing. *)
Definition index {A} (l : list A) (i : Z) : outcome A :=
  if i <? 0 then Fault Undefined
  else match l !! Z.to_nat i with Some x => Ok x | None => Fault Undefined end.

(** ** Tactics *)

(** Split a boolean test of the goal or of a hypothesis into its cases. *)
Ltac zbool :=
  repeat match goal with
  | H : andb _ _ = true |- _ => apply andb_prop in H; destruct H
  | H : orb _ _ = false |- _ => apply orb_false_elim in H; destruct H
  | H : negb _ = true |- _ => apply negb_true_iff in H
  | H : negb _ = false |- _ => apply negb_false_iff in H
  | H : Z.ltb _ _ = true |- _ => apply Z.ltb_lt in H
  | H : Z.ltb _ _ = false |- _ => apply Z.ltb_ge in H
  | H : Z.leb _ _ = true |- _ => apply Z.leb_le in H
  | H : Z.leb _ _ = false |- _ => apply Z.leb_gt in H
  | H : Z.eqb _ _ = true |- _ => apply Z.eqb_eq in H
  | H : Z.eqb _ _ = false |- _ => apply Z.eqb_neq in H
  end.

(** Case analysis on the tests of the goal, arithmetic contradictions closed. *)
Ltac case_tests :=
  repeat match goal with
  | |- context [Z.ltb ?a ?b] => destruct (Z.ltb_spec a b); try lia
  | |- context [Z.leb ?a ?b] => destruct (Z.leb_spec a b); try lia
  | |- context [Z.eqb ?a ?b] => destruct (Z.eqb_spec a b); try lia
  end.

(** Expose the matches of a monadic computation. *)
Ltac unfold_monad :=
  unfold mbind, outcome_bind, mret, outcome_ret, fmap, outcome_fmap, assert_; cbn beta iota.
Ltac unfold_monad_in H :=
  unfold mbind, outcome_bind, mret, outcome_ret, fmap, outcome_fmap, assert_ in H;
  cbn beta iota in H.

(** Invert a successful monadic computation in hypothesis [H]. *)
Ltac inv_ok H :=
  unfold_monad_in H;
  repeat match type of H with
  | Ok _ = Ok _ => injection H; clear H; intros
  | Fault _ = Ok _ => discriminate H
  | (match ?m with Ok _ => _ | Fault _ => _ end) = Ok _ =>
      let E := fresh "E" in destruct m eqn:E; [| discriminate H]
  | (if ?b then _ else _) = Ok _ =>
      let E := fresh "E" in destruct b eqn:E; try discriminate H
  end.

(** ** Integer lemmas *)

Lemma wrapU_small w z : 0 <= z < 2 ^ w -> wrapU w z = z.
Proof. intros H. apply Z.mod_small. lia. Qed.

Lemma wrapU_range w z : 0 <= w -> 0 <= wrapU w z < 2 ^ w.
Proof. intros Hw. apply Z.mod_pos_bound. lia. Qed.

Lemma wrapS_range w z : 0 < w -> - 2 ^ (w - 1) <= wrapS w z < 2 ^ (w - 1).
Proof.
  intros Hw. unfold wrapS.
  assert (E : 2 ^ w = 2 * 2 ^ (w - 1)).
  { rewrite <- Z.pow_succ_r by lia. f_equal. lia. }
  pose proof (Z.mod_pos_bound (z + 2 ^ (w - 1)) (2 ^ w) ltac:(lia)). lia.
Qed.

Lemma wrapS_small w z : 0 < w -> - 2 ^ (w - 1) <= z < 2 ^ (w - 1) -> wrapS w z = z.
Proof.
  intros Hw H. unfold wrapS.
  assert (E : 2 ^ w = 2 * 2 ^ (w - 1)).
  { rewrite <- Z.pow_succ_r by lia. f_equal. lia. }
  rewrite Z.mod_small by lia. lia.
Qed.

(** Storing a signed value in an unsigned variable and back is lossless. *)
Lemma wrapS_wrapU w z : 0 < w -> wrapS w (wrapU w z) = wrapS w z.
Proof. intros Hw. unfold wrapS, wrapU. by rewrite Zplus_mod_idemp_l. Qed.

Lemma wrapU_wrapS w z : 0 < w -> wrapU w (wrapS w z) = wrapU w z.
Proof.
  intros Hw. unfold wrapS, wrapU. rewrite Zminus_mod_idemp_l. f_equal. lia.
Qed.

Lemma inS_true w z : - 2 ^ (w - 1) <= z < 2 ^ (w - 1) -> inS w z = true.
Proof. intros H. unfold inS. by case_tests. Qed.

Lemma ckS_ok w z : - 2 ^ (w - 1) <= z < 2 ^ (w - 1) -> ckS w z = Ok z.
Proof. intros H. unfold ckS. by rewrite inS_true. Qed.

Lemma assert_true b : b = true -> assert_ b = Ok tt.
Proof. by intros ->. Qed.

(** ** Byte lemmas *)

Lemma Z_of_byte_range b : 0 <= Z_of_byte b < 256.
Proof. unfold Z_of_byte. pose proof (N_ascii_bounded b). lia. Qed.

Lemma Z_of_byte_of_Z z : Z_of_byte (byte_of_Z z) = z mod 256.
Proof.
  unfold Z_of_byte, byte_of_Z.
  pose proof (Z.mod_pos_bound z 256 ltac:(lia)).
  rewrite N_ascii_embedding by lia. lia.
Qed.

Lemma byte_of_Z_of_byte b : byte_of_Z (Z_of_byte b) = b.
Proof.
  unfold byte_of_Z. rewrite Z.mod_small by apply Z_of_byte_range.
  unfold Z_of_byte. rewrite N2Z.id. apply ascii_N_embedding.
Qed.

(** ** Slices and splices *)

Section Slices.
Context {A : Type}.
Implicit Types (l xs : list A) (i j n : Z).

Lemma zlen_nonneg l : 0 <= zlen l.
Proof. unfold zlen. lia. Qed.

Lemma zlen_app l xs : zlen (l ++ xs) = zlen l + zlen xs.
Proof. unfold zlen. rewrite length_app. lia. Qed.

Lemma zlen_cons (x : A) l : zlen (x :: l) = 1 + zlen l.
Proof. unfold zlen. simpl. lia. Qed.

Lemma zlen_nil : zlen (@nil A) = 0.
Proof. done. Qed.

Lemma zlen_replicate (k : nat) (x : A) : zlen (replicate k x) = Z.of_nat k.
Proof. unfold zlen. by rewrite length_replicate. Qed.

Lemma zlen_take n l : 0 <= n <= zlen l -> zlen (take (Z.to_nat n) l) = n.
Proof. unfold zlen. intros. rewrite length_take. lia. Qed.

Lemma zlen_drop n l : 0 <= n <= zlen l -> zlen (drop (Z.to_nat n) l) = zlen l - n.
Proof. unfold zlen. intros. rewrite length_drop. lia. Qed.

Lemma take_all n l : zlen l <= n -> take (Z.to_nat n) l = l.
Proof. unfold zlen. intros. apply take_ge. lia. Qed.

Lemma zlen_slice i n l : 0 <= i -> 0 <= n -> i + n <= zlen l -> zlen (slice i n l) = n.
Proof. unfold zlen, slice. intros. rewrite length_take, length_drop. lia. Qed.

Lemma lookup_slice i n l (k : nat) :
  slice i n l !! k = if decide (k < Z.to_nat n)%nat then l !! (Z.to_nat i + k)%nat else None.
Proof.
  unfold slice. case_decide.
  - by rewrite lookup_take_lt, lookup_drop by lia.
  - by rewrite lookup_take_ge by lia.
Qed.

Lemma lookup_splice i xs l (k : nat) : (Z.to_nat i + length xs <= length l)%nat ->
  splice i xs l !! k =
    if decide (Z.to_nat i <= k < Z.to_nat i + length xs)%nat then xs !! (k - Z.to_nat i)%nat
    else l !! k.
Proof.
  intros H. unfold splice.
  assert (Hn : length (take (Z.to_nat i) l) = Z.to_nat i) by (rewrite length_take; lia).
  destruct (decide (k < Z.to_nat i)%nat) as [H1|H1].
  { rewrite lookup_app_l by lia. rewrite lookup_take_lt by lia.
    by rewrite decide_False by lia. }
  rewrite lookup_app_r by lia. rewrite Hn.
  destruct (decide (k < Z.to_nat i + length xs)%nat) as [H2|H2].
  { rewrite lookup_app_l by lia. by rewrite decide_True by lia. }
  rewrite lookup_app_r by lia. rewrite lookup_drop. rewrite decide_False by lia.
  f_equal. lia.
Qed.

Lemma length_splice i xs l : (Z.to_nat i + length xs <= length l)%nat ->
  length (splice i xs l) = length l.
Proof.
  intros H. unfold splice. rewrite !length_app, length_take, length_drop. lia.
Qed.

Lemma zlen_splice i xs l : 0 <= i -> i + zlen xs <= zlen l -> zlen (splice i xs l) = zlen l.
Proof. unfold zlen. intros. rewrite length_splice; lia. Qed.

Lemma blit_ok i xs l : 0 <= i -> i + zlen xs <= zlen l -> blit i xs l = Ok (splice i xs l).
Proof. intros. unfold blit. by case_tests. Qed.

Lemma read_at_ok i n l : 0 <= i -> 0 <= n -> i + n <= zlen l -> read_at i n l = Ok (slice i n l).
Proof. intros. unfold read_at. by case_tests. Qed.

(** A splice is seen by the slice that covers exactly the spliced range. *)
Lemma slice_splice_same i xs l : 0 <= i -> i + zlen xs <= zlen l ->
  slice i (zlen xs) (splice i xs l) = xs.
Proof.
  unfold zlen. intros. apply list_eq. intros k. rewrite lookup_slice.
  case_decide as Hk.
  - rewrite lookup_splice by lia. rewrite decide_True by lia. f_equal. lia.
  - symmetry. apply lookup_ge_None. lia.
Qed.

(** ... and extends a slice that ends where the spliced range starts. *)
Lemma slice_splice_extend i j xs l : 0 <= i -> i <= j -> j + zlen xs <= zlen l ->
  slice i (j + zlen xs - i) (splice j xs l) = slice i (j - i) l ++ xs.
Proof.
  unfold zlen. intros. apply list_eq. intros k.
  assert (Hs : length (slice i (j - i) l) = Z.to_nat (j - i)).
  { unfold slice. rewrite length_take, length_drop. lia. }
  rewrite lookup_slice. case_decide as Hk.
  - rewrite lookup_splice by lia. case_decide as Hr.
    + rewrite lookup_app_r by lia. f_equal. lia.
    + rewrite lookup_app_l by lia. rewrite lookup_slice. by rewrite decide_True by lia.
  - symmetry. apply lookup_ge_None. rewrite length_app. lia.
Qed.

(** ... and prefixes a slice that starts where the spliced range ends. *)
Lemma slice_splice_prepend i j xs l : 0 <= i -> j = i + zlen xs -> j <= zlen l ->
  forall n, 0 <= n -> j + n <= zlen l ->
  slice i (zlen xs + n) (splice i xs l) = xs ++ slice j n l.
Proof.
  unfold zlen. intros Hi Hj Hl n Hn Hjn. apply list_eq. intros k.
  rewrite lookup_slice. case_decide as Hk.
  - rewrite lookup_splice by lia. case_decide as Hr.
    + rewrite lookup_app_l by lia. f_equal. lia.
    + rewrite lookup_app_r by lia. rewrite lookup_slice. rewrite decide_True by lia.
      f_equal. lia.
  - symmetry. apply lookup_ge_None. rewrite length_app. unfold slice.
    rewrite length_take, length_drop. lia.
Qed.

(** A slice that does not meet the spliced range is unchanged. *)
Lemma slice_splice_disjoint i n j xs l : 0 <= i -> 0 <= j -> j + zlen xs <= zlen l ->
  i + n <= j \/ j + zlen xs <= i -> slice i n (splice j xs l) = slice i n l.
Proof.
  unfold zlen. intros. apply list_eq. intros k. rewrite !lookup_slice.
  case_decide; [|done]. rewrite lookup_splice by lia. by rewrite decide_False by lia.
Qed.

Lemma slice_app_l i n l xs : 0 <= i -> i + n <= zlen l -> slice i n (l ++ xs) = slice i n l.
Proof.
  unfold zlen. intros. apply list_eq. intros k. rewrite !lookup_slice.
  case_decide; [|done]. by rewrite lookup_app_l by lia.
Qed.

Lemma drop_slice i n l (k : Z) : 0 <= i -> 0 <= k -> k <= n ->
  drop (Z.to_nat k) (slice i n l) = slice (i + k) (n - k) l.
Proof.
  intros. apply list_eq. intros m. rewrite lookup_drop, !lookup_slice.
  destruct (decide (Z.to_nat k + m < Z.to_nat n)%nat).
  - rewrite decide_True by lia. f_equal. lia.
  - by rewrite decide_False by lia.
Qed.

Lemma take_slice i n l (k : Z) : 0 <= k -> k <= n ->
  take (Z.to_nat k) (slice i n l) = slice i k l.
Proof. intros. unfold slice. rewrite take_take. f_equal. lia. Qed.

Lemma slice_full l : slice 0 (zlen l) l = l.
Proof. unfold slice, zlen. rewrite drop_0. apply take_ge. lia. Qed.

Lemma slice_zero i l : slice i 0 l = [].
Proof. done. Qed.

Lemma index_ok l i x : 0 <= i -> l !! Z.to_nat i = Some x -> index l i = Ok x.
Proof. intros Hi H. unfold index. rewrite H. by case_tests. Qed.
End Slices.

(** The Standard Library's filter respects permutations. *)
#[export] Instance filter_permutation {A} (p : A -> bool) :
  Proper ((≡ₚ) ==> (≡ₚ)) (List.filter p).
Proof.
  intros l l'. induction 1 as [|x l l' _ IH|x y l|l1 l2 l3 _ IH1 _ IH2]; cbn.
  - done.
  - destruct (p x); by rewrite IH.
  - destruct (p x), (p y); try done. apply Permutation_swap.
  - by rewrite IH1.
Qed.

Create HintDb mynet.
Create Rewrite HintDb mynet.
#[export] Hint Resolve zlen_nonneg Z_of_byte_range : mynet.
#[export] Hint Rewrite @zlen_app @zlen_cons @zlen_nil @zlen_replicate : mynet.
