(* ===== verification/CLib.v ===== *)
(** The parts of the C and C++ standard libraries that the sources use:
    decimal and hexadecimal conversion as printf performs it, snprintf's
    truncation, NUL-terminated strings, strchr/strrchr, std::string::find, atoi,
    and the lexicographic order of texts.

    These are definitions of library behaviour, not of the repository; they are
    the references that the repository's own routines are compared with. *)
From Stdlib Require Import ZArith Lia Ascii String.
From stdpp Require Import base list strings lexico.
From S2P Require Import Prelude.

#[local] Open Scope Z_scope.

(** ** Numbers *)

(** The character of the digit [d] (0..15). *)
Definition digit_char (d : Z) : ascii :=
  if d <? 10 then byte_of_Z (48 + d) else byte_of_Z (65 + d - 10).

(** Digits of [n] in base [base], most significant first. *)
Fixpoint digits_in (base : Z) (fuel : nat) (n : Z) (acc : bytes) : bytes :=
  match fuel with
  | O => acc
  | S f =>
      let acc := digit_char (n mod base) :: acc in
      if n / base =? 0 then acc else digits_in base f (n / base) acc
  end.

(** Enough steps for any base: the number of binary digits. *)
Definition num_fuel (n : Z) : nat := S (Z.to_nat (Z.log2 n)).

(** printf's %d (and PRId64), %u, and %X without leading zeros. *)
Definition dec_of_Z (z : Z) : bytes :=
  if z <? 0 then "-"%char :: digits_in 10 (num_fuel (- z)) (- z) []
  else digits_in 10 (num_fuel z) z [].
Definition hex_of_Z (z : Z) : bytes := digits_in 16 (num_fuel z) z [].

(** %<w>d and %0<w>d. *)
Definition pad_left (w : nat) (c : ascii) (s : bytes) : bytes := replicate (w - length s) c ++ s.
Definition fmt_wd (w : nat) (z : Z) : bytes := pad_left w " "%char (dec_of_Z z).
Definition fmt_0wd (w : nat) (z : Z) : bytes :=
  if z <? 0 then "-"%char :: pad_left (w - 1) "0"%char (dec_of_Z (- z))
  else pad_left w "0"%char (dec_of_Z z).

(** Value of a digit string, and the integer atoi reads from a string that
    starts with an optional minus sign and digits. *)
Definition digit_val (c : ascii) : option Z :=
  let z := Z_of_byte c in if (48 <=? z) && (z <=? 57) then Some (z - 48) else None.
Fixpoint atoi_digits (acc : Z) (s : bytes) : Z :=
  match s with
  | [] => acc
  | c :: t => match digit_val c with Some d => atoi_digits (10 * acc + d) t | None => acc end
  end.

(** isspace in the C locale: ' ', \t, \n, \v, \f and \r. *)
Definition isspace (c : ascii) : bool :=
  let z := Z_of_byte c in (z =? 32) || ((9 <=? z) && (z <=? 13)).
Fixpoint atoi (s : bytes) : Z :=
  match s with
  | [] => 0
  | c :: t =>
      if isspace c then atoi t
      else if Ascii.eqb c "-" then - atoi_digits 0 t
      else if Ascii.eqb c "+" then atoi_digits 0 t
      else atoi_digits 0 (c :: t)
  end.
Definition isdigit (c : ascii) : bool := match digit_val c with Some _ => true | None => false end.

(** ** Strings *)

(** snprintf(buf, size, ...) for the text [s]: the bytes stored, NUL included;
    its return value is the length of [s]. *)
Definition snprintf_stored (size : nat) (s : bytes) : bytes :=
  match size with O => [] | S k => take k s ++ [NUL] end.

(** The C string that starts a memory region; undefined when it has no NUL. *)
Fixpoint c_string (mem : bytes) : outcome bytes :=
  match mem with
  | [] => Fault Undefined
  | c :: t => if Ascii.eqb c NUL then Ok [] else s ← c_string t; Ok (c :: s)
  end.
Definition strlen (mem : bytes) : outcome Z := s ← c_string mem; Ok (zlen s).

(** Offset of the first, respectively last, [c] in a C string. *)
Fixpoint strchr (s : bytes) (c : ascii) : option nat :=
  match s with
  | [] => None
  | x :: t => if Ascii.eqb x c then Some O else S <$> strchr t c
  end.
Fixpoint strrchr (s : bytes) (c : ascii) : option nat :=
  match s with
  | [] => None
  | x :: t =>
      match strrchr t c with
      | Some k => Some (S k)
      | None => if Ascii.eqb x c then Some O else None
      end
  end.

(** std::string::find of a string: offset of its first occurrence. *)
Fixpoint find_sub (s pat : bytes) : option nat :=
  if decide (take (length pat) s = pat) then Some O
  else match s with [] => None | _ :: t => S <$> find_sub t pat end.

(** ** Lemmas *)

Lemma digit_char_val d : 0 <= d < 10 -> digit_val (digit_char d) = Some d.
Proof.
  intros H. unfold digit_char, digit_val.
  destruct (Z.ltb_spec d 10); [|lia]. rewrite Z_of_byte_of_Z, Z.mod_small by lia.
  case_tests. simpl. f_equal. lia.
Qed.

Section Digits.
Context (base : Z) (Hb : 2 <= base).

Lemma num_fuel_div n : base <= n -> (num_fuel (n / base) < num_fuel n)%nat.
Proof.
  intros H. unfold num_fuel.
  assert (H1 : 1 <= n / base) by (apply Z.div_le_lower_bound; lia).
  assert (n / base <= n / 2).
  { apply Z.div_le_compat_l; lia. }
  assert (n = 2 * (n / 2) + n mod 2) by (apply Z.div_mod; lia).
  pose proof (Z.mod_pos_bound n 2 ltac:(lia)).
  pose proof (Z.log2_le_mono (n / base) (n / 2) ltac:(lia)).
  pose proof (Z.log2_double (n / 2) ltac:(lia)).
  pose proof (Z.log2_le_mono (2 * (n / 2)) n ltac:(lia)).
  pose proof (Z.log2_nonneg (n / base)). lia.
Qed.

(** The accumulator is a suffix, and extra fuel changes nothing. *)
Lemma digits_in_acc fuel n acc : digits_in base fuel n acc = digits_in base fuel n [] ++ acc.
Proof.
  revert n acc. induction fuel as [|f IH]; intros n acc; simpl; [done|].
  destruct (n / base =? 0); [done|].
  rewrite IH, (IH _ [_]), <- app_assoc. done.
Qed.

Lemma digits_in_fuel f1 f2 n acc : 0 <= n -> (num_fuel n <= f1)%nat -> (num_fuel n <= f2)%nat ->
  digits_in base f1 n acc = digits_in base f2 n acc.
Proof.
  revert f2 n acc. induction f1 as [|f1 IH]; intros f2 n acc Hn H1 H2.
  { unfold num_fuel in H1. lia. }
  destruct f2 as [|f2]; [unfold num_fuel in H2; lia|]. simpl.
  destruct (Z.eqb_spec (n / base) 0) as [|Hz]; [done|].
  assert (base <= n).
  { destruct (Z.ltb_spec n base); [|done]. rewrite Z.div_small in Hz; lia. }
  pose proof (num_fuel_div n ltac:(done)).
  apply IH; [apply Z.div_pos; lia|lia|lia].
Qed.

(** One digit at a time. *)
Lemma digits_in_step n : 0 <= n ->
  digits_in base (num_fuel n) n [] =
    (if n / base =? 0 then [] else digits_in base (num_fuel (n / base)) (n / base) [])
    ++ [digit_char (n mod base)].
Proof.
  intros Hn. unfold num_fuel at 1. cbn [digits_in].
  destruct (Z.eqb_spec (n / base) 0) as [|Hz]; [done|].
  rewrite digits_in_acc. f_equal.
  assert (base <= n).
  { destruct (Z.ltb_spec n base); [|done]. rewrite Z.div_small in Hz; lia. }
  pose proof (num_fuel_div n ltac:(done)).
  apply digits_in_fuel; [apply Z.div_pos; lia|unfold num_fuel in *; lia|lia].
Qed.

Lemma length_digits_in k n : 0 <= n < base ^ Z.of_nat k -> (0 < k)%nat ->
  (0 < length (digits_in base (num_fuel n) n []) <= k)%nat.
Proof.
  revert n. induction k as [|k IH]; intros n Hn Hk; [lia|].
  rewrite digits_in_step, length_app by lia. cbn [length].
  destruct (Z.eqb_spec (n / base) 0) as [|Hz]; [simpl; lia|].
  assert (Hq : 0 <= n / base < base ^ Z.of_nat k).
  { split; [apply Z.div_pos; lia|]. apply Z.div_lt_upper_bound; [lia|].
    rewrite Nat2Z.inj_succ, Z.pow_succ_r in Hn; lia. }
  destruct k as [|k]; [simpl in Hq; lia|].
  specialize (IH (n / base) Hq). lia.
Qed.
End Digits.

Lemma atoi_digits_app acc s d : 0 <= d < 10 -> Forall (fun c => is_Some (digit_val c)) s ->
  atoi_digits acc (s ++ [digit_char d]) = 10 * atoi_digits acc s + d.
Proof.
  intros Hd Hs. revert acc. induction Hs as [|c s [v Hc] Hs IH]; intros acc; simpl.
  - by rewrite digit_char_val.
  - rewrite Hc. apply IH.
Qed.

Lemma dec_digits_ok k n : 0 <= n < 10 ^ Z.of_nat k ->
  let s := digits_in 10 (num_fuel n) n [] in
  Forall (fun c => is_Some (digit_val c)) s /\ atoi_digits 0 s = n.
Proof.
  revert n. induction k as [|k IH]; intros n Hn; cbv zeta;
    rewrite digits_in_step by lia; pose proof (Z.mod_pos_bound n 10 ltac:(lia)).
  - simpl in Hn. assert (n = 0) as -> by lia. simpl. split; [|done].
    apply Forall_singleton. eauto.
  - pose proof (Z.div_mod n 10 ltac:(lia)).
    destruct (Z.eqb_spec (n / 10) 0) as [Hz|Hz].
    + simpl. rewrite digit_char_val by lia. split; [apply Forall_singleton; rewrite digit_char_val; eauto|].
      lia.
    + assert (Hq : 0 <= n / 10 < 10 ^ Z.of_nat k).
      { split; [apply Z.div_pos; lia|]. apply Z.div_lt_upper_bound; [lia|].
        rewrite Nat2Z.inj_succ, Z.pow_succ_r in Hn; lia. }
      destruct (IH _ Hq) as [Hf Hv]. split.
      * apply Forall_app. split; [done|]. apply Forall_singleton.
        rewrite digit_char_val by lia. eauto.
      * rewrite atoi_digits_app by done. rewrite Hv. lia.
Qed.

Lemma digits_pow n : 0 <= n -> exists k, 0 <= n < 10 ^ Z.of_nat k.
Proof.
  intros H. exists (Z.to_nat n). rewrite Z2Nat.id by done. split; [done|].
  apply Z.pow_gt_lin_r; lia.
Qed.

(** A digit string starts with neither a space nor a sign. *)
Lemma digit_not_special c : is_Some (digit_val c) ->
  isspace c = false /\ Ascii.eqb c "-" = false /\ Ascii.eqb c "+" = false.
Proof.
  unfold digit_val, isspace. intros [d Hd]. case_match eqn:E; [|done]. zbool.
  split; [case_tests; done|].
  split; apply Ascii.eqb_neq; intros ->; vm_compute in *; congruence.
Qed.

(** atoi reads back what printf's %d prints. *)
Lemma atoi_dec_of_Z z : atoi (dec_of_Z z) = z.
Proof.
  unfold dec_of_Z. destruct (Z.ltb_spec z 0) as [Hz|Hz].
  - destruct (digits_pow (- z) ltac:(lia)) as [k Hk].
    destruct (dec_digits_ok k (- z) Hk) as [_ Hv]. revert Hv.
    generalize (digits_in 10 (num_fuel (- z)) (- z) []). intros s Hv. simpl. lia.
  - destruct (digits_pow z ltac:(lia)) as [k Hk].
    destruct (dec_digits_ok k z Hk) as [Hf Hv].
    destruct (digits_in 10 (num_fuel z) z []) as [|c t] eqn:E; [done|].
    apply Forall_cons in Hf as [Hc _]. destruct (digit_not_special c Hc) as (H1 & H2 & H3).
    simpl atoi. rewrite H1, H2, H3. done.
Qed.

Lemma length_dec_of_Z k z : - 10 ^ Z.of_nat k < z < 10 ^ Z.of_nat k -> (0 < k)%nat ->
  (0 < length (dec_of_Z z) <= S k)%nat.
Proof.
  intros H Hk. unfold dec_of_Z. destruct (Z.ltb_spec z 0).
  - pose proof (length_digits_in 10 ltac:(lia) k (- z) ltac:(lia) Hk). cbn [length]. lia.
  - pose proof (length_digits_in 10 ltac:(lia) k z ltac:(lia) Hk). lia.
Qed.

Lemma c_string_app s t : NUL ∉ s -> c_string (s ++ NUL :: t) = Ok s.
Proof.
  induction s as [|c s IH]; intros H; simpl; [done|].
  rewrite not_elem_of_cons in H. destruct H as [H1 H2].
  destruct (Ascii.eqb_spec c NUL) as [->|_]; [done|]. by rewrite IH.
Qed.

Lemma snprintf_fits size s : zlen s < Z.of_nat size -> snprintf_stored size s = s ++ [NUL].
Proof.
  unfold zlen, snprintf_stored. destruct size as [|k]; [lia|]. intros H.
  by rewrite take_ge by lia.
Qed.

(** *** Fields of fixed width *)

(** A text of decimal digits whose value is [z]. *)
Definition digits_of (z : Z) (s : bytes) : Prop :=
  Forall (fun c => is_Some (digit_val c)) s /\ atoi_digits 0 s = z.

Lemma dec_of_Z_digits z : 0 <= z -> digits_of z (dec_of_Z z).
Proof.
  intros Hz. unfold dec_of_Z. destruct (Z.ltb_spec z 0); [lia|].
  destruct (digits_pow z Hz) as [k Hk]. exact (dec_digits_ok k z Hk).
Qed.

Lemma digits_of_pad n z s : digits_of z s -> digits_of z (replicate n "0"%char ++ s).
Proof.
  intros [Hf Hv]. split.
  - apply Forall_app. split; [|done]. apply Forall_replicate. by exists 0.
  - by induction n.
Qed.

(** A field of %0<w>d that fits its width has exactly this width and is read
    back by atoi. *)
Lemma fmt_0wd_field w z : 0 <= z < 10 ^ Z.of_nat w -> (0 < w)%nat ->
  length (fmt_0wd w z) = w /\ digits_of z (fmt_0wd w z).
Proof.
  intros Hz Hw. unfold fmt_0wd. destruct (Z.ltb_spec z 0); [lia|]. unfold pad_left.
  assert (Hl : (0 < length (dec_of_Z z) <= w)%nat).
  { unfold dec_of_Z. destruct (Z.ltb_spec z 0); [lia|]. by apply length_digits_in. }
  split; [rewrite length_app, length_replicate; lia|].
  apply digits_of_pad, dec_of_Z_digits. lia.
Qed.

Lemma atoi_digits_of z s : s <> [] -> digits_of z s -> atoi s = z.
Proof.
  intros Hs [Hf Hv]. destruct s as [|c t]; [done|].
  apply Forall_cons in Hf as [Hc _]. destruct (digit_not_special c Hc) as (H1 & H2 & H3).
  simpl atoi. by rewrite H1, H2, H3.
Qed.

Lemma atoi_fmt_0wd w z : 0 <= z < 10 ^ Z.of_nat w -> (0 < w)%nat -> atoi (fmt_0wd w z) = z.
Proof.
  intros Hz Hw. destruct (fmt_0wd_field w z Hz Hw) as [Hl Hd].
  apply atoi_digits_of; [|done]. intros Hn. rewrite Hn in Hl. simpl in Hl. lia.
Qed.

(** The value of a text of digits lies between those of nines and zeros. *)
Lemma atoi_digits_bounds (s : bytes) acc : 0 <= acc -> Forall (fun c => is_Some (digit_val c)) s ->
  acc * 10 ^ Z.of_nat (length s) <= atoi_digits acc s < (acc + 1) * 10 ^ Z.of_nat (length s).
Proof.
  revert acc. induction s as [|c s IH]; intros acc Ha Hs; cbn [atoi_digits length]; [simpl; lia|].
  apply Forall_cons in Hs as [[d Hd] Hs]. rewrite Hd.
  assert (0 <= d <= 9) by (unfold digit_val in Hd; case_match; [|done]; zbool; simplify_eq; lia).
  specialize (IH (10 * acc + d) ltac:(lia) Hs).
  rewrite Nat2Z.inj_succ, Z.pow_succ_r by lia. nia.
Qed.

(** %<w>d and %0<w>d agree on numbers of at least [w] digits. *)
Lemma fmt_wd_0wd w z : 10 ^ Z.of_nat w <= z -> fmt_wd (S w) z = fmt_0wd (S w) z.
Proof.
  intros Hz. assert (0 <= z) by lia. unfold fmt_wd, fmt_0wd, pad_left.
  destruct (Z.ltb_spec z 0); [lia|].
  assert (Hl : (S w <= length (dec_of_Z z))%nat).
  { destruct (Nat.lt_ge_cases (length (dec_of_Z z)) (S w)) as [Hl|]; [|done]. exfalso.
    destruct (dec_of_Z_digits z) as [Hf Hv]; [done|].
    destruct (atoi_digits_bounds _ 0 ltac:(lia) Hf) as [_ Hb]. rewrite Hv in Hb.
    pose proof (Z.pow_le_mono_r 10 (Z.of_nat (length (dec_of_Z z))) (Z.of_nat w)). lia. }
  by replace (S w - length (dec_of_Z z))%nat with 0%nat by lia.
Qed.

Lemma digit_not_char z s c : digits_of z s -> digit_val c = None -> c ∉ s.
Proof.
  intros [Hf _] Hc Hin. rewrite Forall_forall in Hf. destruct (Hf c Hin) as [d Hd]. congruence.
Qed.

(** Literals have no NUL, by computation. *)
Lemma nul_notin (l : bytes) : bool_decide (NUL ∉ l) = true -> NUL ∉ l.
Proof. apply bool_decide_eq_true. Qed.

(** The digits, spaces and punctuation of the texts are no NULs. *)
Lemma nul_free_digits z s : digits_of z s -> NUL ∉ s.
Proof. intros H. by apply (digit_not_char z). Qed.

(** *** The order of texts *)

(** Bytes are ordered as unsigned numbers, texts lexicographically: the order of
    strcmp and of std::string's operator<, in which a directory is listed in
    the C locale. *)
#[export] Instance byte_lexico : Lexico ascii := fun a b => Z_of_byte a < Z_of_byte b.

#[export] Instance byte_lexico_po : StrictOrder (@lexico ascii _).
Proof. split; [intros a H; unfold lexico, byte_lexico in H; lia|]. intros a b c; unfold lexico, byte_lexico; lia. Qed.

Lemma lexico_cons (c d : ascii) (s t : bytes) :
  lexico (c :: s) (d :: t) <-> Z_of_byte c < Z_of_byte d \/ c = d /\ lexico s t.
Proof. done. Qed.

Lemma lexico_app (p s t : bytes) : lexico s t -> lexico (p ++ s) (p ++ t).
Proof. intros H. induction p as [|c p IH]; [done|]. cbn [app]. rewrite lexico_cons. by right. Qed.

(** A text comes before its extensions. *)
Lemma lexico_prefix (p s : bytes) : s <> [] -> lexico p (p ++ s).
Proof. intros Hs. rewrite <- (app_nil_r p) at 1. apply lexico_app. by destruct s. Qed.

Lemma digit_val_order c d x y : digit_val c = Some x -> digit_val d = Some y ->
  (x < y -> Z_of_byte c < Z_of_byte d) /\ (x = y -> c = d).
Proof.
  unfold digit_val. intros Hc Hd. repeat case_match; simplify_eq. split; [lia|].
  intros E. rewrite <- (byte_of_Z_of_byte c), <- (byte_of_Z_of_byte d). f_equal. lia.
Qed.

Lemma digits_lexico (s t a b : bytes) acc : 0 <= acc -> length s = length t ->
  Forall (fun c => is_Some (digit_val c)) s -> Forall (fun c => is_Some (digit_val c)) t ->
  atoi_digits acc s < atoi_digits acc t -> lexico (s ++ a) (t ++ b).
Proof.
  revert t acc. induction s as [|c s IH]; intros [|d t] acc Ha Hl Hs Ht Hlt; try done; [simpl in Hlt; lia|].
  apply Forall_cons in Hs as [[x Hx] Hs]. apply Forall_cons in Ht as [[y Hy] Ht].
  cbn [atoi_digits] in Hlt. rewrite Hx, Hy in Hlt. injection Hl as Hl.
  destruct (digit_val_order c d x y Hx Hy) as [H1 H2].
  assert (0 <= x /\ 0 <= y) by (unfold digit_val in Hx, Hy; repeat case_match; zbool; simplify_eq; lia).
  cbn [app]. rewrite lexico_cons. destruct (Z.lt_trichotomy x y) as [?|[->|Hgt]]; [by left; apply H1| |].
  - right. split; [by apply H2|]. by apply (IH t (10 * acc + y)); [lia|..].
  - exfalso. pose proof (atoi_digits_bounds s (10 * acc + x) ltac:(lia) Hs).
    pose proof (atoi_digits_bounds t (10 * acc + y) ltac:(lia) Ht). rewrite <- Hl in *.
    pose proof (Z.pow_pos_nonneg 10 (Z.of_nat (length s)) ltac:(lia) ltac:(lia)). nia.
Qed.

(** Fields of the same width are ordered as their numbers. *)
Lemma fmt_0wd_lexico w x y (a b : bytes) : (0 < w)%nat ->
  0 <= x < 10 ^ Z.of_nat w -> 0 <= y < 10 ^ Z.of_nat w -> x < y \/ x = y /\ lexico a b ->
  lexico (fmt_0wd w x ++ a) (fmt_0wd w y ++ b).
Proof.
  intros Hw Hx Hy [Hlt|[-> Hab]]; [|by apply lexico_app].
  destruct (fmt_0wd_field w x Hx Hw) as (Lx & Fx & Vx), (fmt_0wd_field w y Hy Hw) as (Ly & Fy & Vy).
  apply (digits_lexico _ _ _ _ 0); [done|congruence|done|done|lia].
Qed.
