(* ===== verification/Endian.v ===== *)
(** Host and network byte order: net/Endian.h.

    [le_split]/[le_combine] give the bytes of an unsigned integer, [mem_of] the
    bytes it occupies in the memory of the host, whose order is a parameter
    (class [Host]).  [htobe] is the behaviour of htobe16/32/64 and be16/32/64toh
    of <endian.h>, from which the six functions of Endian.h are built. *)
From Stdlib Require Import ZArith Lia Ascii String.
From stdpp Require Import base list strings.
From S2P Require Import Prelude.

#[local] Open Scope Z_scope.

Inductive endianness := LittleEndian | BigEndian.
Class Host := host_order : endianness.

(** The [n] low-order bytes of [z], least significant first. *)
Fixpoint le_split (n : nat) (z : Z) : bytes :=
  match n with
  | O => []
  | S m => byte_of_Z z :: le_split m (z / 256)
  end.

Fixpoint le_combine (l : bytes) : Z :=
  match l with
  | [] => 0
  | b :: t => Z_of_byte b + 256 * le_combine t
  end.

Definition bswap (n : nat) (x : Z) : Z := le_combine (rev (le_split n x)).

Section Order.
Context {host : Host}.

(** Bytes of an [n]-byte object holding [x], and the value such bytes denote. *)
Definition mem_of (n : nat) (x : Z) : bytes :=
  match host_order with LittleEndian => le_split n x | BigEndian => rev (le_split n x) end.
Definition of_mem (l : bytes) : Z :=
  match host_order with LittleEndian => le_combine l | BigEndian => le_combine (rev l) end.

(** htobe16/32/64 and be16/32/64toh: a byte swap on a little-endian host. *)
Definition htobe (n : nat) (x : Z) : Z :=
  match host_order with LittleEndian => bswap n x | BigEndian => wrapU (8 * Z.of_nat n) x end.

Definition hostToNetwork64 (host64 : Z) : Z := htobe 8 host64.
Definition hostToNetwork32 (host32 : Z) : Z := htobe 4 host32.
Definition hostToNetwork16 (host16 : Z) : Z := htobe 2 host16.
Definition networkToHost64 (network64 : Z) : Z := htobe 8 network64.
Definition networkToHost32 (network32 : Z) : Z := htobe 4 network32.
Definition networkToHost16 (network16 : Z) : Z := htobe 2 network16.
End Order.

(** The [n] bytes of [x] in network order, most significant first. *)
Definition be_bytes (n : nat) (x : Z) : bytes := rev (le_split n x).

(** ** Lemmas *)

Lemma pow256 (n : nat) : 2 ^ (8 * Z.of_nat (S n)) = 256 * 2 ^ (8 * Z.of_nat n).
Proof.
  replace (8 * Z.of_nat (S n)) with (8 + 8 * Z.of_nat n) by lia.
  by rewrite Z.pow_add_r by lia.
Qed.

Lemma length_le_split n z : length (le_split n z) = n.
Proof. revert z; induction n; intros z; simpl; [done|]. by rewrite IHn. Qed.

Lemma le_combine_split n z : le_combine (le_split n z) = wrapU (8 * Z.of_nat n) z.
Proof.
  revert z; induction n as [|n IH]; intros z.
  - simpl. unfold wrapU. by rewrite Z.mod_1_r.
  - cbn [le_split le_combine]. rewrite IH, Z_of_byte_of_Z. unfold wrapU.
    rewrite pow256. rewrite Z.rem_mul_r by lia. lia.
Qed.

Lemma le_combine_range l : 0 <= le_combine l < 2 ^ (8 * zlen l).
Proof.
  unfold zlen. induction l as [|b l IH]; [simpl; lia|].
  cbn [le_combine length]. rewrite pow256.
  pose proof (Z_of_byte_range b). lia.
Qed.

Lemma le_split_combine l : le_split (length l) (le_combine l) = l.
Proof.
  induction l as [|b l IH]; [done|]. cbn [le_combine length le_split].
  pose proof (Z_of_byte_range b).
  f_equal.
  - rewrite <- (byte_of_Z_of_byte b) at 2. unfold byte_of_Z. do 2 f_equal.
    rewrite (Z.mul_comm 256), Z.mod_add by lia. done.
  - rewrite (Z.mul_comm 256), Z.div_add by lia. rewrite Z.div_small by lia. done.
Qed.

Lemma le_split_wrapU n z : le_split n (wrapU (8 * Z.of_nat n) z) = le_split n z.
Proof.
  rewrite <- le_combine_split. rewrite <- (length_le_split n z) at 1.
  apply le_split_combine.
Qed.

Lemma le_split_bswap n x : le_split n (bswap n x) = rev (le_split n x).
Proof.
  unfold bswap. rewrite <- (le_split_combine (rev (le_split n x))) at 2.
  by rewrite length_rev, length_le_split.
Qed.

Section OrderLemmas.
Context {host : Host}.

Lemma length_mem_of n x : length (mem_of n x) = n.
Proof. unfold mem_of. destruct host_order; rewrite ?length_rev; apply length_le_split. Qed.

Lemma zlen_mem_of n x : zlen (mem_of n x) = Z.of_nat n.
Proof. unfold zlen. by rewrite length_mem_of. Qed.

Lemma of_mem_mem_of n x : of_mem (mem_of n x) = wrapU (8 * Z.of_nat n) x.
Proof.
  unfold of_mem, mem_of. destruct host_order; rewrite ?rev_involutive; apply le_combine_split.
Qed.

Lemma mem_of_of_mem l : mem_of (length l) (of_mem l) = l.
Proof.
  unfold mem_of, of_mem. destruct host_order; [apply le_split_combine|].
  rewrite <- (length_rev l), le_split_combine. apply rev_involutive.
Qed.

Lemma mem_of_wrapU n x : mem_of n (wrapU (8 * Z.of_nat n) x) = mem_of n x.
Proof. unfold mem_of. by rewrite le_split_wrapU. Qed.

Lemma htobe_range n x : 0 <= htobe n x < 2 ^ (8 * Z.of_nat n).
Proof.
  unfold htobe, bswap. destruct host_order; [|apply wrapU_range; lia].
  pose proof (le_combine_range (rev (le_split n x))) as H.
  unfold zlen in H. by rewrite length_rev, length_le_split in H.
Qed.

(** On any host the bytes of the converted integer are most significant first. *)
Lemma mem_of_htobe n x : mem_of n (htobe n x) = rev (le_split n x).
Proof.
  unfold mem_of, htobe. destruct host_order; [apply le_split_bswap|].
  by rewrite le_split_wrapU.
Qed.

Lemma htobe_involutive n x : htobe n (htobe n x) = wrapU (8 * Z.of_nat n) x.
Proof.
  unfold htobe. destruct host_order.
  - unfold bswap at 1. rewrite le_split_bswap, rev_involutive. apply le_combine_split.
  - unfold wrapU. by rewrite Z.mod_mod by lia.
Qed.

(** What the append and prepend functions put in the buffer for an [n]-byte
    signed integer is its network-order encoding, on either kind of host. *)
Lemma encode_int n x : (0 < n)%nat ->
  mem_of n (wrapS (8 * Z.of_nat n) (htobe n (wrapU (8 * Z.of_nat n) x))) = be_bytes n x.
Proof.
  intros Hn. rewrite <- mem_of_wrapU, wrapU_wrapS, mem_of_wrapU, mem_of_htobe by lia.
  by rewrite le_split_wrapU.
Qed.

(** What the peek functions compute from such an encoding is the integer. *)
Lemma decode_int n x : (0 < n)%nat ->
  wrapS (8 * Z.of_nat n) (htobe n (wrapU (8 * Z.of_nat n)
    (wrapS (8 * Z.of_nat n) (of_mem (be_bytes n x))))) = wrapS (8 * Z.of_nat n) x.
Proof.
  intros Hn. unfold be_bytes. rewrite <- mem_of_htobe, of_mem_mem_of.
  rewrite wrapU_wrapS by lia. rewrite !(wrapU_small _ (htobe _ _)) by apply htobe_range.
  by rewrite htobe_involutive, wrapS_wrapU by lia.
Qed.

Lemma length_be_bytes n x : length (be_bytes n x) = n.
Proof. unfold be_bytes. by rewrite length_rev, length_le_split. Qed.

Lemma zlen_be_bytes n x : zlen (be_bytes n x) = Z.of_nat n.
Proof. unfold zlen. by rewrite length_be_bytes. Qed.
End OrderLemmas.

#[export] Hint Rewrite @zlen_mem_of @length_mem_of length_le_split : mynet.
