(* ===== verification/NetBuffer.v ===== *)
(** The network buffer: net/Buffer.h and net/Buffer.cc.

    A [Buffer] is the vector with its two indices (declared readerIndex and
    writerIndex, used as readerIndex_ and writerIndex_).  size_t arithmetic
    wraps at 64 bits, every assert of the source is an [assert_], and memory is
    accessed through [blit] and [read_at], which fault out of bounds.  Pointers
    into the buffer are offsets from begin().

    [content] is the abstract value of a buffer: the byte queue between the
    indices.  The lemmas show that each operation keeps [wf] and acts on
    [content] as the queue operation of the same name. *)
From Stdlib Require Import ZArith Lia Ascii String.
From stdpp Require Import base list strings.
From S2P Require Import Prelude.
From S2P Require Import Endian.

#[local] Open Scope Z_scope.

Definition kCheapPrepend : Z := 8.
Definition kInitialSize : Z := 1024.
Definition kCRLF : bytes := ["013"%char; "010"%char].

Record Buffer := mkBuffer {
  buffer_ : bytes;
  readerIndex_ : Z;
  writerIndex_ : Z
}.

(** std::vector<char>::max_size() on a 64-bit platform. *)
Definition vector_max : Z := 2 ^ 63 - 1.

(** std::vector<char>(n) and vector::resize(n), value-initialised. *)
Definition vector_new (n : Z) : outcome bytes :=
  if vector_max <? n then Fault LengthError else Ok (replicate (Z.to_nat n) NUL).
Definition vector_resize (n : Z) (v : bytes) : outcome bytes :=
  if vector_max <? n then Fault LengthError
  else if n <=? zlen v then Ok (take (Z.to_nat n) v)
  else Ok (v ++ replicate (Z.to_nat (n - zlen v)) NUL).

(** std::copy(first, last, d_first) inside one object, element by element in
    increasing order, so that overlapping ranges are covered. *)
Fixpoint std_copy (count : nat) (src dst : Z) (mem : bytes) : outcome bytes :=
  match count with
  | O => Ok mem
  | S k =>
      c ← index mem src;
      mem ← blit dst [c] mem;
      std_copy k (src + 1) (dst + 1) mem
  end.

(** std::search: offset of the first occurrence of [needle], or the length. *)
Fixpoint std_search (hay needle : bytes) : nat :=
  if decide (take (length needle) hay = needle) then O
  else match hay with [] => O | _ :: t => S (std_search t needle) end.

(** memchr: offset of the first [c]. *)
Fixpoint memchr (hay : bytes) (c : ascii) : option nat :=
  match hay with
  | [] => None
  | x :: t => if Ascii.eqb x c then Some O else S <$> memchr t c
  end.

Definition readableBytes (b : Buffer) : Z := wrapU 64 (writerIndex_ b - readerIndex_ b).
Definition writableBytes (b : Buffer) : Z := wrapU 64 (zlen (buffer_ b) - writerIndex_ b).
Definition prependableBytes (b : Buffer) : Z := readerIndex_ b.
Definition peek (b : Buffer) : Z := readerIndex_ b.
Definition beginWrite (b : Buffer) : Z := writerIndex_ b.

Definition Buffer_new (initialSize : Z) : outcome Buffer :=
  v ← vector_new (wrapU 64 (kCheapPrepend + initialSize));
  let b := mkBuffer v kCheapPrepend kCheapPrepend in
  _ ← assert_ (readableBytes b =? 0);
  _ ← assert_ (writableBytes b =? initialSize);
  _ ← assert_ (prependableBytes b =? kCheapPrepend);
  Ok b.

(** swap(rhs): the new values of *this and rhs. *)
Definition swap (b rhs : Buffer) : Buffer * Buffer :=
  (mkBuffer (buffer_ rhs) (readerIndex_ rhs) (writerIndex_ rhs),
   mkBuffer (buffer_ b) (readerIndex_ b) (writerIndex_ b)).

(** findCRLF(start): None is the NULL pointer. *)
Definition findCRLF_from (start : Z) (b : Buffer) : outcome (option Z) :=
  _ ← assert_ (peek b <=? start);
  _ ← assert_ (start <=? beginWrite b);
  r ← read_at start (beginWrite b - start) (buffer_ b);
  let crlf := start + Z.of_nat (std_search r kCRLF) in
  Ok (if crlf =? beginWrite b then None else Some crlf).

Definition findCRLF (b : Buffer) : outcome (option Z) :=
  r ← read_at (peek b) (beginWrite b - peek b) (buffer_ b);
  let crlf := peek b + Z.of_nat (std_search r kCRLF) in
  Ok (if crlf =? beginWrite b then None else Some crlf).

Definition findEOL (start : Z) (b : Buffer) : outcome (option Z) :=
  _ ← assert_ (peek b <=? start);
  _ ← assert_ (start <=? beginWrite b);
  r ← read_at start (beginWrite b - start) (buffer_ b);
  Ok ((fun k => start + Z.of_nat k) <$> memchr r "010"%char).

Definition retrieveAll (b : Buffer) : Buffer :=
  mkBuffer (buffer_ b) kCheapPrepend kCheapPrepend.

Definition retrieve (len : Z) (b : Buffer) : outcome Buffer :=
  _ ← assert_ (len <=? readableBytes b);
  if len <? readableBytes b
  then Ok (mkBuffer (buffer_ b) (wrapU 64 (readerIndex_ b + len)) (writerIndex_ b))
  else Ok (retrieveAll b).

Definition retrieveUntil (end_ : Z) (b : Buffer) : outcome Buffer :=
  _ ← assert_ (peek b <=? end_);
  _ ← assert_ (end_ <=? beginWrite b);
  retrieve (wrapU 64 (end_ - peek b)) b.

Definition retrieveInt64 (b : Buffer) : outcome Buffer := retrieve 8 b.
Definition retrieveInt32 (b : Buffer) : outcome Buffer := retrieve 4 b.
Definition retrieveInt16 (b : Buffer) : outcome Buffer := retrieve 2 b.
Definition retrieveInt8 (b : Buffer) : outcome Buffer := retrieve 1 b.

Definition retrieveAsString (len : Z) (b : Buffer) : outcome (bytes * Buffer) :=
  _ ← assert_ (len <=? readableBytes b);
  result ← read_at (peek b) len (buffer_ b);
  b' ← retrieve len b;
  Ok (result, b').

Definition retrieveAllAsString (b : Buffer) : outcome (bytes * Buffer) :=
  retrieveAsString (readableBytes b) b.

Definition makeSpace (len : Z) (b : Buffer) : outcome Buffer :=
  if wrapU 64 (writableBytes b + prependableBytes b) <? wrapU 64 (len + kCheapPrepend)
  then
    v ← vector_resize (wrapU 64 (writerIndex_ b + len)) (buffer_ b);
    Ok (mkBuffer v (readerIndex_ b) (writerIndex_ b))
  else
    _ ← assert_ (kCheapPrepend <? readerIndex_ b);
    let readable := readableBytes b in
    v ← std_copy (Z.to_nat (writerIndex_ b - readerIndex_ b)) (readerIndex_ b)
          kCheapPrepend (buffer_ b);
    let b' := mkBuffer v kCheapPrepend (wrapU 64 (kCheapPrepend + readable)) in
    _ ← assert_ (readable =? readableBytes b');
    Ok b'.

Definition ensureWritableBytes (len : Z) (b : Buffer) : outcome Buffer :=
  b ← (if writableBytes b <? len then makeSpace len b else Ok b);
  _ ← assert_ (len <=? writableBytes b);
  Ok b.

Definition hasWritten (len : Z) (b : Buffer) : outcome Buffer :=
  _ ← assert_ (len <=? writableBytes b);
  Ok (mkBuffer (buffer_ b) (readerIndex_ b) (wrapU 64 (writerIndex_ b + len))).

Definition unwrite (len : Z) (b : Buffer) : outcome Buffer :=
  _ ← assert_ (len <=? readableBytes b);
  Ok (mkBuffer (buffer_ b) (readerIndex_ b) (wrapU 64 (writerIndex_ b - len))).

(** append(data, len), [data] being the len bytes at the source pointer. *)
Definition append (data : bytes) (b : Buffer) : outcome Buffer :=
  b ← ensureWritableBytes (zlen data) b;
  v ← blit (beginWrite b) data (buffer_ b);
  hasWritten (zlen data) (mkBuffer v (readerIndex_ b) (writerIndex_ b)).

Definition prepend (data : bytes) (b : Buffer) : outcome Buffer :=
  _ ← assert_ (zlen data <=? prependableBytes b);
  let r := wrapU 64 (readerIndex_ b - zlen data) in
  v ← blit r data (buffer_ b);
  Ok (mkBuffer v r (writerIndex_ b)).

Section Integers.
Context {host : Host}.

Definition appendInt64 (x : Z) (b : Buffer) : outcome Buffer :=
  let be64 := wrapS 64 (hostToNetwork64 (wrapU 64 x)) in append (mem_of 8 be64) b.
Definition appendInt32 (x : Z) (b : Buffer) : outcome Buffer :=
  let be32 := wrapS 32 (hostToNetwork32 (wrapU 32 x)) in append (mem_of 4 be32) b.
Definition appendInt16 (x : Z) (b : Buffer) : outcome Buffer :=
  let be16 := wrapS 16 (hostToNetwork16 (wrapU 16 x)) in append (mem_of 2 be16) b.
Definition appendInt8 (x : Z) (b : Buffer) : outcome Buffer := append (mem_of 1 x) b.

Definition peekInt64 (b : Buffer) : outcome Z :=
  _ ← assert_ (8 <=? readableBytes b);
  m ← read_at (peek b) 8 (buffer_ b);
  let be64 := wrapS 64 (of_mem m) in
  Ok (wrapS 64 (networkToHost64 (wrapU 64 be64))).
Definition peekInt32 (b : Buffer) : outcome Z :=
  _ ← assert_ (4 <=? readableBytes b);
  m ← read_at (peek b) 4 (buffer_ b);
  let be32 := wrapS 32 (of_mem m) in
  Ok (wrapS 32 (networkToHost32 (wrapU 32 be32))).
Definition peekInt16 (b : Buffer) : outcome Z :=
  _ ← assert_ (2 <=? readableBytes b);
  m ← read_at (peek b) 2 (buffer_ b);
  let be16 := wrapS 16 (of_mem m) in
  Ok (wrapS 16 (networkToHost16 (wrapU 16 be16))).
Definition peekInt8 (b : Buffer) : outcome Z :=
  _ ← assert_ (1 <=? readableBytes b);
  m ← read_at (peek b) 1 (buffer_ b);
  Ok (wrapS 8 (of_mem m)).

Definition readInt64 (b : Buffer) : outcome (Z * Buffer) :=
  result ← peekInt64 b; b ← retrieveInt64 b; Ok (result, b).
Definition readInt32 (b : Buffer) : outcome (Z * Buffer) :=
  result ← peekInt32 b; b ← retrieveInt32 b; Ok (result, b).
Definition readInt16 (b : Buffer) : outcome (Z * Buffer) :=
  result ← peekInt16 b; b ← retrieveInt16 b; Ok (result, b).
Definition readInt8 (b : Buffer) : outcome (Z * Buffer) :=
  result ← peekInt8 b; b ← retrieveInt8 b; Ok (result, b).

Definition prependInt64 (x : Z) (b : Buffer) : outcome Buffer :=
  let be64 := wrapS 64 (hostToNetwork64 (wrapU 64 x)) in prepend (mem_of 8 be64) b.
Definition prependInt32 (x : Z) (b : Buffer) : outcome Buffer :=
  let be32 := wrapS 32 (hostToNetwork32 (wrapU 32 x)) in prepend (mem_of 4 be32) b.
Definition prependInt16 (x : Z) (b : Buffer) : outcome Buffer :=
  let be16 := wrapS 16 (hostToNetwork16 (wrapU 16 x)) in prepend (mem_of 2 be16) b.
Definition prependInt8 (x : Z) (b : Buffer) : outcome Buffer := prepend (mem_of 1 x) b.
End Integers.

(** shrink(reserve); toStringPiece and the append of its result are not
    declared in the source: the bytes it yields are a parameter. *)
Section Shrink.
Variable toStringPiece : Buffer -> bytes.

Definition shrink (reserve : Z) (b : Buffer) : outcome Buffer :=
  other ← Buffer_new kInitialSize;
  other ← ensureWritableBytes (wrapU 64 (readableBytes b + reserve)) other;
  other ← append (toStringPiece b) other;
  Ok (fst (swap b other)).
End Shrink.

(** readFd: [readv fd lens] is the answer of readv(2) for buffers of the given
    lengths: an errno, or the bytes transferred. *)
Inductive io_result := IoErr (errno : Z) | IoData (d : bytes).

Definition sizeof_extrabuf : Z := 65536.

Section ReadFd.
Variable readv : Z -> list Z -> io_result.

(** Result of the call, the value stored in *savedErrno if any, the buffer. *)
Definition readFd (fd : Z) (b : Buffer) : outcome (Z * option Z * Buffer) :=
  let writable := writableBytes b in
  let iovcnt := if writable <? sizeof_extrabuf then 2%nat else 1%nat in
  match readv fd (take iovcnt [writable; sizeof_extrabuf]) with
  | IoErr errno => Ok (-1, Some errno, b)
  | IoData d =>
      let n := zlen d in
      let extrabuf := drop (Z.to_nat writable) d in
      v ← blit (beginWrite b) (take (Z.to_nat writable) d) (buffer_ b);
      if n <=? writable
      then Ok (n, None, mkBuffer v (readerIndex_ b) (wrapU 64 (writerIndex_ b + n)))
      else
        b' ← append (take (Z.to_nat (n - writable)) extrabuf)
               (mkBuffer v (readerIndex_ b) (zlen v));
        Ok (n, None, b')
  end.

(** What readv(2) documents: it transfers at most the bytes there is room for. *)
Definition readv_bounded : Prop := forall fd lens d,
  Forall (fun len => 0 <= len) lens -> readv fd lens = IoData d ->
  zlen d <= foldr Z.add 0 lens.
End ReadFd.

(** A kernel with the bytes [avail] queued on every descriptor. *)
Definition kernel (avail : bytes) (fd : Z) (lens : list Z) : io_result :=
  IoData (take (Z.to_nat (foldr Z.add 0 lens)) avail).

(** ** Abstract value and invariant *)

Definition wf (b : Buffer) : Prop :=
  0 <= readerIndex_ b /\ readerIndex_ b <= writerIndex_ b /\
  writerIndex_ b <= zlen (buffer_ b) /\ kCheapPrepend <= zlen (buffer_ b) /\
  zlen (buffer_ b) <= vector_max.

Definition content (b : Buffer) : bytes :=
  slice (readerIndex_ b) (writerIndex_ b - readerIndex_ b) (buffer_ b).

(** ** The contract: a byte queue with room for a header

    [credit] is the number of bytes that can still be prepended for certain:
    kCheapPrepend when the buffer is fresh or has just been emptied. *)
Record queue := mkQueue { qbytes : bytes; credit : Z }.

Inductive buf_op :=
| OpAppend (d : bytes)
| OpPrepend (d : bytes)
| OpRetrieve (n : Z)
| OpRetrieveAsString (n : Z)
| OpRetrieveAllAsString
| OpRetrieveAll
| OpUnwrite (n : Z).

(** Effect of an operation on the queue and the string it returns; None when
    the caller breaks the operation's documented precondition. *)
Definition queue_step (op : buf_op) (q : queue) : option (queue * bytes) :=
  let fits n := (0 <=? n) && (n <=? zlen (qbytes q)) in
  let dropped n := mkQueue (drop (Z.to_nat n) (qbytes q))
    (if n <? zlen (qbytes q) then credit q else kCheapPrepend) in
  match op with
  | OpAppend d => Some (mkQueue (qbytes q ++ d) (credit q), [])
  | OpPrepend d =>
      if zlen d <=? credit q then Some (mkQueue (d ++ qbytes q) (credit q - zlen d), []) else None
  | OpRetrieve n => if fits n then Some (dropped n, []) else None
  | OpRetrieveAsString n =>
      if fits n then Some (dropped n, take (Z.to_nat n) (qbytes q)) else None
  | OpRetrieveAllAsString => Some (mkQueue [] kCheapPrepend, qbytes q)
  | OpRetrieveAll => Some (mkQueue [] kCheapPrepend, [])
  | OpUnwrite n =>
      if fits n then Some (mkQueue (take (Z.to_nat (zlen (qbytes q) - n)) (qbytes q)) (credit q), [])
      else None
  end.

Definition buffer_step (op : buf_op) (b : Buffer) : outcome (Buffer * bytes) :=
  match op with
  | OpAppend d => b' ← append d b; Ok (b', [])
  | OpPrepend d => b' ← prepend d b; Ok (b', [])
  | OpRetrieve n => b' ← retrieve n b; Ok (b', [])
  | OpRetrieveAsString n => '(s, b') ← retrieveAsString n b; Ok (b', s)
  | OpRetrieveAllAsString => '(s, b') ← retrieveAllAsString b; Ok (b', s)
  | OpRetrieveAll => Ok (retrieveAll b, [])
  | OpUnwrite n => b' ← unwrite n b; Ok (b', [])
  end.

Fixpoint queue_run (ops : list buf_op) (q : queue) : option (queue * list bytes) :=
  match ops with
  | [] => Some (q, [])
  | op :: ops => '(q', o) ← queue_step op q; '(q'', os) ← queue_run ops q'; Some (q'', o :: os)
  end.

Fixpoint buffer_run (ops : list buf_op) (b : Buffer) : outcome (Buffer * list bytes) :=
  match ops with
  | [] => Ok (b, [])
  | op :: ops => '(b', o) ← buffer_step op b; '(b'', os) ← buffer_run ops b'; Ok (b'', o :: os)
  end.

(** Bytes appended by a sequence of operations. *)
Fixpoint appended (ops : list buf_op) : Z :=
  match ops with
  | [] => 0
  | OpAppend d :: ops => zlen d + appended ops
  | _ :: ops => appended ops
  end.

(** The simulation relation. *)
Definition implements (b : Buffer) (q : queue) : Prop :=
  wf b /\ content b = qbytes q /\ 0 <= credit q <= kCheapPrepend /\
  credit q <= prependableBytes b.

(** ** Lemmas *)

Ltac wf_solve :=
  unfold wf, vector_max, kCheapPrepend, beginWrite, peek, prependableBytes in *;
  simpl in *; lia.

(** size_t arithmetic on the indices of a well-formed buffer does not wrap. *)
Lemma readable_eq b : wf b -> readableBytes b = writerIndex_ b - readerIndex_ b.
Proof. intros H. apply wrapU_small. wf_solve. Qed.

Lemma writable_eq b : wf b -> writableBytes b = zlen (buffer_ b) - writerIndex_ b.
Proof. intros H. apply wrapU_small. wf_solve. Qed.

Lemma zlen_content b : wf b -> zlen (content b) = readableBytes b.
Proof. intros H. rewrite readable_eq by done. apply zlen_slice; wf_solve. Qed.

Lemma vector_resize_grow n v : zlen v <= n <= vector_max ->
  vector_resize n v = Ok (v ++ replicate (Z.to_nat (n - zlen v)) NUL).
Proof.
  intros H. unfold vector_resize. case_tests; [|done].
  assert (n = zlen v) as -> by lia.
  rewrite Z.sub_diag. simpl. rewrite app_nil_r. f_equal.
  rewrite take_ge; [done|]. unfold zlen. lia.
Qed.

(** Copying towards lower addresses moves the range even when it overlaps. *)
Lemma std_copy_down count src dst mem : 0 <= dst <= src -> src + Z.of_nat count <= zlen mem ->
  std_copy count src dst mem = Ok (splice dst (slice src (Z.of_nat count) mem) mem).
Proof.
  revert src dst mem. induction count as [|k IH]; intros src dst mem Hd Hs; simpl.
  - f_equal. rewrite slice_zero. unfold splice. simpl. rewrite Nat.add_0_r.
    by rewrite take_drop.
  - assert (Hlk : is_Some (mem !! Z.to_nat src)).
    { apply lookup_lt_is_Some. unfold zlen in Hs. lia. }
    destruct Hlk as [c Hc]. rewrite (index_ok mem src c) by (done || lia). simpl.
    assert (H1 : zlen [c] = 1) by done.
    rewrite blit_ok by lia. simpl.
    rewrite IH by (rewrite ?zlen_splice; lia). f_equal.
    assert (Hlen : length (slice src (Z.of_nat (S k)) mem) = S k).
    { apply Nat2Z.inj. apply (zlen_slice src (Z.of_nat (S k)) mem); lia. }
    assert (Hmem : zlen (splice dst [c] mem) = zlen mem) by (apply zlen_splice; lia).
    assert (Hlen' : length (slice (src + 1) (Z.of_nat k) (splice dst [c] mem)) = k).
    { apply Nat2Z.inj. apply (zlen_slice (src + 1)); lia. }
    unfold zlen in *. simpl in H1.
    apply list_eq. intros i.
    rewrite !lookup_splice by (rewrite ?Hlen, ?Hlen', ?length_splice; simpl; lia).
    rewrite Hlen, Hlen', !lookup_slice, !lookup_splice by (simpl; lia). simpl.
    repeat case_decide; try lia; try (f_equal; lia); try done.
    + replace (i - Z.to_nat dst)%nat with O by lia. simpl.
      replace (Z.to_nat src + (i - Z.to_nat dst))%nat with (Z.to_nat src) by lia.
      rewrite <- Hc. f_equal. lia.
Qed.

(** *** Room for more bytes: makeSpace, ensureWritableBytes, append *)

(** Enough room, the readable bytes kept, nothing allocated when moving
    them down suffices. *)
Definition room_made (len : Z) (b b' : Buffer) : Prop :=
  wf b' /\ content b' = content b /\ len <= writableBytes b' /\
  Z.min (prependableBytes b) kCheapPrepend <= prependableBytes b' /\
  writerIndex_ b' <= writerIndex_ b /\
  zlen (buffer_ b') = Z.max (zlen (buffer_ b))
    (if zlen (buffer_ b) - (writerIndex_ b - readerIndex_ b) <? len + kCheapPrepend
     then writerIndex_ b + len else 0).

Lemma makeSpace_ok len b : wf b -> writableBytes b < len -> writerIndex_ b + len <= vector_max ->
  exists b', makeSpace len b = Ok b' /\ room_made len b b'.
Proof.
  intros H Hlen Hmax. rewrite writable_eq in Hlen by done.
  unfold makeSpace. rewrite readable_eq, writable_eq by done.
  rewrite !wrapU_small by wf_solve.
  destruct (Z.ltb_spec (zlen (buffer_ b) - writerIndex_ b + prependableBytes b)
              (len + kCheapPrepend)) as [Hlt|Hge].
  - rewrite vector_resize_grow by wf_solve. simpl. eexists. split; [done|].
    set (b' := mkBuffer _ _ _).
    assert (Hsz : zlen (buffer_ b') = writerIndex_ b + len).
    { unfold b'. simpl. rewrite zlen_app, zlen_replicate. wf_solve. }
    assert (Hwf : wf b') by (unfold wf; rewrite Hsz; wf_solve).
    split; [done|]. split; [|split].
    + unfold content. simpl. apply slice_app_l; wf_solve.
    + rewrite writable_eq, Hsz by done. wf_solve.
    + rewrite Hsz. unfold prependableBytes in *. split_and!; case_tests; wf_solve.
  - rewrite assert_true by (unfold prependableBytes in *; case_tests). simpl.
    rewrite std_copy_down by wf_solve. simpl.
    set (b' := mkBuffer _ _ _).
    assert (Hsz : zlen (buffer_ b') = zlen (buffer_ b)).
    { unfold b'. simpl. apply zlen_splice; [done|]. rewrite zlen_slice; wf_solve. }
    assert (Hwf : wf b') by (unfold wf; rewrite Hsz; unfold b'; wf_solve).
    rewrite (readable_eq b') by done.
    rewrite assert_true by (unfold b'; simpl; apply Z.eqb_eq; wf_solve). simpl.
    eexists. split; [done|]. split; [done|]. split; [|split].
    + unfold content, b'. simpl.
      set (c := slice _ _ (buffer_ b)) at 1.
      assert (Hc : zlen c = writerIndex_ b - readerIndex_ b)
        by (unfold c; rewrite zlen_slice; wf_solve).
      replace (kCheapPrepend + _ - kCheapPrepend) with (zlen c) by lia.
      rewrite slice_splice_same by wf_solve. unfold c. f_equal. wf_solve.
    + rewrite writable_eq, Hsz by done. unfold b'. wf_solve.
    + rewrite Hsz. unfold prependableBytes in *. split_and!; case_tests; wf_solve.
Qed.

Lemma ensureWritableBytes_ok len b : wf b -> 0 <= len -> writerIndex_ b + len <= vector_max ->
  exists b', ensureWritableBytes len b = Ok b' /\ wf b' /\ content b' = content b /\
    len <= writableBytes b'.
Proof.
  intros H H0 Hmax. unfold ensureWritableBytes.
  destruct (Z.ltb_spec (writableBytes b) len) as [Hlt|Hge].
  - destruct (makeSpace_ok len b H Hlt Hmax) as (b' & -> & Hwf & Hc & Hr & _). simpl.
    rewrite assert_true by case_tests. simpl. eauto.
  - simpl. rewrite assert_true by case_tests. simpl. eauto.
Qed.

Lemma hasWritten_ok data b : wf b -> zlen data <= writableBytes b ->
  exists b', (v ← blit (beginWrite b) data (buffer_ b);
              hasWritten (zlen data) (mkBuffer v (readerIndex_ b) (writerIndex_ b))) = Ok b' /\
    wf b' /\ content b' = content b ++ data /\ zlen (buffer_ b') = zlen (buffer_ b) /\
    prependableBytes b' = prependableBytes b /\ writerIndex_ b' = writerIndex_ b + zlen data.
Proof.
  intros H Hw. rewrite writable_eq in Hw by done.
  pose proof (zlen_nonneg data).
  rewrite blit_ok by wf_solve. cbn [mbind outcome_bind].
  assert (Hsz : zlen (splice (beginWrite b) data (buffer_ b)) = zlen (buffer_ b))
    by (apply zlen_splice; wf_solve).
  unfold hasWritten. rewrite writable_eq by (unfold wf; simpl; rewrite Hsz; wf_solve).
  simpl. rewrite Hsz, assert_true by case_tests. simpl.
  eexists. split; [done|]. rewrite wrapU_small by wf_solve.
  split; [unfold wf; simpl; rewrite Hsz; wf_solve|]. split; [|by simpl].
  unfold content. simpl. apply slice_splice_extend; wf_solve.
Qed.

(** Bytes allocated after appending [len] bytes: the vector only grows when
    moving the readable bytes to the front leaves too little room. *)
Definition grown_size (len : Z) (b : Buffer) : Z :=
  if writableBytes b <? len then
    Z.max (zlen (buffer_ b))
      (if zlen (buffer_ b) - readableBytes b <? len + kCheapPrepend
       then writerIndex_ b + len else 0)
  else zlen (buffer_ b).

Lemma append_ok data b : wf b -> writerIndex_ b + zlen data <= vector_max ->
  exists b', append data b = Ok b' /\ wf b' /\ content b' = content b ++ data /\
    zlen (buffer_ b') = grown_size (zlen data) b /\
    Z.min (prependableBytes b) kCheapPrepend <= prependableBytes b' /\
    writerIndex_ b' <= writerIndex_ b + zlen data.
Proof.
  intros H Hmax. pose proof (zlen_nonneg data).
  unfold append, grown_size, ensureWritableBytes.
  destruct (Z.ltb_spec (writableBytes b) (zlen data)) as [Hlt|Hge].
  - destruct (makeSpace_ok _ b H Hlt Hmax) as (b1 & -> & Hwf & Hc & Hr & Hp & Hi & Hs).
    cbn [mbind outcome_bind]. rewrite assert_true by case_tests. cbn [mbind outcome_bind].
    destruct (hasWritten_ok data b1 Hwf Hr) as (b' & -> & Hwf' & Hc' & Hs' & Hp' & Hi').
    exists b'. rewrite Hc', Hc, Hs', Hs, Hp', Hi', readable_eq by done. split_and!; done || lia.
  - cbn [mbind outcome_bind]. rewrite assert_true by case_tests. cbn [mbind outcome_bind].
    destruct (hasWritten_ok data b H Hge) as (b' & -> & Hwf' & Hc' & Hs' & Hp' & Hi').
    exists b'. split_and!; done || lia.
Qed.

(** *** Consuming bytes *)

Lemma wf_retrieveAll b : wf b -> wf (retrieveAll b).
Proof. intros H. unfold retrieveAll. wf_solve. Qed.

Lemma content_retrieveAll b : content (retrieveAll b) = [].
Proof. done. Qed.

Lemma retrieve_ok len b : wf b -> 0 <= len <= readableBytes b ->
  exists b', retrieve len b = Ok b' /\ wf b' /\ content b' = drop (Z.to_nat len) (content b) /\
    writerIndex_ b' <= Z.max (writerIndex_ b) kCheapPrepend /\
    if len <? readableBytes b then prependableBytes b <= prependableBytes b'
    else prependableBytes b' = kCheapPrepend.
Proof.
  intros H Hlen. unfold retrieve. rewrite assert_true by case_tests.
  cbn [mbind outcome_bind]. rewrite readable_eq in * by done.
  destruct (Z.ltb_spec len (writerIndex_ b - readerIndex_ b)) as [Hlt|Hge].
  - eexists. split; [done|]. rewrite wrapU_small by wf_solve.
    split; [wf_solve|]. split; [|wf_solve]. unfold content. simpl.
    rewrite drop_slice by wf_solve. f_equal. lia.
  - eexists. split; [done|]. split; [by apply wf_retrieveAll|].
    split; [|unfold retrieveAll; wf_solve].
    rewrite content_retrieveAll. symmetry. apply drop_ge.
    pose proof (zlen_content b H) as Hz. rewrite readable_eq in Hz by done.
    unfold zlen in Hz. lia.
Qed.

Lemma read_content n b : wf b -> 0 <= n <= readableBytes b ->
  read_at (peek b) n (buffer_ b) = Ok (take (Z.to_nat n) (content b)).
Proof.
  intros H Hn. rewrite readable_eq in Hn by done.
  rewrite read_at_ok by wf_solve. unfold content. rewrite take_slice by lia. done.
Qed.

Lemma retrieveAsString_ok len b : wf b -> 0 <= len <= readableBytes b ->
  exists b', retrieveAsString len b = Ok (take (Z.to_nat len) (content b), b') /\
    wf b' /\ content b' = drop (Z.to_nat len) (content b) /\
    writerIndex_ b' <= Z.max (writerIndex_ b) kCheapPrepend /\
    if len <? readableBytes b then prependableBytes b <= prependableBytes b'
    else prependableBytes b' = kCheapPrepend.
Proof.
  intros H Hn. unfold retrieveAsString. rewrite assert_true by case_tests.
  cbn [mbind outcome_bind]. rewrite read_content by done. cbn [mbind outcome_bind].
  destruct (retrieve_ok len b H Hn) as (b' & -> & Hwf & Hc & Hw & Hp). eauto 10.
Qed.

(** *** Prepending *)

Lemma prepend_ok data b : wf b -> zlen data <= prependableBytes b ->
  exists b', prepend data b = Ok b' /\ wf b' /\ content b' = data ++ content b /\
    zlen (buffer_ b') = zlen (buffer_ b) /\ prependableBytes b' = prependableBytes b - zlen data /\
    writerIndex_ b' = writerIndex_ b.
Proof.
  intros H Hp. pose proof (zlen_nonneg data). unfold prepend.
  rewrite assert_true by case_tests. cbn [mbind outcome_bind].
  rewrite wrapU_small by wf_solve. rewrite blit_ok by wf_solve. cbn [mbind outcome_bind].
  set (r := readerIndex_ b - zlen data).
  assert (Hsz : zlen (splice r data (buffer_ b)) = zlen (buffer_ b))
    by (unfold r; apply zlen_splice; wf_solve).
  eexists. split; [done|]. split; [unfold wf; simpl; rewrite Hsz; unfold r; wf_solve|].
  split; [|by simpl].
  unfold content. simpl.
  replace (writerIndex_ b - r) with (zlen data + (writerIndex_ b - readerIndex_ b))
    by (unfold r; lia).
  apply slice_splice_prepend; unfold r; wf_solve.
Qed.

Lemma unwrite_ok len b : wf b -> 0 <= len <= readableBytes b ->
  exists b', unwrite len b = Ok b' /\ wf b' /\
    content b' = take (Z.to_nat (readableBytes b - len)) (content b) /\
    prependableBytes b' = prependableBytes b /\ writerIndex_ b' <= writerIndex_ b.
Proof.
  intros H Hn. unfold unwrite. rewrite assert_true by case_tests. cbn [mbind outcome_bind].
  rewrite readable_eq in * by done. eexists. split; [done|].
  rewrite wrapU_small by wf_solve. split; [wf_solve|]. split; [|wf_solve].
  unfold content. simpl. rewrite take_slice by lia. f_equal. lia.
Qed.

Lemma Buffer_new_ok n : 0 <= n -> n + kCheapPrepend <= vector_max ->
  exists b, Buffer_new n = Ok b /\ wf b /\ content b = [] /\ writableBytes b = n /\
    prependableBytes b = kCheapPrepend /\ writerIndex_ b = kCheapPrepend.
Proof.
  intros H0 Hn. unfold Buffer_new. rewrite wrapU_small by wf_solve.
  unfold vector_new. case_tests. cbn [mbind outcome_bind].
  set (b := mkBuffer _ _ _).
  assert (Hsz : zlen (buffer_ b) = kCheapPrepend + n)
    by (unfold b; simpl; rewrite zlen_replicate; wf_solve).
  assert (Hwf : wf b) by (unfold wf; rewrite Hsz; wf_solve).
  assert (Hw : writableBytes b = n) by (rewrite writable_eq, Hsz by done; wf_solve).
  rewrite (readable_eq b Hwf), Hw, !assert_true by (unfold b; case_tests; done).
  cbn [mbind outcome_bind]. exists b. by split_and!.
Qed.

(** *** Integers *)

Section IntegerLemmas.
Context {host : Host}.

Lemma appendInt64_eq x b : appendInt64 x b = append (be_bytes 8 x) b.
Proof. unfold appendInt64, hostToNetwork64. by rewrite (encode_int 8) by lia. Qed.
Lemma appendInt32_eq x b : appendInt32 x b = append (be_bytes 4 x) b.
Proof. unfold appendInt32, hostToNetwork32. by rewrite (encode_int 4) by lia. Qed.
Lemma appendInt16_eq x b : appendInt16 x b = append (be_bytes 2 x) b.
Proof. unfold appendInt16, hostToNetwork16. by rewrite (encode_int 2) by lia. Qed.
Lemma appendInt8_eq x b : appendInt8 x b = append (be_bytes 1 x) b.
Proof. unfold appendInt8, mem_of, be_bytes. by destruct host_order. Qed.

Lemma prependInt64_eq x b : prependInt64 x b = prepend (be_bytes 8 x) b.
Proof. unfold prependInt64, hostToNetwork64. by rewrite (encode_int 8) by lia. Qed.
Lemma prependInt32_eq x b : prependInt32 x b = prepend (be_bytes 4 x) b.
Proof. unfold prependInt32, hostToNetwork32. by rewrite (encode_int 4) by lia. Qed.
Lemma prependInt16_eq x b : prependInt16 x b = prepend (be_bytes 2 x) b.
Proof. unfold prependInt16, hostToNetwork16. by rewrite (encode_int 2) by lia. Qed.
Lemma prependInt8_eq x b : prependInt8 x b = prepend (be_bytes 1 x) b.
Proof. unfold prependInt8, mem_of, be_bytes. by destruct host_order. Qed.

(** The four peek functions on a buffer that starts with an encoded integer. *)
Lemma content_prefix b (l t : bytes) : wf b -> content b = l ++ t ->
  zlen l <= readableBytes b /\ read_at (peek b) (zlen l) (buffer_ b) = Ok l.
Proof.
  intros H Hc. pose proof (zlen_content b H) as Hz. rewrite Hc, zlen_app in Hz.
  pose proof (zlen_nonneg l). pose proof (zlen_nonneg t).
  split; [lia|]. rewrite read_content by (done || lia). rewrite Hc. f_equal.
  unfold zlen. rewrite Nat2Z.id. apply take_app_length.
Qed.

Ltac peek_tac n x b t H Hc :=
  destruct (content_prefix b (be_bytes n x) t H Hc) as [Hr Hm];
  rewrite zlen_be_bytes in Hr, Hm; cbv [Z.of_nat Pos.of_succ_nat Pos.succ] in Hr, Hm;
  rewrite assert_true by case_tests; cbn [mbind outcome_bind];
  rewrite Hm; cbn [mbind outcome_bind]; f_equal.

Lemma peekInt64_eq x t b : wf b -> content b = be_bytes 8 x ++ t ->
  peekInt64 b = Ok (wrapS 64 x).
Proof. intros H Hc. unfold peekInt64. peek_tac 8%nat x b t H Hc. by apply (decode_int 8); lia. Qed.
Lemma peekInt32_eq x t b : wf b -> content b = be_bytes 4 x ++ t ->
  peekInt32 b = Ok (wrapS 32 x).
Proof. intros H Hc. unfold peekInt32. peek_tac 4%nat x b t H Hc. by apply (decode_int 4); lia. Qed.
Lemma peekInt16_eq x t b : wf b -> content b = be_bytes 2 x ++ t ->
  peekInt16 b = Ok (wrapS 16 x).
Proof. intros H Hc. unfold peekInt16. peek_tac 2%nat x b t H Hc. by apply (decode_int 2); lia. Qed.
Lemma peekInt8_eq x t b : wf b -> content b = be_bytes 1 x ++ t ->
  peekInt8 b = Ok (wrapS 8 x).
Proof.
  intros H Hc. unfold peekInt8. peek_tac 1%nat x b t H Hc.
  replace (be_bytes 1 x) with (mem_of 1 x) by (unfold mem_of, be_bytes; by destruct host_order).
  rewrite of_mem_mem_of. by apply (wrapS_wrapU 8).
Qed.
End IntegerLemmas.

(** *** Searching *)

Lemma std_search_le hay needle : (0 < length needle)%nat ->
  (std_search hay needle <= length hay)%nat.
Proof.
  intros Hn. induction hay as [|c t IH]; simpl; case_decide; simpl; lia.
Qed.

(** The result is an occurrence, or the length when there is none; nothing
    occurs before it. *)
Lemma std_search_found hay needle : (0 < length needle)%nat ->
  (std_search hay needle < length hay)%nat ->
  take (length needle) (drop (std_search hay needle) hay) = needle.
Proof.
  intros Hn. induction hay as [|c t IH]; simpl; case_decide as Hd; simpl; intros Hlt; try lia.
  - done.
  - apply IH. lia.
Qed.

Lemma std_search_first hay needle k : (0 < length needle)%nat ->
  (k < std_search hay needle)%nat -> take (length needle) (drop k hay) <> needle.
Proof.
  intros Hn. revert k. induction hay as [|c t IH]; intros k; simpl; case_decide as Hd; simpl;
    intros Hk; try lia.
  destruct k as [|k]; simpl; [done|]. apply IH. lia.
Qed.

Lemma memchr_spec hay c : match memchr hay c with
  | Some k => hay !! k = Some c /\ forall j, (j < k)%nat -> hay !! j <> Some c
  | None => c ∉ hay
  end.
Proof.
  induction hay as [|x t IH]; simpl; [apply not_elem_of_nil|].
  destruct (Ascii.eqb_spec x c) as [->|Hne]; [split; [done|lia]|].
  destruct (memchr t c) as [k|]; simpl.
  - destruct IH as [H1 H2]. split; [done|]. intros [|j] Hj; simpl; [congruence|].
    apply H2. lia.
  - rewrite not_elem_of_cons. split; congruence.
Qed.

(** *** The refinement *)

Lemma implements_readable b q : implements b q -> readableBytes b = zlen (qbytes q).
Proof. intros (H & Hc & _). rewrite <- Hc. by rewrite zlen_content. Qed.

Lemma implements_retrieve n b q : implements b q -> 0 <= n <= zlen (qbytes q) ->
  exists b', retrieve n b = Ok b' /\
    retrieveAsString n b = Ok (take (Z.to_nat n) (qbytes q), b') /\
    implements b' (mkQueue (drop (Z.to_nat n) (qbytes q))
      (if n <? zlen (qbytes q) then credit q else kCheapPrepend)) /\
    writerIndex_ b' <= Z.max (writerIndex_ b) kCheapPrepend.
Proof.
  intros I Hn. rewrite <- (implements_readable b q I) in *.
  destruct I as (H & Hc & Hk & Hp). rewrite <- Hc.
  destruct (retrieve_ok n b H Hn) as (b' & Hr & Hwf & Hc' & Hw & Hpp).
  exists b'. split; [done|]. split; [|split; [|done]].
  - unfold retrieveAsString. rewrite assert_true by case_tests. cbn [mbind outcome_bind].
    rewrite read_content by done. cbn [mbind outcome_bind]. by rewrite Hr.
  - split; [done|]. split; [done|]. simpl.
    destruct (n <? readableBytes b); unfold kCheapPrepend in *; lia.
Qed.

Lemma buffer_step_sim op b q q' o : implements b q ->
  writerIndex_ b + appended [op] <= vector_max -> queue_step op q = Some (q', o) ->
  exists b', buffer_step op b = Ok (b', o) /\ implements b' q' /\
    writerIndex_ b' <= Z.max (writerIndex_ b) kCheapPrepend + appended [op].
Proof.
  intros I Hmax Hq. pose proof I as (H & Hc & Hk & Hp).
  destruct op as [d|d|n|n| | |n]; simpl in *; rewrite ?Z.add_0_r in *.
  - simplify_eq. destruct (append_ok d b H Hmax) as (b' & -> & Hwf & Hc' & _ & Hp' & Hw).
    eexists. split; [done|]. split; [|lia]. repeat split; simpl; try lia; try apply Hwf.
    by rewrite Hc', Hc.
  - case_match eqn:E; simplify_eq. zbool.
    destruct (prepend_ok d b H ltac:(lia)) as (b' & -> & Hwf & Hc' & _ & Hp' & Hw).
    pose proof (zlen_nonneg d).
    eexists. split; [done|]. split; [|lia]. repeat split; simpl; try lia; try apply Hwf.
    by rewrite Hc', Hc.
  - case_match eqn:E; simplify_eq. zbool.
    destruct (implements_retrieve n b q I ltac:(lia)) as (b' & -> & _ & I' & Hw). eauto.
  - case_match eqn:E; simplify_eq. zbool.
    destruct (implements_retrieve n b q I ltac:(lia)) as (b' & _ & -> & I' & Hw). eauto.
  - simplify_eq. pose proof (zlen_nonneg (qbytes q)).
    destruct (implements_retrieve (zlen (qbytes q)) b q I ltac:(lia)) as (b' & _ & Hr & I' & Hw).
    unfold retrieveAllAsString. rewrite (implements_readable b q I), Hr.
    unfold zlen in *. rewrite Nat2Z.id, Z.ltb_irrefl, firstn_all, drop_all in *. eauto.
  - simplify_eq. eexists. split; [done|]. split; [|unfold retrieveAll; simpl; lia].
    repeat split; try (by apply wf_retrieveAll); unfold retrieveAll, kCheapPrepend; simpl; lia.
  - case_match eqn:E; simplify_eq. zbool.
    rewrite <- (implements_readable b q I) in *.
    destruct (unwrite_ok n b H ltac:(lia)) as (b' & -> & Hwf & Hc' & Hp' & Hw).
    eexists. split; [done|]. split; [|lia]. repeat split; simpl; try lia; try apply Hwf.
    by rewrite Hc', Hc.
Qed.

Lemma appended_cons op ops : appended (op :: ops) = appended [op] + appended ops.
Proof. destruct op; simpl; lia. Qed.

Lemma appended_nonneg ops : 0 <= appended ops.
Proof. induction ops as [|[d| | | | | | ] ops IH]; simpl; try lia. pose proof (zlen_nonneg d). lia. Qed.

Lemma buffer_run_sim ops b q q' os : implements b q ->
  Z.max (writerIndex_ b) kCheapPrepend + appended ops <= vector_max ->
  queue_run ops q = Some (q', os) ->
  exists b', buffer_run ops b = Ok (b', os) /\ implements b' q'.
Proof.
  revert b q os. induction ops as [|op ops IH]; intros b q os I Hmax Hq; simpl in Hq.
  - simplify_eq. simpl. eauto.
  - rewrite appended_cons in Hmax. pose proof (appended_nonneg ops).
    destruct (queue_step op q) as [[q1 o]|] eqn:E1; simpl in Hq; [|done].
    destruct (queue_run ops q1) as [[q2 os']|] eqn:E2; simpl in Hq; [|done].
    simplify_eq.
    destruct (buffer_step_sim op b q q1 o I ltac:(lia) E1) as (b1 & Hs & I1 & Hw).
    destruct (IH b1 q1 os' I1) as (b' & Hr & I'); [|done|].
    { destruct op; simpl in *; pose proof (appended_nonneg ops); try lia.
      pose proof (zlen_nonneg d). lia. }
    exists b'. cbn [buffer_run mbind outcome_bind]. rewrite Hs. simpl. rewrite Hr. done.
Qed.

(** Writing [data] where it fits, as readv(2) and hasWritten do. *)
Lemma fill_ok data b : wf b -> zlen data <= writableBytes b ->
  exists v, blit (beginWrite b) data (buffer_ b) = Ok v /\ zlen v = zlen (buffer_ b) /\
    let b' := mkBuffer v (readerIndex_ b) (writerIndex_ b + zlen data) in
    wf b' /\ content b' = content b ++ data.
Proof.
  intros H Hw. rewrite writable_eq in Hw by done. pose proof (zlen_nonneg data).
  rewrite blit_ok by wf_solve. eexists. split; [done|].
  assert (Hsz : zlen (splice (beginWrite b) data (buffer_ b)) = zlen (buffer_ b))
    by (apply zlen_splice; wf_solve).
  split; [done|]. split; [unfold wf; simpl; rewrite Hsz; wf_solve|].
  unfold content. simpl. apply slice_splice_extend; wf_solve.
Qed.

Lemma readFd_ok readv fd b : wf b -> readv_bounded readv ->
  zlen (buffer_ b) + sizeof_extrabuf <= vector_max ->
  match readv fd (take (if (writableBytes b <? sizeof_extrabuf)%Z then 2 else 1)
                    [writableBytes b; sizeof_extrabuf]) with
  | IoErr errno => readFd readv fd b = Ok (-1, Some errno, b)
  | IoData d => exists b', readFd readv fd b = Ok (zlen d, None, b') /\ wf b' /\
      content b' = content b ++ d
  end.
Proof.
  intros H Hrv Hmax. unfold readFd. destruct (readv _ _) as [errno|d] eqn:E; [done|].
  apply Hrv in E; [|case_match; simpl; rewrite ?Forall_cons;
    unfold sizeof_extrabuf; pose proof (wrapU_range 64 (zlen (buffer_ b) - writerIndex_ b));
    unfold writableBytes; repeat split; try apply Forall_nil; lia]. pose proof (zlen_nonneg d). pose proof (writable_eq b H) as Hw.
  destruct (Z.leb_spec (zlen d) (writableBytes b)) as [Hle|Hgt].
  - rewrite take_all by lia.
    destruct (fill_ok d b H Hle) as (v & -> & _ & Hwf & Hc). cbn [mbind outcome_bind].
    rewrite wrapU_small by wf_solve. eauto.
  - set (d1 := take (Z.to_nat (writableBytes b)) d). set (d2 := drop _ d).
    assert (Hd1 : zlen d1 = writableBytes b).
    { apply zlen_take. wf_solve. }
    assert (Hd2 : zlen d2 = zlen d - writableBytes b).
    { apply zlen_drop. wf_solve. }
    destruct (fill_ok d1 b H ltac:(lia)) as (v & -> & Hv & Hwf & Hc). cbn [mbind outcome_bind].
    rewrite (take_all _ d2) by lia.
    rewrite Hd1 in Hwf, Hc. replace (writerIndex_ b + writableBytes b) with (zlen v) in * by lia.
    assert (Hx : zlen d2 <= sizeof_extrabuf).
    { destruct (Z.ltb_spec (writableBytes b) sizeof_extrabuf); simpl in E; lia. }
    destruct (append_ok d2 _ Hwf) as (b' & -> & Hwf' & Hc' & _); [simpl; lia|].
    cbn [mbind outcome_bind]. eexists. split; [done|]. split; [done|].
    rewrite Hc', Hc, <- app_assoc. f_equal. apply take_drop.
Qed.

Section EncodedIntegers.
Context {host : Host}.

(** Appending an encoded integer, and consuming one. *)
Lemma append_be n x b : wf b -> writerIndex_ b + Z.of_nat n <= vector_max ->
  exists b', append (be_bytes n x) b = Ok b' /\ wf b' /\ content b' = content b ++ be_bytes n x
    /\ writerIndex_ b' <= writerIndex_ b + Z.of_nat n.
Proof.
  intros H Hm. destruct (append_ok (be_bytes n x) b) as (b' & ? & ? & ? & _ & _ & ?);
    rewrite ?zlen_be_bytes in *; eauto 10.
Qed.

Lemma retrieve_be n x t b : wf b -> content b = be_bytes n x ++ t ->
  exists b', retrieve (Z.of_nat n) b = Ok b' /\ wf b' /\ content b' = t.
Proof.
  intros H Ht. destruct (content_prefix b _ t H Ht) as [Hr _]. rewrite zlen_be_bytes in Hr.
  destruct (retrieve_ok (Z.of_nat n) b H ltac:(lia)) as (b' & -> & Hwf & Hcc & _).
  exists b'. rewrite Hcc, Ht, Nat2Z.id. split_and!; try done.
  rewrite drop_app_length'; [done|by rewrite length_be_bytes].
Qed.

Lemma readInt64_be x t b : - 2 ^ 63 <= x < 2 ^ 63 -> wf b -> content b = be_bytes 8 x ++ t ->
  exists b', readInt64 b = Ok (x, b') /\ wf b' /\ content b' = t.
Proof.
  intros R H Hc. destruct (retrieve_be 8 x t b H Hc) as (b' & Hr & ? & ?).
  exists b'. unfold readInt64, retrieveInt64. rewrite (peekInt64_eq x t b H Hc), wrapS_small by lia.
  change 8 with (Z.of_nat 8). cbn [mbind outcome_bind]. by rewrite Hr.
Qed.
Lemma readInt32_be x t b : - 2 ^ 31 <= x < 2 ^ 31 -> wf b -> content b = be_bytes 4 x ++ t ->
  exists b', readInt32 b = Ok (x, b') /\ wf b' /\ content b' = t.
Proof.
  intros R H Hc. destruct (retrieve_be 4 x t b H Hc) as (b' & Hr & ? & ?).
  exists b'. unfold readInt32, retrieveInt32. rewrite (peekInt32_eq x t b H Hc), wrapS_small by lia.
  change 4 with (Z.of_nat 4). cbn [mbind outcome_bind]. by rewrite Hr.
Qed.
Lemma readInt16_be x t b : - 2 ^ 15 <= x < 2 ^ 15 -> wf b -> content b = be_bytes 2 x ++ t ->
  exists b', readInt16 b = Ok (x, b') /\ wf b' /\ content b' = t.
Proof.
  intros R H Hc. destruct (retrieve_be 2 x t b H Hc) as (b' & Hr & ? & ?).
  exists b'. unfold readInt16, retrieveInt16. rewrite (peekInt16_eq x t b H Hc), wrapS_small by lia.
  change 2 with (Z.of_nat 2). cbn [mbind outcome_bind]. by rewrite Hr.
Qed.
Lemma readInt8_be x t b : - 2 ^ 7 <= x < 2 ^ 7 -> wf b -> content b = be_bytes 1 x ++ t ->
  exists b', readInt8 b = Ok (x, b') /\ wf b' /\ content b' = t.
Proof.
  intros R H Hc. destruct (retrieve_be 1 x t b H Hc) as (b' & Hr & ? & ?).
  exists b'. unfold readInt8, retrieveInt8. rewrite (peekInt8_eq x t b H Hc), wrapS_small by lia.
  change 1 with (Z.of_nat 1). cbn [mbind outcome_bind]. by rewrite Hr.
Qed.

End EncodedIntegers.

(** ** Properties *)

(** C1. Buffer refines a byte queue with header room: whatever sequence of
    append, prepend, retrieve, retrieveAsString, retrieveAllAsString,
    retrieveAll and unwrite calls a client makes within the documented
    preconditions, starting from a fresh buffer of any initial size, no assert
    fails and nothing is accessed out of bounds or overflows, the strings
    returned are those of the queue, and the readable bytes at the end are the
    queue's.  The only bound is that fewer than 2^63 - 9 bytes are appended. *)
Theorem buffer_refines_queue initialSize ops q os :
  0 <= initialSize -> initialSize + kCheapPrepend <= vector_max ->
  kCheapPrepend + appended ops <= vector_max ->
  queue_run ops (mkQueue [] kCheapPrepend) = Some (q, os) ->
  exists b b', Buffer_new initialSize = Ok b /\ buffer_run ops b = Ok (b', os) /\
    wf b' /\ content b' = qbytes q /\ credit q <= prependableBytes b'.
Proof.
  intros H0 Hi Ha Hq.
  destruct (Buffer_new_ok initialSize H0 Hi) as (b & Hb & Hwf & Hc & _ & Hp & Hw).
  destruct (buffer_run_sim ops b (mkQueue [] kCheapPrepend) q os) as (b' & Hr & I);
    [|lia|done|].
  - repeat split; simpl; try done; try apply Hwf; unfold kCheapPrepend in *; lia.
  - exists b, b'. destruct I as (? & ? & ? & ?). done.
Qed.

Lemma buffer_refines_queue_witness :
  exists b b', Buffer_new 4 = Ok b /\
    buffer_run [OpAppend (lit "hello"); OpRetrieveAsString 2; OpPrepend (lit "xy");
                OpAppend (lit "world!!!"); OpRetrieveAllAsString; OpAppend (lit "z")] b
      = Ok (b', [[]; lit "he"; []; []; lit "xylloworld!!!"; []]) /\
    wf b' /\ content b' = lit "z" /\ 8 <= prependableBytes b'.
Proof.
  apply (buffer_refines_queue 4 _ (mkQueue (lit "z") 8));
    [lia|unfold kCheapPrepend, vector_max; lia|vm_compute; discriminate|vm_compute; reflexivity].
Defined.

(** C26. Appending keeps the invariant and the bytes already readable, adds the
    data after them, and allocates only when sliding the readable bytes to the
    front would not make room: then the vector ends exactly after the data,
    otherwise its size does not change. *)
Theorem append_grows_only_when_needed data b :
  wf b -> writerIndex_ b + zlen data <= vector_max ->
  exists b', append data b = Ok b' /\ wf b' /\ content b' = content b ++ data /\
    zlen (buffer_ b') =
      (if zlen (buffer_ b) - readableBytes b <? zlen data + kCheapPrepend
       then Z.max (zlen (buffer_ b)) (writerIndex_ b + zlen data) else zlen (buffer_ b)).
Proof.
  intros H Hmax. destruct (append_ok data b H Hmax) as (b' & Ha & Hwf & Hc & Hs & _).
  exists b'. split; [done|]. split; [done|]. split; [done|]. rewrite Hs. unfold grown_size.
  pose proof (zlen_nonneg data). rewrite (writable_eq b), (readable_eq b) by done.
  case_tests; unfold wf, kCheapPrepend in *; lia.
Qed.

Lemma append_grows_only_when_needed_witness :
  let b := mkBuffer (replicate 20 "a"%char) 14 18 in
  wf b /\ exists b', append (lit "012345") b = Ok b' /\ wf b' /\
    content b' = content b ++ lit "012345" /\
    zlen (buffer_ b') =
      (if zlen (buffer_ b) - readableBytes b <? zlen (lit "012345") + kCheapPrepend
       then Z.max (zlen (buffer_ b)) (writerIndex_ b + zlen (lit "012345"))
       else zlen (buffer_ b)).
Proof.
  assert (H : wf (mkBuffer (replicate 20 "a"%char) 14 18)) by (vm_compute; intuition discriminate).
  split; [exact H|]. apply append_grows_only_when_needed; [exact H|vm_compute; discriminate].
Defined.

(** C27. An integer appended to a buffer is read back by the reader once it has
    consumed what was readable before, on little- and big-endian hosts alike,
    and the bytes sent are its network-order (most significant first) ones. *)
Theorem integer_roundtrip {host : Host} (x64 x32 x16 x8 : Z) b :
  - 2 ^ 63 <= x64 < 2 ^ 63 -> - 2 ^ 31 <= x32 < 2 ^ 31 ->
  - 2 ^ 15 <= x16 < 2 ^ 15 -> - 2 ^ 7 <= x8 < 2 ^ 7 ->
  wf b -> writerIndex_ b + 15 <= vector_max ->
  exists b1 b2 b3 b4 b5 b6 b7 b8 s,
    appendInt64 x64 b = Ok b1 /\ appendInt32 x32 b1 = Ok b2 /\
    appendInt16 x16 b2 = Ok b3 /\ appendInt8 x8 b3 = Ok b4 /\
    content b4 = content b ++ be_bytes 8 x64 ++ be_bytes 4 x32 ++ be_bytes 2 x16 ++ be_bytes 1 x8 /\
    retrieveAsString (readableBytes b) b4 = Ok (s, b5) /\ s = content b /\
    readInt64 b5 = Ok (x64, b6) /\ readInt32 b6 = Ok (x32, b7) /\
    readInt16 b7 = Ok (x16, b8) /\ exists b9, readInt8 b8 = Ok (x8, b9) /\ content b9 = [].
Proof.
  intros R64 R32 R16 R8 H Hmax.
  destruct (append_be 8%nat x64 b) as (b1 & E1 & W1 & C1 & I1); [done|lia|].
  destruct (append_be 4%nat x32 b1) as (b2 & E2 & W2 & C2 & I2); [done|lia|].
  destruct (append_be 2%nat x16 b2) as (b3 & E3 & W3 & C3 & I3); [done|lia|].
  destruct (append_be 1%nat x8 b3) as (b4 & E4 & W4 & C4 & I4); [done|lia|].
  assert (C : content b4 = content b ++ be_bytes 8 x64 ++ be_bytes 4 x32 ++ be_bytes 2 x16
                ++ be_bytes 1 x8) by (by rewrite C4, C3, C2, C1, <- !app_assoc).
  destruct (content_prefix b4 _ _ W4 C) as [Hr _]. rewrite (zlen_content b H) in Hr.
  pose proof (zlen_content b H) as Hz. pose proof (zlen_nonneg (content b)).
  destruct (retrieveAsString_ok (readableBytes b) b4 W4 ltac:(lia)) as (b5 & E5 & W5 & C5 & _).
  assert (Hl : Z.to_nat (readableBytes b) = length (content b)) by (unfold zlen in Hz; lia).
  rewrite C, Hl, drop_app_length in C5. rewrite C, Hl, take_app_length in E5.
  destruct (readInt64_be x64 _ b5 R64 W5 C5) as (b6 & E6 & W6 & C6).
  destruct (readInt32_be x32 _ b6 R32 W6 C6) as (b7 & E7 & W7 & C7).
  destruct (readInt16_be x16 _ b7 R16 W7 C7) as (b8 & E8 & W8 & C8).
  rewrite <- (app_nil_r (be_bytes 1 x8)) in C8.
  destruct (readInt8_be x8 _ b8 R8 W8 C8) as (b9 & E9 & W9 & C9).
  exists b1, b2, b3, b4, b5, b6, b7, b8, (content b).
  rewrite appendInt64_eq, appendInt32_eq, appendInt16_eq, appendInt8_eq. eauto 20.
Qed.

Lemma integer_roundtrip_witness :
  let host : Host := LittleEndian in
  exists b, Buffer_new 4 = Ok b /\
  exists b1 b2 b3 b4 b5 b6 b7 b8 s,
    appendInt64 (-2) b = Ok b1 /\ appendInt32 258 b1 = Ok b2 /\
    appendInt16 (-32768) b2 = Ok b3 /\ appendInt8 127 b3 = Ok b4 /\
    content b4 = content b ++ be_bytes 8 (-2) ++ be_bytes 4 258 ++ be_bytes 2 (-32768) ++ be_bytes 1 127 /\
    retrieveAsString (readableBytes b) b4 = Ok (s, b5) /\ s = content b /\
    readInt64 b5 = Ok (-2, b6) /\ readInt32 b6 = Ok (258, b7) /\
    readInt16 b7 = Ok (-32768, b8) /\ exists b9, readInt8 b8 = Ok (127, b9) /\ content b9 = [].
Proof.
  eexists. split; [vm_compute; reflexivity|].
  apply integer_roundtrip; try lia; [vm_compute; intuition discriminate|vm_compute; discriminate].
Defined.

(** A header written with prependInt32 in the reserved area is what
    peekInt32 reads, whatever the readable bytes are, and consuming it with
    retrieveInt32 leaves exactly those bytes; so a length field can be put in
    front of a message that is already in the buffer. *)
Theorem prepend_header_roundtrip {host : Host} x b :
  - 2 ^ 31 <= x < 2 ^ 31 -> wf b -> 4 <= prependableBytes b ->
  exists b1 b2, prependInt32 x b = Ok b1 /\ content b1 = be_bytes 4 x ++ content b /\
    peekInt32 b1 = Ok x /\ retrieveInt32 b1 = Ok b2 /\ wf b2 /\ content b2 = content b.
Proof.
  intros R H Hp.
  destruct (prepend_ok (be_bytes 4 x) b H) as (b1 & E1 & W1 & C1 & _);
    [by rewrite zlen_be_bytes|].
  destruct (retrieve_be 4 x _ b1 W1 C1) as (b2 & E2 & W2 & C2).
  exists b1, b2. rewrite prependInt32_eq, (peekInt32_eq x _ b1 W1 C1), wrapS_small by lia. done.
Qed.

Lemma prepend_header_roundtrip_witness :
  let host : Host := BigEndian in
  let b := mkBuffer (replicate 8 NUL ++ lit "body") 8 12 in
  exists b1 b2, prependInt32 4 b = Ok b1 /\ content b1 = be_bytes 4 4 ++ content b /\
    peekInt32 b1 = Ok 4 /\ retrieveInt32 b1 = Ok b2 /\ wf b2 /\ content b2 = content b.
Proof.
  apply prepend_header_roundtrip; [lia|vm_compute; intuition discriminate|vm_compute; discriminate].
Defined.

(** findCRLF returns the position of the first "\r\n" that lies entirely
    within the readable bytes, and NULL exactly when there is none; it never
    reads outside them. *)
Theorem findCRLF_first b : wf b ->
  match findCRLF b with
  | Ok (Some p) => exists pre post, content b = pre ++ kCRLF ++ post /\
      p = peek b + zlen pre /\
      forall k, (k < length pre)%nat -> take 2 (drop k (content b)) <> kCRLF
  | Ok None => forall k, take 2 (drop k (content b)) <> kCRLF
  | Fault _ => False
  end.
Proof.
  intros H. unfold findCRLF, beginWrite. rewrite <- readable_eq by done.
  rewrite read_content by (done || (rewrite !readable_eq by done; wf_solve)).
  cbn [mbind outcome_bind]. rewrite take_all by (rewrite zlen_content by done; lia).
  set (c := content b). assert (Hn : (0 < length kCRLF)%nat) by (simpl; lia).
  pose proof (std_search_le c kCRLF Hn) as Hle. pose proof (zlen_content b H) as Hz.
  fold c in Hz. rewrite readable_eq in Hz by done. unfold zlen in Hz.
  destruct (Z.eqb_spec (peek b + Z.of_nat (std_search c kCRLF)) (writerIndex_ b)) as [He|He].
  - intros k Hk. unfold peek in He.
    destruct (decide (k < std_search c kCRLF)%nat) as [Hlt|Hge].
    + by apply (std_search_first c kCRLF k Hn Hlt).
    + rewrite drop_ge in Hk by lia. done.
  - unfold peek in *. pose proof (std_search_found c kCRLF Hn ltac:(lia)) as Hf.
    exists (take (std_search c kCRLF) c), (drop 2 (drop (std_search c kCRLF) c)).
    split; [|split].
    + rewrite <- Hf at 2. simpl length. by rewrite !take_drop.
    + unfold zlen. rewrite length_take. lia.
    + intros k. rewrite length_take. intros Hk. apply (std_search_first c kCRLF); [done|lia].
Qed.

Lemma findCRLF_first_witness :
  let b := mkBuffer (lit "........GET /" ++ kCRLF ++ lit "X" ++ kCRLF) 8 16 in
  match findCRLF b with
  | Ok (Some p) => exists pre post, content b = pre ++ kCRLF ++ post /\
      p = peek b + zlen pre /\
      forall k, (k < length pre)%nat -> take 2 (drop k (content b)) <> kCRLF
  | Ok None => forall k, take 2 (drop k (content b)) <> kCRLF
  | Fault _ => False
  end.
Proof. apply findCRLF_first. vm_compute. intuition discriminate. Defined.

(** C28. readFd appends to the readable bytes exactly the bytes the kernel
    delivered, whether they fit in the vector or spill into the 64 KiB stack
    buffer, and returns their number; on an error it returns -1, saves errno
    and leaves the buffer unchanged. *)
Theorem readFd_appends_received readv fd b : wf b -> readv_bounded readv ->
  zlen (buffer_ b) + sizeof_extrabuf <= vector_max ->
  match readv fd (take (if (writableBytes b <? sizeof_extrabuf)%Z then 2 else 1)
                    [writableBytes b; sizeof_extrabuf]) with
  | IoErr errno => readFd readv fd b = Ok (-1, Some errno, b)
  | IoData d => exists b', readFd readv fd b = Ok (zlen d, None, b') /\ wf b' /\
      content b' = content b ++ d
  end.
Proof. intros H Hr Hm. exact (readFd_ok readv fd b H Hr Hm). Qed.

Lemma readFd_appends_received_witness :
  let b := mkBuffer (lit "........abcdef") 8 12 in
  readv_bounded (kernel (lit "0123456789")) /\
  exists b', readFd (kernel (lit "0123456789")) 5 b = Ok (10, None, b') /\ wf b' /\
    content b' = content b ++ lit "0123456789".
Proof.
  assert (Hr : readv_bounded (kernel (lit "0123456789"))).
  { intros fd lens d Hp E. unfold kernel in E. injection E as <-.
    assert (0 <= foldr Z.add 0 lens) by (induction Hp; simpl; lia).
    unfold zlen. rewrite length_take. lia. }
  split; [exact Hr|].
  apply (readFd_appends_received (kernel (lit "0123456789")) 5 (mkBuffer (lit "........abcdef") 8 12));
    [vm_compute; intuition discriminate|exact Hr|vm_compute; discriminate].
Defined.
