(* ===== verification/LogStream.v ===== *)
(** The log formatting buffer and stream: base/LogStream.h and base/LogStream.cc.

    [FixedBuffer] is the class template FixedBuffer<SIZE>: the array m_buff
    (whose initial contents are arbitrary, the constructor does not clear it),
    the cursor m_cur as an offset into it, and the cookie function.  [LogStream]
    holds a FixedBuffer<kSmallBuffer>; each operator<< is a function put_<type>.

    [TextSink] is the contract a buffer gives its clients: a piece of text is
    appended entirely or not at all.  FixedBuffer implements it for every SIZE;
    LogStream and AsyncLogging are clients. *)
From Stdlib Require Import ZArith Lia Ascii String.
From stdpp Require Import base list strings.
From S2P Require Import Prelude.
From S2P Require Import CLib.

#[local] Open Scope Z_scope.

Definition kSmallBuffer : Z := 4000.
Definition kLargeBuffer : Z := 4000 * 1000.

Inductive cookie := cookieStart | cookieEnd.

Record FixedBuffer := mkFixedBuffer {
  m_cookie : cookie;
  m_cur : Z;
  m_buff : bytes
}.

Section FixedBufferOps.
(** The template argument: sizeof(m_buff). *)
Variable SIZE : Z.

Definition setCookie (c : cookie) (fb : FixedBuffer) : FixedBuffer :=
  mkFixedBuffer c (m_cur fb) (m_buff fb).

(** Construction in memory holding [mem]. *)
Definition FixedBuffer_new (mem : bytes) : FixedBuffer :=
  setCookie cookieStart (mkFixedBuffer cookieEnd 0 mem).

Definition FixedBuffer_delete (fb : FixedBuffer) : FixedBuffer := setCookie cookieEnd fb.

Definition avail (fb : FixedBuffer) : Z := wrapU 64 (SIZE - m_cur fb).
Definition add (len : Z) (fb : FixedBuffer) : FixedBuffer :=
  mkFixedBuffer (m_cookie fb) (m_cur fb + len) (m_buff fb).
Definition reset (fb : FixedBuffer) : FixedBuffer :=
  mkFixedBuffer (m_cookie fb) 0 (m_buff fb).
Definition fb_length (fb : FixedBuffer) : Z := wrapU 64 (m_cur fb).
Definition current (fb : FixedBuffer) : Z := m_cur fb.
Definition bzero (fb : FixedBuffer) : FixedBuffer :=
  mkFixedBuffer (m_cookie fb) (m_cur fb) (replicate (Z.to_nat SIZE) NUL).
Definition asString (fb : FixedBuffer) : outcome bytes := read_at 0 (fb_length fb) (m_buff fb).

(** Storing bytes at the cursor without moving it. *)
Definition store (d : bytes) (fb : FixedBuffer) : outcome FixedBuffer :=
  v ← blit (current fb) d (m_buff fb); Ok (mkFixedBuffer (m_cookie fb) (m_cur fb) v).

(** append(line, len), [line] being the memory the pointer designates. *)
Definition append (line : bytes) (len : Z) (fb : FixedBuffer) : outcome (Z * FixedBuffer) :=
  if len <=? avail fb then
    d ← read_at 0 len line;
    fb ← store d fb;
    Ok (len, add len fb)
  else Ok (0, fb).

Definition appendPartial (line : bytes) (len : Z) (fb : FixedBuffer) : outcome (Z * FixedBuffer) :=
  if len <=? avail fb then
    d ← read_at 0 len line;
    fb ← store d fb;
    Ok (len, add len fb)
  else
    let nappend := avail fb in
    d ← read_at 0 nappend line;
    fb ← store d fb;
    Ok (nappend, add nappend fb).
End FixedBufferOps.

(** ** Number conversion *)

Definition digits : bytes := lit "9876543210123456789".
(** zero points at the '0' in the middle of digits: indices -9..9 are valid. *)
Definition zero (lsd : Z) : outcome ascii := index digits (9 + lsd).
Definition digitsHex : bytes := lit "0123456789ABCDEF".

(** The do-while loop of convert: the characters in the order they are stored. *)
Fixpoint convert_loop (fuel : nat) (i : Z) : outcome bytes :=
  match fuel with
  | O => Fault OutOfFuel
  | S f =>
      let lsd := Z.rem i 10 in
      let i := Z.quot i 10 in
      c ← zero lsd;
      rest ← (if negb (i =? 0) then convert_loop f i else Ok []);
      Ok (c :: rest)
  end.

(** The text left in buf by convert<T>(buf, value), which then holds a NUL
    after it.  20 iterations suffice for every 64-bit T. *)
Definition convert (value : Z) : outcome bytes :=
  p ← convert_loop 20 value;
  let p := if value <? 0 then p ++ ["-"%char] else p in
  Ok (rev p).

Fixpoint convertHex_loop (fuel : nat) (i : Z) : outcome bytes :=
  match fuel with
  | O => Fault OutOfFuel
  | S f =>
      let lsd := i mod 16 in
      let i := i / 16 in
      c ← index digitsHex lsd;
      rest ← (if negb (i =? 0) then convertHex_loop f i else Ok []);
      Ok (c :: rest)
  end.
Definition convertHex (value : Z) : outcome bytes :=
  p ← convertHex_loop 16 value; Ok (rev p).

(** ** LogStream *)

Record LogStream := mkLogStream { ls_buff : FixedBuffer }.

Definition kMaxNumericSize : Z := 32.

Definition LogStream_new (mem : bytes) : LogStream := mkLogStream (FixedBuffer_new mem).
Definition resetBuffer (s : LogStream) : LogStream := mkLogStream (reset (ls_buff s)).
Definition ls_avail (s : LogStream) : Z := avail kSmallBuffer (ls_buff s).

Definition formatInteger (value : Z) (s : LogStream) : outcome LogStream :=
  if kMaxNumericSize <=? ls_avail s then
    text ← convert value;
    fb ← store (text ++ [NUL]) (ls_buff s);
    Ok (mkLogStream (add (zlen text) fb))
  else Ok s.

(** LogStream::append; its result is discarded by every operator. *)
Definition ls_append (line : bytes) (len : Z) (s : LogStream) : outcome (Z * LogStream) :=
  '(n, fb) ← append kSmallBuffer line len (ls_buff s); Ok (n, mkLogStream fb).
Definition ls_put (line : bytes) (len : Z) (s : LogStream) : outcome LogStream :=
  '(_, s) ← ls_append line len s; Ok s.

Definition put_string (line : bytes) (s : LogStream) : outcome LogStream :=
  ls_put line (zlen line) s.
(** const char*: [mem] is the memory the pointer designates. *)
Definition put_cstr (mem : bytes) (s : LogStream) : outcome LogStream :=
  n ← strlen mem; ls_put mem n s.
Definition put_bool (b : bool) (s : LogStream) : outcome LogStream :=
  let c := if b then "1"%char else "0"%char in ls_put [c] 1 s.
Definition put_char (c : ascii) (s : LogStream) : outcome LogStream := ls_put [c] 1 s.
Definition put_uchar (uc : Z) (s : LogStream) : outcome LogStream :=
  let c := byte_of_Z uc in put_char c s.
Definition put_int (i : Z) (s : LogStream) : outcome LogStream := formatInteger i s.
Definition put_uint (ui : Z) (s : LogStream) : outcome LogStream := formatInteger ui s.
Definition put_short (x : Z) (s : LogStream) : outcome LogStream := put_int (wrapS 32 x) s.
Definition put_ushort (x : Z) (s : LogStream) : outcome LogStream := put_uint (wrapU 32 x) s.
Definition put_long (l : Z) (s : LogStream) : outcome LogStream := formatInteger l s.
Definition put_llong (ll : Z) (s : LogStream) : outcome LogStream := formatInteger ll s.
Definition put_ulong (ul : Z) (s : LogStream) : outcome LogStream := formatInteger ul s.
Definition put_ullong (ull : Z) (s : LogStream) : outcome LogStream := formatInteger ull s.

Section Floats.
(** Floating-point values, and the text of "%.12g". *)
Variable double : Type.
Variable fmt_12g : double -> bytes.

(** operator<<(float) calls itself; [fuel] bounds the depth of the recursion. *)
Fixpoint put_float (fuel : nat) (f : double) (s : LogStream) : outcome LogStream :=
  match fuel with O => Fault OutOfFuel | S n => put_float n f s end.

Definition put_double (d : double) (s : LogStream) : outcome LogStream :=
  if kMaxNumericSize <=? ls_avail s then
    let text := fmt_12g d in
    fb ← store (snprintf_stored (Z.to_nat kMaxNumericSize) text) (ls_buff s);
    Ok (mkLogStream (add (zlen text) fb))
  else Ok s.
End Floats.

Definition put_ptr (p : Z) (s : LogStream) : outcome LogStream :=
  let t := wrapU 64 p in
  if kMaxNumericSize <=? ls_avail s then
    s ← ls_put (lit "0x") 2 s;
    text ← convertHex t;
    fb ← store (text ++ [NUL]) (ls_buff s);
    Ok (mkLogStream (add (zlen text) fb))
  else Ok s.

(** Fmt: the 32-byte buffer filled by snprintf with [text], and its length. *)
Record Fmt := mkFmt { m_buf : bytes; m_len : Z }.
Definition Fmt_new (text : bytes) : outcome Fmt :=
  _ ← assert_ (zlen text <? 32); Ok (mkFmt (snprintf_stored 32 text) (zlen text)).
Definition put_Fmt (fmt : Fmt) (s : LogStream) : outcome LogStream :=
  ls_put (m_buf fmt) (m_len fmt) s.

(** ** The contract of a text buffer *)

Class TextSink (T : Type) := {
  sink_good : T -> Prop;
  sink_text : T -> bytes;
  sink_cap : Z;
  sink_put : bytes -> T -> outcome T;
  sink_put_ok : forall d t, sink_good t ->
    exists t', sink_put d t = Ok t' /\ sink_good t' /\
      sink_text t' = if zlen (sink_text t) + zlen d <=? sink_cap
                     then sink_text t ++ d else sink_text t;
  sink_bounded : forall t, sink_good t -> zlen (sink_text t) <= sink_cap
}.

(** A client that puts several pieces. *)
Fixpoint put_all `{TextSink T} (ds : list bytes) (t : T) : outcome T :=
  match ds with [] => Ok t | d :: ds => t ← sink_put d t; put_all ds t end.

(** The pieces of [ds] that fit, in order, when [used] bytes are taken. *)
Fixpoint fitting (cap used : Z) (ds : list bytes) : bytes :=
  match ds with
  | [] => []
  | d :: ds =>
      if used + zlen d <=? cap then d ++ fitting cap (used + zlen d) ds
      else fitting cap used ds
  end.

(** What a FixedBuffer<SIZE> holds. *)
Definition fb_text (fb : FixedBuffer) : bytes := slice 0 (m_cur fb) (m_buff fb).
Definition fb_good (SIZE : Z) (fb : FixedBuffer) : Prop :=
  zlen (m_buff fb) = SIZE /\ 0 <= m_cur fb <= SIZE /\ SIZE < 2 ^ 63.

(** append as a sink operation: the number of bytes appended is ignored. *)
Definition fixed_put (SIZE : Z) (d : bytes) (fb : FixedBuffer) : outcome FixedBuffer :=
  '(_, fb) ← append SIZE d (zlen d) fb; Ok fb.

Definition ls_good (s : LogStream) : Prop := fb_good kSmallBuffer (ls_buff s).
Definition ls_text (s : LogStream) : bytes := fb_text (ls_buff s).

(** A stream insertion: the text it adds, and the room it wants to see first. *)
Record piece := mkPiece { need : Z; repr : bytes }.

Definition text_piece (d : bytes) : piece := mkPiece (zlen d) d.
Definition number_piece (d : bytes) : piece := mkPiece kMaxNumericSize d.

(** [op] inserts the piece entirely or, when there is not room enough, nothing. *)
Definition inserts (op : LogStream -> outcome LogStream) (p : piece) : Prop :=
  zlen (repr p) <= need p /\
  forall s, ls_good s -> exists s', op s = Ok s' /\ ls_good s' /\
    ls_text s' = if zlen (ls_text s) + need p <=? kSmallBuffer
                 then ls_text s ++ repr p else ls_text s.

(** A chain of insertions s << a << b << ... *)
Fixpoint chain (ops : list (LogStream -> outcome LogStream)) (s : LogStream) : outcome LogStream :=
  match ops with [] => Ok s | op :: ops => s ← op s; chain ops s end.

(** The text a chain adds to a stream in which [used] bytes are taken. *)
Fixpoint inserted (used : Z) (ps : list piece) : bytes :=
  match ps with
  | [] => []
  | p :: ps =>
      if used + need p <=? kSmallBuffer then repr p ++ inserted (used + zlen (repr p)) ps
      else inserted used ps
  end.

(** Room that makes a chain fit whatever its pieces ask for. *)
Fixpoint total_need (ps : list piece) : Z :=
  match ps with [] => 0 | p :: ps => need p + total_need ps end.

(** The values the operators accept.  A const char* designates a C string. *)
Inductive item :=
| IString (d : bytes) | ICstr (d : bytes) | IBool (b : bool) | IChar (c : ascii) | IUChar (z : Z)
| IShort (z : Z) | IUShort (z : Z) | IInt (z : Z) | IUInt (z : Z) | ILong (z : Z) | IULong (z : Z)
| ILLong (z : Z) | IULLong (z : Z) | IPtr (p : Z).

(** A value of the C++ type. *)
Definition item_typed (i : item) : Prop :=
  match i with
  | ICstr d => NUL ∉ d
  | IUChar z => 0 <= z < 2 ^ 8
  | IShort z => - 2 ^ 15 <= z < 2 ^ 15
  | IUShort z => 0 <= z < 2 ^ 16
  | IInt z => - 2 ^ 31 <= z < 2 ^ 31
  | IUInt z => 0 <= z < 2 ^ 32
  | ILong z | ILLong z => - 2 ^ 63 <= z < 2 ^ 63
  | IULong z | IULLong z | IPtr z => 0 <= z < 2 ^ 64
  | IString _ | IBool _ | IChar _ => True
  end.

(** s << i. *)
Definition put_item (i : item) : LogStream -> outcome LogStream :=
  match i with
  | IString d => put_string d
  | ICstr d => put_cstr (d ++ [NUL])
  | IBool b => put_bool b
  | IChar c => put_char c
  | IUChar z => put_uchar z
  | IShort z => put_short z
  | IUShort z => put_ushort z
  | IInt z => put_int z
  | IUInt z => put_uint z
  | ILong z => put_long z
  | IULong z => put_ulong z
  | ILLong z => put_llong z
  | IULLong z => put_ullong z
  | IPtr p => put_ptr p
  end.

(** The text it stands for. *)
Definition item_piece (i : item) : piece :=
  match i with
  | IString d | ICstr d => text_piece d
  | IBool b => text_piece (lit (if b then "1" else "0"))
  | IChar c => text_piece [c]
  | IUChar z => text_piece [byte_of_Z z]
  | IShort z | IUShort z | IInt z | IUInt z | ILong z | IULong z | ILLong z | IULLong z =>
      number_piece (dec_of_Z z)
  | IPtr p => number_piece (lit "0x" ++ hex_of_Z p)
  end.

(** ** Lemmas *)

Lemma zlen_fb_text SIZE fb : fb_good SIZE fb -> zlen (fb_text fb) = m_cur fb.
Proof. intros (H1 & H2 & _). unfold fb_text. apply zlen_slice; lia. Qed.

Lemma avail_eq SIZE fb : fb_good SIZE fb -> avail SIZE fb = SIZE - m_cur fb.
Proof. intros (H1 & H2 & H3). apply wrapU_small. lia. Qed.

(** Storing [d] and [extra] at the cursor, then moving it over [d]. *)
Lemma store_add SIZE d extra fb : fb_good SIZE fb -> m_cur fb + zlen d + zlen extra <= SIZE ->
  exists fb', store (d ++ extra) fb = Ok fb' /\ fb_good SIZE (add (zlen d) fb') /\
    fb_text (add (zlen d) fb') = fb_text fb ++ d.
Proof.
  intros (H1 & H2 & H3) Hd. pose proof (zlen_nonneg d). pose proof (zlen_nonneg extra).
  unfold store, current. rewrite blit_ok by (rewrite ?zlen_app; lia). cbn [mbind outcome_bind].
  eexists. split; [done|]. split.
  - unfold fb_good. simpl. rewrite zlen_splice by (rewrite ?zlen_app; lia). lia.
  - unfold fb_text. simpl.
    pose proof (slice_splice_extend 0 (m_cur fb) (d ++ extra) (m_buff fb)) as E.
    rewrite zlen_app, !Z.sub_0_r in E. specialize (E ltac:(lia) ltac:(lia) ltac:(lia)).
    rewrite <- (take_slice 0 (m_cur fb + (zlen d + zlen extra)) _ (m_cur fb + zlen d)) by lia.
    rewrite E, app_assoc. rewrite take_app_le by (rewrite length_app; unfold zlen in *;
      pose proof (zlen_slice 0 (m_cur fb) (m_buff fb)) as Hz; unfold zlen in Hz; lia).
    apply take_ge. rewrite length_app.
    pose proof (zlen_slice 0 (m_cur fb) (m_buff fb)) as Hz. unfold zlen in *. lia.
Qed.

(** append is all or nothing. *)
Lemma fixed_append_ok SIZE line len fb : fb_good SIZE fb -> 0 <= len <= zlen line ->
  exists fb', append SIZE line len fb = Ok (if len <=? avail SIZE fb then len else 0, fb') /\
    fb_good SIZE fb' /\
    fb_text fb' = if zlen (fb_text fb) + len <=? SIZE
                  then fb_text fb ++ take (Z.to_nat len) line else fb_text fb.
Proof.
  intros H Hl. unfold append. rewrite (avail_eq SIZE fb H), (zlen_fb_text SIZE fb H).
  destruct (Z.leb_spec len (SIZE - m_cur fb)) as [Hle|Hgt].
  - rewrite read_at_ok by lia. cbn [mbind outcome_bind].
    assert (Hz : zlen (slice 0 len line) = len) by (apply zlen_slice; lia).
    destruct (store_add SIZE (slice 0 len line) [] fb H) as (fb' & E & G & T).
    { rewrite Hz, zlen_nil. lia. }
    rewrite app_nil_r in E. rewrite E, Hz in *. cbn [mbind outcome_bind].
    eexists. split; [done|]. split; [done|]. rewrite T. case_tests. done.
  - eexists. split; [done|]. split; [done|]. case_tests. done.
Qed.

Lemma appendPartial_ok SIZE line len fb : fb_good SIZE fb -> 0 <= len <= zlen line ->
  let n := Z.min len (avail SIZE fb) in
  exists fb', appendPartial SIZE line len fb = Ok (n, fb') /\ fb_good SIZE fb' /\
    fb_text fb' = fb_text fb ++ take (Z.to_nat n) line.
Proof.
  intros H Hl n. pose proof (avail_eq SIZE fb H) as Ha. pose proof H as (H1 & H2 & H3).
  assert (Hz : forall k, 0 <= k <= zlen line -> zlen (slice 0 k line) = k)
    by (intros; apply zlen_slice; lia).
  assert (Hs : forall k, 0 <= k <= zlen line -> k <= avail SIZE fb ->
    exists fb', (d ← read_at 0 k line; fb ← store d fb; Ok (k, add k fb)) = Ok (k, fb') /\
      fb_good SIZE fb' /\ fb_text fb' = fb_text fb ++ take (Z.to_nat k) line).
  { intros k Hk Hk'. rewrite read_at_ok by lia. cbn [mbind outcome_bind].
    destruct (store_add SIZE (slice 0 k line) [] fb H) as (fb' & E & G & T).
    { rewrite Hz, zlen_nil by lia. lia. }
    rewrite app_nil_r in E. rewrite E, Hz in * by lia. cbn [mbind outcome_bind]. eauto. }
  unfold appendPartial. destruct (Z.leb_spec len (avail SIZE fb)).
  - replace n with len by lia. apply Hs; lia.
  - replace n with (avail SIZE fb) by lia. apply Hs; lia.
Qed.

(** *** Number conversion *)

Lemma zero_eq lsd : -9 <= lsd <= 9 -> zero lsd = Ok (digit_char (Z.abs lsd)).
Proof.
  intros H. assert (exists k, (k <= 18)%nat /\ lsd = Z.of_nat k - 9) as (k & Hk & ->).
  { exists (Z.to_nat (lsd + 9)). lia. }
  do 19 (destruct k as [|k]; [reflexivity|]). lia.
Qed.

Lemma digitsHex_eq d : 0 <= d < 16 -> index digitsHex d = Ok (digit_char d).
Proof.
  intros H. assert (exists k, (k < 16)%nat /\ d = Z.of_nat k) as (k & Hk & ->).
  { exists (Z.to_nat d). lia. }
  do 16 (destruct k as [|k]; [reflexivity|]). lia.
Qed.

Lemma abs_quot_rem i : Z.abs (Z.quot i 10) = Z.abs i / 10 /\ Z.abs (Z.rem i 10) = Z.abs i mod 10.
Proof.
  rewrite <- Z.quot_div_nonneg, <- Z.rem_mod_nonneg by lia.
  rewrite <- (Z.quot_abs i 10), <- (Z.rem_abs i 10) by lia. done.
Qed.

Lemma convert_loop_ok f i : Z.abs i < 10 ^ Z.of_nat f -> (0 < f)%nat ->
  exists p, convert_loop f i = Ok p /\ rev p = digits_in 10 (num_fuel (Z.abs i)) (Z.abs i) [].
Proof.
  revert i. induction f as [|f IH]; intros i Hi Hf; [lia|]. cbn [convert_loop].
  destruct (abs_quot_rem i) as [Hq Hr].
  pose proof (Z.mod_pos_bound (Z.abs i) 10 ltac:(lia)).
  rewrite zero_eq by lia. cbn [mbind outcome_bind]. rewrite digits_in_step by lia.
  destruct (Z.eqb_spec (Z.quot i 10) 0) as [Hz|Hz]; cbn [negb mbind outcome_bind].
  - eexists. split; [done|]. rewrite Hr. rewrite Hz in Hq.
    destruct (Z.eqb_spec (Z.abs i / 10) 0); [done|lia].
  - assert (Hl : Z.abs (Z.quot i 10) < 10 ^ Z.of_nat f).
    { rewrite Hq. apply Z.div_lt_upper_bound; [lia|].
      rewrite Nat2Z.inj_succ, Z.pow_succ_r in Hi; lia. }
    destruct f as [|f]; [simpl in Hl; lia|].
    destruct (IH _ Hl ltac:(lia)) as (p & -> & Hp). cbn [mbind outcome_bind].
    eexists. split; [done|]. cbn [rev]. rewrite Hp, Hq, Hr.
    destruct (Z.eqb_spec (Z.abs i / 10) 0); [lia|done].
Qed.

Lemma convert_ok v : - 10 ^ 20 < v < 10 ^ 20 -> convert v = Ok (dec_of_Z v).
Proof.
  intros Hv. unfold convert, dec_of_Z.
  destruct (convert_loop_ok 20 v) as (p & -> & Hp); [simpl Z.of_nat; lia|lia|].
  cbn [mbind outcome_bind]. destruct (Z.ltb_spec v 0).
  - rewrite rev_app_distr, Hp, Z.abs_neq by lia. done.
  - rewrite Hp, Z.abs_eq by lia. done.
Qed.

Lemma convertHex_loop_ok f i : 0 <= i < 16 ^ Z.of_nat f -> (0 < f)%nat ->
  exists p, convertHex_loop f i = Ok p /\ rev p = digits_in 16 (num_fuel i) i [].
Proof.
  revert i. induction f as [|f IH]; intros i Hi Hf; [lia|]. cbn [convertHex_loop].
  pose proof (Z.mod_pos_bound i 16 ltac:(lia)).
  rewrite digitsHex_eq by lia. cbn [mbind outcome_bind]. rewrite digits_in_step by lia.
  destruct (Z.eqb_spec (i / 16) 0) as [Hz|Hz]; cbn [negb mbind outcome_bind].
  - eexists. done.
  - assert (Hl : 0 <= i / 16 < 16 ^ Z.of_nat f).
    { split; [apply Z.div_pos; lia|]. apply Z.div_lt_upper_bound; [lia|].
      rewrite Nat2Z.inj_succ, Z.pow_succ_r in Hi; lia. }
    destruct f as [|f]; [simpl in Hl; lia|].
    destruct (IH _ Hl ltac:(lia)) as (p & -> & Hp). cbn [mbind outcome_bind].
    eexists. split; [done|]. cbn [rev]. by rewrite Hp.
Qed.

Lemma convertHex_ok v : 0 <= v < 2 ^ 64 -> convertHex v = Ok (hex_of_Z v).
Proof.
  intros Hv. unfold convertHex, hex_of_Z.
  destruct (convertHex_loop_ok 16 v) as (p & -> & Hp); [simpl Z.of_nat; lia|lia|].
  cbn [mbind outcome_bind]. by rewrite Hp.
Qed.

Lemma zlen_dec v : - 10 ^ 20 < v < 10 ^ 20 -> 0 < zlen (dec_of_Z v) <= 21.
Proof. intros H. pose proof (length_dec_of_Z 20 v). unfold zlen. simpl Z.of_nat in *. lia. Qed.

Lemma zlen_hex v : 0 <= v < 2 ^ 64 -> 0 < zlen (hex_of_Z v) <= 16.
Proof.
  intros H. pose proof (length_digits_in 16 ltac:(lia) 16 v) as Hl. unfold zlen, hex_of_Z.
  simpl Z.of_nat in Hl. lia.
Qed.

(** *** FixedBuffer implements the contract *)

Lemma fixed_put_ok SIZE d fb : fb_good SIZE fb ->
  exists fb', fixed_put SIZE d fb = Ok fb' /\ fb_good SIZE fb' /\
    fb_text fb' = if zlen (fb_text fb) + zlen d <=? SIZE then fb_text fb ++ d else fb_text fb.
Proof.
  intros H. pose proof (zlen_nonneg d). unfold fixed_put.
  destruct (fixed_append_ok SIZE d (zlen d) fb H ltac:(lia)) as (fb' & -> & G & T).
  cbn [mbind outcome_bind]. exists fb'. rewrite take_all in T by lia. done.
Qed.

Lemma fixed_bounded SIZE fb : fb_good SIZE fb -> zlen (fb_text fb) <= SIZE.
Proof. intros H. rewrite (zlen_fb_text SIZE fb H). destruct H as (_ & ? & _). lia. Qed.

#[export] Instance fixed_sink (SIZE : Z) : TextSink FixedBuffer := {
  sink_good := fb_good SIZE;
  sink_text := fb_text;
  sink_cap := SIZE;
  sink_put := fixed_put SIZE;
  sink_put_ok := fixed_put_ok SIZE;
  sink_bounded := fixed_bounded SIZE
}.

(** A client of any sink never fails and keeps exactly the fitting pieces. *)
Lemma put_all_ok `{TextSink T} ds t : sink_good t ->
  exists t', put_all ds t = Ok t' /\ sink_good t' /\
    sink_text t' = sink_text t ++ fitting sink_cap (zlen (sink_text t)) ds.
Proof.
  revert t. induction ds as [|d ds IH]; intros t G; cbn [put_all fitting].
  - exists t. by rewrite app_nil_r.
  - destruct (sink_put_ok d t G) as (t1 & -> & G1 & T1). cbn [mbind outcome_bind].
    destruct (IH t1 G1) as (t2 & -> & G2 & T2). exists t2. split; [done|]. split; [done|].
    rewrite T2, T1. destruct (_ <=? _); [|done].
    by rewrite zlen_app, <- app_assoc.
Qed.

(** *** Insertions *)

Lemma ls_put_ok line len : 0 <= len <= zlen line ->
  inserts (ls_put line len) (text_piece (take (Z.to_nat len) line)).
Proof.
  intros Hl. pose proof (zlen_take len line Hl) as Hz. split; [simpl; lia|]. intros s G.
  unfold ls_put, ls_append.
  destruct (fixed_append_ok kSmallBuffer line len (ls_buff s) G Hl) as (fb' & -> & G' & T).
  cbn [mbind outcome_bind]. eexists. split; [done|]. split; [done|].
  unfold ls_text. simpl. by rewrite Hz, T.
Qed.

Lemma put_string_inserts d : inserts (put_string d) (text_piece d).
Proof.
  pose proof (zlen_nonneg d). pose proof (ls_put_ok d (zlen d) ltac:(lia)) as Hi.
  by rewrite take_all in Hi by lia.
Qed.

Lemma put_cstr_inserts d t : NUL ∉ d -> inserts (put_cstr (d ++ NUL :: t)) (text_piece d).
Proof.
  intros Hd. pose proof (zlen_nonneg d). split; [simpl; lia|]. intros s G.
  unfold put_cstr, strlen. rewrite c_string_app by done. cbn [mbind outcome_bind].
  pose proof (ls_put_ok (d ++ NUL :: t) (zlen d)) as [_ Hi].
  { rewrite zlen_app. pose proof (zlen_nonneg (NUL :: t)). lia. }
  specialize (Hi s G). unfold zlen in Hi at 3 4. rewrite Nat2Z.id, take_app_length in Hi. done.
Qed.

Lemma put_char_inserts c : inserts (put_char c) (text_piece [c]).
Proof. exact (put_string_inserts [c]). Qed.

Lemma put_bool_inserts b : inserts (put_bool b) (text_piece (lit (if b then "1" else "0"))).
Proof. destruct b; apply put_char_inserts. Qed.

(** Text and NUL stored at the cursor by a numeric insertion. *)
Lemma store_number text s : ls_good s -> 0 < zlen text < kMaxNumericSize ->
  zlen (ls_text s) + kMaxNumericSize <= kSmallBuffer ->
  exists fb', store (text ++ [NUL]) (ls_buff s) = Ok fb' /\
    ls_good (mkLogStream (add (zlen text) fb')) /\
    ls_text (mkLogStream (add (zlen text) fb')) = ls_text s ++ text.
Proof.
  intros G Ht Hr. unfold ls_text in *. rewrite (zlen_fb_text _ _ G) in Hr.
  apply (store_add kSmallBuffer text [NUL]); [done|]. unfold kMaxNumericSize, zlen in *. simpl. lia.
Qed.

Lemma ls_avail_eq s : ls_good s -> ls_avail s = kSmallBuffer - zlen (ls_text s).
Proof.
  intros G. unfold ls_avail, ls_text. by rewrite (zlen_fb_text _ _ G), (avail_eq _ _ G).
Qed.

Lemma formatInteger_inserts v : - 10 ^ 20 < v < 10 ^ 20 ->
  inserts (formatInteger v) (number_piece (dec_of_Z v)).
Proof.
  intros Hv. pose proof (zlen_dec v Hv) as Hl. unfold kMaxNumericSize in *.
  split; [cbn [need repr number_piece]; unfold kMaxNumericSize; lia|].
  intros s G. unfold formatInteger. rewrite (ls_avail_eq s G). cbn [need repr number_piece].
  destruct (Z.leb_spec kMaxNumericSize (kSmallBuffer - zlen (ls_text s))) as [Hle|Hgt].
  - rewrite convert_ok by done. cbn [mbind outcome_bind].
    destruct (store_number (dec_of_Z v) s G) as (fb' & -> & G' & T);
      [unfold kMaxNumericSize; lia|lia|].
    cbn [mbind outcome_bind]. eexists. split; [done|]. split; [done|]. rewrite T.
    case_tests. done.
  - exists s. split; [done|]. split; [done|]. case_tests. done.
Qed.

Lemma put_ptr_inserts p : 0 <= p < 2 ^ 64 ->
  inserts (put_ptr p) (number_piece (lit "0x" ++ hex_of_Z p)).
Proof.
  intros Hp. pose proof (zlen_hex p Hp) as Hl.
  assert (H2 : zlen (lit "0x") = 2) by done.
  split; [cbn [need repr number_piece]; rewrite zlen_app; unfold kMaxNumericSize; lia|].
  intros s G. unfold put_ptr. rewrite wrapU_small, (ls_avail_eq s G) by lia.
  cbn [need repr number_piece].
  destruct (Z.leb_spec kMaxNumericSize (kSmallBuffer - zlen (ls_text s))) as [Hle|Hgt].
  - unfold kMaxNumericSize in *.
    destruct (put_string_inserts (lit "0x")) as [_ Hi].
    destruct (Hi s G) as (s1 & E1 & G1 & T1). unfold put_string in E1. rewrite H2 in E1.
    rewrite E1. cbn [mbind outcome_bind]. rewrite convertHex_ok by done. cbn [mbind outcome_bind].
    cbn [need repr text_piece] in T1. rewrite H2 in T1.
    destruct (Z.leb_spec (zlen (ls_text s) + 2) kSmallBuffer); [|lia].
    pose proof (zlen_app (ls_text s) (lit "0x")) as Hz. rewrite <- T1 in Hz.
    destruct (store_add kSmallBuffer (hex_of_Z p) [NUL] (ls_buff s1) G1) as (fb' & -> & G' & T).
    { rewrite <- (zlen_fb_text _ _ G1). unfold ls_text in Hz. rewrite Hz. change (zlen [NUL]) with 1.
      unfold ls_text in *. lia. }
    cbn [mbind outcome_bind]. eexists. split; [done|]. split; [done|].
    case_tests. unfold ls_text at 1. simpl ls_buff. rewrite T.
    change (fb_text (ls_buff s1)) with (ls_text s1). by rewrite T1, <- app_assoc.
  - exists s. split; [done|]. split; [done|]. case_tests. done.
Qed.

Lemma put_double_inserts {double} (fmt_12g : double -> bytes) d :
  0 < zlen (fmt_12g d) < kMaxNumericSize ->
  inserts (put_double double fmt_12g d) (number_piece (fmt_12g d)).
Proof.
  intros Hl. split; [cbn [need repr number_piece]; lia|]. intros s G. unfold put_double. rewrite (ls_avail_eq s G).
  cbn [need repr number_piece].
  destruct (Z.leb_spec kMaxNumericSize (kSmallBuffer - zlen (ls_text s))) as [Hle|Hgt].
  - rewrite snprintf_fits by lia.
    destruct (store_number (fmt_12g d) s G Hl ltac:(lia)) as (fb' & -> & G' & T).
    cbn [mbind outcome_bind]. eexists. split; [done|]. split; [done|]. rewrite T.
    case_tests. done.
  - exists s. split; [done|]. split; [done|]. case_tests. done.
Qed.

Lemma put_Fmt_inserts text fmt : Fmt_new text = Ok fmt -> inserts (put_Fmt fmt) (text_piece text).
Proof.
  unfold Fmt_new, assert_. destruct (Z.ltb_spec (zlen text) 32); [|done].
  cbn [mbind outcome_bind]. intros E. pose proof (zlen_nonneg text).
  assert (fmt = mkFmt (snprintf_stored 32 text) (zlen text)) as -> by congruence.
  pose proof (ls_put_ok (snprintf_stored 32 text) (zlen text)) as Hi.
  unfold put_Fmt. cbn [m_buf m_len]. rewrite snprintf_fits in * by (simpl; lia).
  rewrite zlen_app in Hi. change (zlen [NUL]) with 1 in Hi.
  specialize (Hi ltac:(lia)).
  unfold zlen in Hi at 2. by rewrite Nat2Z.id, take_app_length in Hi.
Qed.

Lemma asString_text s text : ls_good s -> ls_text s = text -> asString (ls_buff s) = Ok text.
Proof.
  intros (Hz & Hcur & Hsz) <-. unfold asString, fb_length, ls_text, fb_text. unfold kSmallBuffer in *.
  rewrite wrapU_small; [apply read_at_ok; lia|].
  split; [lia|]. apply Z.le_lt_trans with 4000; [lia|reflexivity].
Qed.

(** *** Chains of insertions *)

Lemma chain_ok ops ps s : Forall2 inserts ops ps -> ls_good s ->
  exists s', chain ops s = Ok s' /\ ls_good s' /\
    ls_text s' = ls_text s ++ inserted (zlen (ls_text s)) ps.
Proof.
  intros F. revert s. induction F as [|op p ops ps [Hn Hi] F IH]; intros s G;
    cbn [chain inserted].
  - exists s. by rewrite app_nil_r.
  - destruct (Hi s G) as (s1 & -> & G1 & T1). cbn [mbind outcome_bind].
    destruct (IH s1 G1) as (s2 & -> & G2 & T2). exists s2. split; [done|]. split; [done|].
    rewrite T2, T1. destruct (_ <=? _); [|done]. by rewrite zlen_app, <- app_assoc.
Qed.

Lemma inserted_all used ps : Forall (fun p => 0 <= zlen (repr p) <= need p) ps ->
  used + total_need ps <= kSmallBuffer -> inserted used ps = concat (map repr ps).
Proof.
  intros F. revert used. induction F as [|p ps Hp F IH]; intros used Hu; cbn [inserted total_need] in *;
    [done|].
  assert (0 <= total_need ps).
  { clear -F. induction F; simpl; lia. }
  destruct (Z.leb_spec (used + need p) kSmallBuffer); [|lia].
  cbn [map concat]. rewrite IH by lia. done.
Qed.

Lemma put_item_inserts i : item_typed i -> inserts (put_item i) (item_piece i).
Proof.
  destruct i; cbn [item_typed put_item item_piece]; intros H;
    auto using put_string_inserts, put_cstr_inserts, put_bool_inserts, put_char_inserts,
      put_ptr_inserts.
  - apply put_char_inserts.
  - unfold put_short, put_int. rewrite wrapS_small by lia. apply formatInteger_inserts. lia.
  - unfold put_ushort, put_uint. rewrite wrapU_small by lia. apply formatInteger_inserts. lia.
  - apply formatInteger_inserts. lia.
  - apply formatInteger_inserts. lia.
  - apply formatInteger_inserts. lia.
  - apply formatInteger_inserts. lia.
  - apply formatInteger_inserts. lia.
  - apply formatInteger_inserts. lia.
Qed.

Lemma put_items_inserts its : Forall item_typed its ->
  Forall2 inserts (map put_item its) (map item_piece its).
Proof. induction 1; simpl; constructor; auto using put_item_inserts. Qed.

Lemma inserts_sizes ops ps : Forall2 inserts ops ps ->
  Forall (fun p => 0 <= zlen (repr p) <= need p) ps.
Proof.
  induction 1 as [|op p ops ps [Hn _]]; constructor; [|done].
  pose proof (zlen_nonneg (repr p)). lia.
Qed.

(** ** Properties *)



(** C19. A chain of stream insertions s << a << b << ... of any typed values
    never writes outside the 4000-byte buffer and never inserts part of a
    value: each value appears in full or is dropped, in order, and when the
    room the values ask for is available the text is their concatenation. *)
Theorem stream_insertions its s : Forall item_typed its -> ls_good s ->
  exists s', chain (map put_item its) s = Ok s' /\ ls_good s' /\
    ls_text s' = ls_text s ++ inserted (zlen (ls_text s)) (map item_piece its) /\
    (zlen (ls_text s) + total_need (map item_piece its) <= kSmallBuffer ->
     ls_text s' = ls_text s ++ concat (map repr (map item_piece its))).
Proof.
  intros Hi G. pose proof (put_items_inserts its Hi) as F.
  destruct (chain_ok _ _ s F G) as (s' & E & G' & T). exists s'.
  repeat split; try done; try apply G'. intros Hr. rewrite T.
  f_equal. apply inserted_all; [by eapply inserts_sizes|done].
Qed.

Lemma stream_insertions_witness :
  let s := LogStream_new (replicate 4000 "?"%char) in
  let its := [IInt 10; ICstr (lit "-"); IInt (-20); IBool true; IPtr 0; IULLong (2 ^ 64 - 1)] in
  concat (map repr (map item_piece its)) = lit "10--2010x018446744073709551615" /\
  exists s', chain (map put_item its) s = Ok s' /\ ls_good s' /\
    ls_text s' = ls_text s ++ inserted (zlen (ls_text s)) (map item_piece its) /\
    (zlen (ls_text s) + total_need (map item_piece its) <= kSmallBuffer ->
     ls_text s' = ls_text s ++ concat (map repr (map item_piece its))).
Proof.
  split; [vm_compute; reflexivity|]. apply stream_insertions.
  - repeat constructor; simpl; try lia.
    apply (bool_decide_unpack (NUL ∉ lit "-")). vm_compute. exact I.
  - vm_compute. intuition discriminate.
Defined.

(** The cookie, which tells live buffers from dead ones in a core dump, is set
    from the constructor to the destructor, whatever the buffer is used for. *)
Lemma cookie_kept SIZE line len fb :
  m_cookie (reset fb) = m_cookie fb /\ m_cookie (bzero SIZE fb) = m_cookie fb /\
  (forall n fb', append SIZE line len fb = Ok (n, fb') -> m_cookie fb' = m_cookie fb) /\
  (forall n fb', appendPartial SIZE line len fb = Ok (n, fb') -> m_cookie fb' = m_cookie fb) /\
  m_cookie (FixedBuffer_delete fb) = cookieEnd.
Proof.
  split_and!; try done; unfold append, appendPartial, store; intros n fb'; unfold_monad;
    repeat case_match; intros; simplify_eq; done.
Qed.

(** C20. FixedBuffer::append copies all of the data or none of it and returns how
    much it copied; appendPartial copies as long a prefix as fits; neither
    touches memory outside the array, whatever its SIZE. *)
Theorem fixed_buffer_append SIZE line len fb : fb_good SIZE fb -> 0 <= len <= zlen line ->
  (exists fb', append SIZE line len fb = Ok (if len <=? avail SIZE fb then len else 0, fb') /\
     fb_good SIZE fb' /\
     fb_text fb' = if len <=? avail SIZE fb
                   then fb_text fb ++ take (Z.to_nat len) line else fb_text fb) /\
  (let n := Z.min len (avail SIZE fb) in
   exists fb', appendPartial SIZE line len fb = Ok (n, fb') /\ fb_good SIZE fb' /\
     fb_text fb' = fb_text fb ++ take (Z.to_nat n) line).
Proof.
  intros G Hl. split; [|by apply appendPartial_ok].
  destruct (fixed_append_ok SIZE line len fb G Hl) as (fb' & E & G' & T). exists fb'.
  split; [done|]. split; [done|]. rewrite T, (zlen_fb_text SIZE fb G), (avail_eq SIZE fb G).
  case_tests; done.
Qed.

Lemma fixed_buffer_append_witness :
  let fb := mkFixedBuffer cookieStart 6 (lit "123456????") in
  let line := lit "123456" in
  (exists fb', append 10 line 6 fb = Ok (if 6 <=? avail 10 fb then 6 else 0, fb') /\
     fb_good 10 fb' /\
     fb_text fb' = if 6 <=? avail 10 fb
                   then fb_text fb ++ take (Z.to_nat 6) line else fb_text fb) /\
  (let n := Z.min 6 (avail 10 fb) in
   exists fb', appendPartial 10 line 6 fb = Ok (n, fb') /\ fb_good 10 fb' /\
     fb_text fb' = fb_text fb ++ take (Z.to_nat n) line).
Proof. apply fixed_buffer_append; vm_compute; intuition discriminate. Defined.

(** operator<<(float) never returns: its recursion does not end at any depth. *)
Lemma put_float_diverges {double} (f : double) s fuel :
  put_float double fuel f s = Fault OutOfFuel.
Proof. by induction fuel. Qed.
