(* ===== verification/Date.v ===== *)
(** Calendar dates: base/Date.h and base/Date.cc.

    A [Date] is its Julian day number.  The arithmetic of getJulianDayNum and
    getYearMonthDay is that of C ints: every operation faults on overflow and
    division truncates.  The references are the Gregorian rules themselves:
    [is_leap], [days_of_month], [valid_ymd], the successor [next_day] and the order
    [ymd_lt]. *)
From Stdlib Require Import ZArith Lia Ascii String.
From stdpp Require Import base list strings.
From S2P Require Import Prelude.
From S2P Require Import CLib.

#[local] Open Scope Z_scope.

Record YearMonthDay := mkYMD { ymd_year : Z; ymd_month : Z; ymd_day : Z }.

(** The fields of struct tm that the sources read. *)
Record tm := mkTm {
  tm_sec : Z; tm_min : Z; tm_hour : Z; tm_mday : Z; tm_mon : Z; tm_year : Z
}.

Definition getJulianDayNum (year month day : Z) : outcome Z :=
  a ← (t ← isub 14 month; idiv t 12);
  y ← (t ← iadd year 4800; isub t a);
  m ← (t ← imul 12 a; t ← iadd month t; isub t 3);
  u ← (t ← imul 153 m; t ← iadd t 2; idiv t 5);
  r ← iadd day u;
  u ← imul y 365;
  r ← iadd r u;
  u ← idiv y 4;
  r ← iadd r u;
  u ← idiv y 100;
  r ← isub r u;
  u ← idiv y 400;
  r ← iadd r u;
  isub r 32045.

Definition getYearMonthDay (julianDayNumber : Z) : outcome YearMonthDay :=
  a ← iadd julianDayNumber 32044;
  b ← (t ← imul 4 a; t ← iadd t 3; idiv t 146097);
  c ← (t ← imul b 146097; t ← idiv t 4; isub a t);
  d ← (t ← imul 4 c; t ← iadd t 3; idiv t 1461);
  e ← (t ← imul 1461 d; t ← idiv t 4; isub c t);
  m ← (t ← imul 5 e; t ← iadd t 2; idiv t 153);
  day ← (t ← imul 153 m; t ← iadd t 2; t ← idiv t 5; t ← isub e t; iadd t 1);
  q ← idiv m 10;
  month ← (u ← imul 12 q; t ← iadd m 3; isub t u);
  year ← (t ← imul b 100; t ← iadd t d; t ← isub t 4800; iadd t q);
  Ok (mkYMD year month day).

Record Date := mkDate { m_nJulianDayNum : Z }.

Definition NumDaysPerWeek : Z := 7.
Definition JulianDayOf1970_01_01 : outcome Z := getJulianDayNum 1970 1 1.

Definition Date_default : Date := mkDate 0.
Definition Date_of_ymd (iyear imonth iday : Z) : outcome Date :=
  j ← getJulianDayNum iyear imonth iday; Ok (mkDate j).
Definition Date_of_tm (t : tm) : outcome Date :=
  y ← iadd (tm_year t) 1900;
  m ← iadd (tm_mon t) 1;
  j ← getJulianDayNum y m (tm_mday t);
  Ok (mkDate j).

Definition julianDayNumber (d : Date) : Z := m_nJulianDayNum d.
Definition toYearMonthDay (d : Date) : outcome YearMonthDay := getYearMonthDay (m_nJulianDayNum d).
Definition year (d : Date) : outcome Z := ymd ← toYearMonthDay d; Ok (ymd_year ymd).
Definition month (d : Date) : outcome Z := ymd ← toYearMonthDay d; Ok (ymd_month ymd).
Definition day (d : Date) : outcome Z := ymd ← toYearMonthDay d; Ok (ymd_day ymd).
Definition valid (d : Date) : bool := 0 <? m_nJulianDayNum d.
Definition weekDay (d : Date) : outcome Z :=
  t ← iadd (julianDayNumber d) 1; irem t NumDaysPerWeek.
Definition date_lt (a b : Date) : bool := julianDayNumber a <? julianDayNumber b.
Definition date_eq (a b : Date) : bool := julianDayNumber a =? julianDayNumber b.

(** snprintf(buf, 32, "%4d-%02d-%02d", ...): the string left in buf. *)
Definition toString (d : Date) : outcome bytes :=
  ymd ← toYearMonthDay d;
  c_string (snprintf_stored 32
    (fmt_wd 4 (ymd_year ymd) ++ lit "-" ++ fmt_0wd 2 (ymd_month ymd) ++ lit "-" ++
     fmt_0wd 2 (ymd_day ymd))).

(** ** The Gregorian calendar *)

Definition is_leap (y : Z) : bool :=
  if y mod 400 =? 0 then true else if y mod 100 =? 0 then false else y mod 4 =? 0.

Definition days_of_month (y m : Z) : Z :=
  if m =? 2 then (if is_leap y then 29 else 28)
  else if (m =? 4) || (m =? 6) || (m =? 9) || (m =? 11) then 30 else 31.

Definition valid_ymd (d : YearMonthDay) : Prop :=
  1 <= ymd_month d <= 12 /\ 1 <= ymd_day d <= days_of_month (ymd_year d) (ymd_month d).

(** The years for which 32-bit arithmetic and truncating division are exact. *)
Definition in_range (d : YearMonthDay) : Prop := -4799 <= ymd_year d <= 1465000.

Definition next_day (d : YearMonthDay) : YearMonthDay :=
  if ymd_day d <? days_of_month (ymd_year d) (ymd_month d)
  then mkYMD (ymd_year d) (ymd_month d) (ymd_day d + 1)
  else if ymd_month d <? 12 then mkYMD (ymd_year d) (ymd_month d + 1) 1
  else mkYMD (ymd_year d + 1) 1 1.

(** Years counted from March: the shift both conversions work with. *)
Definition shift_a (m : Z) : Z := (14 - m) / 12.
Definition shift_y (y m : Z) : Z := y + 4800 - shift_a m.
Definition shift_m (m : Z) : Z := m + 12 * shift_a m - 3.

(** Days before the first of the shifted month, and before the shifted year. *)
Definition month_offset (m : Z) : Z := (153 * m + 2) / 5.
Definition year_offset (y : Z) : Z := y * 365 + y / 4 - y / 100 + y / 400.

(** The exact value of getJulianDayNum. *)
Definition julian (d : YearMonthDay) : Z :=
  ymd_day d + month_offset (shift_m (ymd_month d)) + year_offset (shift_y (ymd_year d) (ymd_month d))
  - 32045.

(** The exact value of getYearMonthDay. *)
Definition civil (j : Z) : YearMonthDay :=
  let a := j + 32044 in
  let b := (4 * a + 3) / 146097 in
  let c := a - b * 146097 / 4 in
  let d := (4 * c + 3) / 1461 in
  let e := c - 1461 * d / 4 in
  let m := (5 * e + 2) / 153 in
  mkYMD (b * 100 + d - 4800 + m / 10) (m + 3 - 12 * (m / 10)) (e - (153 * m + 2) / 5 + 1).

(** ** Lemmas *)

(** Discharge linear goals with divisions by constants. *)
Ltac divlia := Z.to_euclidean_division_equations; lia.

Lemma ckS32 z : - 2147483648 <= z <= 2147483647 -> ckS 32 z = Ok z.
Proof. intros H. apply ckS_ok. simpl. lia. Qed.

Lemma idiv_nonneg a b : 0 <= a <= 2147483647 -> 0 < b -> idiv a b = Ok (a / b).
Proof.
  intros Ha Hb. unfold idiv. destruct (Z.eqb_spec b 0); [lia|].
  rewrite Z.quot_div_nonneg by lia.
  pose proof (Z.div_pos a b ltac:(lia) Hb). pose proof (Z.div_le_upper_bound a b a Hb ltac:(nia)).
  apply ckS32. lia.
Qed.

Lemma iadd_ok a b : - 2147483648 <= a + b <= 2147483647 -> iadd a b = Ok (a + b).
Proof. apply ckS32. Qed.
Lemma isub_ok a b : - 2147483648 <= a - b <= 2147483647 -> isub a b = Ok (a - b).
Proof. apply ckS32. Qed.
Lemma imul_ok a b : - 2147483648 <= a * b <= 2147483647 -> imul a b = Ok (a * b).
Proof. apply ckS32. Qed.

(** Evaluate the arithmetic steps whose operands are known to be small. *)
Ltac int_steps :=
  repeat (first [ rewrite iadd_ok by divlia | rewrite isub_ok by divlia
                | rewrite imul_ok by divlia | rewrite idiv_nonneg by divlia ];
          cbn [mbind outcome_bind]).

Lemma month_cases m : 1 <= m <= 12 ->
  m = 1 \/ m = 2 \/ m = 3 \/ m = 4 \/ m = 5 \/ m = 6 \/ m = 7 \/ m = 8 \/ m = 9 \/ m = 10
  \/ m = 11 \/ m = 12.
Proof. lia. Qed.

Lemma days_of_month_bounds y m : 28 <= days_of_month y m <= 31.
Proof. unfold days_of_month. repeat case_match; lia. Qed.

(** It is exact for the days of every month taken as long as 31 days. *)
Lemma getJulianDayNum_value d : 1 <= ymd_month d <= 12 -> 1 <= ymd_day d <= 31 -> in_range d ->
  getJulianDayNum (ymd_year d) (ymd_month d) (ymd_day d) = Ok (julian d).
Proof.
  intros Hm Hd Hr. destruct d as [y m dd]. unfold in_range in Hr. simpl in *.
  unfold getJulianDayNum, julian, month_offset, year_offset, shift_m, shift_y. simpl.
  rewrite isub_ok by lia. cbn [mbind outcome_bind].
  rewrite idiv_nonneg by lia. cbn [mbind outcome_bind]. fold (shift_a m).
  assert (Ha : 0 <= shift_a m <= 1) by (unfold shift_a; divlia).
  assert (Hs : 0 <= m + 12 * shift_a m - 3 <= 11) by (unfold shift_a; divlia).
  generalize dependent (shift_a m). intros a Ha Hs. int_steps. f_equal. lia.
Qed.

Lemma getJulianDayNum_ok d : valid_ymd d -> in_range d ->
  getJulianDayNum (ymd_year d) (ymd_month d) (ymd_day d) = Ok (julian d).
Proof.
  intros [Hm Hd] Hr. pose proof (days_of_month_bounds (ymd_year d) (ymd_month d)).
  apply getJulianDayNum_value; [done|lia|done].
Qed.

(** The Julian day numbers the conversion back is exact for. *)
Definition jdn_range (j : Z) : Prop := -32044 <= j <= 536838866.

(** Bounds of the intermediate values of [civil]. *)
Lemma civil_bounds a : 0 <= a <= 536870910 ->
  let b := (4 * a + 3) / 146097 in
  let c := a - b * 146097 / 4 in
  let d := (4 * c + 3) / 1461 in
  let e := c - 1461 * d / 4 in
  0 <= b <= 14699 /\ 0 <= c <= 36524 /\ 0 <= d <= 99 /\ 0 <= e <= 365 /\
  (e = 365 -> d mod 4 = 3 /\ (d = 99 -> b mod 4 = 3)).
Proof.
  intros Ha b c d e.
  assert (Hb : 0 <= b <= 14699) by (unfold b; divlia).
  assert (Hc : 0 <= c <= 36524 /\ (c = 36524 -> b mod 4 = 3)) by (unfold c, b; divlia).
  assert (Hd : 0 <= d <= 99) by (unfold d; divlia).
  assert (He : 0 <= e <= 365 /\ (e = 365 -> d mod 4 = 3)) by (unfold e, d; divlia).
  assert (Hx : e = 365 -> d = 99 -> b mod 4 = 3).
  { intros H1 H2. apply Hc. unfold e in H1. rewrite H2 in H1. clear -H1 Hc. divlia. }
  clearbody b c d e. intuition lia.
Qed.

Lemma getYearMonthDay_ok j : jdn_range j -> getYearMonthDay j = Ok (civil j).
Proof.
  unfold jdn_range. intros H. unfold getYearMonthDay, civil.
  pose proof (civil_bounds (j + 32044) ltac:(lia)) as Hb. cbv zeta in Hb.
  rewrite iadd_ok by lia. cbn [mbind outcome_bind]. cbv zeta.
  assert (Ha : 0 <= j + 32044 <= 536870910) by lia.
  set (a := j + 32044) in *. clearbody a. clear H.
  rewrite imul_ok by lia. cbn [mbind outcome_bind]. rewrite iadd_ok by lia. cbn [mbind outcome_bind].
  rewrite idiv_nonneg by lia. cbn [mbind outcome_bind].
  set (b := (4 * a + 3) / 146097) in *. destruct Hb as (Hb & Hc & Hd & He & _). clearbody b.
  rewrite (imul_ok b 146097) by lia. cbn [mbind outcome_bind].
  rewrite idiv_nonneg by lia. cbn [mbind outcome_bind]. rewrite isub_ok by lia. cbn [mbind outcome_bind].
  set (c := a - b * 146097 / 4) in *. clearbody c. clear a Ha.
  rewrite (imul_ok 4 c) by lia. cbn [mbind outcome_bind]. rewrite (iadd_ok (4 * c) 3) by lia. cbn [mbind outcome_bind].
  rewrite idiv_nonneg by lia. cbn [mbind outcome_bind].
  set (d := (4 * c + 3) / 1461) in *. clearbody d.
  rewrite (imul_ok 1461 d) by lia. cbn [mbind outcome_bind].
  rewrite idiv_nonneg by lia. cbn [mbind outcome_bind]. rewrite isub_ok by lia. cbn [mbind outcome_bind].
  set (e := c - 1461 * d / 4) in *. clearbody e. clear c Hc.
  rewrite (imul_ok 5 e) by lia. cbn [mbind outcome_bind]. rewrite (iadd_ok (5 * e) 2) by lia. cbn [mbind outcome_bind].
  rewrite idiv_nonneg by lia. cbn [mbind outcome_bind].
  assert (Hm : 0 <= (5 * e + 2) / 153 <= 11) by divlia.
  assert (Hmd : 0 <= (153 * ((5 * e + 2) / 153) + 2) / 5 <= e) by divlia.
  set (m := (5 * e + 2) / 153) in *. clearbody m.
  int_steps. done.
Qed.

(** *** The two conversions are inverse to each other *)

Lemma is_leap_mod y : is_leap y = true <-> y mod 4 = 0 /\ (y mod 100 = 0 -> y mod 400 = 0).
Proof.
  unfold is_leap. destruct (Z.eqb_spec (y mod 400) 0), (Z.eqb_spec (y mod 100) 0),
    (Z.eqb_spec (y mod 4) 0); split; try done; intros; divlia.
Qed.

(** Day of the year counted from March 1st, and the room in a shifted year. *)
Lemma day_of_year_bound y m d : 1 <= m <= 12 -> 1 <= d <= days_of_month y m ->
  let M := shift_m m in
  0 <= M <= 11 /\ 0 <= d - 1 + month_offset M <= 365 /\
  (d - 1 + month_offset M = 365 -> is_leap (shift_y y m + 1 - 4800) = true) /\
  (5 * (d - 1 + month_offset M) + 2) / 153 = M /\
  m = M + 3 - 12 * (M / 10) /\ shift_a m = M / 10.
Proof.
  intros Hm Hd. cbv zeta. unfold days_of_month in Hd.
  assert (Hl : is_leap y = true \/ is_leap y = false) by (destruct (is_leap y); auto).
  destruct (month_cases m Hm) as [-> | [-> | [-> | [-> | [-> | [-> | [-> | [-> | [-> | [-> | [-> | ->]]]]]]]]]]];
    unfold shift_y, shift_m, shift_a, month_offset in *; simpl in *.
  all: try (repeat split; try divlia; fail).
  destruct Hl as [Hl|Hl]; rewrite Hl in Hd.
  - repeat split; try divlia. intros _. rewrite <- Hl. f_equal. divlia.
  - repeat split; try divlia.
Qed.

Lemma year_split Y k : 0 <= Y -> 0 <= k <= 365 -> (k = 365 -> is_leap (Y + 1 - 4800) = true) ->
  let a := year_offset Y + k in
  let b := (4 * a + 3) / 146097 in
  let c := a - b * 146097 / 4 in
  let d := (4 * c + 3) / 1461 in
  b = Y / 100 /\ d = Y mod 100 /\ c - 1461 * d / 4 = k.
Proof.
  intros HY Hk Hl. cbv zeta. rewrite is_leap_mod in Hl.
  pose proof (Z.div_mod Y 100 ltac:(lia)) as HD.
  pose proof (Z.mod_pos_bound Y 100 ltac:(lia)) as Hr.
  set (q := Y / 100) in *. set (r := Y mod 100) in *.
  assert (Hoff : year_offset Y = 146097 * q / 4 + 365 * r + r / 4).
  { unfold year_offset. clear Hl. clearbody q r. subst Y. divlia. }
  assert (Hlp : k = 365 -> r mod 4 = 3 /\ (r = 99 -> q mod 4 = 3)).
  { intros E. specialize (Hl E). clear Hoff. clearbody q r. subst Y. clear -Hl Hr. divlia. }
  rewrite Hoff. clear Hl Hoff. clearbody q r.
  assert (Hb : (4 * (146097 * q / 4 + 365 * r + r / 4 + k) + 3) / 146097 = q).
  { symmetry. apply Z.div_unique with
      (r := 4 * (146097 * q / 4 + 365 * r + r / 4 + k) + 3 - 146097 * q); [left|lia].
    clear HD. divlia. }
  rewrite Hb. replace (q * 146097) with (146097 * q) by lia.
  replace (146097 * q / 4 + 365 * r + r / 4 + k - 146097 * q / 4) with (365 * r + r / 4 + k) by lia.
  assert (Hd : (4 * (365 * r + r / 4 + k) + 3) / 1461 = r).
  { symmetry. apply Z.div_unique with
      (r := 4 * (365 * r + r / 4 + k) + 3 - 1461 * r); [left|lia]. divlia. }
  rewrite Hd. repeat split. divlia.
Qed.

Lemma civil_julian d : valid_ymd d -> in_range d -> civil (julian d) = d.
Proof.
  intros [Hm Hd] Hr. destruct d as [y m dd]. unfold in_range in Hr. simpl in *.
  pose proof (day_of_year_bound y m dd Hm Hd) as (HM & Hk & Hl & HMk & Hmm & Ha).
  set (M := shift_m m) in *. set (k := dd - 1 + month_offset M) in *.
  assert (HY : 0 <= shift_y y m) by (unfold shift_y, shift_a; divlia).
  pose proof (year_split (shift_y y m) k HY Hk Hl) as (Hb & Hdd & He).
  unfold civil, julian. simpl.
  replace (dd + month_offset (shift_m m) + year_offset (shift_y y m) - 32045 + 32044)
    with (year_offset (shift_y y m) + k) by (unfold k, M; lia).
  cbv zeta. rewrite Hb in *. rewrite Hdd in *. rewrite He, HMk. f_equal.
  - rewrite <- Ha. unfold shift_y. pose proof (Z.div_mod (y + 4800 - shift_a m) 100). lia.
  - lia.
  - unfold k, month_offset. lia.
Qed.

Lemma julian_range d : valid_ymd d -> in_range d -> jdn_range (julian d).
Proof.
  intros [Hm Hd] Hr. destruct d as [y m dd]. unfold in_range, jdn_range, julian in *. simpl in *.
  pose proof (days_of_month_bounds y m).
  unfold month_offset, year_offset, shift_m, shift_y, shift_a. divlia.
Qed.

(** The day numbers of the dates in range: -4799-01-01 to 1465000-12-31. *)
Definition jdn_exact (j : Z) : Prop := -31738 <= j <= 536801687.

Lemma civil_inverse j : jdn_exact j ->
  valid_ymd (civil j) /\ in_range (civil j) /\ julian (civil j) = j.
Proof.
  unfold jdn_exact. intros Hj. unfold civil.
  pose proof (civil_bounds (j + 32044) ltac:(lia)) as Hb. cbv zeta in *.
  assert (Ha : 306 <= j + 32044 <= 536833731) by lia.
  set (a := j + 32044) in *. assert (Hja : j = a - 32044) by (unfold a; lia).
  clearbody a. clear Hj.
  assert (Hab : a = (4 * a + 3) / 146097 * 146097 / 4 + (a - (4 * a + 3) / 146097 * 146097 / 4)) by lia.
  set (b := (4 * a + 3) / 146097) in *. clearbody b.
  set (c := a - b * 146097 / 4) in *. clearbody c.
  assert (Hcd : c = 1461 * ((4 * c + 3) / 1461) / 4 + (c - 1461 * ((4 * c + 3) / 1461) / 4)) by lia.
  set (d := (4 * c + 3) / 1461) in *. clearbody d.
  set (e := c - 1461 * d / 4) in *. clearbody e. destruct Hb as (Hb & Hc & Hd & He & Hl).
  set (m := (5 * e + 2) / 153).
  assert (Hm : 0 <= m <= 11) by (unfold m; divlia).
  assert (Hmo : month_offset m <= e) by (unfold m, month_offset; divlia).
  assert (Hme : e < month_offset (m + 1)) by (unfold m, month_offset; divlia).
  clearbody m.
  assert (Hq : m / 10 = 0 /\ m <= 9 \/ m / 10 = 1 /\ 10 <= m) by divlia.
  assert (Hs : shift_a (m + 3 - 12 * (m / 10)) = m / 10) by (unfold shift_a; divlia).
  assert (Hy : shift_y (b * 100 + d - 4800 + m / 10) (m + 3 - 12 * (m / 10)) = b * 100 + d)
    by (unfold shift_y; lia).
  assert (Hsm : shift_m (m + 3 - 12 * (m / 10)) = m) by (unfold shift_m; lia).
  split; [|split].
  - unfold valid_ymd. cbn [ymd_year ymd_month ymd_day]. split; [lia|].
    fold (month_offset m). split; [lia|].
    assert (Hlp : e = 365 -> is_leap (b * 100 + d - 4800 + m / 10) = true).
    { intros E. rewrite is_leap_mod. specialize (Hl E) as [Hl1 Hl2].
      assert (m = 11) as -> by (unfold month_offset in *; divlia).
      clear -Hl1 Hl2 Hd Hb. change (11 / 10) with 1. divlia. }
    clear -Hm Hmo Hme Hlp He. unfold days_of_month, month_offset in *.
    assert (m = 0 \/ m = 1 \/ m = 2 \/ m = 3 \/ m = 4 \/ m = 5 \/ m = 6 \/ m = 7 \/ m = 8
            \/ m = 9 \/ m = 10 \/ m = 11) as Hc by lia.
    destruct Hc as [-> | [-> | [-> | [-> | [-> | [-> | [-> | [-> | [-> | [-> | [-> | ->]]]]]]]]]]];
      simpl in *; try divlia.
    destruct (is_leap _); [divlia|].
    destruct (Z.eq_dec e 365); [by specialize (Hlp ltac:(done))|divlia].
  - unfold in_range. cbn [ymd_year]. clear -Ha Hab Hcd Hb Hc Hd He Hm Hmo Hme Hq.
    unfold month_offset in *. divlia.
  - rewrite Hja. unfold julian. cbn [ymd_year ymd_month ymd_day]. rewrite Hy, Hsm.
    fold (month_offset m). unfold year_offset. clear -Hab Hcd Hd Hb. divlia.
Qed.

(** *** Successive days *)

Lemma julian_next_day d : valid_ymd d -> julian (next_day d) = julian d + 1.
Proof.
  intros [Hm Hd]. destruct d as [y m dd]. unfold next_day, julian. simpl in *.
  destruct (Z.ltb_spec dd (days_of_month y m)) as [Hlt|Hge]; simpl; [lia|].
  assert (dd = days_of_month y m) as -> by lia. clear Hge Hd.
  unfold days_of_month, month_offset, year_offset, shift_y, shift_m, shift_a.
  destruct (is_leap y) eqn:Hl; [apply is_leap_mod in Hl|].
  all: destruct (month_cases m Hm)
    as [-> | [-> | [-> | [-> | [-> | [-> | [-> | [-> | [-> | [-> | [-> | ->]]]]]]]]]]]; simpl;
    try divlia.
  assert (~ (y mod 4 = 0 /\ (y mod 100 = 0 -> y mod 400 = 0))) as Hn
    by (rewrite <- is_leap_mod; congruence).
  clear Hl. divlia.
Qed.

Lemma valid_next_day d : valid_ymd d -> valid_ymd (next_day d).
Proof.
  intros [Hm Hd]. unfold next_day.
  pose proof (days_of_month_bounds (ymd_year d) (ymd_month d + 1)).
  pose proof (days_of_month_bounds (ymd_year d + 1) 1).
  repeat case_match; zbool; unfold valid_ymd; cbn [ymd_year ymd_month ymd_day]; lia.
Qed.

(** *** The order of dates *)

(** An earlier day of the calendar: its year, month and day come first. *)
Definition ymd_lt (d e : YearMonthDay) : Prop :=
  ymd_year d < ymd_year e \/
  ymd_year d = ymd_year e /\
    (ymd_month d < ymd_month e \/ ymd_month d = ymd_month e /\ ymd_day d < ymd_day e).

(** The days of a year, and of its months, come between those around them. *)
Lemma julian_in_year d : valid_ymd d ->
  julian (mkYMD (ymd_year d) 1 1) <= julian d < julian (mkYMD (ymd_year d + 1) 1 1).
Proof.
  intros [Hm Hd]. destruct d as [y m dd]. cbn [ymd_year ymd_month ymd_day] in *.
  unfold days_of_month in Hd. unfold julian, month_offset, year_offset, shift_y, shift_m, shift_a.
  cbn [ymd_year ymd_month ymd_day].
  destruct (is_leap y) eqn:Hl; [apply is_leap_mod in Hl|].
  all: destruct (month_cases m Hm)
    as [-> | [-> | [-> | [-> | [-> | [-> | [-> | [-> | [-> | [-> | [-> | ->]]]]]]]]]]]; simpl in *;
    try divlia.
Qed.

Lemma julian_years y k : 0 <= k -> julian (mkYMD y 1 1) <= julian (mkYMD (y + k) 1 1).
Proof.
  intros Hk. unfold julian, month_offset, year_offset, shift_y, shift_m, shift_a.
  cbn [ymd_year ymd_month ymd_day]. divlia.
Qed.

Lemma julian_in_month y m n d : 1 <= m < n -> n <= 12 -> 1 <= d <= days_of_month y m ->
  julian (mkYMD y m d) < julian (mkYMD y n 1).
Proof.
  intros Hm Hn Hd. unfold days_of_month in Hd.
  unfold julian, month_offset, year_offset, shift_y, shift_m, shift_a.
  cbn [ymd_year ymd_month ymd_day].
  destruct (is_leap y) eqn:Hl; [apply is_leap_mod in Hl|].
  all: destruct (month_cases m ltac:(lia))
    as [-> | [-> | [-> | [-> | [-> | [-> | [-> | [-> | [-> | [-> | [-> | ->]]]]]]]]]]]; simpl in Hd;
    try divlia.
Qed.

Lemma julian_lt d e : valid_ymd d -> valid_ymd e -> ymd_lt d e -> julian d < julian e.
Proof.
  intros Hd He [Hy|[Hy Hlt]].
  - pose proof (julian_in_year d Hd). pose proof (julian_in_year e He).
    pose proof (julian_years (ymd_year d + 1) (ymd_year e - (ymd_year d + 1)) ltac:(lia)) as Hk.
    rewrite Zplus_minus in Hk. lia.
  - destruct d as [y m a], e as [y' n b], Hd as [Hm Ha], He as [Hn Hb].
    cbn [ymd_year ymd_month ymd_day] in *. subst y'. destruct Hlt as [Hlt|[-> Hlt]].
    + pose proof (julian_in_month y m n a ltac:(lia) ltac:(lia) Ha).
      unfold julian in *. cbn [ymd_year ymd_month ymd_day] in *. lia.
    + unfold julian. cbn [ymd_year ymd_month ymd_day]. lia.
Qed.

Lemma ymd_trichotomy d e : ymd_lt d e \/ d = e \/ ymd_lt e d.
Proof.
  destruct d as [y m a], e as [z n b]. unfold ymd_lt. cbn [ymd_year ymd_month ymd_day].
  destruct (Z.lt_trichotomy y z) as [?|[->|?]]; [by left; left| |by right; right; left].
  destruct (Z.lt_trichotomy m n) as [?|[->|?]]; [left; auto| |right; right; auto].
  destruct (Z.lt_trichotomy a b) as [?|[->|?]]; [left; auto|auto|right; right; auto].
Qed.

(** Day numbers are ordered as the days of the calendar. *)
Lemma julian_order d e : valid_ymd d -> valid_ymd e -> (julian d < julian e <-> ymd_lt d e).
Proof.
  intros Hd He. split; [|by apply julian_lt]. intros Hlt.
  destruct (ymd_trichotomy d e) as [?|[->|Hgt]]; [done|lia|].
  pose proof (julian_lt e d He Hd Hgt). lia.
Qed.

(** From the year -4712 on the numbers are not negative. *)
Lemma julian_nonneg d : valid_ymd d -> -4712 <= ymd_year d -> 0 <= julian d.
Proof.
  intros [Hm Hd] Hy. unfold julian. pose proof (days_of_month_bounds (ymd_year d) (ymd_month d)).
  unfold month_offset, year_offset, shift_m, shift_y, shift_a. divlia.
Qed.

Lemma weekDay_ok j : 0 <= j <= 536838867 -> weekDay (mkDate j) = Ok ((j + 1) mod 7).
Proof.
  intros H. unfold weekDay, irem, NumDaysPerWeek. simpl.
  rewrite iadd_ok by lia. cbn [mbind outcome_bind]. rewrite idiv_nonneg by lia.
  cbn [mbind outcome_bind]. by rewrite Z.rem_mod_nonneg by lia.
Qed.

(** ** Properties *)

(** C29. Conversion between calendar dates and Julian day numbers is exact: every
    Gregorian date from the year -4799 to the year 1465000 converts without
    int overflow to a number from which toYearMonthDay recovers it, and every
    number of that span converts to a date of the calendar (no 31st of April,
    a 29th of February only in leap years) from which the constructor
    recovers it. *)
Theorem date_roundtrip :
  (forall d, valid_ymd d -> in_range d ->
     exists dt, Date_of_ymd (ymd_year d) (ymd_month d) (ymd_day d) = Ok dt /\
       toYearMonthDay dt = Ok d) /\
  (forall j, jdn_exact j ->
     exists d, toYearMonthDay (mkDate j) = Ok d /\ valid_ymd d /\
       Date_of_ymd (ymd_year d) (ymd_month d) (ymd_day d) = Ok (mkDate j)).
Proof.
  split.
  - intros d Hv Hr. exists (mkDate (julian d)). unfold Date_of_ymd, toYearMonthDay.
    rewrite getJulianDayNum_ok by done. split; [done|]. simpl.
    rewrite getYearMonthDay_ok by (by apply julian_range). by rewrite civil_julian.
  - intros j Hj. destruct (civil_inverse j Hj) as (Hv & Hr & Hi). exists (civil j).
    unfold toYearMonthDay, Date_of_ymd. cbn [m_nJulianDayNum].
    rewrite getYearMonthDay_ok by (unfold jdn_exact, jdn_range in *; lia).
    cbn [mbind outcome_bind]. rewrite getJulianDayNum_ok by done. by rewrite Hi.
Qed.

(** The numbering is the calendar's: the day after a date, by the Gregorian
    rules for month lengths and leap years, has the next Julian day number and
    the next day of the week, and 1970-01-01 is day 2440588, a Thursday. *)
Theorem date_successor d : valid_ymd d -> in_range d -> in_range (next_day d) ->
  -4712 <= ymd_year d ->
  exists j w, getJulianDayNum (ymd_year d) (ymd_month d) (ymd_day d) = Ok j /\
    getJulianDayNum (ymd_year (next_day d)) (ymd_month (next_day d)) (ymd_day (next_day d))
      = Ok (j + 1) /\
    weekDay (mkDate j) = Ok w /\ weekDay (mkDate (j + 1)) = Ok ((w + 1) mod 7) /\
    JulianDayOf1970_01_01 = Ok 2440588 /\ weekDay (mkDate 2440588) = Ok 4.
Proof.
  intros Hv Hr Hr' Hy. pose proof (julian_next_day d Hv) as Hn.
  pose proof (julian_range _ (valid_next_day d Hv) Hr') as Hj. rewrite Hn in Hj.
  pose proof (julian_nonneg d Hv Hy) as Hj0. pose proof weekDay_ok as Hw.
  unfold jdn_range in Hj. exists (julian d), ((julian d + 1) mod 7).
  rewrite getJulianDayNum_ok by done.
  rewrite getJulianDayNum_ok by (done || by apply valid_next_day).
  rewrite Hn, !Hw by lia. repeat split; try done. f_equal. divlia.
Qed.

Lemma date_successor_witness :
  let d := mkYMD 2000 2 28 in
  next_day d = mkYMD 2000 2 29 /\
  exists j w, getJulianDayNum (ymd_year d) (ymd_month d) (ymd_day d) = Ok j /\
    getJulianDayNum (ymd_year (next_day d)) (ymd_month (next_day d)) (ymd_day (next_day d))
      = Ok (j + 1) /\
    weekDay (mkDate j) = Ok w /\ weekDay (mkDate (j + 1)) = Ok ((w + 1) mod 7) /\
    JulianDayOf1970_01_01 = Ok 2440588 /\ weekDay (mkDate 2440588) = Ok 4.
Proof.
  split; [reflexivity|].
  apply date_successor; vm_compute; intuition discriminate.
Defined.

(** C40. operator< and operator== of dates are those of the calendar: for any two
    dates of it, the objects compare as their years, then their months, then
    their days do. *)
Theorem date_order d e : valid_ymd d -> in_range d -> valid_ymd e -> in_range e ->
  exists a b, Date_of_ymd (ymd_year d) (ymd_month d) (ymd_day d) = Ok a /\
    Date_of_ymd (ymd_year e) (ymd_month e) (ymd_day e) = Ok b /\
    (date_lt a b = true <-> ymd_lt d e) /\ (date_eq a b = true <-> d = e).
Proof.
  intros Hd Rd He Re. exists (mkDate (julian d)), (mkDate (julian e)). unfold Date_of_ymd.
  rewrite !getJulianDayNum_ok by done. split; [done|]. split; [done|].
  unfold date_lt, date_eq, julianDayNumber. cbn [m_nJulianDayNum]. split.
  - rewrite Z.ltb_lt. by apply julian_order.
  - rewrite Z.eqb_eq. split; [|by intros ->]. intros E.
    rewrite <- (civil_julian d), <- (civil_julian e) by done. by rewrite E.
Qed.

Lemma date_order_witness :
  exists a b, Date_of_ymd 2000 2 29 = Ok a /\ Date_of_ymd 2000 3 1 = Ok b /\
    (date_lt a b = true <-> ymd_lt (mkYMD 2000 2 29) (mkYMD 2000 3 1)) /\
    (date_eq a b = true <-> mkYMD 2000 2 29 = mkYMD 2000 3 1).
Proof.
  apply (date_order (mkYMD 2000 2 29) (mkYMD 2000 3 1));
    unfold valid_ymd, in_range; vm_compute; repeat split; congruence.
Defined.

Lemma date_example : toString (mkDate 2454720) = Ok (lit "2008-09-10").
Proof. reflexivity. Qed.
