(* ===== verification/Timestamp.v ===== *)
(** Points in time: base/Timestamp.h and base/Timestamp.cc.

    A [Timestamp] is an int64_t count of microseconds since the epoch, signed
    arithmetic on which faults on overflow.  gmtime_r of the C library is
    defined from POSIX's "seconds since the epoch" with the proleptic Gregorian
    calendar of Date.v; a double is an IEEE 754 binary64 number. *)
From Stdlib Require Import ZArith Lia Ascii String.
From Stdlib Require Import Floats.SpecFloat.
From stdpp Require Import base list strings.
From S2P Require Import Prelude.
From S2P Require Import CLib.
From S2P Require Import Date.

#[local] Open Scope Z_scope.

(** ** The C library *)

(** gmtime_r: the civil date and time of day of [t] seconds since the epoch. *)
Definition gmtime_r (t : Z) : tm :=
  let d := civil (t / 86400 + 2440588) in
  let s := t mod 86400 in
  mkTm (s mod 60) (s / 60 mod 60) (s / 3600) (ymd_day d) (ymd_month d - 1) (ymd_year d - 1900).

(** struct timeval, as gettimeofday fills it. *)
Record timeval := mkTimeval { tv_sec : Z; tv_usec : Z }.

(** The double nearest to an integer, and the quotient of two doubles. *)
Definition double_of_Z (z : Z) : spec_float := binary_normalize 53 1024 z 0 false.
Definition double_div : spec_float -> spec_float -> spec_float := SFdiv 53 1024.

(** ** The class *)

Record Timestamp := mkTimestamp { m_microSecsSinceEpoch : Z }.

Definition kMicroSecsPerSecond : Z := 1000 * 1000.

Definition Timestamp_default : Timestamp := mkTimestamp 0.
Definition Timestamp_of (value : Z) : Timestamp := mkTimestamp value.

(** swap(other): the new values of *this and other. *)
Definition swap (this other : Timestamp) : Timestamp * Timestamp :=
  (mkTimestamp (m_microSecsSinceEpoch other), mkTimestamp (m_microSecsSinceEpoch this)).

Definition valid (t : Timestamp) : bool := 0 <? m_microSecsSinceEpoch t.
Definition microSecsSinceEpoch (t : Timestamp) : Z := m_microSecsSinceEpoch t.
Definition secsSinceEpoch (t : Timestamp) : Z :=
  Z.quot (m_microSecsSinceEpoch t) kMicroSecsPerSecond.

Definition timestamp_lt (a b : Timestamp) : bool := microSecsSinceEpoch a <? microSecsSinceEpoch b.
Definition timestamp_eq (a b : Timestamp) : bool := microSecsSinceEpoch a =? microSecsSinceEpoch b.

Definition timeDifference (a b : Timestamp) : outcome spec_float :=
  diff ← ckS 64 (microSecsSinceEpoch a - microSecsSinceEpoch b);
  Ok (double_div (double_of_Z diff) (double_of_Z kMicroSecsPerSecond)).

(** snprintf(buff, sizeof(buff) - 1, "%" PRId64 ".%06" PRId64, ...) *)
Definition toString (t : Timestamp) : outcome bytes :=
  let seconds := Z.quot (m_microSecsSinceEpoch t) kMicroSecsPerSecond in
  let microSeconds := Z.rem (m_microSecsSinceEpoch t) kMicroSecsPerSecond in
  c_string (snprintf_stored 31 (dec_of_Z seconds ++ lit "." ++ fmt_0wd 6 microSeconds)).

(** snprintf(buff, sizeof(buff), "%4d%02d%02d %02d:%02d:%02d.%06d", ...) *)
Definition toFormatedString (t : Timestamp) : outcome bytes :=
  let seconds := Z.quot (m_microSecsSinceEpoch t) kMicroSecsPerSecond in
  let microseconds := wrapS 32 (Z.rem (m_microSecsSinceEpoch t) kMicroSecsPerSecond) in
  let tm_time := gmtime_r seconds in
  y ← iadd (tm_year tm_time) 1900;
  m ← iadd (tm_mon tm_time) 1;
  c_string (snprintf_stored 32
    (fmt_wd 4 y ++ fmt_0wd 2 m ++ fmt_0wd 2 (tm_mday tm_time) ++ lit " " ++
     fmt_0wd 2 (tm_hour tm_time) ++ lit ":" ++ fmt_0wd 2 (tm_min tm_time) ++ lit ":" ++
     fmt_0wd 2 (tm_sec tm_time) ++ lit "." ++ fmt_0wd 6 microseconds)).

(** now(), [tv] being what gettimeofday stores. *)
Definition now (tv : timeval) : outcome Timestamp :=
  let seconds := tv_sec tv in
  us ← ckS 64 (seconds * kMicroSecsPerSecond);
  us ← ckS 64 (us + tv_usec tv);
  Ok (Timestamp_of us).

Definition invalid : Timestamp := Timestamp_default.

(** ** Reading the texts back *)

(** The microseconds that a text of toString denotes: seconds, a dot and
    microseconds. *)
Definition parse_plain (s : bytes) : option Z :=
  k ← strchr s "."%char;
  Some (atoi s * 1000000 + atoi (drop (S k) s)).

(** The microseconds that a text of toFormatedString denotes, each field being
    read at its position. *)
Definition parse_formated (s : bytes) : Z :=
  let f i n := atoi (slice i n s) in
  let days := julian (mkYMD (f 0 4) (f 4 2) (f 6 2)) - 2440588 in
  (days * 86400 + f 9 2 * 3600 + f 12 2 * 60 + f 15 2) * 1000000 + f 18 6.

(** ** Lemmas *)

(** Seconds and microseconds of a time that is not before the epoch. *)
Lemma timestamp_split us : 0 <= us -> 
  Z.quot us kMicroSecsPerSecond = us / 1000000 /\ Z.rem us kMicroSecsPerSecond = us mod 1000000.
Proof.
  intros H. unfold kMicroSecsPerSecond. change (1000 * 1000) with 1000000.
  by rewrite Z.quot_div_nonneg, Z.rem_mod_nonneg by lia.
Qed.

Lemma strchr_app s c t : c ∉ s -> strchr (s ++ c :: t) c = Some (length s).
Proof.
  induction s as [|x s IH]; intros H; cbn [app strchr].
  - by rewrite Ascii.eqb_refl.
  - rewrite not_elem_of_cons in H. destruct H as [H1 H2].
    destruct (Ascii.eqb_spec x c) as [->|_]; [done|]. by rewrite IH.
Qed.

(** atoi stops at the first character that is not a digit. *)
Lemma atoi_stops z s c t : s <> [] -> digits_of z s -> digit_val c = None ->
  atoi (s ++ c :: t) = z.
Proof.
  intros Hs [Hf Hv] Hc. subst z. destruct s as [|x s]; [done|].
  assert (Ha : forall acc, atoi_digits acc ((x :: s) ++ c :: t) = atoi_digits acc (x :: s)).
  { clear Hs. induction Hf as [|y l [d Hd] _ IH]; intros acc; cbn [app atoi_digits].
    - by rewrite Hc.
    - rewrite Hd. apply IH. }
  apply Forall_cons in Hf as [Hx _]. destruct (digit_not_special x Hx) as (H1 & H2 & H3).
  rewrite <- Ha. simpl atoi. by rewrite H1, H2, H3.
Qed.

(** Reading a field that follows a text of known length. *)
Lemma slice_field (p x r : bytes) i n : zlen p = i -> zlen x = n -> slice i n (p ++ x ++ r) = x.
Proof.
  unfold zlen, slice. intros <- <-. rewrite !Nat2Z.id.
  rewrite drop_app_length. by rewrite take_app_length.
Qed.

(** The broken-down time of a second from 1970 to 9999. *)
Lemma gmtime_fields t : 0 <= t < 253402300800 ->
  let g := gmtime_r t in let d := civil (t / 86400 + 2440588) in
  1970 <= ymd_year d <= 9999 /\ 1 <= ymd_month d <= 12 /\ 1 <= ymd_day d <= 31 /\
  0 <= tm_hour g < 24 /\ 0 <= tm_min g < 60 /\ 0 <= tm_sec g < 60 /\
  julian d = t / 86400 + 2440588 /\
  tm_hour g * 3600 + tm_min g * 60 + tm_sec g = t mod 86400.
Proof.
  intros Ht. cbv zeta.
  assert (Hj : 2440588 <= t / 86400 + 2440588 < 5373485) by divlia.
  destruct (civil_inverse (t / 86400 + 2440588)) as ([Hm Hd] & Hr & Hi).
  { unfold jdn_exact. lia. }
  pose proof (days_of_month_bounds (ymd_year (civil (t / 86400 + 2440588)))
    (ymd_month (civil (t / 86400 + 2440588)))).
  assert (Hs : 0 <= t mod 86400 < 86400) by (apply Z.mod_pos_bound; lia).
  unfold gmtime_r. cbn [tm_hour tm_min tm_sec].
  assert (Hy : 1970 <= ymd_year (civil (t / 86400 + 2440588)) <= 9999).
  { rewrite <- Hi in Hj. unfold in_range in Hr. revert Hj Hm Hd Hr.
    generalize (civil (t / 86400 + 2440588)). intros [y m d]. cbn [ymd_year ymd_month ymd_day].
    intros Hj Hm Hd Hr. pose proof (days_of_month_bounds y m).
    assert (Hyb : 1969 <= y <= 10000).
    { unfold julian, shift_y in Hj. cbn [ymd_year ymd_month ymd_day] in Hj.
      assert (Ha : 0 <= shift_a m <= 1) by (unfold shift_a; divlia).
      assert (Hmo : 0 <= month_offset (shift_m m) <= 337)
        by (unfold month_offset, shift_m, shift_a in *; divlia).
      generalize dependent (shift_a m). generalize dependent (month_offset (shift_m m)).
      intros o Ho a Hj Ha. unfold year_offset in Hj. clear Hm. divlia. }
    assert (y = 1969 \/ y = 10000 \/ 1970 <= y <= 9999) as [-> | [-> | Hy]] by lia;
      [exfalso..|done];
      destruct (month_cases m Hm)
        as [-> | [-> | [-> | [-> | [-> | [-> | [-> | [-> | [-> | [-> | [-> | ->]]]]]]]]]]];
      unfold julian in Hj; cbn [ymd_year ymd_month ymd_day] in Hj; cbn in Hd, H0;
      match type of Hj with context [?d + ?o + ?w - 32045] =>
        let o' := eval vm_compute in o in let w' := eval vm_compute in w in
        change o with o' in Hj; change w with w' in Hj end;
      try change (is_leap 1969) with false in Hd; try change (is_leap 10000) with true in Hd;
      lia. }
  generalize dependent (t mod 86400). intros s Hs.
  repeat split; try lia; divlia.
Qed.

(** A text without NULs that fits its buffer is returned whole. *)
Lemma c_string_snprintf size s : zlen s < Z.of_nat size -> NUL ∉ s ->
  c_string (snprintf_stored size s) = Ok s.
Proof. intros Hl Hn. rewrite snprintf_fits by done. by apply c_string_app. Qed.

Lemma toString_ok us : 0 <= us < 2 ^ 63 ->
  toString (Timestamp_of us) =
    Ok (dec_of_Z (us / 1000000) ++ "."%char :: fmt_0wd 6 (us mod 1000000)).
Proof.
  intros H. destruct (timestamp_split us ltac:(lia)) as [Hq Hr].
  unfold toString, Timestamp_of. cbn [m_microSecsSinceEpoch]. rewrite Hq, Hr.
  assert (Hm : 0 <= us mod 1000000 < 10 ^ Z.of_nat 6) by (apply Z.mod_pos_bound; lia).
  assert (Hs : 0 <= us / 1000000 < 10 ^ Z.of_nat 13) by (simpl; divlia).
  destruct (fmt_0wd_field 6 _ Hm ltac:(lia)) as [Hl Hd].
  apply c_string_snprintf.
  - pose proof (length_dec_of_Z 13 (us / 1000000) ltac:(lia) ltac:(lia)).
    unfold zlen. rewrite length_app. cbn [length]. rewrite Hl. lia.
  - rewrite not_elem_of_app, not_elem_of_cons. repeat split; [|done|].
    + apply (nul_free_digits (us / 1000000)), dec_of_Z_digits. lia.
    + by apply (nul_free_digits (us mod 1000000)).
Qed.

Lemma parse_plain_ok s m : 0 <= s -> 0 <= m < 1000000 ->
  parse_plain (dec_of_Z s ++ "."%char :: fmt_0wd 6 m) = Some (s * 1000000 + m).
Proof.
  intros Hs Hm. pose proof (dec_of_Z_digits s Hs) as Hd. unfold parse_plain.
  rewrite strchr_app by (by apply (digit_not_char s)). cbn [mbind option_bind].
  rewrite (atoi_stops s); [|..|done|done].
  - replace (drop _ _) with (fmt_0wd 6 m); [by rewrite atoi_fmt_0wd by (simpl; lia)|].
    rewrite (cons_middle "."%char), app_assoc, drop_app_length'; [done|].
    rewrite length_app. simpl. lia.
  - intros Hn. pose proof (length_dec_of_Z (Z.to_nat s + 1) s) as Hl. rewrite Hn in Hl.
    cbn [length] in Hl. pose proof (Z.pow_gt_lin_r 10 (Z.of_nat (Z.to_nat s + 1))). lia.
Qed.

(** The text of the fields of a calendar time, as the format string lays them out. *)
Definition formated (y mo d h mi s us : Z) : bytes :=
  fmt_wd 4 y ++ fmt_0wd 2 mo ++ fmt_0wd 2 d ++ lit " " ++ fmt_0wd 2 h ++ lit ":" ++
  fmt_0wd 2 mi ++ lit ":" ++ fmt_0wd 2 s ++ lit "." ++ fmt_0wd 6 us.

(** Fields in their ranges take 24 characters and are read back at their places. *)
Lemma formated_fields y mo d h mi s us :
  1000 <= y <= 9999 -> 1 <= mo <= 12 -> 1 <= d <= 31 -> 0 <= h < 24 -> 0 <= mi < 60 ->
  0 <= s < 60 -> 0 <= us < 1000000 ->
  let t := formated y mo d h mi s us in
  zlen t = 24 /\ (NUL ∉ t) /\
  parse_formated t =
    ((julian (mkYMD y mo d) - 2440588) * 86400 + h * 3600 + mi * 60 + s) * 1000000 + us.
Proof.
  intros Hy Hmo Hd Hh Hmi Hs Hus. cbv zeta. unfold formated.
  rewrite fmt_wd_0wd by (simpl; lia).
  destruct (fmt_0wd_field 4 y) as [L1 D1]; [simpl; lia|lia|].
  destruct (fmt_0wd_field 2 mo) as [L2 D2]; [simpl; lia|lia|].
  destruct (fmt_0wd_field 2 d) as [L3 D3]; [simpl; lia|lia|].
  destruct (fmt_0wd_field 2 h) as [L4 D4]; [simpl; lia|lia|].
  destruct (fmt_0wd_field 2 mi) as [L5 D5]; [simpl; lia|lia|].
  destruct (fmt_0wd_field 2 s) as [L6 D6]; [simpl; lia|lia|].
  destruct (fmt_0wd_field 6 us) as [L7 D7]; [simpl; lia|lia|].
  pose proof (atoi_fmt_0wd 4 y ltac:(simpl; lia) ltac:(lia)) as A1.
  pose proof (atoi_fmt_0wd 2 mo ltac:(simpl; lia) ltac:(lia)) as A2.
  pose proof (atoi_fmt_0wd 2 d ltac:(simpl; lia) ltac:(lia)) as A3.
  pose proof (atoi_fmt_0wd 2 h ltac:(simpl; lia) ltac:(lia)) as A4.
  pose proof (atoi_fmt_0wd 2 mi ltac:(simpl; lia) ltac:(lia)) as A5.
  pose proof (atoi_fmt_0wd 2 s ltac:(simpl; lia) ltac:(lia)) as A6.
  pose proof (atoi_fmt_0wd 6 us ltac:(simpl; lia) ltac:(lia)) as A7.
  revert L1 D1 A1 L2 D2 A2 L3 D3 A3 L4 D4 A4 L5 D5 A5 L6 D6 A6 L7 D7 A7.
  generalize (fmt_0wd 4 y), (fmt_0wd 2 mo), (fmt_0wd 2 d), (fmt_0wd 2 h), (fmt_0wd 2 mi),
    (fmt_0wd 2 s), (fmt_0wd 6 us).
  intros f1 f2 f3 f4 f5 f6 f7; intros.
  split; [|split].
  - unfold zlen. rewrite !length_app, L1, L2, L3, L4, L5, L6, L7. reflexivity.
  - rewrite !not_elem_of_app.
    repeat split; first [by eapply nul_free_digits | by apply (bool_decide_eq_true (NUL ∉ _))].
  - unfold parse_formated, slice.
    do 4 (destruct f1 as [|? f1]; [done|]). destruct f1; [|done].
    do 2 (destruct f2 as [|? f2]; [done|]). destruct f2; [|done].
    do 2 (destruct f3 as [|? f3]; [done|]). destruct f3; [|done].
    do 2 (destruct f4 as [|? f4]; [done|]). destruct f4; [|done].
    do 2 (destruct f5 as [|? f5]; [done|]). destruct f5; [|done].
    do 2 (destruct f6 as [|? f6]; [done|]). destruct f6; [|done].
    do 6 (destruct f7 as [|? f7]; [done|]). destruct f7; [|done].
    cbv -[atoi julian Z.mul Z.add Z.sub]. rewrite A1, A2, A3, A4, A5, A6, A7. done.
Qed.

Lemma toFormatedString_ok us : 0 <= us < 253402300800000000 ->
  let t := us / 1000000 in let g := gmtime_r t in let d := civil (t / 86400 + 2440588) in
  toFormatedString (Timestamp_of us) =
    Ok (formated (ymd_year d) (ymd_month d) (ymd_day d) (tm_hour g) (tm_min g) (tm_sec g)
          (us mod 1000000)) /\
  zlen (formated (ymd_year d) (ymd_month d) (ymd_day d) (tm_hour g) (tm_min g) (tm_sec g)
          (us mod 1000000)) = 24 /\
  parse_formated (formated (ymd_year d) (ymd_month d) (ymd_day d) (tm_hour g) (tm_min g)
          (tm_sec g) (us mod 1000000)) = us.
Proof.
  intros H. cbv zeta. destruct (timestamp_split us ltac:(lia)) as [Hq Hr].
  assert (Hm : 0 <= us mod 1000000 < 1000000) by (apply Z.mod_pos_bound; lia).
  assert (Ht : 0 <= us / 1000000 < 253402300800) by divlia.
  destruct (gmtime_fields _ Ht) as (Hy & Hmo & Hd & Hh & Hmi & Hs & Hj & Hsum).
  assert (Hy' : 1000 <= ymd_year (civil (us / 1000000 / 86400 + 2440588)) <= 9999) by lia.
  destruct (formated_fields _ _ _ _ _ _ _ Hy' Hmo Hd Hh Hmi Hs Hm)
    as (Hl & Hn & Hp).
  split; [|split; [done|]].
  - unfold toFormatedString, Timestamp_of. cbn [m_microSecsSinceEpoch]. rewrite Hq, Hr.
    rewrite (wrapS_small 32) by (simpl; lia).
    cbv zeta. set (d := civil (us / 1000000 / 86400 + 2440588)) in *.
    change (tm_year (gmtime_r (us / 1000000))) with (ymd_year d - 1900).
    change (tm_mon (gmtime_r (us / 1000000))) with (ymd_month d - 1). rewrite iadd_ok by lia.
    cbn [mbind outcome_bind]. rewrite iadd_ok by lia. cbn [mbind outcome_bind].
    rewrite !Z.sub_add. apply c_string_snprintf; [|exact Hn]. 
    eapply Z.le_lt_trans; [apply Z.eq_le_incl, Hl|lia].
  - rewrite Hp. change (mkYMD _ _ _) with (civil (us / 1000000 / 86400 + 2440588)).
    rewrite Hj. clear -Hsum. revert Hsum.
    generalize (tm_hour (gmtime_r (us / 1000000))), (tm_min (gmtime_r (us / 1000000))),
      (tm_sec (gmtime_r (us / 1000000))). intros h m s Hsum. divlia.
Qed.

(** ** Properties *)

(** C36. A time stamp is identified by either of its texts.  For the current time
    of any clock reading that fits in 64 bits of microseconds, now() does not
    overflow and keeps the seconds of the clock; reading toString back gives
    the same microsecond; and until the end of the year 9999,
    toFormatedString has 24 characters and its calendar date, time of day and
    microseconds, read back with the rules of the Gregorian calendar, give the
    same microsecond. *)
Theorem timestamp_text_roundtrip sec usec :
  0 <= sec -> 0 <= usec < 1000000 -> sec * 1000000 + usec < 2 ^ 63 ->
  exists t, now (mkTimeval sec usec) = Ok t /\ secsSinceEpoch t = sec /\
    (exists s, toString t = Ok s /\ parse_plain s = Some (microSecsSinceEpoch t)) /\
    (sec < 253402300800 ->
     exists s, toFormatedString t = Ok s /\ zlen s = 24 /\
       parse_formated s = microSecsSinceEpoch t).
Proof.
  intros Hs Hu Hb. exists (Timestamp_of (sec * 1000000 + usec)).
  assert (Hd : (sec * 1000000 + usec) / 1000000 = sec) by (clear Hb; divlia).
  assert (Hm : (sec * 1000000 + usec) mod 1000000 = usec) by (clear Hb; divlia).
  destruct (timestamp_split (sec * 1000000 + usec) ltac:(lia)) as [Hq _].
  split; [|split; [|split]].
  - unfold now, kMicroSecsPerSecond. cbn [tv_sec tv_usec].
    rewrite (ckS_ok 64 (sec * (1000 * 1000))) by (simpl in *; lia). cbn [mbind outcome_bind].
    by rewrite ckS_ok by (simpl in *; lia).
  - unfold secsSinceEpoch, Timestamp_of. cbn [m_microSecsSinceEpoch]. by rewrite Hq.
  - rewrite toString_ok by lia. eexists. split; [done|]. rewrite Hd, Hm.
    by apply parse_plain_ok.
  - intros Hy. destruct (toFormatedString_ok (sec * 1000000 + usec) ltac:(lia)) as (H1 & H2 & H3).
    eauto.
Qed.

Lemma timestamp_text_roundtrip_witness :
  exists t, now (mkTimeval 1709210096 7) = Ok t /\ secsSinceEpoch t = 1709210096 /\
    (exists s, toString t = Ok s /\ parse_plain s = Some (microSecsSinceEpoch t)) /\
    (1709210096 < 253402300800 ->
     exists s, toFormatedString t = Ok s /\ zlen s = 24 /\
       parse_formated s = microSecsSinceEpoch t).
Proof. apply timestamp_text_roundtrip; [lia|lia|vm_compute; reflexivity]. Defined.

Lemma timestamp_example :
  toFormatedString (Timestamp_of 1709210096000007) = Ok (lit "20240229 12:34:56.000007").
Proof. reflexivity. Qed.

(** 2.5 seconds apart. *)
Lemma timeDifference_example :
  timeDifference (Timestamp_of 3500000) (Timestamp_of 1000000) =
    Ok (S754_finite false 5629499534213120 (-51)).
Proof. reflexivity. Qed.

(** Division truncates towards zero: a time before the epoch is printed with a
    sign on the microseconds, and one less than a second before it with no
    sign on the seconds. *)
Lemma negative_timestamp_text :
  toString (Timestamp_of (-1)) = Ok (lit "0.-00001") /\
  toString (Timestamp_of (-1500000)) = Ok (lit "-1.-500000").
Proof. split; reflexivity. Qed.
