(* ===== verification/TimeZone.v ===== *)
(** Time zones: base/TimeZone.h and base/TimeZone.cc.

    A zone file is the list of its bytes and a reader its unread suffix; what
    fopen and fread do with it is the C library's documented behaviour.  The
    parser is the code's, loop by loop, and runs over files of any content.
    [encode] is the version-1 layout of tzfile(5) that it reads. *)
From Stdlib Require Import ZArith Lia Ascii String.
From stdpp Require Import base list strings.
From S2P Require Import Prelude.
From S2P Require Import CLib.
From S2P Require Import Endian.
From S2P Require Import Date.
From S2P Require Import Timestamp.

#[local] Open Scope Z_scope.

(** ** Data *)

(** time_t has 64 bits. *)
Record Transition := mkTransition { gmtime : Z; localtime : Z; localtimeIdx : Z }.

Record LocalTime := mkLocalTime { gmtOffset : Z; isDest : bool; arrbInx : Z }.

Record Data := mkData {
  transitions : list Transition;
  localtimes : list LocalTime;
  names : list bytes;
  abbreviation : bytes
}.

Definition Data_new : Data := mkData [] [] [] [].

(** Comp(gmt): its operator() and equal. *)
Definition comp (compareGMT : bool) (lhs rhs : Transition) : bool :=
  if compareGMT then gmtime lhs <? gmtime rhs else localtime lhs <? localtime rhs.
Definition comp_equal (compareGMT : bool) (lhs rhs : Transition) : bool :=
  if compareGMT then gmtime lhs =? gmtime rhs else localtime lhs =? localtime rhs.

(** fillHMS: [seconds] is an unsigned int, the fields of struct tm are ints. *)
Definition fillHMS (seconds : Z) (utc : tm) : tm :=
  let minutes := seconds / 60 in
  mkTm (seconds mod 60) (minutes mod 60) (minutes / 60) (tm_mday utc) (tm_mon utc) (tm_year utc).

(** ** Reading the file *)

Section Reader.
Context {host : Host}.

(** Room on the stack for the array char buff[n] of readBytes: a larger array,
    and any array of more than PTRDIFF_MAX bytes, is undefined. *)
Variable stack_room : Z.

(** fread(p, 1, n, m_fp): the bytes stored at p and the rest of the file. *)
Definition fread (n : nat) (f : bytes) : bytes * bytes := (take n f, drop n f).

(** readBytes(n), [n] a size_t. *)
Definition readBytes (n : Z) (f : bytes) : outcome (bytes * bytes) :=
  if n <=? stack_room then Ok (fread (Z.to_nat n) f) else Fault Undefined.

(** readInt32: a short read overwrites only the first bytes of x = 0. *)
Definition readInt32 (f : bytes) : Z * bytes :=
  let '(got, f) := fread 4 f in
  let x := wrapS 32 (of_mem (splice 0 got (mem_of 4 0))) in
  (wrapS 32 (htobe 4 (wrapU 32 x)), f).

Definition readUint8 (f : bytes) : Z * bytes :=
  let '(got, f) := fread 1 f in (of_mem (splice 0 got (mem_of 1 0)), f).

(** The loop that pushes [n] values read by [read]. *)
Fixpoint read_loop {A} (read : bytes -> A * bytes) (n : nat) (f : bytes) : list A * bytes :=
  match n with
  | O => ([], f)
  | S n => let '(x, f) := read f in let '(xs, f) := read_loop read n f in (x :: xs, f)
  end.

(** One turn of the loop over typecnt. *)
Definition readLocalTime (f : bytes) : LocalTime * bytes :=
  let '(gmtoff, f) := readInt32 f in
  let '(isdst, f) := readUint8 f in
  let '(abbrind, f) := readUint8 f in
  (mkLocalTime gmtoff (negb (isdst =? 0)) abbrind, f).

(** The loop that fills data->transitions. *)
Fixpoint push_transitions (lts : list LocalTime) (l : list (Z * Z)) : outcome (list Transition) :=
  match l with
  | [] => Ok []
  | (t, localIdx) :: l =>
      lt ← index lts localIdx;
      rest ← push_transitions lts l;
      Ok (mkTransition t (t + gmtOffset lt) localIdx :: rest)
  end.

(** readTimeZoneFile: the value returned and the new *data; [zonefile] is the
    content of the file, if fopen succeeds. *)
Definition readTimeZoneFile (zonefile : option bytes) (data : Data) : outcome (bool * Data) :=
  match zonefile with
  | None => Ok (true, data)
  | Some f =>
      '(head, f) ← readBytes 4 f;
      if decide (head = lit "TZif") then
        '(version, f) ← readBytes 1 f;
        '(_, f) ← readBytes 15 f;
        let '(isgmtcnt, f) := readInt32 f in
        let '(isstdcnt, f) := readInt32 f in
        let '(leapcnt, f) := readInt32 f in
        let '(timecnt, f) := readInt32 f in
        let '(typecnt, f) := readInt32 f in
        let '(charcnt, f) := readInt32 f in
        (* trans.reserve: a negative count is a huge size_t *)
        _ ← (if timecnt <? 0 then Fault LengthError else Ok tt);
        let '(trans, f) := read_loop readInt32 (Z.to_nat timecnt) f in
        let '(idxs, f) := read_loop readUint8 (Z.to_nat timecnt) f in
        let '(lts, f) := read_loop readLocalTime (Z.to_nat typecnt) f in
        let data := mkData (transitions data) (localtimes data ++ lts) (names data)
                      (abbreviation data) in
        trs ← push_transitions (localtimes data) (zip trans idxs);
        '(abbr, f) ← readBytes (wrapU 64 charcnt) f;
        Ok (true, mkData (transitions data ++ trs) (localtimes data) (names data) abbr)
      else Ok (false, data)
  end.
End Reader.

(** ** Looking a time up *)

(** std::lower_bound on a vector: the position of the first element that does
    not compare less, by bisection of the [len] elements from [first]. *)
Fixpoint lower_bound {A} (less : A -> bool) (l : list A) (fuel : nat) (first len : nat) : nat :=
  match fuel with
  | O => first
  | S fuel =>
      if (len =? 0)%nat then first else
      let half := Nat.div2 len in
      match l !! (first + half)%nat with
      | Some mid =>
          if less mid then lower_bound less l fuel (first + half + 1) (len - half - 1)
          else lower_bound less l fuel first half
      | None => first
      end
  end.

(** findLocalTime: the element that the returned pointer designates. *)
Definition findLocalTime (data : Data) (sentry : Transition) (gmt : bool) : outcome LocalTime :=
  match transitions data with
  | [] => index (localtimes data) 0
  | front :: _ =>
      if comp gmt sentry front then index (localtimes data) 0
      else
        let n := length (transitions data) in
        let transI := lower_bound (fun t => comp gmt t sentry) (transitions data) n 0 n in
        match transitions data !! transI with
        | Some t =>
            if comp_equal gmt sentry t then index (localtimes data) (localtimeIdx t)
            else
              _ ← assert_ (negb (transI =? 0)%nat);
              t ← index (transitions data) (Z.of_nat transI - 1);
              index (localtimes data) (localtimeIdx t)
        | None =>
            t ← index (transitions data) (Z.of_nat n - 1);
            index (localtimes data) (localtimeIdx t)
        end
  end.

(** ** The class *)

Record TimeZone := mkTimeZone { m_spDate : option Data }.

Definition TimeZone_default : TimeZone := mkTimeZone None.

(** TimeZone(zone_file) *)
Definition TimeZone_of_file {host : Host} (stack_room : Z) (zone_file : option bytes)
  : outcome TimeZone :=
  '(ok, data) ← readTimeZoneFile stack_room zone_file Data_new;
  Ok (mkTimeZone (if (ok : bool) then Some data else None)).

(** TimeZone(eastofUtc, tzname), [tzname] being the memory it points to. *)
Definition TimeZone_fixed (eastofUtc : Z) (tzname : bytes) : outcome TimeZone :=
  abbr ← c_string tzname;
  Ok (mkTimeZone (Some (mkData [] [mkLocalTime eastofUtc false 0] [] abbr))).

Definition valid (z : TimeZone) : bool :=
  match m_spDate z with Some _ => true | None => false end.

(** toLocalTime returns a local variable it never sets: [tm_temp] is whatever
    is in its memory. *)
Definition toLocalTime (tm_temp : tm) (z : TimeZone) (secsSinceEpoch : Z) : tm := tm_temp.

(** ** The format and the meaning of a zone *)

(** A version-1 zone file: [rest] is what follows the abbreviations (leap
    seconds and indicators, which the parser leaves unread). *)
Record zone := mkZone {
  z_version : bytes;              (* 1 byte *)
  z_reserved : bytes;             (* 15 bytes *)
  z_isgmtcnt : Z; z_isstdcnt : Z; z_leapcnt : Z;
  z_transitions : list (Z * Z);   (* time and index of the local time type *)
  z_types : list (Z * bool * Z);  (* offset, daylight saving, abbreviation index *)
  z_abbreviations : bytes;
  z_rest : bytes
}.

Definition encode (z : zone) : bytes :=
  lit "TZif" ++ z_version z ++ z_reserved z ++
  be_bytes 4 (z_isgmtcnt z) ++ be_bytes 4 (z_isstdcnt z) ++ be_bytes 4 (z_leapcnt z) ++
  be_bytes 4 (zlen (z_transitions z)) ++ be_bytes 4 (zlen (z_types z)) ++
  be_bytes 4 (zlen (z_abbreviations z)) ++
  List.concat (map (fun t : Z * Z => be_bytes 4 (fst t)) (z_transitions z)) ++
  List.concat (map (fun t : Z * Z => be_bytes 1 (snd t)) (z_transitions z)) ++
  List.concat (map (fun t : Z * bool * Z => be_bytes 4 (fst (fst t)) ++
                         be_bytes 1 (if snd (fst t) then 1 else 0) ++
                        be_bytes 1 (snd t)) (z_types z)) ++
  z_abbreviations z ++ z_rest z.

(** Fields that the format can hold, and indices of existing types. *)
Definition zone_ok (z : zone) : Prop :=
  length (z_version z) = 1%nat /\ length (z_reserved z) = 15%nat /\
  zlen (z_transitions z) < 2 ^ 31 /\ zlen (z_types z) < 2 ^ 31 /\
  zlen (z_abbreviations z) < 2 ^ 31 /\
  Forall (fun t : Z * Z => - 2 ^ 31 <= fst t < 2 ^ 31 /\ 0 <= snd t < 256 /\ snd t < zlen (z_types z))
    (z_transitions z) /\
  Forall (fun t : Z * bool * Z => - 2 ^ 31 <= fst (fst t) < 2 ^ 31 /\ 0 <= snd t < 256) (z_types z).

(** Offset of a local time type. *)
Definition offset_at (z : zone) (i : Z) : Z :=
  match z_types z !! Z.to_nat i with Some (o, _, _) => o | None => 0 end.

Definition data_of (z : zone) : Data :=
  mkData (map (fun t : Z * Z => mkTransition (fst t) (fst t + offset_at z (snd t)) (snd t))
            (z_transitions z))
    (map (fun t : Z * bool * Z => mkLocalTime (fst (fst t)) (snd (fst t)) (snd t)) (z_types z))
    [] (z_abbreviations z).

(** The key that Comp compares. *)
Definition key (gmt : bool) (t : Transition) : Z := if gmt then gmtime t else localtime t.

(** The local time type in force at a time: that of the last transition not
    after it, or the first type before the first transition. *)
Definition in_force (gmt : bool) (data : Data) (s : Transition) : Z :=
  match last (filter (fun t => key gmt t <= key gmt s) (transitions data)) with
  | Some t => localtimeIdx t
  | None => 0
  end.

Fixpoint increasing (l : list Z) : Prop :=
  match l with
  | a :: ((b :: _) as t) => a < b /\ increasing t
  | _ => True
  end.

(** ** Lemmas *)

Section ReaderLemmas.
Context {host : Host}.

Lemma fread_app (x r : bytes) n : length x = n -> fread n (x ++ r) = (x, r).
Proof. intros <-. unfold fread. by rewrite take_app_length, drop_app_length. Qed.

(** Overwriting all the bytes of an object. *)
Lemma splice_all {A} (x y : list A) : length x = length y -> splice 0 x y = x.
Proof.
  intros H. unfold splice. cbn [Z.to_nat Nat.add take app]. rewrite drop_ge by lia. apply app_nil_r.
Qed.

Lemma readInt32_any x r : readInt32 (be_bytes 4 x ++ r) = (wrapS 32 x, r).
Proof.
  unfold readInt32. rewrite fread_app by apply length_be_bytes.
  rewrite splice_all by (by rewrite length_be_bytes, length_mem_of). f_equal.
  apply (decode_int 4 x). lia.
Qed.

Lemma readInt32_encoded x r : - 2 ^ 31 <= x < 2 ^ 31 -> readInt32 (be_bytes 4 x ++ r) = (x, r).
Proof. intros H. rewrite readInt32_any, wrapS_small; [done|lia|exact H]. Qed.

Lemma readUint8_encoded x r : 0 <= x < 256 -> readUint8 (be_bytes 1 x ++ r) = (x, r).
Proof.
  intros H. unfold readUint8. rewrite fread_app by apply length_be_bytes.
  rewrite splice_all by (by rewrite length_be_bytes, length_mem_of). f_equal.
  unfold be_bytes. rewrite <- mem_of_htobe, of_mem_mem_of.
  rewrite wrapU_small by apply htobe_range. unfold htobe, bswap.
  destruct host_order; [|by apply wrapU_small]. simpl.
  rewrite !Z_of_byte_of_Z, Z.mod_small by lia. lia.
Qed.

Lemma read_loop_encoded {A B} (read : bytes -> B * bytes) (enc : A -> bytes) (val : A -> B) l r :
  Forall (fun x => forall r, read (enc x ++ r) = (val x, r)) l ->
  read_loop read (length l) (List.concat (List.map enc l) ++ r) = (List.map val l, r).
Proof.
  induction 1 as [|x l Hx _ IH]; [done|].
  cbn [length read_loop List.map List.concat]. rewrite <- app_assoc, Hx, IH. done.
Qed.

Lemma push_transitions_ok lts l :
  Forall (fun t => 0 <= snd t < zlen lts) l ->
  push_transitions lts l =
    Ok (List.map (fun t => mkTransition (fst t)
      (fst t + match lts !! Z.to_nat (snd t) with Some lt => gmtOffset lt | None => 0 end) (snd t)) l).
Proof.
  induction 1 as [|[t i] l Hi _ IH]; [done|]. cbn [push_transitions fst snd] in *.
  destruct (lookup_lt_is_Some_2 lts (Z.to_nat i)) as [lt Hlt]; [unfold zlen in Hi; lia|].
  rewrite (index_ok lts i lt) by (done || lia). rewrite IH. cbn [mbind outcome_bind].
  by cbn [List.map fst snd]; rewrite Hlt.
Qed.

(** The indices of the transitions that the loop pushes have been used. *)
Lemma push_transitions_in_bounds lts l trs : push_transitions lts l = Ok trs ->
  Forall (fun t => 0 <= localtimeIdx t < zlen lts) trs.
Proof.
  revert trs. induction l as [|[t i] l IH]; intros trs H; cbn [push_transitions] in H.
  - inv_ok H. subst trs. constructor.
  - inv_ok H. subst trs. constructor; [|by apply IH]. cbn [localtimeIdx].
    unfold index in E. destruct (Z.ltb_spec i 0); [done|].
    destruct (lts !! Z.to_nat i) eqn:Hl; [|done].
    apply lookup_lt_Some in Hl. unfold zlen. lia.
Qed.
End ReaderLemmas.

Section LowerBound.
Context {A : Type} (less : A -> bool) (l : list A).

(** Bisection of a range whose ends are known splits the list. *)
Lemma lower_bound_split fuel first len :
  (len <= fuel)%nat -> (first + len <= length l)%nat ->
  (forall i j x y, (i <= j)%nat -> l !! i = Some x -> l !! j = Some y -> less y = true ->
     less x = true) ->
  (forall i x, (i < first)%nat -> l !! i = Some x -> less x = true) ->
  (forall i x, (first + len <= i)%nat -> l !! i = Some x -> less x = false) ->
  let p := lower_bound less l fuel first len in
  (p <= length l)%nat /\
  (forall i x, (i < p)%nat -> l !! i = Some x -> less x = true) /\
  (forall i x, (p <= i)%nat -> l !! i = Some x -> less x = false).
Proof.
  revert first len. induction fuel as [|fuel IH]; intros first len Hf Hl Hs Hlo Hhi; simpl.
  { replace len with 0%nat in * by lia. rewrite Nat.add_0_r in *. auto. }
  destruct (Nat.eqb_spec len 0) as [->|Hn]; [rewrite Nat.add_0_r in *; auto|].
  pose proof (Nat.lt_div2 len ltac:(lia)). set (half := Nat.div2 len) in *. clearbody half.
  destruct (lookup_lt_is_Some_2 l (first + half)) as [x Hx]; [lia|]. rewrite Hx.
  destruct (less x) eqn:Hlx; apply IH; try lia; try done.
  - intros i y Hi Hy. apply (Hs i (first + half)%nat y x); [lia|done..].
  - intros i y Hi Hy. apply (Hhi i); [lia|done].
  - intros i y Hi Hy. destruct (less y) eqn:Hly; [|done].
    rewrite <- Hlx. symmetry. by apply (Hs (first + half)%nat i x y).
Qed.

(** Whatever the order of the list, the position found is in the range, and is
    the first one only if the first element has been compared. *)
Lemma lower_bound_first fuel first len x :
  (len <= fuel)%nat -> (0 < len)%nat -> (first + len <= length l)%nat -> l !! first = Some x ->
  (first <= lower_bound less l fuel first len <= first + len)%nat /\
  (lower_bound less l fuel first len = first -> less x = false).
Proof.
  revert first len x. induction fuel as [|fuel IH]; intros first len x Hf Hn Hl Hx; simpl; [lia|].
  destruct (Nat.eqb_spec len 0) as [->|_]; [lia|].
  pose proof (Nat.lt_div2 len ltac:(lia)). set (half := Nat.div2 len) in *. clearbody half.
  destruct (lookup_lt_is_Some_2 l (first + half)) as [y Hy]; [lia|]. rewrite Hy.
  destruct (less y) eqn:Hly.
  - destruct (Nat.eq_dec (len - half - 1)%nat 0%nat) as [Hz|Hz].
    + rewrite Hz. destruct fuel; simpl; split; lia.
    + destruct (lookup_lt_is_Some_2 l (first + half + 1)) as [z Hzz]; [lia|].
      destruct (IH (first + half + 1)%nat (len - half - 1)%nat z); [lia..|done|].
      split; lia.
  - destruct (Nat.eq_dec half 0%nat) as [Hz|Hz].
    + rewrite Hz in *. rewrite Nat.add_0_r in Hy. destruct fuel; simpl; (split; [lia|]); congruence.
    + destruct (IH first half x); [lia..|done|]. split; [lia|done].
Qed.
End LowerBound.

Lemma increasing_lookup l i j a b : increasing l -> (i < j)%nat -> l !! i = Some a ->
  l !! j = Some b -> a < b.
Proof.
  revert i j a b. induction l as [|x l IH]; intros i j a b Hi Hij Ha Hb; [done|].
  destruct j as [|j]; [lia|]. simpl in Hb.
  assert (Ht : increasing l) by (destruct l; [done|]; apply Hi).
  destruct i as [|i]; [|by apply (IH i j); [done|lia|..]].
  simpl in Ha. simplify_eq. destruct l as [|y l]; [done|]. destruct Hi as [Hxy _].
  destruct j as [|j]; [by simplify_eq/=|].
  transitivity y; [done|]. by apply (IH 0%nat (Datatypes.S j)); [done|lia|..].
Qed.

(** A test that holds exactly before position [p] filters out a prefix. *)
Lemma filter_take {A} (P : A -> Prop) `{!forall x, Decision (P x)} l p :
  (forall i x, (i < p)%nat -> l !! i = Some x -> P x) ->
  (forall i x, (p <= i)%nat -> l !! i = Some x -> ~ P x) -> filter P l = take p l.
Proof.
  revert p. induction l as [|x l IH]; intros p Hlo Hhi; [by rewrite take_nil|].
  destruct p as [|p].
  - rewrite take_0. rewrite filter_cons_False by (by apply (Hhi 0%nat); [lia|]).
    rewrite (IH 0%nat); [by rewrite take_0|lia|]. intros i y _ Hy. by apply (Hhi (Datatypes.S i)); [lia|].
  - rewrite filter_cons_True by (by apply (Hlo 0%nat); [lia|]). cbn [take]. f_equal.
    apply IH; intros i y Hi Hy; [apply (Hlo (Datatypes.S i))|apply (Hhi (Datatypes.S i))]; (lia || done).
Qed.

Lemma last_take {A} (l : list A) p x : l !! p = Some x -> last (take (Datatypes.S p) l) = Some x.
Proof.
  intros H. rewrite last_lookup, length_take. pose proof (lookup_lt_Some _ _ _ H).
  rewrite lookup_take_lt by lia. rewrite <- H. f_equal. lia.
Qed.

Lemma comp_key gmt a b : comp gmt a b = (key gmt a <? key gmt b).
Proof. by destruct gmt. Qed.

Lemma comp_equal_key gmt a b : comp_equal gmt a b = (key gmt a =? key gmt b).
Proof. by destruct gmt. Qed.

Lemma index_lookup {A} (l : list A) i : 0 <= i < zlen l ->
  exists x, index l i = Ok x /\ l !! Z.to_nat i = Some x.
Proof.
  intros Hi. destruct (lookup_lt_is_Some_2 l (Z.to_nat i)) as [x Hx]; [unfold zlen in Hi; lia|].
  exists x. split; [|done]. apply index_ok; [lia|done].
Qed.

Lemma readLocalTime_encoded {host : Host} (t : Z * bool * Z) r :
  - 2 ^ 31 <= fst (fst t) < 2 ^ 31 -> 0 <= snd t < 256 ->
  readLocalTime (be_bytes 4 (fst (fst t)) ++ be_bytes 1 (if snd (fst t) then 1 else 0) ++
    be_bytes 1 (snd t) ++ r) = (mkLocalTime (fst (fst t)) (snd (fst t)) (snd t), r).
Proof.
  intros Ho Ha. unfold readLocalTime. rewrite readInt32_encoded by done.
  rewrite readUint8_encoded by (destruct (snd (fst t)); lia). rewrite readUint8_encoded by done.
  by destruct (snd (fst t)).
Qed.

(** What the three loops read from the body of a zone file. *)
Lemma read_body {host : Host} z r : zone_ok z ->
  read_loop readInt32 (length (z_transitions z))
    (List.concat (List.map (fun t : Z * Z => be_bytes 4 (fst t)) (z_transitions z)) ++ r)
    = (List.map fst (z_transitions z), r) /\
  read_loop readUint8 (length (z_transitions z))
    (List.concat (List.map (fun t : Z * Z => be_bytes 1 (snd t)) (z_transitions z)) ++ r)
    = (List.map snd (z_transitions z), r) /\
  read_loop readLocalTime (length (z_types z))
    (List.concat (List.map (fun t : Z * bool * Z =>
       be_bytes 4 (fst (fst t)) ++ be_bytes 1 (if snd (fst t) then 1 else 0) ++
       be_bytes 1 (snd t)) (z_types z)) ++ r)
    = (localtimes (data_of z), r).
Proof.
  intros (_ & _ & _ & _ & _ & Htr & Hts). split; [|split]; apply read_loop_encoded.
  - eapply Forall_impl; [exact Htr|]. intros t (H & _) r'. by apply readInt32_encoded.
  - eapply Forall_impl; [exact Htr|]. intros t (_ & H & _) r'. by apply readUint8_encoded.
  - eapply Forall_impl; [exact Hts|]. intros t (Ho & Ha) r'. rewrite <- !app_assoc.
    by apply readLocalTime_encoded.
Qed.

Lemma zip_fst_snd {A B} (l : list (A * B)) : zip (List.map fst l) (List.map snd l) = l.
Proof. induction l as [|[a b] l IH]; [done|]. simpl. by rewrite IH. Qed.

Lemma readTimeZoneFile_indices {host : Host} room f ok data :
  readTimeZoneFile room (Some f) Data_new = Ok (ok, data) ->
  Forall (fun t => 0 <= localtimeIdx t < zlen (localtimes data)) (transitions data).
Proof.
  intros H. unfold readTimeZoneFile, readBytes in H. unfold_monad_in H.
  repeat match type of H with
  | Fault _ = Ok _ => discriminate H
  | Ok _ = Ok _ => injection H as <- <-
  | context [push_transitions ?l ?x] =>
      let E := fresh "E" in destruct (push_transitions l x) eqn:E; [|try discriminate H]
  | context [match ?x with _ => _ end] => destruct x
  end; try done; cbn [transitions localtimes Data_new app] in *.
  all: eauto using push_transitions_in_bounds.
Qed.

(** The position that findLocalTime uses, by the outcome of the bisection. *)
Lemma findLocalTime_cases data s gmt front rest :
  transitions data = front :: rest -> comp gmt s front = false ->
  exists t, t ∈ transitions data /\
    findLocalTime data s gmt = index (localtimes data) (localtimeIdx t) /\
    let n := length (transitions data) in
    let p := lower_bound (fun t => comp gmt t s) (transitions data) n 0 n in
    (transitions data !! p = Some t /\ key gmt t = key gmt s \/
     (0 < p)%nat /\ transitions data !! (p - 1)%nat = Some t /\
     forall t', transitions data !! p = Some t' -> key gmt t' <> key gmt s).
Proof.
  intros Ht Hc. unfold findLocalTime. rewrite Ht, Hc.
  set (p := lower_bound _ _ _ _ _). cbn zeta.
  assert (Hp : (0 <= p <= length (front :: rest))%nat /\ (p = 0%nat -> comp gmt front s = false)).
  { apply (lower_bound_first (fun t => comp gmt t s) (front :: rest)); simpl; [lia|lia|lia|done]. }
  destruct Hp as [Hp Hp0].
  destruct ((front :: rest) !! p) as [t|] eqn:Hl.
  - rewrite comp_equal_key. destruct (Z.eqb_spec (key gmt s) (key gmt t)) as [Heq|Hne].
    + exists t. split; [by eapply list_elem_of_lookup_2|]. split; [done|]. by left.
    + destruct (Nat.eqb_spec p 0) as [Hz|Hz].
      { exfalso. rewrite Hz in Hl. simplify_eq/=. rewrite !comp_key in *. specialize (Hp0 Hz). zbool. lia. }
      destruct (index_lookup (front :: rest) (Z.of_nat p - 1)) as (t1 & Hi & Hl1);
        [apply lookup_lt_Some in Hl; unfold zlen; lia|].
      cbn [negb assert_]. unfold_monad. rewrite Hi. exists t1.
      split; [by eapply list_elem_of_lookup_2|]. split; [done|]. right. split; [lia|].
      replace (p - 1)%nat with (Z.to_nat (Z.of_nat p - 1)) by lia. split; [done|].
      intros t' Ht'. by simplify_eq.
  - apply lookup_ge_None in Hl. assert (Hpe : p = length (front :: rest)) by lia.
    destruct (index_lookup (front :: rest) (Z.of_nat (length (front :: rest)) - 1))
      as (t1 & Hi & Hl1); [unfold zlen; simpl; lia|].
    rewrite Hi. exists t1. split; [by eapply list_elem_of_lookup_2|]. split; [done|].
    right. rewrite Hpe. split; [simpl; lia|].
    replace (length (front :: rest) - 1)%nat
      with (Z.to_nat (Z.of_nat (length (front :: rest)) - 1)) by lia. split; [done|].
    intros t' Ht'. simplify_eq.
Qed.

Lemma in_force_ok data s gmt front rest t :
  transitions data = front :: rest ->
  increasing (List.map (key gmt) (transitions data)) ->
  (let n := length (transitions data) in
   let p := lower_bound (fun t => comp gmt t s) (transitions data) n 0 n in
   transitions data !! p = Some t /\ key gmt t = key gmt s \/
   (0 < p)%nat /\ transitions data !! (p - 1)%nat = Some t /\
   forall t', transitions data !! p = Some t' -> key gmt t' <> key gmt s) ->
  in_force gmt data s = localtimeIdx t.
Proof.
  intros Ht Hinc. cbv zeta.
  assert (Hk : forall i j x y, (i < j)%nat -> transitions data !! i = Some x ->
    transitions data !! j = Some y -> key gmt x < key gmt y).
  { intros i j x y Hij Hx Hy. eapply (increasing_lookup _ i j); [done..| |];
      apply list_lookup_fmap_Some; eauto. }
  pose proof (lower_bound_split (fun t => comp gmt t s) (transitions data)
    (length (transitions data)) 0 (length (transitions data)) ltac:(lia) ltac:(lia)) as Hs.
  set (p := lower_bound _ _ _ _ _) in *.
  destruct Hs as (Hp & Hlo & Hhi).
  { intros i j x y Hij Hx Hy. rewrite !comp_key. intros Hl. zbool. apply Z.ltb_lt.
    destruct (Nat.eq_dec i j) as [->|]; [by simplify_eq|].
    specialize (Hk i j x y ltac:(lia) Hx Hy). lia. }
  { intros; lia. }
  { intros i x Hi Hx. apply lookup_lt_Some in Hx. lia. }
  unfold in_force. intros [[Hpt Heq]|(Hpos & Hpt & Hne)].
  - rewrite (filter_take _ _ (Datatypes.S p)), (last_take _ _ t); [done..| |].
    + intros i x Hi Hx. destruct (Nat.eq_dec i p) as [->|]; [simplify_eq; lia|].
      specialize (Hlo i x ltac:(lia) Hx). rewrite comp_key in Hlo. zbool. lia.
    + intros i x Hi Hx. specialize (Hk p i t x ltac:(lia) Hpt Hx). lia.
  - rewrite (filter_take _ _ p).
    + replace p with (Datatypes.S (p - 1)) by lia. by rewrite (last_take _ _ t).
    + intros i x Hi Hx. specialize (Hlo i x Hi Hx). rewrite comp_key in Hlo. zbool. lia.
    + intros i x Hi Hx. pose proof (Hhi i x Hi Hx) as Hge. rewrite comp_key in Hge. zbool.
      destruct (Nat.eq_dec i p) as [->|]; [specialize (Hne x Hx); lia|].
      destruct (lookup_lt_is_Some_2 (transitions data) p) as [y Hy];
        [apply lookup_lt_Some in Hx; lia|].
      specialize (Hk p i y x ltac:(lia) Hy Hx). specialize (Hhi p y ltac:(lia) Hy).
      rewrite comp_key in Hhi. zbool. lia.
Qed.

(** ** Properties *)

(** C34. Looking a time up by bisection is correct: in a zone whose transitions are
    in increasing order (by UTC or by local time, whichever the lookup
    compares) and refer to existing local time types, findLocalTime returns
    the type of the last transition that is not later than the time, and the
    first type for a time before all transitions. *)
Theorem findLocalTime_in_force data s gmt :
  increasing (List.map (key gmt) (transitions data)) ->
  Forall (fun t => 0 <= localtimeIdx t < zlen (localtimes data)) (transitions data) ->
  localtimes data <> [] ->
  exists lt, findLocalTime data s gmt = Ok lt /\
    localtimes data !! Z.to_nat (in_force gmt data s) = Some lt.
Proof.
  intros Hinc Hidx Hne.
  assert (Hz : exists lt, index (localtimes data) 0 = Ok lt /\ localtimes data !! 0%nat = Some lt).
  { apply (index_lookup _ 0). destruct (localtimes data); [done|]. unfold zlen. simpl. lia. }
  destruct (transitions data) as [|front rest] eqn:Ht.
  { unfold findLocalTime, in_force. rewrite Ht. exact Hz. }
  destruct (comp gmt s front) eqn:Hc.
  - unfold findLocalTime, in_force. rewrite Ht, Hc.
    rewrite (filter_take _ _ 0%nat); [exact Hz|lia|].
    intros i x _ Hx. rewrite comp_key in Hc. zbool.
    destruct i as [|i]; [by simplify_eq/=; lia|].
    assert (key gmt front < key gmt x); [|lia].
    eapply (increasing_lookup _ 0 (Datatypes.S i)); [exact Hinc|lia|done|].
    by apply list_lookup_fmap_Some; eauto.
  - destruct (findLocalTime_cases data s gmt front rest Ht Hc) as (t & Hin & Hf & Hp).
    rewrite <- Ht in *. rewrite (in_force_ok data s gmt front rest t Ht Hinc Hp), Hf.
    rewrite Forall_forall in Hidx. by apply index_lookup, Hidx.
Qed.

(** Times and offsets of Central European Time in 2024. *)
Definition cet : zone :=
  mkZone (lit "2") (replicate 15 NUL) 0 0 0
    [(1711846800, 1); (1729990800, 0)]
    [(3600, false, 0); (7200, true, 4)] (lit "CET" ++ [NUL] ++ lit "CEST" ++ [NUL]) (lit "TZif2").

Lemma findLocalTime_in_force_witness :
  exists lt, findLocalTime (data_of cet) (mkTransition 1720000000 0 0) true = Ok lt /\
    localtimes (data_of cet) !!
      Z.to_nat (in_force true (data_of cet) (mkTransition 1720000000 0 0)) = Some lt.
Proof.
  apply findLocalTime_in_force; vm_compute.
  - split; [reflexivity|exact I].
  - repeat constructor; discriminate.
  - discriminate.
Defined.

(** C13. Reading a zone file gives the zone it describes: for every well-formed
    version-1 file (any numbers of transitions, types and abbreviation bytes
    that fit their fields and the stack, whatever follows them), on a host of
    either byte order, the constructor succeeds with exactly the transitions,
    with their local times, the types and the abbreviations of the file. *)
Theorem zone_file_roundtrip {host : Host} room z :
  zone_ok z -> 15 <= room -> zlen (z_abbreviations z) <= room ->
  TimeZone_of_file room (Some (encode z)) = Ok (mkTimeZone (Some (data_of z))).
Proof.
  intros Hok H15 Hroom. pose proof (fun r => read_body z r Hok) as Hb.
  destruct Hok as (Hv & Hr & Ht & Hty & Hab & Htr & Hts).
  unfold TimeZone_of_file, readTimeZoneFile, encode, readBytes.
  destruct (Z.leb_spec 4 room); [|lia]. rewrite fread_app by done. unfold_monad.
  rewrite decide_True by done. destruct (Z.leb_spec 1 room); [|lia].
  rewrite fread_app by (by rewrite Hv). destruct (Z.leb_spec 15 room); [|lia].
  rewrite fread_app by (by rewrite Hr).
  pose proof (zlen_nonneg (z_transitions z)). pose proof (zlen_nonneg (z_types z)).
  pose proof (zlen_nonneg (z_abbreviations z)).
  rewrite !readInt32_any. rewrite !wrapS_small by (simpl in *; lia).
  destruct (Z.ltb_spec (zlen (z_transitions z)) 0); [lia|].
  rewrite wrapU_small by (simpl in *; lia).
  destruct (Z.leb_spec (zlen (z_abbreviations z)) room); [|lia].
  unfold zlen. rewrite !Nat2Z.id.
  rewrite (proj1 (Hb _)), (proj1 (proj2 (Hb _))), (proj2 (proj2 (Hb _))), fread_app, zip_fst_snd by done.
  cbn [transitions localtimes names abbreviation Data_new app].
  rewrite push_transitions_ok.
  - do 3 f_equal. unfold data_of. cbn [localtimes]. f_equal.
    apply List.map_ext. intros [t i]. cbn [fst snd]. do 2 f_equal. unfold offset_at. change (List.map ?g ?l) with (g <$> l).
    rewrite list_lookup_fmap. by destruct (z_types z !! Z.to_nat i) as [[[o b] a]|].
  - eapply Forall_impl; [exact Htr|]. intros t (_ & Hi).
    unfold data_of, zlen in *. cbn [localtimes]. rewrite List.length_map. lia.
Qed.

Lemma zone_file_roundtrip_witness :
  TimeZone_of_file (host := LittleEndian) 8192 (Some (encode cet)) =
    Ok (mkTimeZone (Some (data_of cet))).
Proof.
  apply zone_file_roundtrip; [|vm_compute; congruence..].
  unfold zone_ok, cet. repeat split; repeat constructor; cbn [fst snd]; vm_compute; congruence.
Defined.

(** C35. What lookups do in a zone that the constructor has made, whatever bytes
    its file holds and even if the transitions are out of order.  If the zone
    has a local time type, looking any time up finds one of its types, without a
    failed assert or an out-of-bounds access.  If it has none, because the file
    lists none or could not be opened, every lookup takes the front of an empty
    vector. *)
Theorem parsed_zone_safe {host : Host} room zone_file data s gmt :
  TimeZone_of_file room zone_file = Ok (mkTimeZone (Some data)) ->
  (localtimes data <> [] -> exists lt, findLocalTime data s gmt = Ok lt /\ (lt ∈ localtimes data)) /\
  (localtimes data = [] -> findLocalTime data s gmt = Fault Undefined).
Proof.
  intros Hf.
  assert (Hidx : Forall (fun t => 0 <= localtimeIdx t < zlen (localtimes data)) (transitions data)).
  { destruct zone_file as [f|]; [|by injection Hf as <-]. unfold TimeZone_of_file in Hf.
    destruct (readTimeZoneFile room (Some f) Data_new) as [[ok d]|] eqn:Hr; [|done].
    cbn in Hf. destruct ok; [|done]. simplify_eq. by eapply readTimeZoneFile_indices. }
  split.
  2: { intros He. rewrite He in Hidx. unfold findLocalTime. rewrite He.
       destruct (transitions data); [done|]. apply Forall_cons in Hidx as [Hz _].
       unfold zlen in Hz. cbn in Hz. lia. }
  intros Hne.
  assert (Hin : forall i, 0 <= i < zlen (localtimes data) ->
    exists lt, index (localtimes data) i = Ok lt /\ (lt ∈ localtimes data)).
  { intros i Hi. destruct (index_lookup _ i Hi) as (lt & H1 & H2).
    eauto using list_elem_of_lookup_2. }
  assert (H0 : 0 <= 0 < zlen (localtimes data)).
  { destruct (localtimes data); [done|]. unfold zlen. simpl. lia. }
  destruct (transitions data) as [|front rest] eqn:Ht.
  { unfold findLocalTime. rewrite Ht. by apply Hin. }
  destruct (comp gmt s front) eqn:Hc; [unfold findLocalTime; rewrite Ht, Hc; by apply Hin|].
  destruct (findLocalTime_cases data s gmt front rest Ht Hc) as (t & Hint & Hf' & _).
  rewrite Hf'. rewrite <- Ht in Hidx. rewrite Forall_forall in Hidx. by apply Hin, Hidx.
Qed.

(** A file with its transitions out of order. *)
Definition unsorted : zone :=
  mkZone (lit "2") (replicate 15 NUL) 0 0 0 [(100, 1); (50, 0); (75, 1)]
    [(0, false, 0); (3600, true, 4)] (lit "GMT" ++ [NUL]) [].

Lemma parsed_zone_safe_witness :
  (exists lt, findLocalTime (data_of unsorted) (mkTransition 99 99 0) false = Ok lt /\
     (lt ∈ localtimes (data_of unsorted))) /\
  findLocalTime Data_new (mkTransition 99 99 0) false = Fault Undefined.
Proof.
  split.
  - apply (parsed_zone_safe (host := BigEndian) 8192 (Some (encode unsorted))); vm_compute; congruence.
  - apply (parsed_zone_safe (host := BigEndian) 8192 None); reflexivity.
Defined.

(** A file with another magic number is rejected, whatever follows it. *)
Lemma bad_magic {host : Host} room f : 15 <= room -> take 4 f <> lit "TZif" ->
  TimeZone_of_file room (Some f) = Ok (mkTimeZone None).
Proof.
  intros Hr Hh. unfold TimeZone_of_file, readTimeZoneFile, readBytes.
  destruct (Z.leb_spec 4 room); [|lia]. unfold_monad. unfold fread at 1.
  change (Z.to_nat 4) with 4%nat. by rewrite decide_False.
Qed.

(** A file that cannot be opened gives a zone that claims to be valid and in
    which no time can be looked up. *)
Lemma missing_zone_file {host : Host} room s gmt :
  exists z, TimeZone_of_file room None = Ok z /\ valid z = true /\
    (m_spDate z = Some Data_new /\ findLocalTime Data_new s gmt = Fault Undefined).
Proof. by eexists. Qed.

(** fillHMS computes the time of day that gmtime_r does. *)
Lemma fillHMS_gmtime t utc : let h := fillHMS (t mod 86400) utc in
  tm_hour h = tm_hour (gmtime_r t) /\ tm_min h = tm_min (gmtime_r t) /\ tm_sec h = tm_sec (gmtime_r t).
Proof.
  cbv zeta. unfold fillHMS, gmtime_r. cbn [tm_hour tm_min tm_sec]. repeat split.
  rewrite Z.div_div by lia. done.
Qed.
