(* ===== verification/FileUtil.v ===== *)
(** Reading small files and appending to files: base/FileUtil.h and
    base/FileUtil.cc.

    The system calls and stdio functions are parameters (their results may
    depend on how many calls came before); the files themselves are a map from
    names to what has been written to them.  Loops that call the system take
    fuel, and [OutOfFuel] means that they are still running. *)
From Stdlib Require Import ZArith Lia Ascii String.
From stdpp Require Import base list strings gmap.
From S2P Require Import Prelude.
From S2P Require Import CLib.

#[local] Open Scope Z_scope.

Definition kBUFF_SIZE : Z := 64 * 1024.
Definition EINTR : Z := 4.
Definition EISDIR : Z := 21.

(** ** ReadSmallFile *)

(** Result of read and pread: data, or -1 with errno. *)
Inductive sysret := Got (bs : bytes) | Err (errno : Z).

Inductive file_type := S_IFREG | S_IFDIR | S_IFOTHER.
Record stat := mkStat { st_mode : file_type; st_size : Z; st_mtime : Z; st_ctime : Z }.

Record ReadSmallFile := mkReadSmallFile {
  m_fd : Z;
  m_err : Z;
  m_size : Z;
  m_buff : bytes
}.

(** What readToString writes through its references and pointers. *)
Record read_result := mkResult {
  r_err : Z;
  r_data : bytes;
  r_fileSize : option Z;
  r_modifyTime : option Z;
  r_createTime : option Z
}.

Section Read.
(** open: a descriptor, or -1, and errno. *)
Variable open : bytes -> Z * Z.
(** pread(m_fd, _, count, 0), fstat, and read(m_fd, _, count) at an offset; the
    first argument counts the calls. *)
Variable pread : nat -> Z -> sysret.
Variable fstat : stat + Z.
Variable read : nat -> Z -> Z -> sysret.

(** [junk]: the array before anything is stored in it. *)
Definition ReadSmallFile_new (junk : bytes) (filename : bytes) : outcome ReadSmallFile :=
  let '(fd, errno) := open filename in
  buff ← blit 0 [NUL] junk;
  Ok (mkReadSmallFile fd (if fd <? 0 then errno else 0) 0 buff).

(** ~ReadSmallFile: close, tried again while it is interrupted; [close] gives
    errno when it fails. *)
Fixpoint close_loop (close : nat -> option Z) (fuel i : nat) : outcome unit :=
  match fuel with
  | O => Fault OutOfFuel
  | S fuel =>
      match close i with
      | Some e => if e =? EINTR then close_loop close fuel (S i) else Ok tt
      | None => Ok tt
      end
  end.
Definition ReadSmallFile_delete (close : nat -> option Z) (fuel : nat) (this : ReadSmallFile)
  : outcome unit :=
  if 0 <=? m_fd this then close_loop close fuel 0 else Ok tt.

(** The do-while around pread: its condition assigns EINTR to errno, so that
    every failure is tried again. *)
Fixpoint pread_loop (fuel i : nat) (count : Z) : outcome bytes :=
  match fuel with
  | O => Fault OutOfFuel
  | S fuel =>
      match pread i count with
      | Got bs => Ok bs
      | Err _ => pread_loop fuel (S i) count
      end
  end.

(** readToBuffer: the error returned, *size if it is set, and the object. *)
Definition readToBuffer (fuel : nat) (this : ReadSmallFile)
  : outcome (Z * option Z * ReadSmallFile) :=
  if 0 <=? m_fd this then
    bs ← pread_loop fuel 0 (kBUFF_SIZE - 1);
    buff ← blit 0 bs (m_buff this);
    buff ← blit (zlen bs) [NUL] buff;
    Ok (m_err this, Some (wrapS 32 (zlen bs)),
        mkReadSmallFile (m_fd this) (m_err this) (m_size this) buff)
  else Ok (m_err this, None, this).

(** The while loop of readToString: the error and the data it ends with. *)
Fixpoint read_loop (fuel i : nat) (maxSize readSize : Z) (err readed : Z) (data buff : bytes)
  : outcome (Z * bytes * bytes) :=
  match fuel with
  | O => Fault OutOfFuel
  | S fuel =>
      if readed <? readSize then
        let need_read := Z.min kBUFF_SIZE (wrapU 64 (maxSize - zlen data)) in
        match read i readed need_read with
        | Got bs =>
            if zlen bs =? 0 then Ok (err, data, buff)
            else
              buff ← blit 0 bs buff;
              read_loop fuel (S i) maxSize readSize err (readed + zlen bs) (data ++ bs) buff
        | Err e =>
            if e =? EINTR then read_loop fuel (S i) maxSize readSize err readed data buff
            else Ok (e, data, buff)
        end
      else Ok (err, data, buff)
  end.

(** readToString: the booleans say which of the three pointers are not NULL. *)
Definition readToString (fuel : nat) (this : ReadSmallFile) (maxSize : Z) (data : bytes)
  (fileSize modifyTime createTime : bool) : outcome (read_result * ReadSmallFile) :=
  let err := m_err this in
  if 0 <=? m_fd this then
    match fstat with
    | inl st =>
        let reg := match st_mode st with S_IFREG => fileSize | _ => false end in
        let dir := match st_mode st with S_IFDIR => true | _ => false end in
        let readSize := if reg then Z.min maxSize (st_size st) else 0 in
        (* data.reserve(readSize): a negative size is a huge size_t *)
        _ ← (if readSize <? 0 then Fault LengthError else Ok tt);
        let err := if reg then err else if dir then EISDIR else err in
        '(err, data, buff) ← read_loop fuel 0 maxSize readSize err 0 [] (m_buff this);
        Ok (mkResult err data (if reg then Some (st_size st) else None)
              (if modifyTime then Some (st_mtime st) else None)
              (if createTime then Some (st_ctime st) else None),
            mkReadSmallFile (m_fd this) (m_err this) (m_size this) buff)
    | inr errno => Ok (mkResult errno [] None None None, this)
    end
  else Ok (mkResult err data None None None, this).

(** readFile(filename, maxSize, content, ...) *)
Definition readFile (fuel : nat) (junk filename : bytes) (maxSize : Z) (content : bytes)
  (fileSize modifyTime createTime : bool) : outcome read_result :=
  file ← ReadSmallFile_new junk filename;
  '(res, _) ← readToString fuel file maxSize content fileSize modifyTime createTime;
  Ok res.
End Read.

(** ** WriteFile *)

(** The files by name, the names in the order they were opened, the number of
    fwrite calls so far and, per name, how much of it fflush has pushed. *)
Record world := mkWorld {
  files : gmap bytes bytes;
  opened : list bytes;
  fwrites : nat;
  flushed : gmap bytes Z
}.

Record WriteFile := mkWriteFile {
  m_filename : bytes;
  m_nBytesWritten : Z;
  m_valid : bool
}.

Definition content (w : world) (name : bytes) : bytes := default [] (files w !! name).

Section Write.
(** Does fopen(name, "ae") succeed? *)
Variable fopen_ok : bytes -> bool.
(** fwrite_unlocked: given the number of earlier calls and the bytes, how many
    are accepted, and whether the error indicator is set afterwards. *)
Variable fwrite_unlocked : nat -> bytes -> nat * bool.

Definition WriteFile_new (filename : bytes) (w : world) : WriteFile * world :=
  if fopen_ok filename then
    (mkWriteFile filename 0 true,
     mkWorld (<[filename := content w filename]> (files w)) (opened w ++ [filename]) (fwrites w)
       (flushed w))
  else (mkWriteFile filename 0 false, w).

Definition flush (f : WriteFile) (w : world) : world :=
  if m_valid f then
    mkWorld (files w) (opened w) (fwrites w)
      (<[m_filename f := zlen (content w (m_filename f))]> (flushed w))
  else w.

(** write: the count returned, ferror(m_file), and the files. *)
Definition write (f : WriteFile) (line : bytes) (w : world) : Z * bool * world :=
  let '(k, err) := fwrite_unlocked (fwrites w) line in
  (Z.of_nat k, err,
   mkWorld (<[m_filename f := content w (m_filename f) ++ take k line]> (files w)) (opened w)
     (S (fwrites w)) (flushed w)).

(** The do-while of writeLine, [line] being what starts at line + startPos. *)
Fixpoint write_loop (fuel : nat) (f : WriteFile) (line : bytes) (remain : Z) (w : world)
  : outcome world :=
  match fuel with
  | O => Fault OutOfFuel
  | S fuel =>
      let '(ret, err, w) := write f (take (Z.to_nat remain) line) w in
      if (ret =? 0) && err then Ok w
      else
        let remain := wrapU 64 (remain - ret) in
        if 0 <? remain then write_loop fuel f (drop (Z.to_nat ret) line) remain w else Ok w
  end.

(** writeLine(line, n): the count returned, the object and the files. *)
Definition writeLine (fuel : nat) (f : WriteFile) (line : bytes) (w : world)
  : outcome (Z * WriteFile * world) :=
  if m_valid f then
    w ← write_loop fuel f line (zlen line) w;
    Ok (zlen line,
        mkWriteFile (m_filename f) (wrapU 64 (m_nBytesWritten f + zlen line)) (m_valid f), w)
  else Ok (0, f, w).

(** ~WriteFile: fclose writes out what is still buffered. *)
Definition WriteFile_delete (f : WriteFile) (w : world) : world := flush f w.

Definition WritenBytes (f : WriteFile) : Z := m_nBytesWritten f.

(** ** Lemmas *)

(** stdio makes progress: it accepts at least one byte and never more than it
    is given. *)
Definition fwrite_progress : Prop := forall i bs,
  (fst (fwrite_unlocked i bs) <= length bs)%nat /\
  (bs <> [] -> (0 < fst (fwrite_unlocked i bs))%nat).

Lemma write_loop_all (Hp : fwrite_progress) fuel f line w :
  (length line < fuel)%nat -> zlen line < 2 ^ 64 ->
  exists k, write_loop fuel f line (zlen line) w =
    Ok (mkWorld (<[m_filename f := content w (m_filename f) ++ line]> (files w)) (opened w) k
          (flushed w)).
Proof.
  revert line w. induction fuel as [|fuel IH]; intros line w Hf Hl; [lia|].
  cbn [write_loop]. unfold write. rewrite take_all by lia.
  destruct (Hp (fwrites w) line) as [Hle Hpos].
  destruct (fwrite_unlocked (fwrites w) line) as [k err] eqn:Hw. cbn [fst] in *.
  destruct (decide (line = [])) as [->|Hne].
  { assert (k = 0)%nat as -> by (simpl in Hle; lia). cbn. destruct err; eauto. }
  specialize (Hpos Hne). destruct (Z.eqb_spec (Z.of_nat k) 0); [lia|]. cbn [andb].
  rewrite wrapU_small by (unfold zlen in *; lia).
  destruct (Z.ltb_spec 0 (zlen line - Z.of_nat k)) as [Hr|Hr].
  - rewrite Nat2Z.id.
    replace (zlen line - Z.of_nat k) with (zlen (drop k line))
      by (unfold zlen; rewrite length_drop; unfold zlen in Hr; lia).
    destruct (IH (drop k line) (mkWorld
      (<[m_filename f := content w (m_filename f) ++ take k line]> (files w)) (opened w)
      (S (fwrites w)) (flushed w))) as [k' Hk'].
    { rewrite length_drop. lia. }
    { unfold zlen in *. rewrite length_drop. lia. }
    exists k'. rewrite Hk'. unfold content at 1. cbn [files opened flushed].
    rewrite lookup_insert_eq, insert_insert_eq. cbn [default from_option id].
    by rewrite <- app_assoc, take_drop.
  - rewrite take_ge by (unfold zlen in Hr; lia). eauto.
Qed.
End Write.

(** The contents of the files after one of them has been written. *)
Lemma content_written m name v o k fl : content (mkWorld (<[name:=v]> m) o k fl) name = v.
Proof. unfold content. cbn [files]. by rewrite lookup_insert_eq. Qed.

Lemma content_other w name v o k fl name' : name <> name' ->
  content (mkWorld (<[name:=v]> (files w)) o k fl) name' = content w name'.
Proof. intros H. unfold content. cbn [files]. by rewrite lookup_insert_ne. Qed.

Section ReadLemmas.
Variable read : nat -> Z -> Z -> sysret.
Variable content : bytes.

(** read delivers the bytes of [content] from the offset on, at least one
    unless the offset is at the end, or is interrupted; from call [N] on it is
    not interrupted. *)
Definition reads_content : Prop := forall i off count, 0 <= off -> 0 < count ->
  read i off count = Err EINTR \/
  exists bs, read i off count = Got bs /\ zlen bs <= count /\
    bs = slice off (zlen bs) content /\ (off < zlen content -> bs <> []).
Definition uninterrupted_from (N : nat) : Prop := forall i off count, (N <= i)%nat ->
  read i off count <> Err EINTR.

Lemma read_loop_reads (Hr : reads_content) N (Hn : uninterrupted_from N)
  fuel i maxSize err buff (k : nat) :
  zlen buff = kBUFF_SIZE -> maxSize < 2 ^ 63 ->
  let readSize := Z.min maxSize (zlen content) in
  Z.of_nat k <= readSize ->
  (N - i + Z.to_nat (readSize - Z.of_nat k) < fuel)%nat ->
  exists buff', zlen buff' = kBUFF_SIZE /\
    read_loop read fuel i maxSize readSize err (Z.of_nat k) (take k content) buff =
      Ok (err, take (Z.to_nat readSize) content, buff').
Proof.
  intros Hb Hm readSize. pose proof (zlen_nonneg content).
  revert i k buff Hb. induction fuel as [|fuel IH]; intros i k buff Hb Hk Hf; [lia|].
  cbn [read_loop]. destruct (Z.ltb_spec (Z.of_nat k) readSize) as [Hlt|Hge].
  2: { assert (k = Z.to_nat readSize) as -> by lia. eauto. }
  assert (Hlen : zlen (take k content) = Z.of_nat k).
  { unfold zlen. rewrite length_take. unfold zlen in *. lia. }
  rewrite Hlen, wrapU_small by (simpl in *; lia).
  set (need := Z.min kBUFF_SIZE (maxSize - Z.of_nat k)).
  assert (Hneed : 0 < need <= kBUFF_SIZE) by (unfold need, kBUFF_SIZE; lia).
  destruct (Hr i (Z.of_nat k) need ltac:(lia) ltac:(lia)) as [E|(bs & E & Hle & Hbs & Hne)].
  - rewrite E. cbn [Z.eqb]. unfold EINTR. cbn [Z.eqb Pos.eqb].
    apply IH; [done|done|].
    destruct (decide (N <= i)%nat) as [HN|]; [|lia].
    exfalso. by eapply (Hn i); [exact HN|].
  - rewrite E. assert (bs <> []) by (apply Hne; lia).
    assert (0 < zlen bs) by (destruct bs; [done|unfold zlen; simpl; lia]).
    destruct (Z.eqb_spec (zlen bs) 0); [lia|].
    rewrite blit_ok by lia. cbn [mbind outcome_bind].
    assert (Hend : zlen bs <= zlen content - Z.of_nat k).
    { rewrite Hbs. unfold slice, zlen. rewrite length_take, length_drop. unfold zlen in *. lia. }
    replace (Z.of_nat k + zlen bs) with (Z.of_nat (k + length bs)) by (unfold zlen; lia).
    replace (take k content ++ bs) with (take (k + length bs) content).
    + apply IH; [rewrite zlen_splice; lia| |]; unfold need, zlen in *; lia.
    + rewrite Hbs at 2. unfold slice, zlen. rewrite !Nat2Z.id. by rewrite take_take_drop.
Qed.
End ReadLemmas.

(** ** Properties *)


(** The file "hello", read in pieces of at most two bytes after one interruption. *)
Definition hello_read (i : nat) (off count : Z) : sysret :=
  match i with O => Err EINTR | _ => Got (slice off (Z.min 2 count) (lit "hello")) end.

Lemma hello_read_law : reads_content hello_read (lit "hello").
Proof.
  intros i off count Hoff Hc. destruct i as [|i]; [by left|]. right. eexists. split; [done|].
  assert (Hz : zlen (slice off (Z.min 2 count) (lit "hello")) =
    Z.max 0 (Z.min (Z.min 2 count) (5 - off))).
  { unfold zlen, slice. rewrite length_take, length_drop. simpl length. lia. }
  rewrite Hz. split; [lia|]. split.
  - destruct (Z.le_ge_cases 5 off).
    + unfold slice. rewrite drop_ge by (simpl length; lia). by rewrite !take_nil.
    + destruct (Z.le_ge_cases (Z.min 2 count) (5 - off)).
      { f_equal. lia. }
      unfold slice. rewrite !take_ge; rewrite ?length_drop; simpl length; lia || done.
  - intros Hlt Hnil. rewrite Hnil in Hz. unfold zlen in *. simpl length in *. lia.
Qed.


(** A line given to writeLine of an open file is appended to the file whole
    and in order, however fwrite splits it, the count of written bytes grows
    by its length, and other files are left alone; a file that could not be
    opened takes nothing and reports 0. *)
Theorem writeLine_appends fwrite fuel f line w :
  fwrite_progress fwrite -> zlen line < 2 ^ 64 -> (length line < fuel)%nat ->
  exists n f' w', writeLine fwrite fuel f line w = Ok (n, f', w') /\
    m_filename f' = m_filename f /\ m_valid f' = m_valid f /\
    (m_valid f = true -> n = zlen line /\
       WritenBytes f' = (WritenBytes f + zlen line) mod 2 ^ 64 /\
       content w' (m_filename f) = content w (m_filename f) ++ line /\
       forall name, name <> m_filename f -> content w' name = content w name) /\
    (m_valid f = false -> n = 0 /\ f' = f /\ w' = w).
Proof.
  intros Hp Hl Hf. unfold writeLine. destruct (m_valid f) eqn:Hv.
  - destruct (write_loop_all fwrite Hp fuel f line w Hf Hl) as [k Hk]. rewrite Hk. unfold_monad.
    do 3 eexists. split; [done|]. cbn [m_filename m_valid]. split; [done|]. split; [done|].
    split; [|done]. intros _. split; [done|]. split; [done|]. split.
    + apply content_written.
    + intros name Hn. by apply content_other.
  - do 3 eexists. split; [done|]. split; [done|]. split; [done|]. by split.
Qed.

(** Two bytes at a time. *)
Definition two_bytes (i : nat) (bs : bytes) : nat * bool := (Nat.min 2 (length bs), false).

Lemma writeLine_appends_witness :
  exists n f' w', writeLine two_bytes 6 (mkWriteFile (lit "log") 3 true) (lit "lines")
      (mkWorld {[lit "log" := lit "old"]} [] 0 ∅) = Ok (n, f', w') /\
    m_filename f' = lit "log" /\ m_valid f' = true /\
    (true = true -> n = 5 /\ WritenBytes f' = 8 /\ content w' (lit "log") = lit "oldlines" /\
       forall name, name <> lit "log" ->
         content w' name = content (mkWorld {[lit "log" := lit "old"]} [] 0 ∅) name) /\
    (true = false -> n = 0 /\ f' = mkWriteFile (lit "log") 3 true /\
       w' = mkWorld {[lit "log" := lit "old"]} [] 0 ∅).
Proof.
  apply (writeLine_appends two_bytes 6 (mkWriteFile (lit "log") 3 true)).
  - intros i bs. unfold two_bytes. cbn [fst]. split; [lia|]. destruct bs; [done|simpl; lia].
  - done.
  - simpl. lia.
Defined.

(** ** Behaviour that callers may not expect *)

(** A caller that does not ask for the size gets no data, even from a regular
    file: this is how procStat and procStatus call readFile. *)
Lemma no_data_without_fileSize fstat read fuel this maxSize data mt ct res this' :
  0 <= m_fd this -> readToString fstat read fuel this maxSize data false mt ct = Ok (res, this') ->
  r_data res = [].
Proof.
  intros Hfd H. unfold readToString in H. destruct (Z.leb_spec 0 (m_fd this)); [|lia].
  destruct fstat as [st|e]; [|by simplify_eq].
  assert (Hreg : match st_mode st with S_IFREG => false | _ => false end = false)
    by by destruct (st_mode st).
  rewrite Hreg in H. cbn [Z.ltb Z.compare] in H. destruct fuel; [done|].
  unfold_monad_in H. cbn [read_loop Z.ltb Z.compare] in H. by simplify_eq.
Qed.

(** readToBuffer never reports a failing pread: it calls it again for ever. *)
Lemma pread_error_never_returns pread fuel this :
  0 <= m_fd this -> (forall i count, exists e, pread i count = Err e) ->
  readToBuffer pread fuel this = Fault OutOfFuel.
Proof.
  intros Hfd He. unfold readToBuffer. destruct (Z.leb_spec 0 (m_fd this)); [|lia].
  assert (Hl : forall i, pread_loop pread fuel i (kBUFF_SIZE - 1) = Fault OutOfFuel).
  { induction fuel as [|fuel IH]; intros i; [done|]. cbn [pread_loop].
    destruct (He i (kBUFF_SIZE - 1)) as [e ->]. apply IH. }
  by rewrite Hl.
Qed.

(** A write error is reported by no return value: writeLine says that the
    whole line was written and counts it. *)
Lemma write_error_unreported fwrite fuel f line w :
  m_valid f = true -> (forall i bs, fwrite i bs = (0%nat, true)) -> (0 < fuel)%nat ->
  exists f' w', writeLine fwrite fuel f line w = Ok (zlen line, f', w') /\
    WritenBytes f' = wrapU 64 (WritenBytes f + zlen line) /\
    content w' (m_filename f) = content w (m_filename f).
Proof.
  intros Hv He Hf. destruct fuel as [|fuel]; [lia|]. unfold writeLine. rewrite Hv.
  cbn [write_loop]. unfold write. rewrite He. cbn. do 2 eexists. split; [done|].
  split; [done|]. by rewrite content_written, app_nil_r.
Qed.
