(* ===== verification/ProcessInfo.v ===== *)
(** Information about the process: base/ProcessInfo.h and base/ProcessInfo.cc.

    What the kernel answers is an argument: the entries of a directory for
    scandir, the results of gethostname, getpwuid_r, readlink, getrlimit and
    times, and, through FileUtil.v, the contents of the files of /proc. *)
From Stdlib Require Import ZArith Lia Ascii String.
From Stdlib Require Import Floats.SpecFloat.
From stdpp Require Import base list strings sorting.
From S2P Require Import Prelude.
From S2P Require Import CLib.
From S2P Require Import Timestamp.
From S2P Require Import FileUtil.

#[local] Open Scope Z_scope.

(** ** Directories *)

(** fdDirFilter and taskDirFilter: the value returned and the new value of
    t_numOpenedFiles, respectively *t_pids; [d_name] is the entry's name. *)
Definition fdDirFilter (d_name : bytes) (t_numOpenedFiles : Z) : outcome (Z * Z) :=
  if match d_name with c :: _ => isdigit c | [] => false end
  then n ← iadd t_numOpenedFiles 1; Ok (0, n)
  else Ok (0, t_numOpenedFiles).

Definition taskDirFilter (d_name : bytes) (t_pids : list Z) : outcome (Z * list Z) :=
  if match d_name with c :: _ => isdigit c | [] => false end
  then Ok (0, t_pids ++ [atoi d_name])
  else Ok (0, t_pids).

(** scandir calls the filter on every entry and selects those for which it
    does not return 0; it fails when the directory cannot be opened. *)
Fixpoint scandir {A} (filter : bytes -> A -> outcome (Z * A)) (entries : list bytes) (st : A)
  : outcome (list bytes * A) :=
  match entries with
  | [] => Ok ([], st)
  | d :: entries =>
      '(r, st) ← filter d st;
      '(selected, st) ← scandir filter entries st;
      Ok (if r =? 0 then selected else d :: selected, st)
  end.

(** scanDir(dirpath, filter): namelist stays NULL when nothing is selected. *)
Definition scanDir {A} (filter : bytes -> A -> outcome (Z * A)) (dir : option (list bytes)) (st : A)
  : outcome (Z * A) :=
  match dir with
  | None => Ok (-1, st)
  | Some entries =>
      '(namelist, st) ← scandir filter entries st;
      _ ← assert_ (bool_decide (namelist = []));
      Ok (zlen namelist, st)
  end.

(** openedFiles and threads, given the entries of /proc/self/fd and of
    /proc/self/task. *)
Definition openedFiles (fd_dir : option (list bytes)) : outcome Z :=
  '(_, t_numOpenedFiles) ← scanDir fdDirFilter fd_dir 0;
  Ok t_numOpenedFiles.

Definition threads (task_dir : option (list bytes)) : outcome (list Z) :=
  '(_, result) ← scanDir taskDirFilter task_dir [];
  Ok (merge_sort Z.le result).

(** maxOpenFiles: [rlim_cur] is None when getrlimit fails. *)
Definition maxOpenFiles (rlim_cur : option Z) (fd_dir : option (list bytes)) : outcome Z :=
  match rlim_cur with
  | None => openedFiles fd_dir
  | Some cur => Ok (wrapS 32 cur)
  end.

(** ** Names *)

Definition pidStrng (pid : Z) : outcome bytes := c_string (snprintf_stored 32 (dec_of_Z pid)).

(** username: [pw_name] is the memory at result->pw_name, if there is a result. *)
Definition username (pw_name : option bytes) : outcome bytes :=
  match pw_name with Some name => c_string name | None => Ok (lit "unknownuser") end.

(** hostname: [name] is the array after a successful gethostname. *)
Definition hostname (name : option bytes) : outcome bytes :=
  match name with
  | Some name => name ← blit 255 [NUL] name; c_string name
  | None => Ok (lit "unknownhost")
  end.

(** exePath: what readlink stores of at most 1024 bytes, or None. *)
Definition exePath (target : option bytes) : bytes :=
  match target with Some t => take 1024 t | None => [] end.

(** ** Constants of the process, initialised before main *)

Record process := mkProcess { g_StartTime : Timestamp; g_clockTicks : Z; g_pageSize : Z }.

Definition process_init (tv : timeval) (clk_tck page_size : Z) : outcome process :=
  t ← now tv; Ok (mkProcess t (wrapS 32 clk_tck) (wrapS 32 page_size)).
Definition startTime (p : process) : Timestamp := g_StartTime p.
Definition clockTicksPerSecond (p : process) : Z := g_clockTicks p.
Definition pagesize (p : process) : Z := g_pageSize p.
Definition isDebugBuild : bool := true.

Record CpuTime := mkCpuTime { userSeconds : spec_float; systemSeconds : spec_float }.
Definition CpuTime_default : CpuTime := mkCpuTime (S754_zero false) (S754_zero false).

(** cputime: [tms] holds tms_utime and tms_stime when times succeeds. *)
Definition cputime (p : process) (tms : option (Z * Z)) : CpuTime :=
  match tms with
  | Some (utime, stime) =>
      let hz := double_of_Z (clockTicksPerSecond p) in
      mkCpuTime (double_div (double_of_Z utime) hz) (double_div (double_of_Z stime) hz)
  | None => CpuTime_default
  end.

(** ** The text files of /proc *)

(** procname(stat) *)
Definition procname_of (stat : bytes) : bytes :=
  match strchr stat "("%char, strchr stat ")"%char with
  | Some lp, Some rp => if (lp <? rp)%nat then take (rp - lp - 1) (drop (lp + 1) stat) else []
  | _, _ => []
  end.

(** numThreads, from the text of procStatus *)
Definition numThreads_of (status : bytes) : Z :=
  match find_sub status (lit "Threads:") with
  | Some pos => atoi (drop (pos + 8) status)
  | None => 0
  end.

Section Proc.
(** The system as FileUtil's readFile sees it: fstat and read of the file that
    open opens by name. *)
Variable open : bytes -> Z * Z.
Variable fstat : bytes -> stat + Z.
Variable read : bytes -> nat -> Z -> Z -> sysret.
Variable junk : bytes.

(** readFile(name, 65536, &result): the text left in result. *)
Definition read_proc (fuel : nat) (name : bytes) : outcome bytes :=
  res ← readFile open (fstat name) (read name) fuel junk name 65536 [] false false false;
  Ok (r_data res).

Definition procStatus (fuel : nat) : outcome bytes := read_proc fuel (lit "/proc/self/status").
Definition procStat (fuel : nat) : outcome bytes := read_proc fuel (lit "/proc/self/stat").
Definition threadStat (fuel : nat) (tid : Z) : outcome bytes :=
  name ← c_string (snprintf_stored 64 (lit "/proc/self/task/" ++ dec_of_Z tid ++ lit "/stat"));
  read_proc fuel name.

Definition procname (fuel : nat) : outcome bytes := stat ← procStat fuel; Ok (procname_of stat).
Definition numThreads (fuel : nat) : outcome Z :=
  status ← procStatus fuel; Ok (numThreads_of status).

Lemma read_proc_empty fuel name s : read_proc fuel name = Ok s -> s = [].
Proof.
  unfold read_proc, readFile, ReadSmallFile_new. destruct (open name) as [fd errno].
  intros H. destruct (blit 0 [NUL] junk) as [buff|]; [|done]. unfold_monad_in H.
  destruct (readToString _ _ _ _ _ _ _ _ _) as [[res this']|] eqn:E; [|done].
  simplify_eq. destruct (Z.leb_spec 0 fd).
  - eapply no_data_without_fileSize; [|exact E]. done.
  - unfold readToString in E. cbn [m_fd] in E. destruct (Z.leb_spec 0 fd); [lia|]. by simplify_eq.
Qed.
End Proc.

(** ** Lemmas *)

(** The names of the numeric entries, in the order of the directory. *)
Definition numeric (d : bytes) : bool := match d with c :: _ => isdigit c | [] => false end.

Lemma taskDirFilter_eq d pids :
  taskDirFilter d pids = Ok (0, if numeric d then pids ++ [atoi d] else pids).
Proof. unfold taskDirFilter. fold (numeric d). by destruct (numeric d). Qed.

Lemma scandir_tasks entries pids :
  scandir taskDirFilter entries pids =
    Ok ([], pids ++ List.map atoi (List.filter numeric entries)).
Proof.
  revert pids. induction entries as [|d entries IH]; intros pids; cbn [scandir List.filter].
  - by rewrite app_nil_r.
  - rewrite taskDirFilter_eq. unfold_monad. rewrite IH. cbn [Z.eqb].
    destruct (numeric d); [|done]. cbn [List.map]. by rewrite <- app_assoc.
Qed.

Lemma fdDirFilter_eq d n : 0 <= n < 2 ^ 31 - 1 ->
  fdDirFilter d n = Ok (0, if numeric d then n + 1 else n).
Proof.
  intros Hn. unfold fdDirFilter. fold (numeric d). destruct (numeric d); [|done].
  unfold iadd. by rewrite ckS_ok by (simpl in *; lia).
Qed.

Lemma scandir_fds entries n : 0 <= n -> n + zlen entries < 2 ^ 31 ->
  scandir fdDirFilter entries n = Ok ([], n + zlen (List.filter numeric entries)).
Proof.
  revert n. induction entries as [|d entries IH]; intros n Hn Hb; cbn [scandir List.filter].
  - rewrite zlen_nil. do 2 f_equal. lia.
  - rewrite zlen_cons in Hb. pose proof (zlen_nonneg entries).
    rewrite fdDirFilter_eq by lia. unfold_monad. rewrite IH by (destruct (numeric d); lia).
    cbn [Z.eqb]. destruct (numeric d); [|done]. rewrite zlen_cons. do 2 f_equal. lia.
Qed.

Lemma find_sub_app s pat t : pat <> [] ->
  (forall k, (k < length s)%nat -> take (length pat) (drop k (s ++ pat ++ t)) <> pat) ->
  find_sub (s ++ pat ++ t) pat = Some (length s).
Proof.
  intros Hp. induction s as [|c s IH]; intros Hk.
  - destruct pat as [|p pat]; [done|]. cbn [app find_sub length].
    rewrite decide_True; [done|]. cbn [take]. f_equal. by rewrite take_app_length.
  - pose proof (Hk 0%nat ltac:(simpl; lia)) as H0. rewrite drop_0 in H0.
    cbn [app] in *. cbn [find_sub]. rewrite decide_False by done.
    rewrite IH; [done|]. intros k Hlt. apply (Hk (S k)). simpl. lia.
Qed.

Lemma numeric_dec z : 0 <= z -> numeric (dec_of_Z z) = true /\ dec_of_Z z <> [].
Proof.
  intros Hz. pose proof (dec_of_Z_digits z Hz) as [Hf _].
  assert (Hl : (0 < length (dec_of_Z z))%nat).
  { apply (length_dec_of_Z (S (Z.to_nat z))); [|lia].
    pose proof (Z.pow_gt_lin_r 10 (Z.of_nat (S (Z.to_nat z)))). lia. }
  destruct (dec_of_Z z) as [|c t]; [simpl in Hl; lia|]. split; [|done].
  apply Forall_cons in Hf as [[d Hd] _]. unfold numeric, isdigit. by rewrite Hd.
Qed.

Lemma filter_numeric pids others :
  Forall (fun z => 0 <= z) pids -> Forall (fun d => numeric d = false) others ->
  List.filter numeric (List.map dec_of_Z pids ++ others) = List.map dec_of_Z pids.
Proof.
  intros Hp Ho. rewrite List.filter_app.
  assert (List.filter numeric others = []) as ->.
  { induction Ho as [|d l Hd _ IH]; [done|]. cbn [List.filter]. by rewrite Hd. }
  rewrite app_nil_r. induction Hp as [|z l Hz _ IH]; [done|]. cbn [List.map List.filter].
  destruct (numeric_dec z Hz) as [-> _]. by rewrite IH.
Qed.

Lemma map_atoi_dec pids : List.map atoi (List.map dec_of_Z pids) = pids.
Proof. induction pids as [|z l IH]; [done|]. cbn [List.map]. by rewrite atoi_dec_of_Z, IH. Qed.

(** ** Properties *)

(** The directories of /proc are counted and listed correctly: when a
    directory holds, in any order, an entry for each of some numbers and other
    entries that do not start with a digit (such as . and ..), threads returns
    exactly these numbers in increasing order, openedFiles how many they are,
    and no assert of scanDir fails. *)
Theorem proc_directories entries pids others :
  entries ≡ₚ List.map dec_of_Z pids ++ others ->
  Forall (fun z => 0 <= z) pids -> Forall (fun d => numeric d = false) others ->
  zlen entries < 2 ^ 31 ->
  (exists l, threads (Some entries) = Ok l /\ l ≡ₚ pids /\ StronglySorted Z.le l) /\
  openedFiles (Some entries) = Ok (zlen pids).
Proof.
  intros Hperm Hp Ho Hlen.
  assert (Hf : List.filter numeric entries ≡ₚ List.map dec_of_Z pids)
    by (rewrite Hperm; by rewrite filter_numeric).
  split.
  - unfold threads, scanDir. rewrite scandir_tasks. unfold_monad. eexists. split; [done|]. split.
    + etransitivity; [apply merge_sort_Permutation|]. cbn [app]. rewrite Hf. by rewrite map_atoi_dec.
    + apply StronglySorted_merge_sort; [intros x y z; lia|intros x y; lia].
  - unfold openedFiles, scanDir. rewrite scandir_fds by lia. unfold_monad.
    f_equal. unfold zlen. rewrite (Permutation_length Hf), List.length_map. lia.
Qed.

Lemma proc_directories_witness :
  (exists l, threads (Some [lit "."; lit "31"; lit ".."; lit "7"]) = Ok l /\ l ≡ₚ [31; 7] /\
     StronglySorted Z.le l) /\
  openedFiles (Some [lit "."; lit "31"; lit ".."; lit "7"]) = Ok (zlen [31; 7]).
Proof.
  apply (proc_directories [lit "."; lit "31"; lit ".."; lit "7"] [31; 7] [lit "."; lit ".."]).
  - apply (bool_decide_unpack _). vm_compute. exact I.
  - repeat constructor; discriminate.
  - repeat constructor.
  - reflexivity.
Defined.

(** The texts of /proc are read correctly: from a stat line, that is the
    process number, the name in parentheses and more fields, procname takes
    the name, whatever it contains but a closing parenthesis; from a status
    text numThreads takes the number after the first "Threads:", whatever the
    lines before and after it hold. *)
Theorem proc_texts pid name rest before n after :
  0 <= pid -> ")"%char ∉ name -> 
  (forall k, (k < length before)%nat ->
     take 8 (drop k (before ++ lit "Threads:" ++ "009"%char :: dec_of_Z n ++ "010"%char :: after))
       <> lit "Threads:") ->
  0 <= n ->
  procname_of (dec_of_Z pid ++ lit " (" ++ name ++ lit ") " ++ rest) = name /\
  numThreads_of (before ++ lit "Threads:" ++ "009"%char :: dec_of_Z n ++ "010"%char :: after) = n.
Proof.
  intros Hpid Hname Hb Hn. pose proof (dec_of_Z_digits pid Hpid) as Hd. split.
  - unfold procname_of.
    replace (dec_of_Z pid ++ lit " (" ++ name ++ lit ") " ++ rest)
      with ((dec_of_Z pid ++ lit " ") ++ "("%char :: (name ++ lit ") " ++ rest))
      by (by rewrite <- !app_assoc).
    rewrite strchr_app.
    2: { rewrite not_elem_of_app. split; [by apply (digit_not_char pid)|]. by apply (bool_decide_unpack _). }
    replace ((dec_of_Z pid ++ lit " ") ++ "("%char :: (name ++ lit ") " ++ rest))
      with ((dec_of_Z pid ++ lit " (" ++ name) ++ ")"%char :: (" "%char :: rest))
      by (by rewrite <- !app_assoc).
    rewrite strchr_app.
    2: { rewrite !not_elem_of_app. split; [by apply (digit_not_char pid)|]. split; [|done].
         by apply (bool_decide_unpack _). }
    rewrite !length_app. cbn [length lit list_ascii_of_string].
    destruct (Nat.ltb_spec (length (dec_of_Z pid) + 1)
      (length (dec_of_Z pid) + (2 + length name))); [|lia].
    replace (_ + (2 + length name) - (_ + 1) - 1)%nat with (length name) by lia.
    etransitivity; [|apply (take_app_length name (")"%char :: " "%char :: rest))]. f_equal.
    rewrite (app_assoc _ (lit " (") name), <- app_assoc.
    apply drop_app_length'. rewrite length_app. simpl. lia.
  - unfold numThreads_of. rewrite find_sub_app; [|done|exact Hb].
    rewrite app_assoc, drop_app_length' by (rewrite length_app; simpl; lia).
    change (atoi ("009"%char :: ?l)) with (atoi l).
    apply (atoi_stops n); [by apply numeric_dec|by apply dec_of_Z_digits|done].
Qed.

Lemma proc_texts_witness :
  procname_of (dec_of_Z 42 ++ lit " (" ++ lit "a (b" ++ lit ") " ++ lit "S 1") = lit "a (b" /\
  numThreads_of (lit "Name: x" ++ lit "Threads:" ++ "009"%char :: dec_of_Z 12 ++ "010"%char :: lit "S")
    = 12.
Proof.
  apply (proc_texts 42 (lit "a (b") (lit "S 1") (lit "Name: x") 12 (lit "S")).
  - discriminate.
  - apply (bool_decide_unpack _). vm_compute. exact I.
  - intros k Hk. do 7 (destruct k as [|k]; [vm_compute; discriminate|]). simpl in Hk. lia.
  - discriminate.
Defined.

(** ** Behaviour that callers may not expect *)

(** A process name that contains a closing parenthesis is cut there. *)
Lemma procname_truncated : procname_of (lit "42 (a)b) S 1") = lit "a".
Proof. reflexivity. Qed.

(** procname() and numThreads() see no text at all, because readFile is called
    without a pointer for the size: they answer with the empty name and 0. *)
Lemma proc_files_read_empty open fstat read junk fuel name n :
  (procname open fstat read junk fuel = Ok name -> name = []) /\
  (numThreads open fstat read junk fuel = Ok n -> n = 0).
Proof.
  split; intros H.
  - unfold procname, procStat in H. destruct (read_proc _ _ _ _ _ _) as [s|] eqn:E; [|done].
    apply read_proc_empty in E as ->. by cbn in H; simplify_eq.
  - unfold numThreads, procStatus in H. destruct (read_proc _ _ _ _ _ _) as [s|] eqn:E; [|done].
    apply read_proc_empty in E as ->. by cbn in H; simplify_eq.
Qed.
