(* ===== verification/LogFile.v ===== *)
(** Log files that roll over: base/LogFile.h and base/LogFile.cc.

    A [LogFile] owns a [WriteFile] of FileUtil.v and, when it is made thread
    safe, a mutex, of which the model keeps whether the calling thread holds
    it: locking it again never returns.  The clock is read through time(NULL),
    whose answers are a sequence; the members that the constructor leaves
    unset have arbitrary values.  Files are named by the time at which they are
    opened, and the names are ordered as the times.  [append_calm] gives a condition on the clock
    under which a thread-safe log file never has to flush within append. *)
From Stdlib Require Import ZArith Lia Ascii String.
From stdpp Require Import base list strings gmap lexico sorting.
From S2P Require Import Prelude.
From S2P Require Import CLib.
From S2P Require Import Date.
From S2P Require Import Timestamp.
From S2P Require Import FileUtil.
From S2P Require Import ProcessInfo.

#[local] Open Scope Z_scope.

Record LogFile := mkLogFile {
  m_mutexLock : option bool;    (* no mutex, or one that is held or not *)
  m_scpFile : WriteFile;
  m_startPeriod : Z;
  m_lastFlush : Z;
  m_lastRoll : Z;
  m_bThreadSafe : bool;
  m_appendCount : Z;
  m_rollSize : Z;
  m_basename : bytes;
  m_flushInterval : Z;
  m_checkEveryN : Z
}.

Definition m_rollPeriod : Z := 24 * 60 * 60.

(** What the object calls: the files, and how often the clock has been read. *)
Record env := mkEnv { e_world : world; e_ticks : nat }.

Definition set_mutex (b : bool) (l : LogFile) : LogFile :=
  mkLogFile (Some b) (m_scpFile l) (m_startPeriod l) (m_lastFlush l) (m_lastRoll l)
    (m_bThreadSafe l) (m_appendCount l) (m_rollSize l) (m_basename l) (m_flushInterval l)
    (m_checkEveryN l).

Section LogFile.
(** The system: time(NULL), fopen and fwrite, the host name that gethostname
    gives, the process number. *)
Variable time : nat -> Z.
Variable fopen_ok : bytes -> bool.
Variable fwrite_unlocked : nat -> bytes -> nat * bool.
Variable host_name : option bytes.
Variable pid : Z.
(** Fuel for the loop of writeLine. *)
Variable fuel : nat.

(** strftime(..., ".%Y%m%d-%H%M%S.", tm): at most 32 bytes for any 64-bit time. *)
Definition strftime_stamp (t : tm) : bytes :=
  lit "." ++ dec_of_Z (tm_year t + 1900) ++ fmt_0wd 2 (tm_mon t + 1) ++ fmt_0wd 2 (tm_mday t) ++
  lit "-" ++ fmt_0wd 2 (tm_hour t) ++ fmt_0wd 2 (tm_min t) ++ fmt_0wd 2 (tm_sec t) ++ lit ".".

(** getLogFileName(basename, &now): the name and *now. *)
Definition getLogFileName (basename : bytes) (e : env) : outcome (bytes * Z * env) :=
  let now := time (e_ticks e) in
  stamp ← c_string (strftime_stamp (gmtime_r now) ++ [NUL]);
  host ← hostname host_name;
  pidbuf ← c_string (snprintf_stored 32 (lit "." ++ dec_of_Z pid));
  Ok (basename ++ stamp ++ host ++ pidbuf ++ lit ".log", now, mkEnv (e_world e) (S (e_ticks e))).

(** rollFile: opens the new file, then closes the old one. *)
Definition rollFile (l : LogFile) (e : env) : outcome (bool * LogFile * env) :=
  '(filename, now, e) ← getLogFileName (m_basename l) e;
  let start := Z.quot now m_rollPeriod * m_rollPeriod in
  if m_lastRoll l <? now then
    let '(file, w) := WriteFile_new fopen_ok filename (e_world e) in
    let w := WriteFile_delete (m_scpFile l) w in
    Ok (true,
        mkLogFile (m_mutexLock l) file start now now (m_bThreadSafe l) (m_appendCount l)
          (m_rollSize l) (m_basename l) (m_flushInterval l) (m_checkEveryN l),
        mkEnv w (e_ticks e))
  else Ok (false, l, e).

(** MutexLockGuard lock( *m_mutexLock ) around [body], if there is a mutex. *)
Definition guarded {A} (body : LogFile -> env -> outcome (A * LogFile * env)) (l : LogFile) (e : env)
  : outcome (A * LogFile * env) :=
  match m_mutexLock l with
  | Some true => Fault Deadlock
  | Some false =>
      '(a, l, e) ← body (set_mutex true l) e;
      Ok (a, set_mutex false l, e)
  | None => body l e
  end.

Definition flush (l : LogFile) (e : env) : outcome (unit * LogFile * env) :=
  guarded (fun l e => Ok (tt, l, mkEnv (FileUtil.flush (m_scpFile l) (e_world e)) (e_ticks e))) l e.

Definition append_unlocked (line : bytes) (l : LogFile) (e : env)
  : outcome (unit * LogFile * env) :=
  '(_, file, w) ← writeLine fwrite_unlocked fuel (m_scpFile l) line (e_world e);
  let l := mkLogFile (m_mutexLock l) file (m_startPeriod l) (m_lastFlush l) (m_lastRoll l)
             (m_bThreadSafe l) (m_appendCount l) (m_rollSize l) (m_basename l)
             (m_flushInterval l) (m_checkEveryN l) in
  let e := mkEnv w (e_ticks e) in
  if m_rollSize l <=? WritenBytes (m_scpFile l) then
    '(_, l, e) ← rollFile l e; Ok (tt, l, e)
  else
    count ← iadd (m_appendCount l) 1;
    let with_count c last_flush := mkLogFile (m_mutexLock l) (m_scpFile l) (m_startPeriod l)
      last_flush (m_lastRoll l) (m_bThreadSafe l) c (m_rollSize l) (m_basename l)
      (m_flushInterval l) (m_checkEveryN l) in
    if m_checkEveryN l <=? count then
      let now := time (e_ticks e) in
      let e := mkEnv (e_world e) (S (e_ticks e)) in
      let thisPeriod := Z.quot now m_rollPeriod * m_rollPeriod in
      let l0 := with_count 0 (m_lastFlush l) in
      if negb (thisPeriod =? m_startPeriod l) then
        '(_, l, e) ← rollFile l0 e; Ok (tt, l, e)
      else
        since ← ckS 64 (now - m_lastFlush l);
        if m_flushInterval l <=? since then flush (with_count 0 now) e
        else Ok (tt, l0, e)
    else Ok (tt, with_count count (m_lastFlush l), e).

Definition append (line : bytes) (l : LogFile) (e : env) : outcome (bool * LogFile * env) :=
  guarded (fun l e => '(_, l, e) ← append_unlocked line l e; Ok (true, l, e)) l e.

(** The constructor; [start], [flush0], [roll] and [count] are the values that
    the unset members happen to have. *)
Definition LogFile_new (start flush0 roll count : Z) (threadsafe : bool) (rollsize : Z)
  (basename : bytes) (flushInterval checkEveryN : Z) (e : env) : outcome (LogFile * env) :=
  let '(file, w) := WriteFile_new fopen_ok basename (e_world e) in
  let l := mkLogFile (if threadsafe then Some false else None) file start flush0 roll threadsafe
             count rollsize basename flushInterval checkEveryN in
  '(_, l, e) ← rollFile l (mkEnv w (e_ticks e));
  Ok (l, e).

(** A client's calls of append, in order. *)
Fixpoint append_all (lines : list bytes) (l : LogFile) (e : env) : outcome (LogFile * env) :=
  match lines with
  | [] => Ok (l, e)
  | line :: lines => '(_, l, e) ← append line l e; append_all lines l e
  end.
End LogFile.

(** ** Lemmas *)

(** Reading back the second that a stamp denotes. *)
Definition parse_stamp (s : bytes) : Z :=
  let f i n := atoi (slice i n s) in
  (julian (mkYMD (f 1 4) (f 5 2) (f 7 2)) - 2440588) * 86400 + f 10 2 * 3600 + f 12 2 * 60 + f 14 2.

Lemma dec_fmt_0wd w z : 10 ^ Z.of_nat w <= z -> dec_of_Z z = fmt_0wd (S w) z.
Proof.
  intros Hz. assert (0 <= z) by lia. unfold fmt_0wd, pad_left. destruct (Z.ltb_spec z 0); [lia|].
  pose proof (fmt_wd_0wd w z Hz) as He. unfold fmt_wd, fmt_0wd, pad_left in He.
  destruct (Z.ltb_spec z 0); [lia|]. destruct (S w - length (dec_of_Z z))%nat; [done|].
  cbn [replicate app] in He. discriminate He.
Qed.

Lemma stamp_fields y mo d h mi s :
  1000 <= y <= 9999 -> 1 <= mo <= 12 -> 1 <= d <= 31 -> 0 <= h < 24 -> 0 <= mi < 60 ->
  0 <= s < 60 ->
  let t := strftime_stamp (mkTm s mi h d (mo - 1) (y - 1900)) in
  zlen t = 17 /\ (NUL ∉ t) /\
  parse_stamp t = (julian (mkYMD y mo d) - 2440588) * 86400 + h * 3600 + mi * 60 + s.
Proof.
  intros Hy Hmo Hd Hh Hmi Hs. cbv zeta. unfold strftime_stamp.
  cbn [tm_sec tm_min tm_hour tm_mday tm_mon tm_year]. rewrite !Z.sub_add.
  rewrite (dec_fmt_0wd 3) by (simpl; lia).
  destruct (fmt_0wd_field 4 y) as [L1 D1]; [simpl; lia|lia|].
  destruct (fmt_0wd_field 2 mo) as [L2 D2]; [simpl; lia|lia|].
  destruct (fmt_0wd_field 2 d) as [L3 D3]; [simpl; lia|lia|].
  destruct (fmt_0wd_field 2 h) as [L4 D4]; [simpl; lia|lia|].
  destruct (fmt_0wd_field 2 mi) as [L5 D5]; [simpl; lia|lia|].
  destruct (fmt_0wd_field 2 s) as [L6 D6]; [simpl; lia|lia|].
  pose proof (atoi_fmt_0wd 4 y ltac:(simpl; lia) ltac:(lia)) as A1.
  pose proof (atoi_fmt_0wd 2 mo ltac:(simpl; lia) ltac:(lia)) as A2.
  pose proof (atoi_fmt_0wd 2 d ltac:(simpl; lia) ltac:(lia)) as A3.
  pose proof (atoi_fmt_0wd 2 h ltac:(simpl; lia) ltac:(lia)) as A4.
  pose proof (atoi_fmt_0wd 2 mi ltac:(simpl; lia) ltac:(lia)) as A5.
  pose proof (atoi_fmt_0wd 2 s ltac:(simpl; lia) ltac:(lia)) as A6.
  revert L1 D1 A1 L2 D2 A2 L3 D3 A3 L4 D4 A4 L5 D5 A5 L6 D6 A6.
  generalize (fmt_0wd 4 y), (fmt_0wd 2 mo), (fmt_0wd 2 d), (fmt_0wd 2 h), (fmt_0wd 2 mi),
    (fmt_0wd 2 s).
  intros f1 f2 f3 f4 f5 f6; intros.
  split; [|split].
  - unfold zlen. rewrite !length_app, L1, L2, L3, L4, L5, L6. reflexivity.
  - rewrite !not_elem_of_app.
    repeat split; first [by eapply nul_free_digits | by apply (bool_decide_unpack _)].
  - unfold parse_stamp, slice.
    do 4 (destruct f1 as [|? f1]; [done|]). destruct f1; [|done].
    do 2 (destruct f2 as [|? f2]; [done|]). destruct f2; [|done].
    do 2 (destruct f3 as [|? f3]; [done|]). destruct f3; [|done].
    do 2 (destruct f4 as [|? f4]; [done|]). destruct f4; [|done].
    do 2 (destruct f5 as [|? f5]; [done|]). destruct f5; [|done].
    do 2 (destruct f6 as [|? f6]; [done|]). destruct f6; [|done].
    cbv -[atoi julian Z.mul Z.add Z.sub]. rewrite A1, A2, A3, A4, A5, A6. done.
Qed.

(** The years that four digits hold. *)
Definition clock_ok (t : Z) : Prop := 0 <= t < 253402300800.

Lemma stamp_ok t : clock_ok t ->
  let s := strftime_stamp (gmtime_r t) in
  zlen s = 17 /\ (NUL ∉ s) /\ parse_stamp s = t.
Proof.
  intros Ht. cbv zeta.
  destruct (gmtime_fields t Ht) as (Hy & Hmo & Hd & Hh & Hmi & Hs & Hj & Hsum).
  destruct (stamp_fields _ _ _ _ _ _ ltac:(split; [|exact (proj2 Hy)]; lia) Hmo Hd Hh Hmi Hs)
    as (H1 & H2 & H3).
  change (mkTm (tm_sec (gmtime_r t)) (tm_min (gmtime_r t)) (tm_hour (gmtime_r t)) _ _ _)
    with (gmtime_r t) in H1, H2, H3.
  split; [done|]. split; [done|]. rewrite H3.
  change (mkYMD _ _ _) with (civil (t / 86400 + 2440588)). rewrite Hj. clear -Hsum.
  revert Hsum. generalize (tm_hour (gmtime_r t)), (tm_min (gmtime_r t)), (tm_sec (gmtime_r t)).
  intros h m s Hsum. divlia.
Qed.

(** The name of the log file that is opened at a time. *)
Definition log_name (basename host : bytes) (pid t : Z) : bytes :=
  basename ++ strftime_stamp (gmtime_r t) ++ host ++ (lit "." ++ dec_of_Z pid) ++ lit ".log".

Lemma log_name_inj basename host pid t1 t2 : clock_ok t1 -> clock_ok t2 ->
  log_name basename host pid t1 = log_name basename host pid t2 -> t1 = t2.
Proof.
  intros H1 H2 He. apply app_inv_head in He.
  destruct (stamp_ok t1 H1) as (L1 & _ & P1). destruct (stamp_ok t2 H2) as (L2 & _ & P2).
  apply app_inj_1 in He as [He _]; [by rewrite <- P1, <- P2, He|].
  unfold zlen in *. lia.
Qed.

Lemma log_name_not_basename basename host pid t : log_name basename host pid t <> basename.
Proof.
  unfold log_name. intros H. apply (f_equal length) in H. rewrite !length_app in H. simpl in H. lia.
Qed.

(** Compare one field of two stamps; [H] compares it and the ones after it. *)
Ltac field_lexico H :=
  apply fmt_0wd_lexico; [lia|simpl; lia..|];
  destruct H as [?|[-> H]]; [by left|right; split; [done|]].

(** Stamps are ordered as the times they say. *)
Lemma stamp_fields_lexico d h mi s e k mj r (a b : bytes) :
  1000 <= ymd_year d <= 9999 -> 1 <= ymd_month d <= 12 -> 1 <= ymd_day d <= 31 ->
  0 <= h < 24 -> 0 <= mi < 60 -> 0 <= s < 60 ->
  1000 <= ymd_year e <= 9999 -> 1 <= ymd_month e <= 12 -> 1 <= ymd_day e <= 31 ->
  0 <= k < 24 -> 0 <= mj < 60 -> 0 <= r < 60 ->
  ymd_lt d e \/ d = e /\ h * 3600 + mi * 60 + s < k * 3600 + mj * 60 + r ->
  lexico (strftime_stamp (mkTm s mi h (ymd_day d) (ymd_month d - 1) (ymd_year d - 1900)) ++ a)
         (strftime_stamp (mkTm r mj k (ymd_day e) (ymd_month e - 1) (ymd_year e - 1900)) ++ b).
Proof.
  intros Hy Hmo Hd Hh Hmi Hs Hy' Hmo' Hd' Hh' Hmi' Hs' Hlt. unfold strftime_stamp.
  cbn [tm_sec tm_min tm_hour tm_mday tm_mon tm_year]. rewrite !Z.sub_add.
  rewrite !(dec_fmt_0wd 3) by (simpl; lia). rewrite <- !app_assoc. apply lexico_app.
  assert (Hlt' : ymd_year d < ymd_year e \/ ymd_year d = ymd_year e /\
    (ymd_month d < ymd_month e \/ ymd_month d = ymd_month e /\
    (ymd_day d < ymd_day e \/ ymd_day d = ymd_day e /\
    (h < k \/ h = k /\ (mi < mj \/ mi = mj /\ s < r))))).
  { destruct Hlt as [Hlt|[-> Hlt]]; [unfold ymd_lt in Hlt|]; lia. }
  clear Hlt. field_lexico Hlt'.
  field_lexico Hlt'.
  field_lexico Hlt'. apply lexico_app.
  field_lexico Hlt'.
  field_lexico Hlt'.
  apply fmt_0wd_lexico; [lia|simpl; lia..|by left].
Qed.

Lemma stamp_lexico t u (a b : bytes) : clock_ok t -> clock_ok u -> t < u ->
  lexico (strftime_stamp (gmtime_r t) ++ a) (strftime_stamp (gmtime_r u) ++ b).
Proof.
  intros Ht Hu Hlt.
  destruct (gmtime_fields t Ht) as (Hy & Hmo & Hd & Hh & Hmi & Hs & _ & Hsum).
  destruct (gmtime_fields u Hu) as (Hy' & Hmo' & Hd' & Hh' & Hmi' & Hs' & _ & Hsum').
  apply (stamp_fields_lexico (civil (t / 86400 + 2440588)) (tm_hour (gmtime_r t)) (tm_min (gmtime_r t))
    (tm_sec (gmtime_r t)) (civil (u / 86400 + 2440588)) (tm_hour (gmtime_r u)) (tm_min (gmtime_r u))
    (tm_sec (gmtime_r u))); try done; try lia.
  rewrite Hsum, Hsum'. clear -Ht Hu Hlt. unfold clock_ok in *.
  destruct (Z.lt_trichotomy (t / 86400) (u / 86400)) as [Hl|[Hl|Hl]]; [left|right|].
  - destruct (civil_inverse (t / 86400 + 2440588)) as (Hv & _ & Ej); [unfold jdn_exact; divlia|].
    destruct (civil_inverse (u / 86400 + 2440588)) as (Hv' & _ & Ej'); [unfold jdn_exact; divlia|].
    apply julian_order; [done|done|]. rewrite Ej, Ej'. lia.
  - rewrite Hl. split; [done|]. divlia.
  - exfalso. divlia.
Qed.

Lemma log_name_lexico basename host pid t u : clock_ok t -> clock_ok u -> t < u ->
  lexico (log_name basename host pid t) (log_name basename host pid u).
Proof. intros Ht Hu Hlt. by apply lexico_app, stamp_lexico. Qed.

Lemma basename_lexico basename host pid t : lexico basename (log_name basename host pid t).
Proof. by apply lexico_prefix. Qed.

(** No files yet, and the clock not yet read. *)
Definition env0 : env := mkEnv (mkWorld ∅ [] 0 ∅) 0.

Section Lossless.
Context (time : nat -> Z) (fopen_ok : bytes -> bool) (fwrite_unlocked : nat -> bytes -> nat * bool).
Context (host_name : option bytes) (host : bytes) (pid : Z) (fuel : nat).
Hypothesis clock_in_range : forall i, clock_ok (time i).
Hypothesis fopen_succeeds : forall name, fopen_ok name = true.
Hypothesis fwrite_progresses : fwrite_progress fwrite_unlocked.
Hypothesis host_known : hostname host_name = Ok host.
Hypothesis pid_in_range : 0 <= pid < 2 ^ 31.

(** The invariant of a LogFile to which [text] has been appended; it does not
    depend on the mutex. *)
Record keeping (l : LogFile) (e : env) (text : bytes) : Prop := {
  k_valid : m_valid (m_scpFile l) = true;
  k_last : exists olds, opened (e_world e) = olds ++ [m_filename (m_scpFile l)];
  k_nodup : NoDup (opened (e_world e));
  k_sorted : StronglySorted lexico (opened (e_world e));
  k_names : Forall (fun n => n = m_basename l \/
    exists t, clock_ok t /\ t <= m_lastRoll l /\ n = log_name (m_basename l) host pid t)
    (opened (e_world e));
  k_text : List.concat (List.map (content (e_world e)) (opened (e_world e))) = text;
  k_fresh : forall n, n ∉ opened (e_world e) -> content (e_world e) n = [];
  k_count : - 2 ^ 31 <= m_appendCount l < 2 ^ 31 - 1;
  k_every : m_checkEveryN l < 2 ^ 31;
  k_flush : - 2 ^ 62 <= m_lastFlush l <= 2 ^ 62
}.

Lemma getLogFileName_ok basename e :
  getLogFileName time host_name pid basename e =
    Ok (log_name basename host pid (time (e_ticks e)), time (e_ticks e),
        mkEnv (e_world e) (S (e_ticks e))).
Proof.
  unfold getLogFileName. destruct (stamp_ok _ (clock_in_range (e_ticks e))) as (_ & Hn & _).
  rewrite c_string_app by done. cbn [mbind outcome_bind]. rewrite host_known.
  cbn [mbind outcome_bind].
  pose proof (dec_of_Z_digits pid ltac:(lia)) as Hd.
  pose proof (length_dec_of_Z 10 pid ltac:(simpl; lia) ltac:(lia)) as Hl.
  rewrite c_string_snprintf; [done| |].
  - unfold zlen. cbn [lit list_ascii_of_string app length]. lia.
  - apply not_elem_of_app. split; [by apply (bool_decide_unpack _)|].
    by apply (nul_free_digits pid).
Qed.

(** The texts of files other than the one written do not change. *)
Lemma concat_insert_last (w : world) olds name txt k fl :
  NoDup (olds ++ [name]) ->
  List.concat (List.map (content (mkWorld (<[name := content w name ++ txt]> (files w))
    (opened w) k fl)) (olds ++ [name])) =
  List.concat (List.map (content w) (olds ++ [name])) ++ txt.
Proof.
  intros Hn. rewrite !List.map_app, !List.concat_app. cbn [List.map List.concat].
  rewrite !app_nil_r, content_written, app_assoc. f_equal. f_equal. f_equal.
  apply List.map_ext_in. intros n Hin. apply content_other. intros <-.
  apply NoDup_app in Hn as (_ & Hn & _).
  apply (Hn name); [by apply list_elem_of_In|by apply list_elem_of_singleton].
Qed.

Lemma rollFile_keeps l e text : keeping l e text ->
  exists b l' e', rollFile time fopen_ok host_name pid l e = Ok (b, l', e') /\ keeping l' e' text /\
    m_mutexLock l' = m_mutexLock l.
Proof.
  intros H. unfold rollFile. rewrite getLogFileName_ok. cbn [mbind outcome_bind].
  set (now := time (e_ticks e)). pose proof (clock_in_range (e_ticks e)) as Hc. fold now in Hc.
  destruct (Z.ltb_spec (m_lastRoll l) now) as [Hlt|Hge].
  - unfold WriteFile_new. rewrite fopen_succeeds. cbn [e_world e_ticks].
    set (name := log_name (m_basename l) host pid now).
    assert (Hnew : name ∉ opened (e_world e)).
    { intros Hin. destruct H. rewrite Forall_forall in k_names0.
      destruct (k_names0 name Hin) as [Hb|(t & Ht & Hle & Heq)].
      - by apply log_name_not_basename in Hb.
      - apply log_name_inj in Heq; [lia|done|done]. }
    assert (Hf : content (e_world e) name = []) by by apply (k_fresh _ _ _ H).
    unfold WriteFile_delete, FileUtil.flush. destruct H. rewrite k_valid0.
    do 3 eexists. split; [done|]. split; [|done]. constructor; cbn; try done.
    + by exists (opened (e_world e)).
    + apply NoDup_app. split; [done|]. split; [|by apply NoDup_singleton].
      intros x Hx Hs. apply list_elem_of_singleton in Hs as ->. done.
    + apply StronglySorted_app. split; [|split; [done|repeat constructor]].
      intros n x Hn Hx. apply list_elem_of_singleton in Hx as ->. rewrite Forall_forall in k_names0.
      destruct (k_names0 n Hn) as [->|(t & Ht & Hle & ->)]; [by apply basename_lexico|].
      apply log_name_lexico; [done|done|lia].
    + apply Forall_app. split.
      * eapply Forall_impl; [exact k_names0|]. intros n [?|(t & ? & ? & ?)]; [by left|].
        right. exists t. split; [done|]. split; [lia|done].
      * apply Forall_singleton. right. exists now. split; [done|]. split; [lia|done].
    + rewrite <- k_text0, List.map_app, List.concat_app. cbn [List.map List.concat].
      rewrite content_written, Hf, !app_nil_r. f_equal.
      apply List.map_ext_in. intros n Hin. apply content_other.
      intros <-. apply Hnew. by apply list_elem_of_In.
    + intros n Hn. apply not_elem_of_app in Hn as [Hn Hne].
      rewrite content_other; [by apply k_fresh0|]. intros <-.
      apply Hne. by apply list_elem_of_singleton.
    + unfold clock_ok in Hc. simpl. lia.
  - do 3 eexists. split; [done|]. split; [|done]. destruct H. by constructor.
Qed.

(** The file after a line has been written to it. *)
Lemma written_keeps l e text line k c lf t : keeping l e text ->
  - 2 ^ 31 <= c < 2 ^ 31 - 1 -> - 2 ^ 62 <= lf <= 2 ^ 62 ->
  let f := m_scpFile l in
  let w := e_world e in
  let name := m_filename f in
  keeping
    (mkLogFile (m_mutexLock l) (mkWriteFile name (wrapU 64 (m_nBytesWritten f + zlen line)) (m_valid f))
       (m_startPeriod l) lf (m_lastRoll l) (m_bThreadSafe l) c (m_rollSize l) (m_basename l)
       (m_flushInterval l) (m_checkEveryN l))
    (mkEnv (mkWorld (<[name := content w name ++ line]> (files w)) (opened w) k (flushed w)) t)
    (text ++ line).
Proof.
  intros [] Hc Hlf. cbv zeta. destruct k_last0 as [olds Ho]. constructor; cbn; try done.
  - by exists olds.
  - rewrite <- k_text0, Ho. apply (concat_insert_last (e_world e) olds (m_filename (m_scpFile l)) line k (flushed (e_world e))). by rewrite <- Ho.
  - intros n Hn. rewrite content_other; [by apply k_fresh0|]. intros <-. apply Hn. rewrite Ho.
    apply elem_of_app. right. by apply list_elem_of_singleton.
Qed.

(** append_unlocked of one line, where the mutex is in the state [mu]. *)
Lemma append_unlocked_keeps l e text line : keeping l e text ->
  (length line < fuel)%nat -> zlen line < 2 ^ 64 ->
  let r := append_unlocked time fopen_ok fwrite_unlocked host_name pid fuel line l e in
  (exists l' e', r = Ok (tt, l', e') /\ keeping l' e' (text ++ line) /\
     m_mutexLock l' = m_mutexLock l) \/
  (m_mutexLock l = Some true /\ r = Fault Deadlock).
Proof.
  intros H Hfuel Hlen. cbv zeta. unfold append_unlocked, writeLine. rewrite (k_valid _ _ _ H).
  destruct (write_loop_all _ fwrite_progresses fuel (m_scpFile l) line (e_world e) Hfuel Hlen)
    as [k Hk]. rewrite Hk. clear Hk.
  unfold_monad. cbn [m_mutexLock m_scpFile m_startPeriod m_lastFlush m_lastRoll m_bThreadSafe
    m_appendCount m_rollSize m_basename m_flushInterval m_checkEveryN e_world e_ticks].
  pose proof (fun c lf t => written_keeps l e text line k c lf t H) as Hkeep.
  cbv zeta in Hkeep. rewrite (k_valid _ _ _ H) in Hkeep.
  set (file := mkWriteFile _ _ _) in *. set (w := mkWorld _ _ _ _) in *.
  pose proof (k_count _ _ _ H) as Hcnt.
  pose proof (k_flush _ _ _ H) as Hfl. pose proof (k_every _ _ _ H) as Hev.
  pose proof (clock_in_range (e_ticks e)) as Hc. unfold clock_ok in Hc.
  assert (Hroll : forall l1 e1, keeping l1 e1 (text ++ line) -> m_mutexLock l1 = m_mutexLock l ->
    exists l' e',
      match rollFile time fopen_ok host_name pid l1 e1 with
      | Ok a => let '(_, l, e) := a in Ok (tt, l, e) | Fault f => Fault f end = Ok (tt, l', e') /\
      keeping l' e' (text ++ line) /\ m_mutexLock l' = m_mutexLock l).
  { intros l1 e1 Hk1 Hmu. destruct (rollFile_keeps l1 e1 _ Hk1) as (b & l' & e' & Hr & Hk2 & Hmu2).
    rewrite Hr. do 2 eexists. split; [done|]. split; [done|]. by rewrite Hmu2. }
  destruct (m_rollSize l <=? WritenBytes file); [left; by apply Hroll; [apply Hkeep|]|].
  unfold iadd. rewrite ckS_ok by (simpl; lia).
  destruct (Z.leb_spec (m_checkEveryN l) (m_appendCount l + 1)) as [Hn|Hn].
  - destruct (negb _); [left; apply Hroll; [apply Hkeep; (done || lia)|done]|].
    rewrite ckS_ok by (simpl in *; lia).
    destruct (m_flushInterval l <=? _).
    + unfold flush, guarded. cbn [m_mutexLock].
      pose proof (Hkeep 0 (time (e_ticks e)) (S (e_ticks e)) ltac:(lia) ltac:(lia)) as K.
      unfold FileUtil.flush, set_mutex. cbn [m_scpFile e_world e_ticks m_valid].
      destruct (m_mutexLock l) as [[|]|] eqn:Emu; [by right|left..];
        (do 2 eexists; split; [done|]; split; [|done]; destruct K; by constructor).
    + left. do 2 eexists. split; [done|]. split; [|done]. apply Hkeep; (done || lia).
  - left. do 2 eexists. split; [done|]. split; [|done]. apply Hkeep; (done || lia).
Qed.

(** append of one line: with a mutex, it may lock itself out. *)
Lemma append_keeps l e text line : keeping l e text -> m_mutexLock l <> Some true ->
  (length line < fuel)%nat -> zlen line < 2 ^ 64 ->
  let r := append time fopen_ok fwrite_unlocked host_name pid fuel line l e in
  (exists l' e', r = Ok (true, l', e') /\ keeping l' e' (text ++ line) /\
     m_mutexLock l' = m_mutexLock l) \/
  (m_mutexLock l = Some false /\ r = Fault Deadlock).
Proof.
  intros H Hmu Hfuel Hlen. cbv zeta. unfold append, guarded.
  destruct (m_mutexLock l) as [[|]|] eqn:Emu; [done| |].
  - assert (H1 : keeping (set_mutex true l) e text) by (destruct H; by constructor).
    destruct (append_unlocked_keeps (set_mutex true l) e text line H1 Hfuel Hlen)
      as [(l' & e' & E & H2 & _)|[_ E]]; rewrite E; unfold_monad; [left|by right].
    do 2 eexists. split; [done|]. split; [destruct H2; by constructor|done].
  - destruct (append_unlocked_keeps l e text line H Hfuel Hlen)
      as [(l' & e' & E & H2 & Hmu2)|[Emu2 _]]; [|congruence]. rewrite E. unfold_monad. left.
    do 2 eexists. split; [done|]. split; [done|]. by rewrite Hmu2.
Qed.

Lemma append_all_keeps lines l e text : keeping l e text -> m_mutexLock l = None ->
  Forall (fun line => (length line < fuel)%nat /\ zlen line < 2 ^ 64) lines ->
  exists l' e', append_all time fopen_ok fwrite_unlocked host_name pid fuel lines l e = Ok (l', e') /\
    keeping l' e' (text ++ List.concat lines).
Proof.
  intros H Hmu Hl. revert l e text H Hmu.
  induction Hl as [|line lines [Hf Hz] _ IH]; intros l e text H Hmu.
  - rewrite app_nil_r. by do 2 eexists.
  - cbn [append_all List.concat]. destruct (append_keeps l e text line H ltac:(by rewrite Hmu) Hf Hz)
      as [(l1 & e1 & Ha & H1 & Hmu1)|[Hmu1 _]]; [|congruence].
    rewrite Ha. unfold_monad. rewrite app_assoc. apply IH; [done|by rewrite Hmu1].
Qed.

(** The constructor, whatever the unset members hold. *)
Lemma LogFile_new_keeps start flush0 roll count threadsafe rollsize basename flushInterval checkEveryN :
  - 2 ^ 31 <= count < 2 ^ 31 - 1 -> checkEveryN < 2 ^ 31 -> - 2 ^ 62 <= flush0 <= 2 ^ 62 ->
  exists l e,
    LogFile_new time fopen_ok host_name pid start flush0 roll count threadsafe rollsize basename
      flushInterval checkEveryN env0 = Ok (l, e) /\
    keeping l e [] /\ m_mutexLock l = if threadsafe then Some false else None.
Proof.
  intros Hcount Hevery Hflush. unfold LogFile_new, WriteFile_new. rewrite fopen_succeeds.
  set (l0 := mkLogFile _ _ _ _ _ _ _ _ _ _ _).
  set (e1 := mkEnv (mkWorld (<[basename:=content (e_world env0) basename]> ∅) [basename] 0 ∅) 0).
  change (rollFile _ _ _ _ l0 _) with (rollFile time fopen_ok host_name pid l0 e1).
  assert (H0 : keeping l0 e1 []).
  { constructor; cbn; try done.
    - by exists [].
    - apply NoDup_singleton.
    - repeat constructor.
    - apply Forall_singleton. by left.
    - unfold content at 1. cbn [files]. by rewrite lookup_insert_eq.
    - intros n Hn. unfold content. cbn [files]. rewrite lookup_insert_ne; [done|].
      intros <-. by apply Hn, list_elem_of_singleton. }
  destruct (rollFile_keeps l0 e1 [] H0) as (b & l & e & Hr & H1 & Hmu).
  rewrite Hr. unfold_monad. exists l, e. split; [done|]. split; [done|]. by rewrite Hmu.
Qed.
(** *** Log files that do not lock themselves out *)

Section Calm.
(** Every line has at least [shortest] bytes. *)
Variable shortest : Z.
Hypothesis shortest_nonneg : 0 <= shortest.

(** The clock was last read by the roll that started the file or, when a check
    of the interval came later, too little has been written since for another
    before the next roll; or a roll is due. *)
Definition calm (l : LogFile) (e : env) (total : Z) : Prop :=
  let written := WritenBytes (m_scpFile l) in
  m_rollSize l <= m_checkEveryN l * shortest /\
  (forall i, time (S i) - time i < m_flushInterval l) /\
  0 <= written <= total /\
  ((exists i, e_ticks e = S i /\ m_lastFlush l = time i) \/
   m_appendCount l * shortest <= written \/ m_rollSize l <= written).

Lemma rollFile_calm l e text total : keeping l e text ->
  m_rollSize l <= m_checkEveryN l * shortest ->
  (forall i, time (S i) - time i < m_flushInterval l) ->
  0 <= WritenBytes (m_scpFile l) <= total ->
  m_appendCount l * shortest <= WritenBytes (m_scpFile l) \/
    m_rollSize l <= WritenBytes (m_scpFile l) ->
  exists b l' e', rollFile time fopen_ok host_name pid l e = Ok (b, l', e') /\ calm l' e' total.
Proof.
  intros H Hsize Hclock Hw Hc. unfold rollFile.
  rewrite getLogFileName_ok.
  unfold_monad. destruct (m_lastRoll l <? time (e_ticks e)).
  - unfold WriteFile_new. rewrite fopen_succeeds. do 3 eexists. split; [done|].
    unfold calm, WritenBytes in *. cbn. split_and!; try done; try lia; left; eauto.
  - do 3 eexists. split; [done|]. split_and!; try done; try lia.
Qed.

Lemma append_unlocked_calm l e text line total : keeping l e text -> calm l e total ->
  (length line < fuel)%nat -> shortest <= zlen line -> total + zlen line < 2 ^ 64 ->
  exists l' e', append_unlocked time fopen_ok fwrite_unlocked host_name pid fuel line l e =
      Ok (tt, l', e') /\ calm l' e' (total + zlen line).
Proof.
  intros H (Hsize & Hclock & Hw & Hc) Hfuel Hshort Htotal. unfold append_unlocked, writeLine.
  rewrite (k_valid _ _ _ H). pose proof (zlen_nonneg line) as Hnn.
  destruct (write_loop_all _ fwrite_progresses fuel (m_scpFile l) line (e_world e) Hfuel ltac:(lia))
    as [k Hk]. rewrite Hk. clear Hk.
  unfold_monad. cbn [m_mutexLock m_scpFile m_startPeriod m_lastFlush m_lastRoll m_bThreadSafe
    m_appendCount m_rollSize m_basename m_flushInterval m_checkEveryN e_world e_ticks].
  pose proof (fun c lf t => written_keeps l e text line k c lf t H) as Hkeep.
  cbv zeta in Hkeep. rewrite (k_valid _ _ _ H) in Hkeep.
  unfold WritenBytes in *. cbn [m_nBytesWritten] in *.
  rewrite wrapU_small in * by lia. set (wb := m_nBytesWritten (m_scpFile l) + zlen line) in *.
  pose proof (k_count _ _ _ H) as Hcnt. pose proof (k_flush _ _ _ H) as Hfl.
  pose proof (k_every _ _ _ H) as Hev.
  pose proof (clock_in_range (e_ticks e)) as Hct. unfold clock_ok in Hct.
  assert (Hroll : forall l1 e1, keeping l1 e1 (text ++ line) ->
    m_rollSize l1 = m_rollSize l -> m_checkEveryN l1 = m_checkEveryN l ->
    m_flushInterval l1 = m_flushInterval l -> m_nBytesWritten (m_scpFile l1) = wb ->
    m_appendCount l1 * shortest <= wb \/ m_rollSize l <= wb ->
    exists l' e',
      match rollFile time fopen_ok host_name pid l1 e1 with
      | Ok a => let '(_, l, e) := a in Ok (tt, l, e) | Fault f => Fault f end = Ok (tt, l', e') /\
      calm l' e' (total + zlen line)).
  { intros l1 e1 Hk1 E1 E2 E3 E4 Hd.
    destruct (rollFile_calm l1 e1 (text ++ line) (total + zlen line)) as (b & l' & e' & Hr & Hcalm);
      unfold WritenBytes; rewrite ?E1, ?E2, ?E3, ?E4; try done; [lia|].
    rewrite Hr. by do 2 eexists. }
  destruct (Z.leb_spec (m_rollSize l) wb) as [Hr|Hr].
  { apply Hroll; try done; [by apply Hkeep|by right]. }
  unfold iadd. rewrite ckS_ok by (simpl; lia).
  destruct (Z.leb_spec (m_checkEveryN l) (m_appendCount l + 1)) as [Hn|Hn].
  - assert (Hlast : exists i, e_ticks e = S i /\ m_lastFlush l = time i).
    { destruct Hc as [?|[Hc|Hc]]; [done| |lia]. exfalso.
      assert (m_checkEveryN l * shortest <= (m_appendCount l + 1) * shortest) by nia. lia. }
    destruct Hlast as (i & Hi & Hlast).
    destruct (negb _). { apply Hroll; try done; [apply Hkeep; (done || lia)|cbn; lia]. }
    rewrite ckS_ok by (simpl in *; lia). specialize (Hclock i) as Hstep. rewrite <- Hi in Hstep.
    destruct (Z.leb_spec (m_flushInterval l) (time (e_ticks e) - m_lastFlush l)); [lia|].
    do 2 eexists. split; [done|]. unfold calm, WritenBytes. cbn. split_and!; try done; try lia.
  - do 2 eexists. split; [done|]. unfold calm, WritenBytes. cbn. split_and!; try done; try lia.
    destruct Hc as [?|[?|?]]; [by left|right; left; unfold wb; nia|lia].
Qed.

Lemma append_calm l e text line total : keeping l e text -> calm l e total ->
  m_mutexLock l <> Some true -> (length line < fuel)%nat -> shortest <= zlen line ->
  total + zlen line < 2 ^ 64 ->
  exists l' e', append time fopen_ok fwrite_unlocked host_name pid fuel line l e = Ok (true, l', e') /\
    keeping l' e' (text ++ line) /\ calm l' e' (total + zlen line) /\ m_mutexLock l' = m_mutexLock l.
Proof.
  intros H Hc Hmu Hfuel Hshort Htotal. pose proof (zlen_nonneg line) as Hnn.
  assert (Hw : 0 <= total) by (destruct Hc as (_ & _ & ? & _); lia).
  unfold append, guarded. destruct (m_mutexLock l) as [[|]|] eqn:Emu; [done| |].
  - assert (H1 : keeping (set_mutex true l) e text) by (destruct H; by constructor).
    assert (Hc1 : calm (set_mutex true l) e total) by exact Hc.
    destruct (append_unlocked_calm _ _ _ line _ H1 Hc1 Hfuel Hshort Htotal) as (l' & e' & E & Hc2).
    destruct (append_unlocked_keeps (set_mutex true l) e text line H1 Hfuel ltac:(lia))
      as [(l2 & e2 & E2 & H2 & _)|[_ E2]]; rewrite E in E2; [|done]. injection E2 as <- <-.
    rewrite E. unfold_monad. do 2 eexists. split; [done|].
    split; [destruct H2; by constructor|]. by split.
  - destruct (append_unlocked_calm _ _ _ line _ H Hc Hfuel Hshort Htotal) as (l' & e' & E & Hc2).
    destruct (append_unlocked_keeps l e text line H Hfuel ltac:(lia))
      as [(l2 & e2 & E2 & H2 & Hmu2)|[_ E2]]; rewrite E in E2; [|done]. injection E2 as <- <-.
    rewrite E. unfold_monad. do 2 eexists. split; [done|]. split; [done|]. split; [done|]. by rewrite Hmu2.
Qed.

Lemma LogFile_new_calm start flush0 roll count threadsafe rollsize basename flushInterval
    checkEveryN l e :
  roll < time 0 -> rollsize <= checkEveryN * shortest ->
  (forall i, time (S i) - time i < flushInterval) ->
  LogFile_new time fopen_ok host_name pid start flush0 roll count threadsafe rollsize basename
    flushInterval checkEveryN env0 = Ok (l, e) -> calm l e 0.
Proof.
  intros Hroll Hsize Hclock. unfold LogFile_new, WriteFile_new, rollFile. rewrite fopen_succeeds.
  rewrite getLogFileName_ok. unfold_monad. cbn [m_lastRoll e_ticks env0].
  destruct (Z.ltb_spec roll (time 0)); [|lia]. unfold WriteFile_new. rewrite fopen_succeeds.
  intros [= <- <-]. split; [done|]. split; [done|]. split; [done|]. left. by exists 0%nat.
Qed.
End Calm.
End Lossless.

(** ** Properties *)

(** C9. A log file that is not shared between threads loses, repeats and reorders
    nothing: after any sequence of append calls, all of which succeed, the
    files that were opened, read in the order in which they were opened, hold
    exactly the lines appended, however often the file was rolled, however
    fwrite splits the lines and whatever the unset members held.  No file was
    opened twice, and the names of the files are in lexicographic order, so
    that a directory listing shows them in the order of their lines. *)
Theorem log_file_keeps_lines time fopen_ok fwrite host_name host pid fuel start flush0 roll count
    rollsize basename flushInterval checkEveryN lines :
  (forall i, clock_ok (time i)) -> (forall name, fopen_ok name = true) ->
  fwrite_progress fwrite -> hostname host_name = Ok host -> 0 <= pid < 2 ^ 31 ->
  - 2 ^ 31 <= count < 2 ^ 31 - 1 -> checkEveryN < 2 ^ 31 -> - 2 ^ 62 <= flush0 <= 2 ^ 62 ->
  Forall (fun line => (length line < fuel)%nat /\ zlen line < 2 ^ 64) lines ->
  exists l e l' e',
    LogFile_new time fopen_ok host_name pid start flush0 roll count false rollsize basename
      flushInterval checkEveryN env0 = Ok (l, e) /\
    append_all time fopen_ok fwrite host_name pid fuel lines l e = Ok (l', e') /\
    List.concat (List.map (content (e_world e')) (opened (e_world e'))) = List.concat lines /\
    NoDup (opened (e_world e')) /\ StronglySorted lexico (opened (e_world e')).
Proof.
  intros Hclock Hopen Hwrite Hhost Hpid Hcount Hevery Hflush Hlines.
  destruct (LogFile_new_keeps time fopen_ok host_name host pid Hclock Hopen Hhost Hpid start flush0
    roll count false rollsize basename flushInterval checkEveryN Hcount Hevery Hflush)
    as (l & e & Hr & H1 & Hmu). rewrite Hr.
  destruct (append_all_keeps time fopen_ok fwrite host_name host pid fuel Hclock Hopen Hwrite Hhost
    Hpid lines l e [] H1 Hmu Hlines) as (l' & e' & Ha & H2).
  exists l, e, l', e'. split; [done|]. split; [done|].
  split; [exact (k_text _ _ _ _ _ H2)|]. split; [exact (k_nodup _ _ _ _ _ H2)|exact (k_sorted _ _ _ _ _ H2)].
Qed.

(** A clock that advances by 100 seconds whenever it is read. *)
Definition ticking (i : nat) : Z := 1700000000 + 100 * Z.of_nat (Nat.min i 1000).

Lemma ticking_ok i : clock_ok (ticking i).
Proof. unfold clock_ok, ticking. lia. Qed.

Lemma two_bytes_progress : fwrite_progress two_bytes.
Proof. intros i bs. unfold two_bytes. cbn [fst]. split; [lia|]. destruct bs; [done|simpl; lia]. Qed.

Lemma log_file_keeps_lines_witness :
  exists l e l' e',
    LogFile_new ticking (fun _ => true) None 7 0 0 0 0 false 8 (lit "log") 3 2 env0 = Ok (l, e) /\
    append_all ticking (fun _ => true) two_bytes None 7 10 [lit "first"; lit "second"; lit "third"]
      l e = Ok (l', e') /\
    List.concat (List.map (content (e_world e')) (opened (e_world e'))) =
      List.concat [lit "first"; lit "second"; lit "third"] /\
    NoDup (opened (e_world e')) /\ StronglySorted lexico (opened (e_world e')).
Proof.
  apply (log_file_keeps_lines ticking (fun _ => true) two_bytes None (lit "unknownhost") 7 10).
  - exact ticking_ok.
  - reflexivity.
  - exact two_bytes_progress.
  - reflexivity.
  - lia.
  - lia.
  - lia.
  - lia.
  - repeat constructor.
Defined.

(** The names of the files of that run: it starts in "log", is rolled at once,
    and again when 8 bytes have been written. *)
Lemma log_file_example :
  match LogFile_new ticking (fun _ => true) None 7 0 0 0 0 false 8 (lit "log") 3 2 env0 with
  | Ok (l, e) =>
      match append_all ticking (fun _ => true) two_bytes None 7 10
              [lit "first"; lit "second"; lit "third"] l e with
      | Ok (_, e') => List.map (fun n => (n, content (e_world e') n)) (opened (e_world e'))
      | Fault _ => []
      end
  | Fault _ => []
  end =
  [(lit "log", []);
   (lit "log.20231114-221320.unknownhost.7.log", lit "firstsecond");
   (lit "log.20231114-221500.unknownhost.7.log", lit "third")].
Proof. vm_compute. reflexivity. Qed.

(** ** Behaviour that callers may not expect *)

(** A log file made thread safe locks itself out: append holds the mutex when
    it calls flush, which locks it again, so the call never returns once
    m_checkEveryN lines have been appended and the flush interval is over. *)
Lemma threadsafe_append_deadlocks time fopen_ok fwrite host_name pid fuel line l e w' :
  m_mutexLock l = Some false -> m_valid (m_scpFile l) = true ->
  write_loop fwrite fuel (m_scpFile l) line (zlen line) (e_world e) = Ok w' ->
  wrapU 64 (m_nBytesWritten (m_scpFile l) + zlen line) < m_rollSize l ->
  m_checkEveryN l <= m_appendCount l + 1 < 2 ^ 31 -> - 2 ^ 31 <= m_appendCount l ->
  Z.quot (time (e_ticks e)) m_rollPeriod * m_rollPeriod = m_startPeriod l ->
  m_flushInterval l <= time (e_ticks e) - m_lastFlush l < 2 ^ 63 ->
  - 2 ^ 63 <= time (e_ticks e) - m_lastFlush l ->
  append time fopen_ok fwrite host_name pid fuel line l e = Fault Deadlock.
Proof.
  intros Hmu Hv Hw Hroll Hev Hc Hper Hfl Hfl'. unfold append, guarded. rewrite Hmu.
  unfold append_unlocked, writeLine, set_mutex. cbn [m_scpFile]. rewrite Hv, Hw.
  unfold_monad. unfold WritenBytes. cbn [m_nBytesWritten m_mutexLock m_scpFile m_startPeriod
    m_lastFlush m_lastRoll m_bThreadSafe m_appendCount m_rollSize m_basename m_flushInterval
    m_checkEveryN e_world e_ticks].
  destruct (Z.leb_spec (m_rollSize l)
    (wrapU 64 (m_nBytesWritten (m_scpFile l) + zlen line))); [lia|].
  unfold iadd. rewrite ckS_ok by (simpl in *; lia).
  destruct (Z.leb_spec (m_checkEveryN l) (m_appendCount l + 1)); [|lia].
  rewrite Hper, Z.eqb_refl. cbn [negb]. rewrite ckS_ok by (simpl in *; lia).
  destruct (Z.leb_spec (m_flushInterval l) (time (e_ticks e) - m_lastFlush l)); [|lia].
  done.
Qed.

(** It happens: with checkEveryN = 2, the second line is never appended. *)
Lemma threadsafe_deadlock_example :
  match LogFile_new ticking (fun _ => true) None 7 0 0 0 0 true 1000 (lit "log") 3 2 env0 with
  | Ok (l, e) => append_all ticking (fun _ => true) two_bytes None 7 10 [lit "a"; lit "b"] l e
  | Fault f => Fault f
  end = Fault Deadlock.
Proof. vm_compute. reflexivity. Qed.
