(* ===== verification/Threads.v ===== *)
(** Atomic integers and threads: base/Atomic.h, base/ThreadOp.h, base/Thread.h
    and base/Thread.cc.

    An operation of AtomicIntegerT is one atomic step on the value, in
    two's-complement arithmetic.  The variables declared __thread are a record
    [tls]; the kernel's thread number is an argument.  [Thread] objects record
    what they ask of pthreads, so that a theorem can say how each thread ends.
    Here the calls of an object are taken one after the other, and the number
    that the threads share is a field; ThreadLife.v interleaves them. *)
From Stdlib Require Import ZArith Lia Ascii String.
From stdpp Require Import base list strings.
From S2P Require Import Prelude.
From S2P Require Import CLib.
From S2P Require Import Timestamp.

#[local] Open Scope Z_scope.

(** ** AtomicIntegerT<T>, T having [w] bits *)

Section Atomic.
Variable w : Z.

Definition AtomicIntegerT_of (value : Z) : Z := value.
Definition AtomicIntegerT_default : Z := 0.

(** Each operation: the value returned and the new m_value. *)
Definition get (m_value : Z) : Z * Z := (m_value, if m_value =? 0 then 0 else m_value).
Definition getAndSet (value m_value : Z) : Z * Z := (m_value, value).
Definition addAndGet (value m_value : Z) : Z * Z :=
  let v := wrapS w (m_value + value) in (v, v).
(** The subtraction is ordinary arithmetic on T. *)
Definition getAndAdd (value m_value : Z) : outcome (Z * Z) :=
  let '(r, v) := addAndGet value m_value in
  r ← ckS w (r - value); Ok (r, v).
Definition incAndGet (m_value : Z) : Z * Z := addAndGet 1 m_value.
Definition inc (m_value : Z) : Z := snd (addAndGet 1 m_value).
Definition subAndGet (value m_value : Z) : Z * Z :=
  let v := wrapS w (m_value - value) in (v, v).
Definition decAndGet (m_value : Z) : Z * Z := subAndGet 1 m_value.
Definition dec (m_value : Z) : Z := snd (subAndGet 1 m_value).
End Atomic.

(** ** ThreadOp: the variables of a thread *)

Record tls := mkTls {
  t_cachedtid : Z;
  t_threadname : bytes;
  t_tidString : bytes;       (* 32 bytes *)
  t_tidStringLength : Z
}.

Definition tls_init : tls := mkTls 0 (lit "default") (replicate 32 NUL) 6.

Section ThreadOp.
(** gettid() in the thread that runs. *)
Variable gettid : Z.

Definition cacheTid (t : tls) : tls :=
  if t_cachedtid t =? 0 then
    let text := fmt_wd 5 gettid ++ lit " " in
    mkTls gettid (t_threadname t) (splice 0 (snprintf_stored 32 text) (t_tidString t)) (zlen text)
  else t.
Definition tid (t : tls) : Z * tls :=
  let t := if t_cachedtid t =? 0 then cacheTid t else t in (t_cachedtid t, t).
Definition threadName (t : tls) : bytes := t_threadname t.
Definition tidString (t : tls) : bytes := t_tidString t.
Definition tidStringLength (t : tls) : Z := t_tidStringLength t.
Definition afterFork (t : tls) : tls :=
  snd (tid (mkTls 0 (lit "main") (t_tidString t) (t_tidStringLength t))).
Definition isMainThread (getpid : Z) (t : tls) : bool * tls :=
  let '(id, t) := tid t in (id =? getpid, t).
(** ThreadNameInitializer: afterFork is registered for the child. *)
Definition ThreadNameInitializer (t : tls) : tls :=
  snd (tid (mkTls (t_cachedtid t) (lit "main") (t_tidString t) (t_tidStringLength t))).
End ThreadOp.

(** sleepUsec: the timespec given to nanosleep. *)
Definition sleepUsec (usec : Z) : Z * Z :=
  (Z.quot usec kMicroSecsPerSecond, Z.rem usec kMicroSecsPerSecond * 1000).

(** ** Thread *)

(** What a Thread object has asked of pthreads. *)
Inductive request := Create | Join | Detach.

Record Thread := mkThread {
  m_sharedtid : Z;
  m_name : bytes;
  m_started : bool;
  m_joined : bool;
  requests : list request
}.

(** setDefaultName: the new name and the new m_ThreadNum. *)
Definition setDefaultName (name : bytes) (m_ThreadNum : Z) : outcome (bytes * Z) :=
  let '(num, m_ThreadNum) := incAndGet 32 m_ThreadNum in
  if bool_decide (name = []) then
    buf ← c_string (snprintf_stored 32 (lit "Thread" ++ dec_of_Z num));
    Ok (buf, m_ThreadNum)
  else Ok (name, m_ThreadNum).

Definition Thread_new (name : bytes) (m_ThreadNum : Z) : outcome (Thread * Z) :=
  '(name, m_ThreadNum) ← setDefaultName name m_ThreadNum;
  Ok (mkThread 0 name false false [], m_ThreadNum).

Definition threadNum (m_ThreadNum : Z) : Z := fst (get m_ThreadNum).
Definition thread_tid (t : Thread) : Z := m_sharedtid t.
Definition started (t : Thread) : bool := m_started t.

(** start, [created] telling whether pthread_create succeeds. *)
Definition start (created : bool) (t : Thread) : outcome Thread :=
  _ ← assert_ (negb (m_started t));
  Ok (if created
      then mkThread (m_sharedtid t) (m_name t) true (m_joined t) (requests t ++ [Create])
      else t).

Definition join (t : Thread) : outcome Thread :=
  _ ← assert_ (m_started t);
  _ ← assert_ (negb (m_joined t));
  Ok (mkThread (m_sharedtid t) (m_name t) (m_started t) true (requests t ++ [Join])).

(** ~Thread: the requests made over the object's life. *)
Definition Thread_delete (t : Thread) : list request :=
  if m_started t && negb (m_joined t) then requests t ++ [Detach] else requests t.

(** ThreadData::runInThread in a new thread: the variables of the thread while
    m_func runs and when it has returned, and the number that *m_sharedtid
    gets if the Thread object still exists ([alive]). *)
Definition runInThread (gettid : Z) (name : bytes) (alive : bool) (t : tls)
  : tls * tls * option Z :=
  let t := mkTls (t_cachedtid t) name (t_tidString t) (t_tidStringLength t) in
  let '(id, t) := tid gettid t in
  let during := mkTls (t_cachedtid t) (if bool_decide (name = []) then lit "MyNetThread" else name)
                  (t_tidString t) (t_tidStringLength t) in
  let after := mkTls (t_cachedtid t) (lit "finished") (t_tidString t) (t_tidStringLength t) in
  (during, after, if alive then Some id else None).

(** ** Lemmas *)

(** The text that identifies thread [id] in log lines. *)
Definition tid_text (id : Z) : bytes := fmt_wd 5 id ++ lit " ".

(** Thread variables that are consistent with the thread running. *)
Definition tls_ok (gettid : Z) (t : tls) : Prop :=
  length (t_tidString t) = 32%nat /\
  (t_cachedtid t = 0 \/
   t_cachedtid t = gettid /\ t_tidStringLength t = zlen (tid_text gettid) /\
   c_string (t_tidString t) = Ok (tid_text gettid)).

Lemma tid_text_ok id : 0 < id < 2 ^ 31 -> 6 <= zlen (tid_text id) <= 12 /\ (NUL ∉ tid_text id).
Proof.
  intros H. unfold tid_text, fmt_wd, pad_left.
  pose proof (length_dec_of_Z 10 id ltac:(simpl in *; lia) ltac:(lia)) as Hl.
  pose proof (dec_of_Z_digits id ltac:(lia)) as Hd. split.
  - unfold zlen. rewrite !length_app, length_replicate. change (length (lit " ")) with 1%nat. lia.
  - rewrite !not_elem_of_app. repeat split.
    + intros Hin. apply elem_of_replicate in Hin as [Hin _]. discriminate Hin.
    + by apply (nul_free_digits id).
    + by apply (bool_decide_unpack _).
Qed.

Lemma c_string_prefix s mem : NUL ∉ s -> c_string (splice 0 (s ++ [NUL]) mem) = Ok s.
Proof.
  intros Hs. unfold splice. cbn [Z.to_nat take app].
  rewrite <- app_assoc. by apply c_string_app.
Qed.

(** After tid() the thread number and its text are those of the thread. *)
Lemma tid_cached gettid t : 0 < gettid < 2 ^ 31 -> tls_ok gettid t ->
  exists t', tid gettid t = (gettid, t') /\ tls_ok gettid t' /\ t_cachedtid t' = gettid /\
    tidStringLength t' = zlen (tid_text gettid) /\ c_string (tidString t') = Ok (tid_text gettid) /\
    threadName t' = threadName t.
Proof.
  intros Hg [Hlen Ht]. pose proof (tid_text_ok gettid Hg) as [Hz Hn]. unfold tid, cacheTid.
  destruct (Z.eqb_spec (t_cachedtid t) 0) as [H0|H0].
  - eexists. split; [done|]. cbn [t_cachedtid t_tidString t_tidStringLength tidString tidStringLength].
    fold (tid_text gettid).
    assert (Hs : c_string (splice 0 (snprintf_stored 32 (tid_text gettid)) (t_tidString t)) =
      Ok (tid_text gettid)).
    { rewrite snprintf_fits by lia. by apply c_string_prefix. }
    split; [split|]; [|by right|done].
    cbn [t_tidString]. rewrite length_splice; [done|].
    rewrite snprintf_fits by lia. rewrite length_app. simpl. unfold zlen in Hz. lia.
  - destruct Ht as [Ht|(H1 & H2 & H3)]; [done|]. exists t. rewrite H1.
    split; [done|]. split; [|done]. split; [done|]. by right.
Qed.

(** The numbers that successive threads are given. *)
Fixpoint new_threads (names : list bytes) (m_ThreadNum : Z) : outcome (list Thread * Z) :=
  match names with
  | [] => Ok ([], m_ThreadNum)
  | name :: names =>
      '(t, m_ThreadNum) ← Thread_new name m_ThreadNum;
      '(ts, m_ThreadNum) ← new_threads names m_ThreadNum;
      Ok (t :: ts, m_ThreadNum)
  end.

Definition default_name (k : Z) : bytes := lit "Thread" ++ dec_of_Z k.

Lemma default_name_inj j k : default_name j = default_name k -> j = k.
Proof.
  intros H. apply app_inv_head in H. rewrite <- (atoi_dec_of_Z j), <- (atoi_dec_of_Z k).
  by rewrite H.
Qed.

Lemma Thread_new_ok name n : 0 <= n < 2 ^ 31 - 1 ->
  Thread_new name n =
    Ok (mkThread 0 (if bool_decide (name = []) then default_name (n + 1) else name) false false [],
        n + 1).
Proof.
  intros Hn. unfold Thread_new, setDefaultName, incAndGet, addAndGet.
  rewrite wrapS_small by (simpl in *; lia).
  destruct (bool_decide (name = [])); [|done].
  pose proof (length_dec_of_Z 10 (n + 1) ltac:(simpl in *; lia) ltac:(lia)) as Hl.
  rewrite c_string_snprintf; [done| |].
  - unfold zlen. rewrite length_app. change (length (lit "Thread")) with 6%nat. lia.
  - apply not_elem_of_app. split; [by apply (bool_decide_unpack _)|].
    apply (nul_free_digits (n + 1)), dec_of_Z_digits. lia.
Qed.

Lemma new_threads_ok names n : 0 <= n -> n + zlen names < 2 ^ 31 ->
  exists ts, new_threads names n = Ok (ts, n + zlen names) /\
    List.map m_name ts =
      imap (fun i name => if bool_decide (name = []) then default_name (n + 1 + Z.of_nat i) else name)
        names.
Proof.
  revert n. induction names as [|name names IH]; intros n Hn Hb.
  - exists []. rewrite zlen_nil, Z.add_0_r. done.
  - rewrite zlen_cons in Hb. pose proof (zlen_nonneg names). cbn [new_threads].
    rewrite Thread_new_ok by lia. unfold_monad. destruct (IH (n + 1)) as (ts & Ht & Hm); [lia..|].
    rewrite Ht. eexists. split; [rewrite zlen_cons; do 2 f_equal; lia|].
    cbn [List.map imap m_name]. rewrite Hm. f_equal.
    + by rewrite Z.add_0_r.
    + apply imap_ext. intros i x _. unfold compose. rewrite Nat2Z.inj_succ.
      by replace (n + 1 + Z.succ (Z.of_nat i)) with (n + 1 + 1 + Z.of_nat i) by lia.
Qed.

(** ** The life of a Thread object *)

Inductive thread_op := OStart (created : bool) | OJoin.

Definition is_join (o : thread_op) : bool := match o with OJoin => true | OStart _ => false end.

Fixpoint use_thread (ops : list thread_op) (t : Thread) : outcome Thread :=
  match ops with
  | [] => Ok t
  | OStart created :: ops => t ← start created t; use_thread ops t
  | OJoin :: ops => t ← join t; use_thread ops t
  end.

(** The requests of an object in each of its states. *)
Definition life_ok (t : Thread) : Prop :=
  requests t = (if m_started t then [Create] else []) ++ (if m_joined t then [Join] else []) /\
  (m_joined t = true -> m_started t = true).

Lemma use_thread_ok ops t : life_ok t ->
  match use_thread ops t with
  | Ok t' => life_ok t' /\ m_joined t' = m_joined t || existsb is_join ops
  | Fault f => f = AssertFail
  end.
Proof.
  revert t. induction ops as [|[created|] ops IH]; intros t Ht; cbn [use_thread existsb].
  - by rewrite orb_false_r.
  - unfold start. destruct Ht as [Hr Hj]. destruct (m_started t) eqn:Hs; [done|]. unfold_monad.
    assert (Hnj : m_joined t = false) by (destruct (m_joined t); [by specialize (Hj eq_refl)|done]).
    destruct created; cbn [negb]; [|apply IH; by split; rewrite Hs].
    specialize (IH (mkThread (m_sharedtid t) (m_name t) true (m_joined t) (requests t ++ [Create]))).
    apply IH. split; cbn; [|done]. by rewrite Hr, Hnj.
  - unfold join. destruct Ht as [Hr Hj]. destruct (m_started t) eqn:Hs; [|done].
    unfold_monad. destruct (m_joined t) eqn:Hm; [done|]. cbn [negb].
    specialize (IH (mkThread (m_sharedtid t) (m_name t) true true (requests t ++ [Join]))).
    assert (H : life_ok (mkThread (m_sharedtid t) (m_name t) true true (requests t ++ [Join]))).
    { split; cbn; [|done]. by rewrite Hr. }
    specialize (IH H). cbn [m_joined orb] in IH. destruct (use_thread ops _); [|done].
    by rewrite orb_true_r.
Qed.

(** ** Properties *)

(** Every thread that a Thread object creates is released exactly once:
    whatever sequence of start and join calls a program makes, and whether or
    not pthread_create succeeds, either an assert stops it (a second start of
    a running thread, a join before start, a second join) or, when the object
    is destroyed, it has created no thread, or created one and joined it if
    join was called, or created one and detached it if not. *)
Theorem thread_released_once name n t num ops :
  Thread_new name n = Ok (t, num) ->
  match use_thread ops t with
  | Ok t' =>
      Thread_delete t' = (if m_started t' then [Create; if m_joined t' then Join else Detach] else [])
      /\ m_joined t' = existsb is_join ops
  | Fault f => f = AssertFail
  end.
Proof.
  intros Hn. assert (Ht : life_ok t /\ m_joined t = false).
  { unfold Thread_new in Hn. destruct (setDefaultName name n) as [[nm k]|]; [|done]. 
    cbn in Hn. by simplify_eq. }
  destruct Ht as [Ht Hj]. pose proof (use_thread_ok ops t Ht) as H.
  destruct (use_thread ops t) as [t'|]; [|done]. destruct H as [[Hr Hs] Hm]. rewrite Hj in Hm.
  split; [|done]. unfold Thread_delete. rewrite Hr.
  destruct (m_started t') eqn:Es, (m_joined t') eqn:Ej; try done. by specialize (Hs eq_refl).
Qed.

Lemma thread_released_once_witness :
  match use_thread [OStart false; OStart true; OJoin] (mkThread 0 (lit "Thread1") false false []) with
  | Ok t' =>
      Thread_delete t' = (if m_started t' then [Create; if m_joined t' then Join else Detach] else [])
      /\ m_joined t' =
           existsb is_join [OStart false; OStart true; OJoin]
  | Fault f => f = AssertFail
  end.
Proof. apply (thread_released_once [] 0 (mkThread 0 (lit "Thread1") false false []) 1). reflexivity. Defined.

(** Threads can be told apart: the default names of any number of threads
    created one after the other are all different; and a thread that runs sees
    its own kernel number from tid(), its name from threadName() while its
    function runs, and stores the number in the Thread object if that still
    exists. *)
Theorem threads_identified k gettid name alive :
  Z.of_nat k < 2 ^ 31 -> 0 < gettid < 2 ^ 31 ->
  (exists ts, new_threads (replicate k []) 0 = Ok (ts, Z.of_nat k) /\ NoDup (List.map m_name ts) /\
     threadNum (Z.of_nat k) = Z.of_nat k) /\
  (let '(during, after, stored) := runInThread gettid name alive tls_init in
   tid gettid during = (gettid, during) /\ c_string (tidString during) = Ok (tid_text gettid) /\
   threadName during = (if bool_decide (name = []) then lit "MyNetThread" else name) /\
   threadName after = lit "finished" /\ stored = (if alive then Some gettid else None)).
Proof.
  intros Hk Hg. split.
  - destruct (new_threads_ok (replicate k []) 0) as (ts & Ht & Hm);
      [lia|rewrite zlen_replicate; lia|].
    rewrite zlen_replicate in Ht. exists ts. split; [exact Ht|]. split.
    + rewrite Hm. apply NoDup_alt. intros i j x Hi Hj.
      rewrite list_lookup_imap in Hi, Hj. 
      apply fmap_Some in Hi as (y & Hy & ->). apply fmap_Some in Hj as (z & Hz & Heq).
      apply lookup_replicate in Hy as [-> _]. apply lookup_replicate in Hz as [-> _].
      cbn in Heq. apply default_name_inj in Heq. lia.
    + unfold threadNum, get. cbn [fst]. done.
  - unfold runInThread.
    set (t0 := mkTls _ name _ _).
    assert (Hok : tls_ok gettid t0) by (split; [done|by left]).
    destruct (tid_cached gettid t0 Hg Hok) as (t1 & H1 & H2 & H3 & H4 & H5 & H6).
    rewrite H1. split; [|done].
    unfold tid. cbn [t_cachedtid]. rewrite H3. destruct (Z.eqb_spec gettid 0); [lia|done].
Qed.

Lemma threads_identified_witness :
  (exists ts, new_threads (replicate 3 []) 0 = Ok (ts, 3) /\ NoDup (List.map m_name ts) /\
     threadNum 3 = 3) /\
  (let '(during, after, stored) := runInThread 4711 (lit "worker") true tls_init in
   tid 4711 during = (4711, during) /\ c_string (tidString during) = Ok (tid_text 4711) /\
   threadName during = lit "worker" /\ threadName after = lit "finished" /\ stored = Some 4711).
Proof. apply (threads_identified 3 4711 (lit "worker") true); lia. Defined.

(** fork: the child forgets the number of its parent. *)
Lemma fork_renumbers parent child t : 0 < child < 2 ^ 31 -> tls_ok parent t ->
  exists t', afterFork child t = t' /\ t_cachedtid t' = child /\ threadName t' = lit "main" /\
    c_string (tidString t') = Ok (tid_text child).
Proof.
  intros Hc [Hl _]. unfold afterFork. eexists. split; [done|].
  destruct (tid_cached child (mkTls 0 (lit "main") (t_tidString t) (t_tidStringLength t)) Hc)
    as (t1 & H1 & _ & H3 & _ & H5 & H6).
  { split; [done|by left]. }
  rewrite H1. cbn [snd]. by rewrite H3, H5, H6.
Qed.

(** sleepUsec asks for the time it is given, when that is not negative. *)
Lemma sleepUsec_ok usec : 0 <= usec ->
  let '(sec, nsec) := sleepUsec usec in
  0 <= sec /\ 0 <= nsec < 1000000000 /\ sec * 1000000000 + nsec = usec * 1000.
Proof.
  intros H. unfold sleepUsec. destruct (timestamp_split usec H) as [-> ->].
  pose proof (Z.mod_pos_bound usec 1000000 ltac:(lia)).
  pose proof (Z.div_mod usec 1000000 ltac:(lia)). pose proof (Z.div_pos usec 1000000 ltac:(lia)). lia.
Qed.

(** getAndAdd returns the value before the addition, unless the addition wraps. *)
Lemma getAndAdd_old w v x : 0 < w -> - 2 ^ (w - 1) <= v + x < 2 ^ (w - 1) ->
  - 2 ^ (w - 1) <= v < 2 ^ (w - 1) -> getAndAdd w x v = Ok (v, v + x).
Proof.
  intros Hw Hs Hv. unfold getAndAdd, addAndGet. rewrite wrapS_small by done.
  replace (v + x - x) with v by lia. by rewrite ckS_ok.
Qed.
