(* ===== verification/ThreadLife.v ===== *)
(** The storage of a thread: base/Thread.cc, with the new thread and the owner of
    the Thread object interleaved.

    Threads.v describes what a Thread object and runInThread do one after the
    other.  Here the owner's calls (start, join, tid and the destructor) and the
    steps of startThread in the new thread happen in any order that pthreads
    allows, over what they share: the number behind the shared_ptr m_sharedtid,
    which the ThreadData refers to by a weak_ptr, and the ThreadData that start
    allocates.  Boost's pointers are an interface, [SharedCell]: the number lives
    as long as it has owners.  Reading or deleting what has been deleted is the
    fault [Undefined]. *)
From Stdlib Require Import ZArith Lia Ascii String.
From stdpp Require Import base tactics list strings relations.
From S2P Require Import Prelude CLib Threads.

#[local] Open Scope Z_scope.

(** ** boost::shared_ptr<pid_t> and weak_ptr<pid_t> *)

Class SharedCell (C : Type) := {
  sc_make : Z -> C;                (* shared_ptr(new pid_t(v)) *)
  sc_lock : C -> option C;         (* weak_ptr::lock; None is the empty pointer *)
  sc_release : C -> outcome C;     (* a shared_ptr is reset or destroyed *)
  sc_read : C -> outcome Z;
  sc_write : Z -> C -> outcome C
}.

Class SharedCellLaws (C : Type) `{SharedCell C} := {
  owners : C -> nat;
  value : C -> Z;
  make_spec : forall v, owners (sc_make v) = 1%nat /\ value (sc_make v) = v;
  lock_spec : forall c,
    match sc_lock c with
    | Some c' => owners c <> 0%nat /\ owners c' = S (owners c) /\ value c' = value c
    | None => owners c = 0%nat
    end;
  release_spec : forall c, owners c <> 0%nat ->
    exists c', sc_release c = Ok c' /\ owners c' = pred (owners c) /\ value c' = value c;
  read_spec : forall c, owners c <> 0%nat -> sc_read c = Ok (value c);
  write_spec : forall v c, owners c <> 0%nat ->
    exists c', sc_write v c = Ok c' /\ owners c' = owners c /\ value c' = v
}.

(** A count of the owners, beside the number. *)
Record counted := mkCounted { count : nat; number : Z }.

#[export] Instance counted_cell : SharedCell counted := {
  sc_make v := mkCounted 1 v;
  sc_lock c := match count c with O => None | S k => Some (mkCounted (S (S k)) (number c)) end;
  sc_release c := match count c with O => Fault Undefined | S k => Ok (mkCounted k (number c)) end;
  sc_read c := match count c with O => Fault Undefined | S _ => Ok (number c) end;
  sc_write v c := match count c with O => Fault Undefined | S _ => Ok (mkCounted (count c) v) end
}.

#[export, refine] Instance counted_cell_laws : SharedCellLaws counted := {
  owners := count;
  value := number
}.
Proof.
  - done.
  - intros [[|k] v]; cbn; done.
  - intros [[|k] v] Hc; cbn in *; [done|]. by eexists.
  - intros [[|k] v] Hc; cbn in *; done.
  - intros x [[|k] v] Hc; cbn in *; [done|]. by eexists.
Defined.

(** ** The two threads *)

(** ThreadData; its m_wktid refers to the cell of the state below. *)
Record ThreadData := mkThreadData { td_name : bytes }.

Inductive allocation := NotAllocated | Allocated (d : ThreadData) | Deleted.

Definition get_data (a : allocation) : outcome ThreadData :=
  match a with Allocated d => Ok d | _ => Fault Undefined end.
Definition delete_data (a : allocation) : outcome allocation := _ ← get_data a; Ok Deleted.

(** Where the new thread is in startThread and runInThread. *)
Inductive child_pc :=
| NotCreated
| CName            (* t_threadname = m_name.c_str() *)
| CTid             (* tid = tid() *)
| CLock (tid : Z)  (* ptid = m_wktid.lock() *)
| CStore (tid : Z) (* *ptid = tid *)
| CReset           (* ptid.reset() *)
| CRename          (* t_threadname = m_name.empty() ? ... *)
| CFunc            (* m_func() *)
| CFinish          (* t_threadname = "finished" *)
| CDelete          (* delete td *)
| CEnded.

#[export] Instance child_pc_eq_dec : EqDecision child_pc.
Proof. solve_decision. Defined.

(** Where the owner of the object is: in no call, in start before and after
    pthread_create, in join. *)
Inductive caller_pc := Idle | Creating | Created (ok : bool) | Joining.

Section Life.
Context {C : Type} `{SharedCell C}.
(** gettid() in the new thread, and what its function does to its variables. *)
Variable gettid : Z.
Variable m_func : tls -> tls.

(** [cell] is what the m_sharedtid of the object points to; [calls] and [asked]
    record the owner's calls and, in the end, the requests made of pthreads. *)
Record state := mkState {
  object : option Thread;
  caller : caller_pc;
  cell : C;
  data : allocation;
  child : child_pc;
  vars : tls;
  calls : list thread_op;
  asked : list request
}.

Definition life_start (t : Thread) : state :=
  mkState (Some t) Idle (sc_make 0) NotAllocated NotCreated tls_init [] [].

Definition set_name (name : bytes) (t : tls) : tls :=
  mkTls (t_cachedtid t) name (t_tidString t) (t_tidStringLength t).

(** One step of the new thread; None when there is none to make. *)
Definition child_step (st : state) : option (outcome state) :=
  let '(mkState o cl c d ch t ops rs) := st in
  match ch with
  | NotCreated | CEnded => None
  | CName => Some (td ← get_data d; Ok (mkState o cl c d CTid (set_name (td_name td) t) ops rs))
  | CTid => Some (let '(id, t) := tid gettid t in Ok (mkState o cl c d (CLock id) t ops rs))
  | CLock id =>
      Some (_ ← get_data d;
            Ok (match sc_lock c with
                | Some c => mkState o cl c d (CStore id) t ops rs
                | None => mkState o cl c d CRename t ops rs
                end))
  | CStore id => Some (c ← sc_write id c; Ok (mkState o cl c d CReset t ops rs))
  | CReset => Some (c ← sc_release c; Ok (mkState o cl c d CRename t ops rs))
  | CRename =>
      Some (td ← get_data d;
            let name := if bool_decide (td_name td = []) then lit "MyNetThread" else td_name td in
            Ok (mkState o cl c d CFunc (set_name name t) ops rs))
  | CFunc => Some (_ ← get_data d; Ok (mkState o cl c d CFinish (m_func t) ops rs))
  | CFinish => Some (Ok (mkState o cl c d CDelete (set_name (lit "finished") t) ops rs))
  | CDelete => Some (d ← delete_data d; Ok (mkState o cl c d CEnded t ops rs))
  end.

Inductive step : state -> outcome state -> Prop :=
| step_child st o : child_step st = Some o -> step st o
| step_start t c d ch v ops rs :
    step (mkState (Some t) Idle c d ch v ops rs)
      (_ ← assert_ (negb (m_started t));
       Ok (mkState (Some t) Creating c (Allocated (mkThreadData (m_name t))) ch v ops rs))
| step_create ok t c d ch v ops rs :
    step (mkState (Some t) Creating c d ch v ops rs)
      (Ok (mkState (Some t) (Created ok) c d (if ok then CName else ch) v ops rs))
| step_created t c d ch v ops rs :
    step (mkState (Some t) (Created true) c d ch v ops rs)
      (Ok (mkState (Some (mkThread (m_sharedtid t) (m_name t) true (m_joined t) (requests t ++ [Create])))
             Idle c d ch v (ops ++ [OStart true]) rs))
| step_create_failed t c d ch v ops rs :
    step (mkState (Some t) (Created false) c d ch v ops rs)
      (d ← delete_data d; Ok (mkState (Some t) Idle c d ch v (ops ++ [OStart false]) rs))
| step_join t c d ch v ops rs :
    step (mkState (Some t) Idle c d ch v ops rs)
      (t ← join t; Ok (mkState (Some t) Joining c d ch v (ops ++ [OJoin]) rs))
| step_joined t c d v ops rs :
    step (mkState (Some t) Joining c d CEnded v ops rs)
      (Ok (mkState (Some t) Idle c d CEnded v ops rs))
| step_tid t c d ch v ops rs :
    step (mkState (Some t) Idle c d ch v ops rs)
      (_ ← sc_read c; Ok (mkState (Some t) Idle c d ch v ops rs))
| step_delete t c d ch v ops rs :
    step (mkState (Some t) Idle c d ch v ops rs)
      (c ← sc_release c; Ok (mkState None Idle c d ch v ops (Thread_delete t))).

(** The states that are reached from a new object. *)
Definition life_reachable (t : Thread) (st : state) : Prop :=
  rtc (fun st st' => step st (Ok st')) (life_start t) st.
End Life.

(** ** Invariant *)

Section Invariant.
Context {C : Type} `{SharedCellLaws C}.
Variable gettid : Z.
Variable m_func : tls -> tls.
Variable t0 : Thread.
Hypothesis gettid_ok : 0 < gettid < 2 ^ 31.
(** What m_func does leaves the cached thread number alone. *)
Hypothesis m_func_ok : forall t, tls_ok gettid t -> tls_ok gettid (m_func t).
Hypothesis t0_new : m_started t0 = false /\ m_joined t0 = false.

#[local] Abbreviation state := (@state C).
#[local] Abbreviation step := (@step C _ gettid m_func).

Definition holds (ch : child_pc) : nat := match ch with CStore _ | CReset => 1 | _ => 0 end.
Definition allocated (d : allocation) : bool := match d with Allocated _ => true | _ => false end.

(** Who is responsible for the ThreadData: the new thread, or start. *)
Definition owns_data (cl : caller_pc) (ch : child_pc) : bool :=
  match ch with
  | NotCreated => match cl with Creating | Created _ => true | _ => false end
  | CEnded => false
  | _ => true
  end.

Definition caller_ok (cl : caller_pc) (t : Thread) (ch : child_pc) : Prop :=
  match cl with
  | Idle => m_started t = bool_decide (ch <> NotCreated) /\ (m_joined t = true -> ch = CEnded)
  | Creating | Created false => m_started t = false /\ m_joined t = false /\ ch = NotCreated
  | Created true => m_started t = false /\ m_joined t = false /\ ch <> NotCreated
  | Joining => m_started t = true /\ m_joined t = true /\ ch <> NotCreated
  end.

Definition number_ok (ch : child_pc) (present : bool) (v : Z) : Prop :=
  (v = 0 \/ v = gettid) /\
  match ch with
  | CLock id | CStore id => id = gettid
  | CReset => v = gettid
  | CRename | CFunc | CFinish | CDelete | CEnded => present = true -> v = gettid
  | _ => True
  end.

Record Inv (st : state) : Prop := {
  i_owners : owners (cell st) = ((if object st then 1 else 0) + holds (child st))%nat;
  i_data : allocated (data st) = owns_data (caller st) (child st);
  i_calls : exists t, use_thread (calls st) t0 = Ok t /\
    match object st with
    | Some t' => t' = t /\ caller_ok (caller st) t' (child st)
    | None => caller st = Idle /\ asked st = Thread_delete t
    end;
  i_number : number_ok (child st) (if object st then true else false) (value (cell st));
  i_vars : tls_ok gettid (vars st);
  i_name : child st = CDelete \/ child st = CEnded -> threadName (vars st) = lit "finished"
}.

Lemma life_start_inv : Inv (life_start t0).
Proof.
  destruct (make_spec 0) as [Ho Hv]. destruct t0_new as [Hs Hj].
  split; cbn; try done.
  - exists t0. split; [done|]. split; [done|]. rewrite Hs, Hj. split; [reflexivity|done].
  - rewrite Hv. split; [by left|done].
  - split; [done|by left].
  - by intros [?|?].
Qed.

Lemma get_data_allocated d : allocated d = true -> exists td, d = Allocated td.
Proof. destruct d; [done| |done]. by eexists. Qed.

Lemma set_name_ok name t : tls_ok gettid t -> tls_ok gettid (set_name name t).
Proof. by intros [? ?]. Qed.

(** The part of the invariant about the owner's calls, when the new thread makes
    a step. *)
Lemma caller_moves cl t ch ch' : caller_ok cl t ch -> ch <> NotCreated -> ch <> CEnded ->
  ch' <> NotCreated -> caller_ok cl t ch'.
Proof.
  unfold caller_ok. destruct cl as [| |[|]|]; [intros [Hs Hj]|by intros (? & ? & ->)
    |intros (? & ? & ?)|by intros (? & ? & ->)|intros (? & ? & ?)]; try done.
  intros Hn He Hn'. split; [by rewrite Hs, !bool_decide_true|]. intros Ht. by apply Hj in Ht.
Qed.
Lemma calls_move st ch : Inv st -> child st <> NotCreated -> child st <> CEnded -> ch <> NotCreated ->
  exists t, use_thread (calls st) t0 = Ok t /\
    match object st with
    | Some t' => t' = t /\ caller_ok (caller st) t' ch
    | None => caller st = Idle /\ asked st = Thread_delete t
    end.
Proof.
  intros HI Hn He Hn'. destruct (i_calls _ HI) as (t & Ht & Hc). exists t. split; [done|].
  destruct (object st); [|done]. destruct Hc as [-> Hc]. split; [done|].
  by eapply caller_moves.
Qed.

(** The parts of the invariant of the next state that are as before. *)
Ltac solve_inv :=
  split; cbn;
  first [ match goal with Hmove : forall ch', _ |- _ => by apply Hmove end
        | by apply set_name_ok | by intros [?|?] | done | idtac ].

Lemma child_step_inv st : Inv st -> forall o, child_step gettid m_func st = Some o ->
  exists st', o = Ok st' /\ Inv st'.
Proof.
  intros HI o Hst. pose proof (calls_move st) as Hmove.
  destruct st as [ob cl c d ch t ops rs]. destruct HI as [Ho Hd Hc [Hv Hn] Ht Hname] eqn:HE.
  specialize (fun ch' => Hmove ch' HI). clear HE.
  cbn [object caller cell data child vars calls asked] in *.
  destruct ch as [| | |id|id| | | | | |]; cbn [child_step] in Hst; [done|..|done]; injection Hst as <-;
    cbn [owns_data] in Hd; try (destruct (get_data_allocated d Hd) as [td ->]); cbn [get_data];
    unfold_monad.
  - eexists. split; [done|]. solve_inv.
  - destruct (tid_cached gettid t gettid_ok Ht) as (t' & Htid & Ht' & _).
    unfold tid in Htid. injection Htid as Hid <-. rewrite Hid.
    eexists. split; [done|]. solve_inv.
  - pose proof (lock_spec c) as Hl. destruct (sc_lock c) as [c'|].
    + destruct Hl as (_ & Ho' & Hv'). eexists. split; [done|]. solve_inv; [|by rewrite Hv'].
      rewrite Ho', Ho. cbn. lia.
    + eexists. split; [done|]. destruct ob; [rewrite Ho in Hl; cbn in Hl; lia|]. solve_inv.
  - destruct (write_spec id c ltac:(rewrite Ho; cbn; lia)) as (c' & -> & Ho' & Hv').
    eexists. split; [done|]. solve_inv; [by rewrite Ho', Ho|]. rewrite Hv', Hn. split; [by right|done].
  - destruct (release_spec c ltac:(rewrite Ho; cbn; lia)) as (c' & -> & Ho' & Hv').
    eexists. split; [done|]. solve_inv; [rewrite Ho', Ho; cbn; lia|by rewrite Hv'].
  - eexists. split; [done|]. solve_inv.
  - eexists. split; [done|]. solve_inv.
  - eexists. split; [done|]. solve_inv.
  - eexists. split; [done|]. solve_inv. by intros _; apply Hname; left.
Qed.

Lemma use_thread_snoc ops o t t1 : use_thread ops t = Ok t1 ->
  use_thread (ops ++ [o]) t = use_thread [o] t1.
Proof.
  revert t. induction ops as [|[ok|] ops IH]; intros t Ht; cbn [use_thread app] in *.
  - by injection Ht as ->.
  - destruct (start ok t); [|done]. by apply IH.
  - destruct (join t); [|done]. by apply IH.
Qed.

(** A step of the owner keeps the invariant, or fails an assert. *)
Lemma life_step_inv st o : Inv st -> step st o ->
  (exists st', o = Ok st' /\ Inv st') \/ o = Fault AssertFail.
Proof.
  intros HI Hst. destruct Hst as [st o Hst|t c d ch v ops rs|ok t c d ch v ops rs|t c d ch v ops rs
    |t c d ch v ops rs|t c d ch v ops rs|t c d v ops rs|t c d ch v ops rs|t c d ch v ops rs].
  1: left; by eapply child_step_inv.
  all: destruct HI as [Ho Hd (t1 & Hu & <- & Hc) Hn Ht Hname];
    cbn [object caller cell data child vars calls asked] in *.
  - destruct Hc as [Hs Hj]. destruct (m_started t) eqn:Est; [by right|]. left. eexists. split; [done|].
    symmetry in Hs. apply bool_decide_eq_false in Hs. apply dec_stable in Hs as ->.
    split; cbn; try done. exists t. split; [done|]. split; [done|]. split; [done|].
    split; [|done]. destruct (m_joined t); [by specialize (Hj eq_refl)|done].
  - destruct Hc as (Hs & Hj & ->). left. eexists. split; [done|]. destruct Hn as [Hn _].
    destruct ok; split; cbn; try done; [by exists t|by intros [?|?]|by exists t].
  - destruct Hc as (Hs & Hj & Hch). left. eexists. split; [done|].
    split; cbn; try done; [by destruct ch|].
    exists (mkThread (m_sharedtid t) (m_name t) true (m_joined t) (requests t ++ [Create])).
    rewrite (use_thread_snoc _ _ _ _ Hu). cbn [use_thread]. unfold start. rewrite Hs. split; [done|].
    split; [done|]. cbn. split; [by rewrite bool_decide_true|]. by rewrite Hj.
  - destruct Hc as (Hs & Hj & ->). cbn in Hd. destruct (get_data_allocated d Hd) as [td ->].
    left. eexists. split; [done|]. split; cbn; try done.
    exists t. rewrite (use_thread_snoc _ _ _ _ Hu). cbn [use_thread]. unfold start. rewrite Hs.
    split; [done|]. split; [done|]. split; [reflexivity|by rewrite Hj].
  - destruct Hc as [Hs Hj]. unfold join. destruct (m_started t) eqn:Est; [|by right].
    destruct (m_joined t) eqn:Ejn; [by right|]. left. eexists. split; [done|].
    symmetry in Hs. apply bool_decide_eq_true in Hs. split; cbn; try done.
    eexists. rewrite (use_thread_snoc _ _ _ _ Hu). cbn [use_thread]. unfold join.
    rewrite Est, Ejn. split; [done|]. by split.
  - destruct Hc as (Hs & Hj & _). left. eexists. split; [done|]. split; cbn; try done.
    exists t. split; [done|]. split; [done|]. by rewrite Hs.
  - rewrite read_spec by (rewrite Ho; cbn; lia). left. eexists. split; [done|]. split; cbn; try done.
    by exists t.
  - destruct (release_spec c ltac:(rewrite Ho; cbn; lia)) as (c' & -> & Ho' & Hv').
    left. eexists. split; [done|]. split; cbn; try done; [rewrite Ho', Ho; cbn; lia|by exists t|].
    destruct Hn as [Hn1 Hn2]. rewrite Hv'. split; [done|]. by destruct ch; try (intros ?).
Qed.

Lemma life_inv st : life_reachable gettid m_func t0 st -> Inv st.
Proof.
  intros Hr. refine (rtc_ind_r (fun st => Inv st) (life_start t0) life_start_inv _ st Hr).
  intros s s' _ Hs HI. destruct (life_step_inv s _ HI Hs) as [(s1 & E & H1)|]; [injection E as ->|]; done.
Qed.

(** The steps that the new thread has left. *)
Definition steps_left (ch : child_pc) : nat :=
  match ch with
  | NotCreated | CEnded => 0
  | CName => 9 | CTid => 8 | CLock _ => 7 | CStore _ => 6 | CReset => 5
  | CRename => 4 | CFunc => 3 | CFinish => 2 | CDelete => 1
  end.

Lemma child_step_left st st' : child_step gettid m_func st = Some (Ok st') ->
  (steps_left (child st') < steps_left (child st))%nat.
Proof.
  destruct st as [ob cl c d ch t ops rs]. intros Hst. destruct ch; cbn [child_step] in Hst; try done;
    injection Hst as Hst; revert Hst; unfold_monad; repeat case_match; try done; intros [= <-]; cbn; lia.
Qed.

(** What the object shows of the number, by its calls so far. *)
Definition shown_ok (st : state) (t : Thread) : Prop :=
  exists v, sc_read (cell st) = Ok v /\ (v = 0 \/ v = gettid) /\
    (child st = CEnded -> v = gettid) /\
    (caller st = Idle -> m_joined t = true -> child st = CEnded).

(** Nothing is left behind. *)
Definition released (st : state) : Prop :=
  sc_lock (cell st) = None /\ allocated (data st) = false /\
  exists t, use_thread (calls st) t0 = Ok t /\ asked st = Thread_delete t.
End Invariant.

(** C12. A thread and its object share storage safely: in every interleaving of
    startThread in the new thread with the calls of the owner, whether or not
    pthread_create succeeds and whether or not the object is destroyed while the
    thread runs, the only fault is an assert of start or join; the steps of the
    thread neither fail nor go on for ever; as long as the object exists it is
    in the state that the sequence of its calls leads to without interleaving,
    and tid() reads zero or the number of the thread, and the latter once the
    thread has ended, as it has when join has returned; and when the object is
    destroyed and the thread has ended or was never created, the number and the
    ThreadData have been deleted and pthreads has been asked to join or detach
    the thread if it was created. *)
Theorem thread_life_safe {C} `{SharedCellLaws C} gettid m_func name n t0 num (st : @state C) :
  0 < gettid < 2 ^ 31 -> (forall t, tls_ok gettid t -> tls_ok gettid (m_func t)) ->
  Thread_new name n = Ok (t0, num) -> life_reachable gettid m_func t0 st ->
  (forall o, step gettid m_func st o -> o = Fault AssertFail \/ exists st', o = Ok st') /\
  (forall o, child_step gettid m_func st = Some o ->
     exists st', o = Ok st' /\ (steps_left (child st') < steps_left (child st))%nat) /\
  (forall t, object st = Some t -> use_thread (calls st) t0 = Ok t /\ shown_ok gettid st t) /\
  (object st = None -> child st = NotCreated \/ child st = CEnded -> released t0 st).
Proof.
  intros Hg Hf Hnew Hr.
  assert (Hn : m_started t0 = false /\ m_joined t0 = false).
  { unfold Thread_new in Hnew. destruct (setDefaultName name n) as [[nm k]|]; [|done].
    by injection Hnew as <- _. }
  pose proof (life_inv gettid m_func t0 Hg Hf Hn st Hr) as HI. split_and!.
  - intros o Hst. destruct (life_step_inv gettid m_func t0 Hg Hf st o HI Hst) as [(st' & -> & _)| ->];
      [right; by eexists|by left].
  - intros o Ho. destruct (child_step_inv gettid m_func t0 Hg Hf st HI o Ho) as (st' & -> & _).
    eexists. split; [done|]. by eapply child_step_left.
  - intros t Ht. destruct HI as [Ho _ (t1 & Hu & Hc) [Hv Hnum] _ _]. rewrite Ht in *.
    destruct Hc as [-> Hc]. split; [done|]. exists (value (cell st)). split; [apply read_spec; rewrite Ho; lia|].
    split; [done|]. split; [intros He; rewrite He in Hnum; by apply Hnum|].
    intros Hi. rewrite Hi in Hc. apply Hc.
  - intros Hob Hch. destruct HI as [Ho Hd (t1 & Hu & Hc) _ _ _]. rewrite Hob in *. destruct Hc as [Hcl Ha].
    split; [|split; [|by exists t1]].
    + pose proof (lock_spec (cell st)) as Hl. destruct (sc_lock (cell st)); [|done].
      destruct Hl as (Hl & _). rewrite Ho in Hl. destruct Hch as [E|E]; by rewrite E in Hl.
    + rewrite Hd, Hcl. destruct Hch as [E|E]; by rewrite E.
Qed.

(** A thread whose object is destroyed before the thread has stored its number. *)
Definition detached_thread : Thread := mkThread 0 (lit "Thread1") false false [].
Definition detached_end : @state counted :=
  mkState None Idle (mkCounted 0 0) Deleted CEnded
    (set_name (lit "finished") (snd (tid 4711 tls_init))) [OStart true] [Create; Detach].

Lemma life_step {C} `{SharedCell C} gettid f (st st' st2 : @state C) o :
  step gettid f st o -> o = Ok st' ->
  rtc (fun st st' => step gettid f st (Ok st')) st' st2 ->
  rtc (fun st st' => step gettid f st (Ok st')) st st2.
Proof. intros Hs -> Hr. by eapply rtc_l. Qed.

Tactic Notation "go" uconstr(rule) :=
  eapply life_step; [first [solve [apply rule] | apply rule; reflexivity]|reflexivity|cbn].

Lemma detached_reachable : life_reachable 4711 (fun t => t) detached_thread detached_end.
Proof.
  unfold life_reachable, life_start.
  go step_start. go (step_create _ _ true). go step_child. go step_created. go step_delete.
  go step_child. go step_child. go step_child. go step_child. go step_child. go step_child.
  apply rtc_refl.
Qed.

Lemma thread_life_safe_witness :
  released detached_thread detached_end /\ asked detached_end = [Create; Detach].
Proof.
  split; [|reflexivity].
  apply (thread_life_safe 4711 (fun t => t) [] 0 detached_thread 1 detached_end).
  - lia.
  - intros t Ht. exact Ht.
  - reflexivity.
  - exact detached_reachable.
  - reflexivity.
  - right. reflexivity.
Defined.
