(* ===== verification/Logging.v ===== *)
(** The logger: base/Logging.h and base/Logging.cc.

    A logging statement constructs a Logger, streams values into it and
    destroys it at once, which formats one line into the Logger's LogStream
    and passes it to g_output.  The state of the file outside the world that
    the output functions act on is in two records: the global variables
    ([globals]) and the variables of the thread ([log_tls]). *)
From Stdlib Require Import ZArith Lia Ascii String.
From stdpp Require Import base list strings.
From S2P Require Import Prelude.
From S2P Require Import CLib.
From S2P Require Import Date.
From S2P Require Import LogStream.
From S2P Require Import Timestamp.
From S2P Require Import TimeZone.
From S2P Require Import Threads.

#[local] Open Scope Z_scope.

(** ** Levels and source files *)

Inductive LogLevel := TRACE | DEBUG | INFO | WARN | ERROR | FATAL.
#[export] Instance LogLevel_eq_dec : EqDecision LogLevel.
Proof. solve_decision. Defined.

Definition level_value (l : LogLevel) : Z :=
  match l with TRACE => 0 | DEBUG => 1 | INFO => 2 | WARN => 3 | ERROR => 4 | FATAL => 5 end.

Definition LogLevelName : list bytes :=
  [lit "TRACE "; lit "DEBUG "; lit "INFO  "; lit "WARN  "; lit "ERROR "; lit "FATAL "].

(** The memory from m_data on, and m_size. *)
Record SourceFile := mkSourceFile { m_data : bytes; m_size : Z }.

(** SourceFile(const char (&arr)[N]), [arr] without its terminating NUL. *)
Definition SourceFile_of_array (arr : bytes) : outcome SourceFile :=
  let mem := arr ++ [NUL] in
  s ← c_string mem;
  Ok (match strrchr s "/" with
      | Some slash =>
          mkSourceFile (drop (slash + 1) mem) (wrapS 32 (zlen arr - (Z.of_nat slash + 1)))
      | None => mkSourceFile mem (wrapS 32 (zlen arr))
      end).

(** SourceFile(const char* filename) *)
Definition SourceFile_of_cstr (filename : bytes) : outcome SourceFile :=
  s ← c_string filename;
  let data := match strchr s "/" with Some slash => drop (slash + 1) filename | None => filename end in
  n ← strlen data;
  Ok (mkSourceFile data (wrapS 32 n)).

(** operator<<(LogStream&, const SourceFile&): m_size becomes a size_t. *)
Definition put_SourceFile (v : SourceFile) (s : LogStream) : outcome LogStream :=
  ls_put (m_data v) (wrapU 64 (m_size v)) s.

(** operator<<(LogStream&, T) with the assert of T's constructor. *)
Definition put_T (str : bytes) (len : Z) (s : LogStream) : outcome LogStream :=
  n ← strlen str;
  _ ← assert_ (n =? len);
  ls_put str len s.

(** ** State *)

(** t_time has 32 bytes. *)
Record log_tls := mkLogTls { t_op : tls; t_time : bytes; t_lastSecond : Z }.
Definition log_tls_init : log_tls := mkLogTls tls_init (replicate 32 NUL) 0.

Section Logger.
(** What the output functions act on. *)
Context {W : Type}.

Record globals := mkGlobals {
  g_logLevel : LogLevel;
  g_output : bytes -> W -> W;
  g_flush : W -> W;
  g_logTimeZone : TimeZone
}.

Definition logLevel (g : globals) : LogLevel := g_logLevel g.
Definition setLogLevel (level : LogLevel) (g : globals) : globals :=
  mkGlobals level (g_output g) (g_flush g) (g_logTimeZone g).
Definition setOutput (out : bytes -> W -> W) (g : globals) : globals :=
  mkGlobals (g_logLevel g) out (g_flush g) (g_logTimeZone g).
Definition setFlush (flush : W -> W) (g : globals) : globals :=
  mkGlobals (g_logLevel g) (g_output g) flush (g_logTimeZone g).
Definition setTimeZone (tz : TimeZone) (g : globals) : globals :=
  mkGlobals (g_logLevel g) (g_output g) (g_flush g) tz.

(** initLogLevel, given which of the two variables getenv finds. *)
Definition initLogLevel (trace debug : bool) : LogLevel :=
  if trace then TRACE else if debug then DEBUG else INFO.

Record Impl := mkImpl {
  m_time : Timestamp;
  m_stream : LogStream;
  m_level : LogLevel;
  m_line : Z;
  m_basename : SourceFile
}.

Section Environment.
(** The thread's kernel number, the C string that strerror_r returns, the
    contents of fresh stack memory: of a LogStream's buffer, of a struct tm. *)
Variable gettid : Z.
Variable strerror : Z -> bytes.
Variable junk : bytes.
Variable junk_tm : tm.

(** snprintf(t_time, ..., "%4d%02d%02d %02d:%02d:%02d", ...) *)
Definition time_text (t : tm) : bytes :=
  fmt_wd 4 (tm_year t + 1900) ++ fmt_0wd 2 (tm_mon t + 1) ++ fmt_0wd 2 (tm_mday t) ++ lit " " ++
  fmt_0wd 2 (tm_hour t) ++ lit ":" ++ fmt_0wd 2 (tm_min t) ++ lit ":" ++ fmt_0wd 2 (tm_sec t).

Definition formatTime (g : globals) (time : Timestamp) (s : LogStream) (t : log_tls)
  : outcome (LogStream * log_tls) :=
  let microSecondsSinceEpoch := microSecsSinceEpoch time in
  let seconds := Z.quot microSecondsSinceEpoch kMicroSecsPerSecond in
  let microseconds := wrapS 32 (Z.rem microSecondsSinceEpoch kMicroSecsPerSecond) in
  t ← (if negb (seconds =? t_lastSecond t) then
         let tm_time := if TimeZone.valid (g_logTimeZone g)
                        then toLocalTime junk_tm (g_logTimeZone g) seconds
                        else gmtime_r seconds in
         let text := time_text tm_time in
         _ ← assert_ (zlen text =? 17);
         Ok (mkLogTls (t_op t) (splice 0 (snprintf_stored 32 text) (t_time t)) seconds)
       else Ok t);
  if TimeZone.valid (g_logTimeZone g) then
    us ← Fmt_new (lit "." ++ fmt_0wd 6 microseconds ++ lit " ");
    _ ← assert_ (m_len us =? 8);
    s ← put_T (t_time t) 17 s;
    s ← put_T (m_buf us) 8 s;
    Ok (s, t)
  else
    us ← Fmt_new (lit "." ++ fmt_0wd 6 microseconds ++ lit "Z ");
    _ ← assert_ (m_len us =? 9);
    s ← put_T (t_time t) 17 s;
    s ← put_T (m_buf us) 9 s;
    Ok (s, t).

Definition Impl_new (g : globals) (tv : timeval) (level : LogLevel) (savedErrno : Z)
  (file : SourceFile) (line : Z) (t : log_tls) : outcome (Impl * log_tls) :=
  time ← now tv;
  '(s, t) ← formatTime g time (LogStream_new junk) t;
  let '(_, op) := tid gettid (t_op t) in
  let t := mkLogTls op (t_time t) (t_lastSecond t) in
  s ← put_T (tidString op) (wrapU 64 (tidStringLength op)) s;
  name ← index LogLevelName (level_value level);
  s ← put_T (name ++ [NUL]) 6 s;
  s ← (if negb (savedErrno =? 0) then
         s ← put_cstr (strerror savedErrno ++ [NUL]) s;
         s ← put_cstr (lit "(errno=" ++ [NUL]) s;
         s ← put_int savedErrno s;
         put_cstr (lit ")" ++ [NUL]) s
       else Ok s);
  Ok (mkImpl time s level line file, t).

Definition finish (i : Impl) : outcome Impl :=
  s ← put_cstr (lit "-" ++ [NUL]) (m_stream i);
  s ← put_SourceFile (m_basename i) s;
  s ← put_cstr (lit ":" ++ [NUL]) s;
  s ← put_int (m_line i) s;
  s ← put_cstr ("010"%char :: [NUL]) s;
  Ok (mkImpl (m_time i) s (m_level i) (m_line i) (m_basename i)).

(** The three constructors that are defined. *)
Definition Logger_info (g : globals) (tv : timeval) (file : SourceFile) (line : Z) :=
  Impl_new g tv INFO 0 file line.
Definition Logger_level (g : globals) (tv : timeval) (file : SourceFile) (line : Z)
  (level : LogLevel) := Impl_new g tv level 0 file line.
Definition Logger_sys (g : globals) (tv : timeval) (errno : Z) (file : SourceFile) (line : Z)
  (toAbort : bool) := Impl_new g tv (if toAbort then FATAL else ERROR) errno file line.

(** ~Logger: the world afterwards, and whether abort() has been called. *)
Definition Logger_delete (g : globals) (i : Impl) (w : W) : outcome (W * bool) :=
  i ← finish i;
  msg ← asString (ls_buff (m_stream i));
  let w := g_output g msg w in
  if decide (m_level i = FATAL) then Ok (g_flush g w, true) else Ok (w, false).

(** A logging statement: a constructor, the values streamed, the destructor. *)
Definition log_statement (g : globals) (ctor : log_tls -> outcome (Impl * log_tls))
  (values : list item) (t : log_tls) (w : W) : outcome (log_tls * (W * bool)) :=
  '(i, t) ← ctor t;
  s ← chain (List.map put_item values) (m_stream i);
  r ← Logger_delete g (mkImpl (m_time i) s (m_level i) (m_line i) (m_basename i)) w;
  Ok (t, r).

(** LOG_INFO << values and LOG_WARN << values, at line [line] of the file whose
    name is the literal [path]. *)
Definition LOG_INFO (g : globals) (tv : timeval) (path : bytes) (line : Z) (values : list item)
  (t : log_tls) (w : W) : outcome (log_tls * (W * bool)) :=
  if level_value (logLevel g) <=? level_value INFO then
    file ← SourceFile_of_array path;
    log_statement g (Logger_info g tv file line) values t w
  else Ok (t, (w, false)).

Definition LOG_WARN (g : globals) (tv : timeval) (path : bytes) (line : Z) (values : list item)
  (t : log_tls) (w : W) : outcome (log_tls * (W * bool)) :=
  file ← SourceFile_of_array path;
  log_statement g (Logger_level g tv file line WARN) values t w.
End Environment.
End Logger.

(** The default functions act on stdout: what it holds, and how much of it has
    been flushed. *)
Record stdout := mkStdout { out_text : bytes; out_flushed : Z }.
Definition defaultOutput (fwrite : bytes -> nat) (msg : bytes) (o : stdout) : stdout :=
  mkStdout (out_text o ++ take (fwrite msg) msg) (out_flushed o).
Definition defaultFlush (o : stdout) : stdout := mkStdout (out_text o) (zlen (out_text o)).

Definition globals_init (trace debug : bool) (fwrite : bytes -> nat) : globals :=
  mkGlobals (initLogLevel trace debug) (defaultOutput fwrite) defaultFlush TimeZone_default.

(** ** Lemmas *)

(** From stream [s], inserting the pieces [ps] leads to [s']. *)
Definition streams (s : LogStream) (ps : list piece) (s' : LogStream) : Prop :=
  ls_good s' /\ ls_text s' = ls_text s ++ inserted (zlen (ls_text s)) ps.

Lemma inserted_app used ps qs :
  inserted used (ps ++ qs) = inserted used ps ++ inserted (used + zlen (inserted used ps)) qs.
Proof.
  revert used. induction ps as [|p ps IH]; intros used; cbn [inserted app].
  - by rewrite zlen_nil, Z.add_0_r.
  - destruct (_ <=? _); [|apply IH]. rewrite IH, zlen_app, <- app_assoc. do 2 f_equal.
    f_equal. lia.
Qed.

Lemma streams_trans s ps s' qs s'' : streams s ps s' -> streams s' qs s'' -> streams s (ps ++ qs) s''.
Proof.
  intros [_ H1] [G H2]. split; [done|]. rewrite H2, H1, inserted_app, <- app_assoc, zlen_app. done.
Qed.

Lemma streams_one op p s : inserts op p -> ls_good s -> exists s', op s = Ok s' /\ streams s [p] s'.
Proof.
  intros [_ Hi] G. destruct (Hi s G) as (s' & E & G' & T). exists s'. split; [done|].
  split; [done|]. rewrite T. cbn [inserted]. destruct (_ <=? _); by rewrite ?app_nil_r.
Qed.

(** T(str, len) for a string and its length. *)
Lemma put_T_inserts d rest n : NUL ∉ d -> n = zlen d ->
  inserts (put_T (d ++ NUL :: rest) n) (text_piece d).
Proof.
  intros Hd ->. unfold put_T, strlen. rewrite c_string_app by done. unfold_monad.
  rewrite Z.eqb_refl. pose proof (zlen_nonneg d). pose proof (zlen_nonneg rest).
  pose proof (ls_put_ok (d ++ NUL :: rest) (zlen d)) as Hi.
  rewrite zlen_app, zlen_cons in Hi. specialize (Hi ltac:(lia)).
  unfold zlen in Hi at 2. by rewrite Nat2Z.id, take_app_length in Hi.
Qed.

(** *** The base name of a source file *)

Lemma strrchr_none s c : c ∉ s -> strrchr s c = None.
Proof.
  induction s as [|x s IH]; intros H; [done|]. rewrite not_elem_of_cons in H. destruct H as [H1 H2].
  cbn [strrchr]. rewrite IH by done. destruct (Ascii.eqb_spec x c) as [->|]; done.
Qed.

Lemma strrchr_last d c s : c ∉ s -> strrchr (d ++ c :: s) c = Some (length d).
Proof.
  intros H. induction d as [|x d IH]; cbn [app strrchr length].
  - rewrite strrchr_none by done. by rewrite Ascii.eqb_refl.
  - by rewrite IH.
Qed.

(** [base] is what follows the last slash of [path]. *)
Definition base_name (path base : bytes) : Prop :=
  ("/"%char ∉ base) /\ (path = base \/ exists dir, path = dir ++ "/"%char :: base).

Lemma SourceFile_inserts path base : base_name path base -> NUL ∉ path -> zlen path < 2 ^ 31 ->
  exists f, SourceFile_of_array path = Ok f /\ inserts (put_SourceFile f) (text_piece base).
Proof.
  intros [Hs Hb] Hn Hl. unfold SourceFile_of_array. rewrite c_string_app by done. unfold_monad.
  assert (Hput : forall n, n = zlen base -> zlen base < 2 ^ 31 ->
    inserts (put_SourceFile (mkSourceFile (base ++ [NUL]) (wrapS 32 n))) (text_piece base)).
  { intros n -> Hz. unfold put_SourceFile. cbn [m_data m_size]. pose proof (zlen_nonneg base).
    rewrite wrapS_small, wrapU_small by (simpl in *; lia).
    pose proof (ls_put_ok (base ++ [NUL]) (zlen base)) as Hi.
    rewrite zlen_app in Hi. change (zlen [NUL]) with 1 in Hi. specialize (Hi ltac:(lia)).
    unfold zlen in Hi at 2. by rewrite Nat2Z.id, take_app_length in Hi. }
  destruct Hb as [->|[dir ->]].
  - rewrite strrchr_none by done. eexists. split; [done|]. by apply Hput.
  - rewrite strrchr_last by done. eexists. split; [done|].
    rewrite zlen_app, zlen_cons in *. pose proof (zlen_nonneg dir).
    replace ((dir ++ "/"%char :: base) ++ [NUL]) with ((dir ++ ["/"%char]) ++ base ++ [NUL])
      by (by rewrite <- !app_assoc).
    replace (drop _ _) with (base ++ [NUL])
      by (symmetry; apply drop_app_length'; rewrite length_app; simpl; lia).
    apply Hput; [unfold zlen; lia|lia].
Qed.

(** *** The time *)

Definition log_clock_ok (sec : Z) : Prop := 0 < sec < 253402300800.

Lemma time_text_ok sec : 0 <= sec < 253402300800 ->
  zlen (time_text (gmtime_r sec)) = 17 /\ (NUL ∉ time_text (gmtime_r sec)).
Proof.
  intros Ht. destruct (gmtime_fields sec Ht) as (Hy & Hmo & Hd & Hh & Hmi & Hs & _).
  assert (Hy' : 1000 <= ymd_year (civil (sec / 86400 + 2440588)) <= 9999) by lia.
  destruct (formated_fields _ _ _ _ _ _ 0 Hy' Hmo Hd Hh Hmi Hs ltac:(lia)) as (Hl & Hn & _).
  assert (Heq : formated (ymd_year (civil (sec / 86400 + 2440588)))
      (ymd_month (civil (sec / 86400 + 2440588))) (ymd_day (civil (sec / 86400 + 2440588)))
      (tm_hour (gmtime_r sec)) (tm_min (gmtime_r sec)) (tm_sec (gmtime_r sec)) 0 =
    time_text (gmtime_r sec) ++ lit "." ++ fmt_0wd 6 0).
  { unfold formated, time_text.
    change (tm_year (gmtime_r sec)) with (ymd_year (civil (sec / 86400 + 2440588)) - 1900).
    change (tm_mon (gmtime_r sec)) with (ymd_month (civil (sec / 86400 + 2440588)) - 1).
    change (tm_mday (gmtime_r sec)) with (ymd_day (civil (sec / 86400 + 2440588))).
    rewrite !Z.sub_add. by rewrite <- !app_assoc. }
  rewrite Heq in Hl, Hn. rewrite zlen_app in Hl. change (zlen (lit "." ++ fmt_0wd 6 0)) with 7 in Hl.
  rewrite not_elem_of_app in Hn. split; [lia|tauto].
Qed.

(** The variables of a thread that has logged, or not yet. *)
Definition log_ok (gettid : Z) (t : log_tls) : Prop :=
  tls_ok gettid (t_op t) /\ length (t_time t) = 32%nat /\
  (t_lastSecond t = 0 \/
   log_clock_ok (t_lastSecond t) /\
   exists rest, t_time t = time_text (gmtime_r (t_lastSecond t)) ++ NUL :: rest).

Lemma log_tls_init_ok gettid : log_ok gettid log_tls_init.
Proof. split; [split; [done|by left]|]. split; [done|by left]. Qed.

(** The cached text of the second after formatTime has looked at it. *)
Lemma cache_second gettid sec t : log_clock_ok sec -> log_ok gettid t ->
  exists t', (if negb (sec =? t_lastSecond t) then
         _ ← assert_ (zlen (time_text (gmtime_r sec)) =? 17);
         Ok (mkLogTls (t_op t) (splice 0 (snprintf_stored 32 (time_text (gmtime_r sec))) (t_time t)) sec)
       else Ok t) = Ok t' /\ log_ok gettid t' /\ t_op t' = t_op t /\
    exists rest, t_time t' = time_text (gmtime_r sec) ++ NUL :: rest.
Proof.
  intros Hs (Hop & Hlen & Ht). unfold log_clock_ok in Hs.
  destruct (time_text_ok sec ltac:(lia)) as [Hz Hn].
  destruct (Z.eqb_spec sec (t_lastSecond t)) as [He|Hne]; cbn [negb].
  - exists t. destruct Ht as [H0|(_ & Hr)]; [lia|]. split; [done|]. rewrite He.
    split; [|done]. split; [done|]. split; [done|]. right. split; [unfold log_clock_ok; lia|done].
  - rewrite Hz. cbn [Z.eqb Pos.eqb assert_]. unfold_monad. eexists. split; [done|].
    cbn [t_op t_time t_lastSecond].
    assert (Heq : splice 0 (snprintf_stored 32 (time_text (gmtime_r sec))) (t_time t) =
      time_text (gmtime_r sec) ++ NUL :: drop 18 (t_time t)).
    { assert (Hl : length (time_text (gmtime_r sec) ++ [NUL]) = 18%nat)
        by (rewrite length_app; unfold zlen in Hz; simpl; lia).
      rewrite snprintf_fits by (rewrite Hz; lia). unfold splice. rewrite Hl.
      by rewrite <- app_assoc. }
    rewrite Heq. split; [|eauto]. split; [done|]. cbn [t_time t_lastSecond]. split.
    + rewrite length_app. cbn [length]. rewrite length_drop, Hlen. unfold zlen in Hz. lia.
    + right. split; [unfold log_clock_ok; lia|eauto].
Qed.

(** A C string in memory is followed by a NUL. *)
Lemma c_string_inv mem s : c_string mem = Ok s -> exists rest, mem = s ++ NUL :: rest.
Proof.
  revert s. induction mem as [|c mem IH]; intros s H; cbn [c_string] in H; [done|].
  destruct (Ascii.eqb_spec c NUL) as [->|_].
  - injection H as <-. by exists mem.
  - inv_ok H. subst s. destruct (IH a eq_refl) as [rest ->]. by exists rest.
Qed.

Lemma formatTime_ok {W} (g : @globals W) gettid junk_tm sec us s t :
  TimeZone.valid (g_logTimeZone g) = false -> log_clock_ok sec -> 0 <= us < 1000000 ->
  log_ok gettid t -> ls_good s ->
  exists s' t', formatTime junk_tm g (Timestamp_of (sec * 1000000 + us)) s t = Ok (s', t') /\
    streams s [text_piece (time_text (gmtime_r sec));
               text_piece (lit "." ++ fmt_0wd 6 us ++ lit "Z ")] s' /\
    log_ok gettid t' /\ t_op t' = t_op t.
Proof.
  intros Htz Hsec Hus Hok Hs. pose proof Hsec as Hsec'. unfold log_clock_ok in Hsec'.
  destruct (timestamp_split (sec * 1000000 + us) ltac:(lia)) as [Hq Hr].
  assert (Hd : (sec * 1000000 + us) / 1000000 = sec) by divlia.
  assert (Hm : (sec * 1000000 + us) mod 1000000 = us) by divlia.
  unfold formatTime, microSecsSinceEpoch, Timestamp_of. cbn [m_microSecsSinceEpoch].
  rewrite Hq, Hr, Hd, Hm, Htz. rewrite wrapS_small by (simpl; lia). cbv zeta.
  destruct (cache_second gettid sec t Hsec Hok) as (t' & E & Hok' & Hop & rest & Hrest).
  rewrite E. unfold_monad.
  destruct (fmt_0wd_field 6 us ltac:(simpl; lia) ltac:(lia)) as [Hl Hdig].
  assert (Hz : zlen (lit "." ++ fmt_0wd 6 us ++ lit "Z ") = 9)
    by (unfold zlen; rewrite !length_app, Hl; done).
  assert (Hn : NUL ∉ lit "." ++ fmt_0wd 6 us ++ lit "Z ").
  { rewrite !not_elem_of_app. split; [by apply (bool_decide_unpack _)|].
    split; [by apply (nul_free_digits us)|by apply (bool_decide_unpack _)]. }
  unfold Fmt_new. rewrite Hz. cbn [Z.ltb Z.compare Pos.compare Pos.compare_cont]. unfold_monad.
  cbn [m_len m_buf]. rewrite Z.eqb_refl.
  destruct (time_text_ok sec ltac:(lia)) as [Htz17 Htn].
  destruct (streams_one (put_T (t_time t') 17) _ s
    ltac:(rewrite Hrest; by apply put_T_inserts) Hs) as (s1 & E1 & H1).
  rewrite E1. rewrite snprintf_fits by (rewrite Hz; lia).
  destruct (streams_one _ _ s1 (put_T_inserts _ [] 9 Hn (eq_sym Hz)) (proj1 H1)) as (s2 & E2 & H2).
  rewrite E2. exists s2, t'. split; [done|]. split; [|done].
  exact (streams_trans _ _ _ _ _ H1 H2).
Qed.

(** The pieces of a line that the logger adds before and after the values. *)
Definition error_pieces (strerror : Z -> bytes) (errno : Z) : list piece :=
  if errno =? 0 then []
  else [text_piece (strerror errno); text_piece (lit "(errno="); number_piece (dec_of_Z errno);
        text_piece (lit ")")].
Definition head_pieces (strerror : Z -> bytes) (gettid sec us errno : Z) (level : LogLevel)
  : list piece :=
  [text_piece (time_text (gmtime_r sec)); text_piece (lit "." ++ fmt_0wd 6 us ++ lit "Z ");
   text_piece (tid_text gettid);
   text_piece (default [] (LogLevelName !! Z.to_nat (level_value level)))]
  ++ error_pieces strerror errno.
Definition tail_pieces (base : bytes) (line : Z) : list piece :=
  [text_piece (lit "-"); text_piece base; text_piece (lit ":"); number_piece (dec_of_Z line);
   text_piece ["010"%char]].

(** The literal and number insertions that the logger performs. *)
Lemma put_cstr_piece d s : bool_decide (NUL ∉ d) = true -> ls_good s ->
  exists s', put_cstr (d ++ [NUL]) s = Ok s' /\ streams s [text_piece d] s'.
Proof. intros Hd. apply streams_one, put_cstr_inserts. by apply nul_notin. Qed.

Lemma put_int_piece z s : - 2 ^ 31 <= z < 2 ^ 31 -> ls_good s ->
  exists s', put_int z s = Ok s' /\ streams s [number_piece (dec_of_Z z)] s'.
Proof. intros Hz. apply streams_one, formatInteger_inserts. simpl in *. lia. Qed.

Lemma streams_nil s : ls_good s -> streams s [] s.
Proof. intros G. split; [done|]. by rewrite app_nil_r. Qed.

Lemma Impl_new_ok {W} (g : @globals W) gettid strerror junk junk_tm sec us level errno file line t :
  TimeZone.valid (g_logTimeZone g) = false -> log_clock_ok sec -> 0 <= us < 1000000 ->
  log_ok gettid t -> 0 < gettid < 2 ^ 31 -> zlen junk = kSmallBuffer ->
  - 2 ^ 31 <= errno < 2 ^ 31 -> NUL ∉ strerror errno ->
  exists i t', Impl_new gettid strerror junk junk_tm g (mkTimeval sec us) level errno file line t
      = Ok (i, t') /\ log_ok gettid t' /\
    m_level i = level /\ m_line i = line /\ m_basename i = file /\
    streams (LogStream_new junk) (head_pieces strerror gettid sec us errno level) (m_stream i).
Proof.
  intros Htz Hsec Hus Hok Hg Hj Herr Hstr. pose proof Hsec as Hsec'. unfold log_clock_ok in Hsec'.
  unfold Impl_new, now, kMicroSecsPerSecond. cbn [tv_sec tv_usec].
  rewrite (ckS_ok 64 (sec * (1000 * 1000))) by (simpl in *; lia). unfold_monad.
  rewrite ckS_ok by (simpl in *; lia). change (1000 * 1000) with 1000000.
  assert (G0 : ls_good (LogStream_new junk)).
  { split; [exact Hj|]. cbn. unfold kSmallBuffer. lia. }
  destruct (formatTime_ok g gettid junk_tm sec us (LogStream_new junk) t Htz Hsec Hus Hok G0)
    as (s1 & t1 & E1 & H1 & (Hop & Hlen & Hlast) & Heq).
  rewrite E1. cbn [t_op].
  destruct (tid_cached gettid (t_op t1) Hg Hop) as (op & E2 & Hop' & _ & Hn & Hc & _).
  rewrite E2, Hn. destruct (tid_text_ok gettid Hg) as [Htid Htn].
  rewrite wrapU_small by lia.
  assert (Hi : inserts (put_T (tidString op) (zlen (tid_text gettid))) (text_piece (tid_text gettid))).
  { apply c_string_inv in Hc as [rest ->]. by apply put_T_inserts. }
  destruct (streams_one _ _ s1 Hi (proj1 H1)) as (s2 & E3 & H2). rewrite E3.
  assert (Hname : exists name, index LogLevelName (level_value level) = Ok name /\
    default [] (LogLevelName !! Z.to_nat (level_value level)) = name /\ zlen name = 6 /\
    bool_decide (NUL ∉ name) = true).
  { destruct level; eexists; (split; [reflexivity|]); repeat split. }
  destruct Hname as (name & En & Hname & Hz & Hnn). rewrite En.
  destruct (streams_one _ _ s2 (put_T_inserts name [] 6 (nul_notin _ Hnn) (eq_sym Hz)) (proj1 H2))
    as (s3 & E4 & H3). rewrite E4.
  assert (Hhead : streams (LogStream_new junk)
    [text_piece (time_text (gmtime_r sec)); text_piece (lit "." ++ fmt_0wd 6 us ++ lit "Z ");
     text_piece (tid_text gettid); text_piece name] s3)
    by exact (streams_trans _ _ _ _ _ (streams_trans _ _ _ _ _ H1 H2) H3).
  assert (Hok' : log_ok gettid (mkLogTls op (t_time t1) (t_lastSecond t1))) by (by split).
  unfold head_pieces, error_pieces. rewrite Hname.
  destruct (Z.eqb_spec errno 0) as [->|Hne]; cbn [negb].
  - do 2 eexists. split; [done|]. split; [exact Hok'|]. cbn. by rewrite ?app_nil_r.
  - destruct (streams_one _ _ s3 (put_cstr_inserts (strerror errno) [] Hstr) (proj1 H3))
      as (s4 & E5 & H4). rewrite E5.
    destruct (put_cstr_piece (lit "(errno=") s4 eq_refl (proj1 H4)) as (s5 & E6 & H5). rewrite E6.
    destruct (put_int_piece errno s5 Herr (proj1 H5)) as (s6 & E7 & H6). rewrite E7.
    destruct (put_cstr_piece (lit ")") s6 eq_refl (proj1 H6)) as (s7 & E8 & H7). rewrite E8.
    do 2 eexists. split; [done|]. split; [exact Hok'|]. do 3 (split; [done|]).
    exact (streams_trans _ _ _ _ _ Hhead (streams_trans _ _ _ _ _ (streams_trans _ _ _ _ _
      (streams_trans _ _ _ _ _ H4 H5) H6) H7)).
Qed.

Lemma finish_ok i path base line :
  ls_good (m_stream i) -> base_name path base -> NUL ∉ path -> zlen path < 2 ^ 31 ->
  SourceFile_of_array path = Ok (m_basename i) -> m_line i = line -> - 2 ^ 31 <= line < 2 ^ 31 ->
  exists i', finish i = Ok i' /\ m_level i' = m_level i /\
    streams (m_stream i) (tail_pieces base line) (m_stream i').
Proof.
  intros G Hb Hn Hl Hf <- Hline. unfold finish.
  destruct (put_cstr_piece (lit "-") _ eq_refl G) as (s1 & E1 & H1). rewrite E1. unfold_monad.
  destruct (SourceFile_inserts path base Hb Hn Hl) as (f & Ef & Hi).
  assert (f = m_basename i) as -> by congruence.
  destruct (streams_one _ _ s1 Hi (proj1 H1)) as (s2 & E2 & H2). rewrite E2.
  destruct (put_cstr_piece (lit ":") s2 eq_refl (proj1 H2)) as (s3 & E3 & H3). rewrite E3.
  destruct (put_int_piece (m_line i) s3 Hline (proj1 H3)) as (s4 & E4 & H4). rewrite E4.
  destruct (put_cstr_piece ["010"%char] s4 eq_refl (proj1 H4)) as (s5 & E5 & H5).
  cbn [app] in E5. rewrite E5. eexists. split; [done|]. split; [done|].
  exact (streams_trans _ _ _ _ _ (streams_trans _ _ _ _ _ (streams_trans _ _ _ _ _
    (streams_trans _ _ _ _ _ H1 H2) H3) H4) H5).
Qed.

(** No piece is longer than the room it asks for. *)
Definition sized (p : piece) : Prop := 0 <= zlen (repr p) <= need p.

Lemma text_sized d : sized (text_piece d).
Proof. unfold sized, text_piece. cbn. pose proof (zlen_nonneg d). lia. Qed.

Lemma int_sized z : - 2 ^ 31 <= z < 2 ^ 31 -> sized (number_piece (dec_of_Z z)).
Proof.
  intros H. unfold sized, number_piece, kMaxNumericSize. cbn [repr need].
  pose proof (zlen_dec z ltac:(simpl in *; lia)). lia.
Qed.

Lemma head_sizes strerror gettid sec us errno level : - 2 ^ 31 <= errno < 2 ^ 31 ->
  Forall sized (head_pieces strerror gettid sec us errno level).
Proof.
  intros H. unfold head_pieces, error_pieces. apply Forall_app. split.
  - repeat (apply Forall_cons; split; [apply text_sized|]). constructor.
  - destruct (errno =? 0); [constructor|].
    repeat (apply Forall_cons; split; [first [apply text_sized|by apply int_sized]|]). constructor.
Qed.

Lemma tail_sizes base line : - 2 ^ 31 <= line < 2 ^ 31 -> Forall sized (tail_pieces base line).
Proof.
  intros H. repeat (apply Forall_cons; split; [first [apply text_sized|by apply int_sized]|]).
  constructor.
Qed.

(** *** A whole statement *)

Lemma log_statement_prints {W} (g : @globals W) gettid strerror junk junk_tm sec us level errno
    path base line its t w :
  TimeZone.valid (g_logTimeZone g) = false -> log_clock_ok sec -> 0 <= us < 1000000 ->
  log_ok gettid t -> 0 < gettid < 2 ^ 31 -> zlen junk = kSmallBuffer ->
  - 2 ^ 31 <= errno < 2 ^ 31 -> NUL ∉ strerror errno ->
  base_name path base -> NUL ∉ path -> zlen path < 2 ^ 31 -> - 2 ^ 31 <= line < 2 ^ 31 ->
  Forall item_typed its ->
  let pieces := head_pieces strerror gettid sec us errno level ++ List.map item_piece its ++
                tail_pieces base line in
  exists file t' msg, SourceFile_of_array path = Ok file /\
    log_statement g (Impl_new gettid strerror junk junk_tm g (mkTimeval sec us) level errno file line)
      its t w
    = Ok (t', (if decide (level = FATAL) then (g_flush g (g_output g msg w), true)
               else (g_output g msg w, false))) /\
    msg = inserted 0 pieces /\
    (total_need pieces <= kSmallBuffer -> msg = List.concat (List.map repr pieces)) /\
    log_ok gettid t'.
Proof.
  intros Htz Hsec Hus Hok Hg Hj Herr Hstr Hbase Hpn Hpl Hline Hits pieces.
  destruct (SourceFile_inserts path base Hbase Hpn Hpl) as (file & Hfile & _).
  destruct (Impl_new_ok g gettid strerror junk junk_tm sec us level errno file line t
    Htz Hsec Hus Hok Hg Hj Herr Hstr) as (i & t' & E1 & Hok' & Hlev & Hln & Hbn & H1).
  destruct (chain_ok _ _ (m_stream i) (put_items_inserts its Hits) (proj1 H1))
    as (s2 & E2 & G2 & T2).
  set (i2 := mkImpl (m_time i) s2 (m_level i) (m_line i) (m_basename i)).
  destruct (finish_ok i2 path base line) as (i3 & E3 & Hlev3 & H3); try done.
  { by rewrite <- Hbn in Hfile. }
  pose proof (streams_trans _ _ _ _ _ H1 (streams_trans _ _ _ _ _ (conj G2 T2 : streams _ _ _) H3))
    as [G T].
  change (ls_text (LogStream_new junk)) with (@nil ascii) in T. cbn [app] in T.
  rewrite zlen_nil in T. fold pieces in T.
  exists file, t', (inserted 0 pieces). split; [done|]. split; [|split; [done|]].
  - unfold log_statement. rewrite E1. unfold_monad. rewrite E2. unfold Logger_delete. fold i2.
    rewrite E3. unfold_monad.
    assert (Hmsg : asString (ls_buff (m_stream i3)) = Ok (inserted 0 pieces))
      by by apply asString_text.
    rewrite Hmsg, Hlev3. cbn [m_level i2]. rewrite Hlev. by destruct (decide (level = FATAL)).
  - split; [|done]. intros Hn. apply inserted_all; [|lia].
    apply Forall_app. split; [by apply head_sizes|]. apply Forall_app.
    split; [by eapply inserts_sizes, put_items_inserts|by apply tail_sizes].
Qed.

(** ** Properties *)

(** C18. A logging statement writes one line.  In a thread that has logged
    before or not, at any time of the years 1970 to 9999 but the first second of
    the epoch and with no log time zone set, for every level, errno and sequence of values, no assert fails,
    g_output is called exactly once, with the UTC time to the microsecond, the
    thread's number, the level, the error if there is one, the values, and the
    base name of the source file and the line number, from which only whole
    pieces that do not fit in 4000 bytes are missing (none if they all fit);
    then FATAL, and only FATAL, flushes and aborts.  The thread can log again. *)
Theorem log_statement_line {W} (g : @globals W) gettid strerror junk junk_tm sec us level errno
    path base line its t w :
  TimeZone.valid (g_logTimeZone g) = false -> log_clock_ok sec -> 0 <= us < 1000000 ->
  log_ok gettid t -> 0 < gettid < 2 ^ 31 -> zlen junk = kSmallBuffer ->
  - 2 ^ 31 <= errno < 2 ^ 31 -> NUL ∉ strerror errno ->
  base_name path base -> NUL ∉ path -> zlen path < 2 ^ 31 -> - 2 ^ 31 <= line < 2 ^ 31 ->
  Forall item_typed its ->
  let pieces := head_pieces strerror gettid sec us errno level ++ List.map item_piece its ++
                tail_pieces base line in
  exists file t' msg, SourceFile_of_array path = Ok file /\
    log_statement g (Impl_new gettid strerror junk junk_tm g (mkTimeval sec us) level errno file line)
      its t w
    = Ok (t', (if decide (level = FATAL) then (g_flush g (g_output g msg w), true)
               else (g_output g msg w, false))) /\
    msg = inserted 0 pieces /\
    (total_need pieces <= kSmallBuffer -> msg = List.concat (List.map repr pieces)) /\
    log_ok gettid t'.
Proof. apply log_statement_prints. Qed.

(** A thread that logs for the first time. *)
Definition demo_globals : globals := globals_init false false (@List.length ascii).

Lemma log_statement_line_witness :
  let strerror (_ : Z) := lit "Too many open files" in
  let junk := replicate (Z.to_nat kSmallBuffer) "?"%char in
  let pieces := head_pieces strerror 4711 1709210096 7 24 FATAL ++
                List.map item_piece [ICstr (lit "accept"); IInt 12] ++ tail_pieces (lit "Acceptor.cc") 76 in
  exists file t' msg, SourceFile_of_array (lit "net/Acceptor.cc") = Ok file /\
    log_statement demo_globals
      (Impl_new 4711 strerror junk (mkTm 0 0 0 0 0 0) demo_globals (mkTimeval 1709210096 7) FATAL 24
         file 76) [ICstr (lit "accept"); IInt 12] log_tls_init (mkStdout [] 0)
    = Ok (t', (if decide (FATAL = FATAL)
               then (g_flush demo_globals (g_output demo_globals msg (mkStdout [] 0)), true)
               else (g_output demo_globals msg (mkStdout [] 0), false))) /\
    msg = inserted 0 pieces /\
    (total_need pieces <= kSmallBuffer -> msg = List.concat (List.map repr pieces)) /\
    log_ok 4711 t'.
Proof.
  apply (log_statement_line demo_globals 4711 (fun _ => lit "Too many open files")
    (replicate (Z.to_nat kSmallBuffer) "?"%char) (mkTm 0 0 0 0 0 0) 1709210096 7 FATAL 24
    (lit "net/Acceptor.cc") (lit "Acceptor.cc") 76).
  - reflexivity.
  - split; reflexivity.
  - lia.
  - apply log_tls_init_ok.
  - lia.
  - reflexivity.
  - lia.
  - apply (bool_decide_unpack _). vm_compute. exact I.
  - split; [apply (bool_decide_unpack _); vm_compute; exact I|].
    right. exists (lit "net"). reflexivity.
  - apply (bool_decide_unpack _). vm_compute. exact I.
  - reflexivity.
  - lia.
  - constructor; [|constructor; [cbn; lia|constructor]].
    apply (bool_decide_unpack (NUL ∉ lit "accept")). vm_compute. exact I.
Defined.

(** The text of that line. *)
Lemma log_line_example :
  List.concat (List.map repr
    (head_pieces (fun _ => lit "Too many open files") 4711 1709210096 7 24 FATAL ++
     List.map item_piece [ICstr (lit "accept"); IInt 12] ++ tail_pieces (lit "Acceptor.cc") 76)) =
  lit "20240229 12:34:56.000007Z  4711 FATAL Too many open files(errno=24)accept12-Acceptor.cc:76"
    ++ ["010"%char].
Proof. vm_compute. reflexivity. Qed.

(** The two macros: LOG_INFO is silent above its level, LOG_WARN never is. *)
Lemma LOG_INFO_filter {W} (g : @globals W) gettid strerror junk junk_tm tv path line values t w :
  level_value INFO < level_value (logLevel g) ->
  LOG_INFO gettid strerror junk junk_tm g tv path line values t w = Ok (t, (w, false)).
Proof. intros H. unfold LOG_INFO. by destruct (Z.leb_spec (level_value (logLevel g)) (level_value INFO)); [lia|]. Qed.

Lemma LOG_WARN_statement {W} (g : @globals W) gettid strerror junk junk_tm tv path line values t w file :
  SourceFile_of_array path = Ok file ->
  LOG_WARN gettid strerror junk junk_tm g tv path line values t w =
    log_statement g (Impl_new gettid strerror junk junk_tm g tv WARN 0 file line) values t w.
Proof. intros H. unfold LOG_WARN. by rewrite H. Qed.

(** ** Behaviour that callers may not expect *)

(** A file name given as a pointer loses what precedes its first slash, one given
    as an array what precedes its last. *)
Lemma source_file_slashes :
  SourceFile_of_cstr (lit "src/net/Buffer.cc" ++ [NUL]) = Ok (mkSourceFile (lit "net/Buffer.cc" ++ [NUL]) 13) /\
  SourceFile_of_array (lit "src/net/Buffer.cc") = Ok (mkSourceFile (lit "Buffer.cc" ++ [NUL]) 9).
Proof. by vm_compute. Qed.


(** Once a log time zone is set, the assert on the length of the text depends
    on what is in the memory that toLocalTime returns unset. *)
Lemma time_zone_breaks_logging gettid strerror junk :
  let g := setTimeZone (mkTimeZone (Some Data_new)) demo_globals in
  log_statement g (Impl_new gettid strerror junk (mkTm 0 0 0 0 0 100000) g (mkTimeval 1 0) INFO 0
    (mkSourceFile [NUL] 0) 1) [] log_tls_init (mkStdout [] 0) = Fault AssertFail.
Proof. reflexivity. Qed.

(** In the first second of 1970 the text of the time is not computed at all. *)
Lemma epoch_second_breaks_logging gettid strerror junk junk_tm :
  log_statement demo_globals
    (Impl_new gettid strerror junk junk_tm demo_globals (mkTimeval 0 5) INFO 0 (mkSourceFile [NUL] 0) 1)
    [] log_tls_init (mkStdout [] 0) = Fault AssertFail.
Proof. reflexivity. Qed.
