(* ===== verification/Monitor.v ===== *)
(** Mutexes and condition variables: base/Mutex.h, base/Condition.h and
    base/Condition.cc, as an interleaving semantics of threads that share the
    data of one monitor.

    A thread is a command [cmd]: the sequence of synchronisation calls of its
    C++ code with the straight-line code between them ([Act]) as functions on
    the shared data [S], which may emit events of type [E] (what the thread
    observes, e.g. the value it dequeued).  MutexLock::lock/unlock, the guards
    and Condition::wait are the derived commands [lock], [unlock] and [wait],
    spelled as in the source: m_holder is written next to the pthread call.  The
    Thread objects of [Threads] are shared too, and protected by nothing: [Use]
    applies one of their operations, and goes no further when an assert fails.

    [step] is executable: a label names the thread that runs and, for a signal,
    the waiter the implementation chooses; any waiter may also wake up
    spuriously.  [safe] is a verification condition computed from a command; a
    system whose threads are safe keeps the invariant of its data, never calls
    a pthread function in an undefined way, never fails an assert, and keeps
    m_holder equal to the owner ([reachable_ok]). *)
From Stdlib Require Import ZArith Lia.
From stdpp Require Import base list relations.
From S2P Require Import Prelude Threads.

Abbreviation tid := nat (only parsing).
Abbreviation cond := nat (only parsing).

Section Monitor.
Context {S E : Type}.

Inductive cmd :=
| Done
| Again                                          (* next iteration of the thread's loop *)
| PLock (k : cmd)                                (* pthread_mutex_lock(&m_lock) *)
| PUnlock (k : cmd)                              (* pthread_mutex_unlock(&m_lock) *)
| Assign (k : cmd)                               (* m_holder = tid() *)
| Unassign (k : cmd)                             (* m_holder = 0 *)
| CondWait (c : cond) (k : cmd)                  (* pthread_cond_wait(&m_cond, &m_lock) *)
| Signal (c : cond) (k : cmd)                    (* pthread_cond_signal(&m_cond) *)
| Broadcast (c : cond) (k : cmd)                 (* pthread_cond_broadcast(&m_cond) *)
| WhileWait (b : S -> bool) (c : cond) (k : cmd) (* while (b) c.wait(); *)
| Assert (b : S -> bool) (k : cmd)
| Act (f : S -> outcome (S * list E)) (k : S -> cmd)
                       (* an update, the rest depends on the data before it *)
| Read (k : S -> cmd)                            (* a read made without the mutex *)
| Use (i : nat) (f : Thread -> outcome Thread) (k : cmd)
                                  (* an operation on a Thread object, which no mutex protects *)
| Join (t : tid) (k : cmd)                       (* pthread_join *)
| Call (e : E) (k : cmd).                        (* calls a function given by the user *)

(** MutexLock::lock and unlock: the constructor and destructor of MutexLockGuard. *)
Definition lock (k : cmd) : cmd := PLock (Assign k).
Definition unlock (k : cmd) : cmd := Unassign (PUnlock k).

(** UnassginMutexLockGuard: its constructor and destructor around [wait]. *)
Definition UnassginMutexLockGuard (inner : cmd -> cmd) (k : cmd) : cmd :=
  Unassign (inner (Assign k)).

(** Condition::wait. *)
Definition wait (c : cond) (k : cmd) : cmd := UnassginMutexLockGuard (CondWait c) k.
Definition notify (c : cond) (k : cmd) : cmd := Signal c k.
Definition notifyAll (c : cond) (k : cmd) : cmd := Broadcast c k.

(** Condition::waitForSeconds: pthread_cond_timedwait returns when notified or
    at the deadline, which the semantics covers by spurious wake-ups. *)
Definition waitForSeconds (c : cond) (k : cmd) : cmd := UnassginMutexLockGuard (CondWait c) k.

Inductive status :=
| Running
| Waiting (c : cond)      (* blocked in pthread_cond_wait *)
| Woken.                  (* woken up, not yet holding the mutex again *)

Record thread := mkThread {
  code : cmd; body : cmd; stat : status;
  calls : list E           (* the user's functions called so far *)
}.

(** MutexLock::~MutexLock: assert(m_holder == 0). *)
Definition destroy_mutex (m_holder : option tid) : outcome unit :=
  assert_ (if m_holder is Some _ then false else true).

Record state := mkState {
  owner : option tid;      (* thread holding m_lock *)
  holder : option tid;     (* m_holder; None is 0 *)
  shared : S;
  objects : list Thread;   (* the Thread objects of the program *)
  threads : list thread;
  trace : list (tid * E)
}.

Definition history (st : state) : list E := map snd (trace st).

Inductive label :=
| Run (t : tid) (waiter : option tid)
| Spurious (t : tid).

Definition set_code (c : cmd) (th : thread) : thread := mkThread c (body th) (stat th) (calls th).
Definition set_stat (x : status) (th : thread) : thread := mkThread (code th) (body th) x (calls th).
Definition add_call (e : E) (th : thread) : thread :=
  mkThread (code th) (body th) (stat th) (calls th ++ [e]).

(** Thread [t] continues with [c]. *)
Definition goto (t : tid) (c : cmd) (st : state) : state :=
  mkState (owner st) (holder st) (shared st) (objects st) (alter (set_code c) t (threads st)) (trace st).

Definition set_owner (o : option tid) (st : state) : state :=
  mkState o (holder st) (shared st) (objects st) (threads st) (trace st).
Definition set_holder (h : option tid) (st : state) : state :=
  mkState (owner st) h (shared st) (objects st) (threads st) (trace st).
Definition set_status (t : tid) (x : status) (st : state) : state :=
  mkState (owner st) (holder st) (shared st) (objects st) (alter (set_stat x) t (threads st)) (trace st).

Definition record_call (t : tid) (e : E) (st : state) : state :=
  mkState (owner st) (holder st) (shared st) (objects st) (alter (add_call e) t (threads st)) (trace st).

Definition is_waiting (c : cond) (th : thread) : bool :=
  match stat th with Waiting c' => Nat.eqb c c' | _ => false end.
Definition wake (c : cond) (th : thread) : thread :=
  if is_waiting c th then set_stat Woken th else th.

Definition is_done (th : thread) : bool :=
  match code th, stat th with Done, Running => true | _, _ => false end.

Definition owned_by (t : tid) (st : state) : bool :=
  match owner st with Some o => Nat.eqb o t | None => false end.

(** One step of the running thread [t] at command [c].  None: the thread cannot
    run now, or what it does is not defined (unlocking a mutex it does not own,
    a false assert, a fault in [Act]). *)
Definition step_cmd (t : tid) (waiter : option tid) (c : cmd) (b : cmd) (st : state)
  : option state :=
  match c with
  | Done => None
  | Again => Some (goto t b st)
  | PLock k => if owner st is Some _ then None else Some (goto t k (set_owner (Some t) st))
  | PUnlock k => if owned_by t st then Some (goto t k (set_owner None st)) else None
  | Assign k => Some (goto t k (set_holder (Some t) st))
  | Unassign k => Some (goto t k (set_holder None st))
  | CondWait cv k =>
      if owned_by t st then Some (set_status t (Waiting cv) (set_owner None st)) else None
  | Signal cv k =>
      match waiter with
      | Some w =>
          match threads st !! w with
          | Some th => if is_waiting cv th then Some (goto t k (set_status w Woken st)) else None
          | None => None
          end
      | None => if existsb (is_waiting cv) (threads st) then None else Some (goto t k st)
      end
  | Broadcast cv k =>
      Some (goto t k (mkState (owner st) (holder st) (shared st) (objects st)
                        (map (wake cv) (threads st)) (trace st)))
  | WhileWait bt cv k =>
      Some (goto t (if bt (shared st) then wait cv (WhileWait bt cv k) else k) st)
  | Assert bt k => if bt (shared st) then Some (goto t k st) else None
  | Act f k =>
      match f (shared st) with
      | Ok (s', es) =>
          Some (goto t (k (shared st))
            (mkState (owner st) (holder st) s' (objects st) (threads st)
               (trace st ++ map (pair t) es)))
      | Fault _ => None
      end
  | Read k => Some (goto t (k (shared st)) st)
  | Use i f k =>
      match objects st !! i with
      | Some o =>
          match f o with
          | Ok o => Some (goto t k (mkState (owner st) (holder st) (shared st)
                                      (<[i := o]> (objects st)) (threads st) (trace st)))
          | Fault _ => None
          end
      | None => None
      end
  | Join u k =>
      match threads st !! u with
      | Some th => if is_done th then Some (goto t k st) else None
      | None => None
      end
  | Call e k => Some (goto t k (record_call t e st))
  end.

Definition step (l : label) (st : state) : option state :=
  match l with
  | Run t waiter =>
      th ← threads st !! t;
      match stat th with
      | Running => step_cmd t waiter (code th) (body th) st
      | Waiting _ => None
      | Woken =>
          match code th with
          | CondWait _ k =>
              if owner st is Some _ then None
              else Some (goto t k (set_status t Running (set_owner (Some t) st)))
          | _ => None
          end
      end
  | Spurious t =>
      th ← threads st !! t;
      match stat th with Waiting _ => Some (set_status t Woken st) | _ => None end
  end.

Fixpoint run (ls : list label) (st : state) : option state :=
  match ls with [] => Some st | l :: ls => st ← step l st; run ls st end.

Definition steps (st st' : state) : Prop := exists l, step l st = Some st'.
(** The state after a schedule that can be carried out. *)
Definition after (ls : list label) (st : state) : state := default st (run ls st).

Definition reachable : state -> state -> Prop := rtc steps.

(** The state in which the threads are about to start. *)
Definition initial (s : S) (objs : list Thread) (prog : list (cmd * cmd)) : state :=
  mkState None None s objs (map (fun p => mkThread (fst p) (snd p) Running []) prog) [].

(** ** Verification conditions *)

Section Safe.
(** [Inv]: what holds of the data and of the events so far when nobody owns the
    mutex.  [Wait_ok c s w]: the data are such that threads may be left waiting
    on [c] while [w] threads that waited on it have been woken up and have not
    run yet.  [may_fault]: the situations in which an update is allowed to fault
    (nowhere, except where a bound is established by other means). *)
Variable Inv : S -> list E -> Prop.
Variable Wait_ok : cond -> S -> nat -> Prop.
Variable may_fault : S -> list E -> Prop.
(** What holds of the events at any time. *)
Variable Hist : list E -> Prop.

(** What the owner of the mutex knows: the data, the events so far, whether it
    has recorded itself in m_holder, and, if some thread waits on [c], that
    [kn_may c w] holds of a number [w] of woken threads. *)
Record knowledge := mkKn {
  kn_s : S; kn_h : list E; kn_assigned : bool; kn_may : cond -> nat -> Prop
}.

Definition acquired (assigned : bool) (s : S) (h : list E) : knowledge :=
  mkKn s h assigned (fun c w => Wait_ok c s w).

(** The thread itself was one of the woken ones. *)
Definition may_awoken (cv : cond) (s : S) (c : cond) (w : nat) : Prop :=
  Wait_ok c s w \/ (c = cv /\ Wait_ok c s (Datatypes.S w)).
Definition awoken (cv : cond) (assigned : bool) (s : S) (h : list E) : knowledge :=
  mkKn s h assigned (may_awoken cv s).

Definition may (c : cond) (s : S) (w : nat) : Prop := exists w0, (w0 <= w)%nat /\ Wait_ok c s w0.

(** The data may be given up. *)
Definition released (x : knowledge) : Prop :=
  Inv (kn_s x) (kn_h x) /\ forall c w, kn_may x c w -> may c (kn_s x) w.

Definition signalled (cv : cond) (m : cond -> nat -> Prop) : cond -> nat -> Prop :=
  fun c w => if Nat.eqb c cv then exists w0, w = Datatypes.S w0 /\ m c w0 else m c w.

Fixpoint safe (o : option knowledge) (c : cmd) : Prop :=
  match c, o with
  | Done, None => True
  | Again, None => True
  | PLock k, None => forall s h, Inv s h -> safe (Some (acquired false s h)) k
  | PUnlock k, Some x => kn_assigned x = false /\ released x /\ safe None k
  | Assign k, Some x => safe (Some (mkKn (kn_s x) (kn_h x) true (kn_may x))) k
  | Unassign k, Some x => safe (Some (mkKn (kn_s x) (kn_h x) false (kn_may x))) k
  | CondWait cv k, Some x =>
      kn_assigned x = false /\ Inv (kn_s x) (kn_h x) /\
      (forall c w, c <> cv -> kn_may x c w -> may c (kn_s x) w) /\ Wait_ok cv (kn_s x) 0 /\
      forall s h, Inv s h -> safe (Some (awoken cv false s h)) k
  | Signal cv k, Some x =>
      safe (Some (mkKn (kn_s x) (kn_h x) (kn_assigned x) (signalled cv (kn_may x)))) k
  | Signal cv k, None => safe None k
  | Broadcast cv k, Some x =>
      safe (Some (mkKn (kn_s x) (kn_h x) (kn_assigned x) (fun c w => kn_may x c w /\ c <> cv))) k
  | Broadcast cv k, None => safe None k
  | WhileWait b cv k, Some x =>
      kn_assigned x = true /\ Inv (kn_s x) (kn_h x) /\
      (forall c w, kn_may x c w -> may_awoken cv (kn_s x) c w) /\
      forall s h, Inv s h ->
        if b s then Wait_ok cv s 0 else safe (Some (awoken cv true s h)) k
  | Assert b k, Some x => b (kn_s x) = true /\ safe o k
  | Act f k, Some x =>
      match f (kn_s x) with
      | Ok (s', es) => Hist (kn_h x ++ es) /\
          safe (Some (mkKn s' (kn_h x ++ es) (kn_assigned x) (kn_may x))) (k (kn_s x))
      | Fault _ => may_fault (kn_s x) (kn_h x)
      end
  | Read k, None => forall s, safe None (k s)
  | Use _ _ k, None => safe None k
  | Join t k, None => safe None k
  | Call e k, None => safe None k
  | _, _ => False
  end.

(** A thread that does not own the mutex. *)
Definition outside_ok (th : thread) : Prop :=
  match stat th with
  | Running => safe None (code th)
  | Waiting c => exists k, code th = CondWait c k /\
      forall s h, Inv s h -> safe (Some (awoken c false s h)) k
  | Woken => exists c k, code th = CondWait c k /\
      forall s h, Inv s h -> safe (Some (awoken c false s h)) k
  end.

Definition waits (ths : list thread) (c : cond) : Prop :=
  exists t th, ths !! t = Some th /\ stat th = Waiting c.

(** Number of threads woken up from [c]. *)
Definition is_woken (c : cond) (th : thread) : bool :=
  match stat th, code th with Woken, CondWait c' _ => Nat.eqb c c' | _, _ => false end.
Fixpoint woken (ths : list thread) (c : cond) : nat :=
  match ths with [] => 0 | th :: ths => Nat.b2n (is_woken c th) + woken ths c end.

Definition inside_ok (st : state) : Prop :=
  match owner st with
  | None => holder st = None /\ Inv (shared st) (history st) /\
      forall c, waits (threads st) c -> may c (shared st) (woken (threads st) c)
  | Some o => exists x th,
      kn_s x = shared st /\ kn_h x = history st /\
      holder st = (if kn_assigned x then Some o else None) /\
      (forall c, waits (threads st) c ->
         exists w, (w <= woken (threads st) c)%nat /\ kn_may x c w) /\
      threads st !! o = Some th /\ stat th = Running /\ safe (Some x) (code th)
  end.

(** Threads other than the owner [o], and the bodies of the loops. *)
Definition others_ok (o : option tid) (ths : list thread) : Prop :=
  forall t th, ths !! t = Some th -> (o <> Some t -> outside_ok th) /\ safe None (body th).

Definition ok (st : state) : Prop := inside_ok st /\ others_ok (owner st) (threads st).

(** What a running thread must never be about to do: lock the mutex it owns,
    unlock or wait without owning it, fail an assert, fault. *)
Definition faulty (t : tid) (th : thread) (st : state) : bool :=
  match stat th with
  | Running =>
      match code th with
      | PLock _ => owned_by t st
      | PUnlock _ | CondWait _ _ => negb (owned_by t st)
      | Assert b _ => negb (b (shared st))
      | Act f _ => if f (shared st) is Fault _ then true else false
      | _ => false
      end
  | _ => false
  end.

(** *** Preservation *)

Lemma lookup_alter_cases (f : thread -> thread) t u (ths : list thread) th :
  alter f t ths !! u = Some th ->
  (u = t /\ exists th0, ths !! t = Some th0 /\ th = f th0) \/ (u <> t /\ ths !! u = Some th).
Proof.
  destruct (decide (u = t)) as [->|Hne].
  - rewrite list_lookup_alter_eq. destruct (ths !! t) as [th0|] eqn:E1; intros H; simplify_eq/=.
    left. eauto.
  - rewrite list_lookup_alter_ne by done. auto.
Qed.

Lemma others_alter o o' t f ths :
  others_ok o ths ->
  (forall u, u <> t -> o' <> Some u -> o <> Some u) ->
  (forall th, ths !! t = Some th -> body (f th) = body th /\ (o' <> Some t -> outside_ok (f th))) ->
  others_ok o' (alter f t ths).
Proof.
  intros H Ho Hf u th [[-> (th0 & E1 & ->)]|[Hne E1]]%lookup_alter_cases.
  - destruct (Hf _ E1) as [-> Hout]. split; [exact Hout|]. by apply (H _ _ E1).
  - destruct (H _ _ E1) as [Hout Hb]. eauto.
Qed.

Lemma others_wake o cv ths :
  others_ok o ths -> others_ok o (map (wake cv) ths).
Proof.
  intros H u th Hl. apply list_lookup_fmap_Some_1 in Hl as (th0 & -> & E1).
  destruct (H _ _ E1) as [Hout Hb]. unfold wake, is_waiting, outside_ok in *.
  destruct th0 as [c b [|c'|] cl]; cbn in *; try by split.
  destruct (Nat.eqb cv c'); cbn; [|by split]. split; [|done].
  intros (k & -> & Hk)%Hout. eauto.
Qed.

Lemma waits_code t k ths c :
  waits (alter (set_code k) t ths) c -> waits ths c.
Proof.
  intros (u & th & [[-> (th0 & E0 & ->)]|[_ E0]]%lookup_alter_cases & Hs); eexists _, _; eauto.
Qed.

Lemma waits_stat t x ths c :
  waits (alter (set_stat x) t ths) c -> waits ths c \/ x = Waiting c.
Proof.
  intros (u & th & [[-> (th0 & E0 & ->)]|[_ E0]]%lookup_alter_cases & Hs); cbn in *; auto.
  left. eexists _, _; eauto.
Qed.

Lemma waits_wake cv ths c :
  waits (map (wake cv) ths) c -> waits ths c /\ c <> cv.
Proof.
  intros (u & th & (th0 & -> & E1)%list_lookup_fmap_Some_1 & Hs).
  unfold wake, is_waiting in Hs.
  destruct (stat th0) as [|c'|] eqn:E2; try congruence.
  destruct (Nat.eqb_spec cv c') as [->|Hne]; cbn in Hs; [done|].
  rewrite E2 in Hs. injection Hs as ->. split; [eexists _, _; eauto|done].
Qed.

(** How one thread contributes to the number of woken ones. *)
Lemma woken_alter f t ths th c : ths !! t = Some th ->
  (woken (alter f t ths) c + Nat.b2n (is_woken c th) =
   woken ths c + Nat.b2n (is_woken c (f th)))%nat.
Proof.
  revert t. induction ths as [|th0 ths IH]; intros [|t] H; cbn in *; [done..|simplify_eq; lia|].
  specialize (IH _ H). change (list_alter f t ths) with (alter f t ths). lia.
Qed.

Lemma woken_alter_le f t ths th c : ths !! t = Some th -> is_woken c th = false ->
  (woken ths c <= woken (alter f t ths) c)%nat.
Proof. intros E1 H. pose proof (woken_alter f t ths th c E1) as Hw. rewrite H in Hw. cbn in Hw. lia. Qed.

Lemma woken_wake cv ths c : (woken ths c <= woken (map (wake cv) ths) c)%nat.
Proof.
  induction ths as [|th ths IH]; cbn; [done|].
  assert (Nat.b2n (is_woken c th) <= Nat.b2n (is_woken c (wake cv th)))%nat; [|lia].
  unfold wake, is_waiting. destruct (stat th) eqn:Hs; try done.
  unfold is_woken at 1. rewrite Hs. cbn. lia.
Qed.

Lemma not_woken c th : stat th <> Woken -> is_woken c th = false.
Proof. unfold is_woken. by destruct (stat th). Qed.

(** A step that leaves the monitor's owner alone. *)
Lemma inside_frame st st' :
  inside_ok st -> owner st' = owner st -> holder st' = holder st ->
  shared st' = shared st -> history st' = history st ->
  (forall c, waits (threads st') c ->
     waits (threads st) c /\ (woken (threads st) c <= woken (threads st') c)%nat) ->
  (forall o, owner st = Some o -> forall th, threads st !! o = Some th -> stat th = Running ->
     threads st' !! o = Some th) ->
  inside_ok st'.
Proof.
  unfold inside_ok. intros H -> -> -> -> Hw Ht. destruct (owner st) as [o|].
  - destruct H as (x & th & ? & ? & ? & Hm & ? & ? & ?). exists x, th. split_and!; eauto.
    intros c [Hc Hle]%Hw. destruct (Hm _ Hc) as (w & ? & ?). exists w. split; [lia|done].
  - destruct H as (? & ? & Hm). split_and!; eauto.
    intros c [Hc Hle]%Hw. destruct (Hm _ Hc) as (w & ? & ?). exists w. split; [lia|done].
Qed.

Lemma woken_goto t th k ths c : ths !! t = Some th -> stat th = Running ->
  (woken ths c <= woken (alter (set_code k) t ths) c)%nat.
Proof. intros E1 Hr. eapply woken_alter_le; [done|]. apply not_woken. by rewrite Hr. Qed.

Lemma goto_outside t th k st :
  ok st -> threads st !! t = Some th -> stat th = Running -> owner st <> Some t ->
  safe None k -> ok (goto t k st).
Proof.
  intros [Hin Hot] E1 Hr Ho Hk. split.
  - eapply inside_frame; try done; cbn.
    + intros c Hc%waits_code. split; [done|]. by eapply woken_goto.
    + intros o Hoo th' E2 _. rewrite list_lookup_alter_ne by congruence. done.
  - cbn. eapply others_alter; [done|done|]. intros th' E2. split; [done|].
    intros _. unfold outside_ok. cbn. by replace th' with th by congruence; rewrite Hr.
Qed.

Lemma goto_inside t th k x h s ob ths tr :
  ths !! t = Some th -> stat th = Running -> others_ok (Some t) ths ->
  kn_s x = s -> kn_h x = map snd tr -> h = (if kn_assigned x then Some t else None) ->
  (forall c, waits ths c -> exists w, (w <= woken ths c)%nat /\ kn_may x c w) ->
  safe (Some x) k ->
  ok (goto t k (mkState (Some t) h s ob ths tr)).
Proof.
  intros E1 Hr Hot Hs Hh Ha Hw Hk. split; cbn.
  - exists x, (set_code k th). cbn. split_and!; try done.
    + intros c Hc%waits_code. destruct (Hw _ Hc) as (w & Hle & Hm). exists w.
      split; [|done]. etrans; [done|]. by eapply woken_goto.
    + rewrite list_lookup_alter_eq. by rewrite E1.
  - eapply others_alter; [done|done|]. intros th' E2. split; [done|]. congruence.
Qed.

(** Giving up the mutex, and changing what thread [t] does next. *)
Lemma release_ok t f s ob ths tr :
  others_ok (Some t) ths -> Inv s (map snd tr) ->
  (forall c, waits (alter f t ths) c -> may c s (woken (alter f t ths) c)) ->
  (forall th, ths !! t = Some th -> body (f th) = body th /\ outside_ok (f th)) ->
  ok (mkState None None s ob (alter f t ths) tr).
Proof.
  intros Hot HI Hw Hf. split; cbn; [done|].
  eapply others_alter; [done|congruence|]. intros th E1. destruct (Hf _ E1). auto.
Qed.

(** Taking the mutex. *)
Lemma others_release t ths : others_ok None ths -> others_ok (Some t) ths.
Proof. intros H u th E1. destruct (H _ _ E1) as [Ha Hb]. split; [|done]. intros _. by apply Ha. Qed.

Lemma may_weaken c s w w' : (w <= w')%nat -> may c s w -> may c s w'.
Proof. intros ? (w0 & ? & ?). exists w0. split; [lia|done]. Qed.

Lemma others_awake o w th c ths :
  others_ok o ths -> ths !! w = Some th -> o <> Some w -> stat th = Waiting c ->
  others_ok o (alter (set_stat Woken) w ths) /\ is_woken c (set_stat Woken th) = true.
Proof.
  intros Hot E1 Ho Hs. destruct (Hot _ _ E1) as [Hout _]. specialize (Hout Ho).
  unfold outside_ok in Hout. rewrite Hs in Hout. destruct Hout as (k & Hc & Hk). split.
  - eapply others_alter; [done|done|]. intros th' E2. replace th' with th by congruence.
    split; [done|]. intros _. unfold outside_ok. cbn. eauto.
  - unfold is_woken. cbn. by rewrite Hc, Nat.eqb_refl.
Qed.

Lemma is_waiting_stat c th : is_waiting c th = true -> stat th = Waiting c.
Proof.
  unfold is_waiting. destruct (stat th) as [|c'|]; try done. by intros ->%Nat.eqb_eq.
Qed.

Lemma no_waiter c ths : existsb (is_waiting c) ths = false -> ~ waits ths c.
Proof.
  intros H (t & th & E1 & Hs). apply not_true_iff_false in H. apply H, existsb_exists.
  exists th. split; [by eapply list_elem_of_In, list_elem_of_lookup_2|].
  unfold is_waiting. by rewrite Hs, Nat.eqb_refl.
Qed.

(** pthread_cond_signal by the owner of the mutex. *)
Lemma signal_inside t w th c k xa xm sh ob ths tr st' :
  ths !! t = Some th -> stat th = Running -> others_ok (Some t) ths ->
  (forall c, waits ths c -> exists w, (w <= woken ths c)%nat /\ xm c w) ->
  safe (Some (mkKn sh (map snd tr) xa (signalled c xm))) k ->
  step_cmd t w (Signal c k) (body th)
    (mkState (Some t) (if xa then Some t else None) sh ob ths tr) = Some st' -> ok st'.
Proof.
  intros E1 Hr Hot Hw Hk Hst. cbn in Hst. destruct w as [w|].
  - destruct (ths !! w) as [thw|] eqn:Ew; [|done].
    destruct (is_waiting c thw) eqn:Hwt; [|done]. apply is_waiting_stat in Hwt. simplify_eq.
    assert (Hne : w <> t) by (intros ->; congruence).
    destruct (others_awake _ _ _ _ _ Hot Ew ltac:(congruence) Hwt) as [Hot' Hwk].
    unfold set_status; cbn.
    apply (goto_inside t th _ (mkKn sh (map snd tr) xa (signalled c xm))); auto.
    + by rewrite list_lookup_alter_ne.
    + cbn. intros cv [Hcv|?]%waits_stat; [|done]. destruct (Hw _ Hcv) as (w0 & Hle & Hm).
      pose proof (woken_alter (set_stat Woken) w ths thw cv Ew) as Hcnt.
      rewrite (not_woken cv thw) in Hcnt by (by rewrite Hwt). cbn [Nat.b2n] in Hcnt.
      unfold signalled. destruct (Nat.eqb_spec cv c) as [->|Hcne].
      * rewrite Hwk in Hcnt. cbn [Nat.b2n] in Hcnt. exists (Datatypes.S w0). split; [lia|eauto].
      * exists w0. split; [lia|done].
  - destruct existsb eqn:Hex; [done|]. simplify_eq.
    apply (goto_inside t th _ (mkKn sh (map snd tr) xa (signalled c xm))); auto.
    cbn. intros cv Hcv. unfold signalled. destruct (Nat.eqb_spec cv c) as [->|Hcne]; [|auto].
    by apply no_waiter in Hex.
Qed.

(** pthread_cond_wait by the owner of the mutex. *)
Lemma wait_inside t th c k xm sh ob ths tr :
  ths !! t = Some th -> stat th = Running -> code th = CondWait c k ->
  others_ok (Some t) ths ->
  (forall c, waits ths c -> exists w, (w <= woken ths c)%nat /\ xm c w) ->
  Inv sh (map snd tr) -> (forall cv w, cv <> c -> xm cv w -> may cv sh w) ->
  Wait_ok c sh 0 -> (forall s h, Inv s h -> safe (Some (awoken c false s h)) k) ->
  ok (set_status t (Waiting c) (mkState None None sh ob ths tr)).
Proof.
  intros E1 Hr Hc Hot Hw HI Hm Hc0 Hk. unfold set_status; cbn.
  apply release_ok; [done|done|..].
  - intros cv Hcv. destruct (decide (cv = c)) as [->|Hne].
    + exists 0%nat. split; [lia|done].
    + apply waits_stat in Hcv as [Hcv|?]; [|congruence].
      destruct (Hw _ Hcv) as (w & Hle & Hx). eapply may_weaken; [|by eapply Hm].
      etrans; [done|]. eapply woken_alter_le; [done|]. apply not_woken. by rewrite Hr.
  - intros th' E2. replace th' with th by congruence. split; [done|].
    unfold outside_ok. cbn. eauto.
Qed.

(** pthread_mutex_unlock by the owner of the mutex. *)
Lemma unlock_inside t th k xm sh ob ths tr :
  ths !! t = Some th -> stat th = Running -> others_ok (Some t) ths ->
  (forall c, waits ths c -> exists w, (w <= woken ths c)%nat /\ xm c w) ->
  Inv sh (map snd tr) -> (forall cv w, xm cv w -> may cv sh w) -> safe None k ->
  ok (goto t k (mkState None None sh ob ths tr)).
Proof.
  intros E1 Hr Hot Hw HI Hm Hk. unfold goto; cbn. apply release_ok; [done|done|..].
  - intros cv Hcv%waits_code. destruct (Hw _ Hcv) as (w & Hle & Hx).
    eapply may_weaken; [|by eapply Hm]. etrans; [done|]. by eapply woken_goto.
  - intros th' E2. replace th' with th by congruence. split; [done|].
    unfold outside_ok. cbn. by rewrite Hr.
Qed.

(** A step of the owner [t] of the mutex. *)
Lemma step_inside t w th x st st' :
  owner st = Some t -> threads st !! t = Some th -> stat th = Running ->
  others_ok (Some t) (threads st) ->
  kn_s x = shared st -> kn_h x = history st ->
  holder st = (if kn_assigned x then Some t else None) ->
  (forall c, waits (threads st) c ->
     exists w, (w <= woken (threads st) c)%nat /\ kn_may x c w) ->
  safe (Some x) (code th) ->
  step_cmd t w (code th) (body th) st = Some st' -> ok st'.
Proof.
  intros Ho E1 Hr Hot Hs Hh Ha Hw Hk Hst. destruct st as [ow ho sh ob ths tr].
  destruct x as [xs xh xa xm]. unfold history in Hh.
  cbn in Ho, E1, Hs, Hh, Ha, Hw, Hot. subst ow ho xs xh.
  destruct (code th) eqn:Hc; cbn [safe] in Hk; unfold released in Hk; cbn in Hk; try done;
    [..|by eapply signal_inside| | | |];
    cbn in Hst; unfold owned_by in Hst; cbn in Hst; rewrite ?Nat.eqb_refl in Hst; simplify_eq;
    try by (eapply goto_inside; eauto; done).
  - (* PUnlock *)
    destruct Hk as (-> & [HI Hm] & Hk). by eapply unlock_inside.
  - (* CondWait *)
    destruct Hk as (-> & HI & Hm & Hc' & Hk). by eapply wait_inside.
  - (* Broadcast *)
    eapply goto_inside; eauto; try done; cbn.
    + rewrite list_lookup_fmap, E1. cbn. unfold wake, is_waiting. by rewrite Hr.
    + by apply others_wake.
    + intros cv [Hw' ?]%waits_wake. destruct (Hw _ Hw') as (w0 & Hle & Hm). exists w0.
      split; [|done]. etrans; [done|]. apply woken_wake.
  - (* WhileWait *)
    destruct Hk as (-> & HI & Hm & Hk). pose proof (Hk _ _ HI) as Hk'.
    destruct (b sh) eqn:Hb.
    + apply (goto_inside t th _ (mkKn sh (map snd tr) true xm)); auto.
      cbn. split_and!; try done. intros cv w0 Hne [?|[? _]]%Hm; [|done].
      exists w0. by split.
    + apply (goto_inside t th _ (awoken c true sh (map snd tr))); auto.
      intros cv Hcv. destruct (Hw _ Hcv) as (w0 & Hle & Hx). cbn. eauto.
  - (* Assert *)
    destruct Hk as [Hb Hk]. rewrite Hb in Hst. simplify_eq. eapply goto_inside; eauto; done.
  - (* Act *)
    destruct (f sh) as [[s' es]|]; [|done]. destruct Hk as [_ Hk]. simplify_eq.
    eapply goto_inside; eauto; try done.
    cbn. by rewrite map_app, map_map, map_id.
Qed.

Lemma waits_not_owner st o : inside_ok st -> owner st = Some o ->
  forall t th c, threads st !! t = Some th -> stat th = Waiting c -> t <> o.
Proof.
  unfold inside_ok. intros H Ho t th c E1 Hs ->. rewrite Ho in H.
  destruct H as (x & th' & _ & _ & _ & _ & E2 & Hr & _). congruence.
Qed.

(** A wake-up, spurious or by a signal of a thread that does not own the mutex. *)
Lemma set_woken_ok w th c st :
  ok st -> threads st !! w = Some th -> stat th = Waiting c -> ok (set_status w Woken st).
Proof.
  intros [Hin Hot] E1 Hs.
  assert (Ho : owner st <> Some w) by (intros Ho; by eapply waits_not_owner).
  split.
  - eapply inside_frame; try done; cbn.
    + intros cv [Hw|?]%waits_stat; [|done]. split; [done|].
      eapply woken_alter_le; [done|]. apply not_woken. by rewrite Hs.
    + intros o Hoo th' E2 _. rewrite list_lookup_alter_ne; [done|]. congruence.
  - cbn. by eapply others_awake.
Qed.

(** Calling a function of the user changes nothing else. *)
Lemma record_call_ok t th e st :
  ok st -> owner st <> Some t -> threads st !! t = Some th -> stat th = Running ->
  ok (record_call t e st).
Proof.
  intros [Hin Hot] Ho E1 Hr. split.
  - eapply inside_frame; try done; cbn.
    + intros c (u & th' & [[-> (th0 & E0 & ->)]|[_ E0]]%lookup_alter_cases & Hs).
      * cbn in Hs. congruence.
      * split; [eexists _, _; eauto|]. eapply woken_alter_le; [done|].
        apply not_woken. by rewrite Hr.
    + intros o Hoo th' E2 _. rewrite list_lookup_alter_ne by congruence. done.
  - cbn. eapply others_alter; [done|done|]. intros th' E2. split; [done|]. intros _.
    destruct (Hot _ _ E2) as [Hout _]. by apply Hout.
Qed.

(** A step of a thread that does not own the mutex. *)
Lemma step_outside t w th st st' :
  ok st -> owner st <> Some t -> threads st !! t = Some th -> stat th = Running ->
  step_cmd t w (code th) (body th) st = Some st' -> ok st'.
Proof.
  intros Hok Ho E1 Hr Hst. pose proof Hok as [Hin Hot].
  destruct (Hot _ _ E1) as [Hout Hb]. specialize (Hout Ho). unfold outside_ok in Hout.
  rewrite Hr in Hout.
  destruct (code th) eqn:Hc; cbn in Hst, Hout; try done; simplify_eq;
    try (by eapply goto_outside; eauto).
  - (* PLock *)
    destruct st as [[o|] ho sh ob ths tr]; [done|]. cbn in *. simplify_eq.
    destruct Hin as (Hh & HI & Hw). cbn in *. subst ho.
    apply (goto_inside t th c (acquired false sh (map snd tr))); auto.
    by apply others_release.
  - (* Signal *)
    destruct w as [w|].
    + destruct (threads st !! w) as [thw|] eqn:Ew; [|done].
      destruct (is_waiting c thw) eqn:Hwt; [|done]. apply is_waiting_stat in Hwt. simplify_eq.
      eapply goto_outside; eauto.
      * by eapply set_woken_ok.
      * cbn. rewrite list_lookup_alter_ne; [done|]. intros ->. congruence.
    + destruct existsb; [done|]. simplify_eq. eapply goto_outside; eauto.
  - (* Broadcast *)
    eapply goto_outside; eauto; cbn.
    + split; [|by apply others_wake]. eapply inside_frame; try done; cbn.
      * intros cv [? _]%waits_wake. split; [done|]. apply woken_wake.
      * intros o Hoo th' E2 Hr'. rewrite list_lookup_fmap, E2. cbn. f_equal.
        unfold wake, is_waiting. by rewrite Hr'.
    + rewrite list_lookup_fmap, E1. cbn. unfold wake, is_waiting. by rewrite Hr.
  - (* Use *)
    destruct (objects st !! i); [|done]. destruct (f _); [|done]. simplify_eq.
    by eapply goto_outside; eauto.
  - (* Join *)
    destruct (threads st !! t0); [|done]. destruct is_done; [|done]. simplify_eq.
    eapply goto_outside; eauto.
  - (* Call *)
    eapply goto_outside; [by eapply record_call_ok|cbn; by rewrite list_lookup_alter_eq, E1|..]; done.
Qed.

(** A woken thread takes the mutex again. *)
Lemma resume_ok t th c k s ob ths tr :
  ths !! t = Some th -> stat th = Woken -> code th = CondWait c k ->
  others_ok None ths -> Inv s (map snd tr) ->
  (forall cv, waits ths cv -> may cv s (woken ths cv)) ->
  safe (Some (awoken c false s (map snd tr))) k ->
  ok (goto t k (mkState (Some t) None s ob (alter (set_stat Running) t ths) tr)).
Proof.
  intros E1 Hr Hc Hot HI Hw Hk.
  apply goto_inside with (th := set_stat Running th) (x := awoken c false s (map snd tr)); auto.
  - by rewrite list_lookup_alter_eq, E1.
  - by eapply others_alter.
  - intros cv [Hcv|?]%waits_stat; [|done]. destruct (Hw _ Hcv) as (w0 & Hle & Hx).
    pose proof (woken_alter (set_stat Running) t ths th cv E1) as Hcnt.
    rewrite (not_woken cv (set_stat Running th)) in Hcnt by done.
    unfold is_woken in Hcnt. rewrite Hr, Hc in Hcnt.
    destruct (decide (w0 <= woken (alter (set_stat Running) t ths) cv)%nat) as [Hlt|Hlt].
    + exists w0. split; [done|]. by left.
    + destruct (Nat.eqb_spec cv c) as [->|Hne]; cbn in Hcnt; [|lia].
      exists (woken (alter (set_stat Running) t ths) c). split; [done|]. right. split; [done|].
      replace (Datatypes.S _) with w0 by lia. done.
Qed.

Theorem step_ok l st st' : ok st -> step l st = Some st' -> ok st'.
Proof.
  intros Hok Hst. pose proof Hok as [Hin Hot]. destruct l as [t w|t]; cbn in Hst.
  - destruct (threads st !! t) as [th|] eqn:E1; cbn in Hst; [|done].
    destruct (stat th) eqn:Hr; [|done|].
    + destruct (decide (owner st = Some t)) as [Ho|Ho]; [|by eapply step_outside].
      unfold inside_ok in Hin. rewrite Ho in Hin, Hot.
      destruct Hin as (x & th' & ? & ? & ? & ? & E2 & ? & ?).
      replace th' with th in * by congruence. by eapply step_inside.
    + destruct (code th) eqn:Hc; try done. destruct st as [[o|] ho sh ob ths tr]; [done|].
      cbn in *. simplify_eq. destruct Hin as (Hh & HI & Hw). cbn in *. subst ho.
      destruct (Hot _ _ E1) as [Hout Hb]. unfold outside_ok in Hout. rewrite Hr in Hout.
      destruct Hout as (c' & k' & Hc' & Hk); [done|]. rewrite Hc in Hc'. injection Hc' as <- <-.
      eapply resume_ok; eauto.
  - destruct (threads st !! t) as [th|] eqn:E1; cbn in Hst; [|done].
    destruct (stat th) eqn:Hr; try done. simplify_eq. by eapply set_woken_ok.
Qed.

Lemma step_hist l st st' :
  ok st -> Hist (history st) -> step l st = Some st' -> Hist (history st').
Proof.
  intros [Hin Hot] Hh Hst. destruct l as [t w|t]; cbn in Hst;
    (destruct (threads st !! t) as [th|] eqn:E1; cbn in Hst; [|done]);
    destruct (stat th) eqn:Hr; try done; [|destruct (code th); try done; destruct (owner st); try done|];
    [|by simplify_eq..].
  destruct (code th) eqn:Hc; cbn in Hst; repeat case_match; simplify_eq; try done.
  destruct (decide (owner st = Some t)) as [Ho|Ho].
  - unfold inside_ok in Hin. rewrite Ho in Hin.
    destruct Hin as ([xs xh xa xm] & th' & Hs & Hhx & _ & _ & E2 & _ & Hk).
    replace th' with th in Hk by congruence. rewrite Hc in Hk. cbn in Hs, Hhx, Hk. subst xs xh.
    rewrite H in Hk. destruct Hk as [Hk _]. unfold history. cbn.
    by rewrite map_app, map_map, map_id.
  - destruct (Hot _ _ E1) as [Hout _]. specialize (Hout Ho). unfold outside_ok in Hout.
    by rewrite Hr, Hc in Hout.
Qed.

Lemma reachable_hist st st' : ok st -> Hist (history st) -> reachable st st' -> Hist (history st').
Proof.
  intros H Hh Hr. revert H Hh. induction Hr as [|? ? ? [l Hl] _ IH]; intros H Hh; [done|].
  apply IH; [by eapply step_ok|by eapply step_hist].
Qed.

Lemma reachable_ok st st' : ok st -> reachable st st' -> ok st'.
Proof. intros H Hr. induction Hr as [|? ? ? [l Hl] _ IH]; [done|]. apply IH. by eapply step_ok. Qed.

Lemma run_reachable ls st st' : run ls st = Some st' -> reachable st st'.
Proof.
  revert st. induction ls as [|l ls IH]; intros st H; cbn in H; [simplify_eq; apply rtc_refl|].
  destruct (step l st) as [st1|] eqn:E1; [|done]. apply rtc_l with st1; [by exists l|]. exact (IH _ H).
Qed.

Lemma after_reachable ls st :
  (if run ls st is Some _ then true else false) = true -> reachable st (after ls st).
Proof. intros H. apply run_reachable with ls. unfold after. by destruct run. Qed.

Lemma initial_ok s ob prog :
  Inv s [] -> Forall (fun p => safe None (fst p) /\ safe None (snd p)) prog ->
  ok (initial s ob prog).
Proof.
  intros HI Hp. split; cbn.
  - split_and!; [done|done|]. intros c (t & th & Hl & Hs).
    by apply list_lookup_fmap_Some_1 in Hl as (p & -> & _).
  - intros t th Hl. apply list_lookup_fmap_Some_1 in Hl as (p & -> & E1).
    rewrite Forall_lookup in Hp. by destruct (Hp _ _ E1).
Qed.

(** *** What the verification conditions give *)

Lemma ok_unlocked st : ok st -> owner st = None ->
  holder st = None /\ Inv (shared st) (history st) /\
  forall c, waits (threads st) c -> may c (shared st) (woken (threads st) c).
Proof. intros [Hin _] Ho. unfold inside_ok in Hin. by rewrite Ho in Hin. Qed.

(** m_holder, when set, is the thread that owns the mutex. *)
Lemma ok_holder st t : ok st -> holder st = Some t -> owner st = Some t.
Proof.
  intros [Hin _] Hh. unfold inside_ok in Hin. destruct (owner st) as [o|].
  - destruct Hin as (x & th & _ & _ & Ha & _). destruct (kn_assigned x); congruence.
  - destruct Hin as (? & _). congruence.
Qed.

Lemma ok_not_faulty st t th : ok st -> threads st !! t = Some th -> faulty t th st = true ->
  may_fault (shared st) (history st).
Proof.
  intros [Hin Hot] E1 Hf. unfold faulty in Hf. destruct (stat th) eqn:Hr; try done.
  destruct (decide (owner st = Some t)) as [Ho|Ho].
  - unfold inside_ok in Hin. rewrite Ho in Hin.
    destruct Hin as ([xs xh xa xm] & th' & Hs & Hh & _ & _ & E2 & _ & Hk).
    replace th' with th in * by congruence. unfold owned_by in Hf. rewrite Ho, Nat.eqb_refl in Hf.
    cbn in Hs, Hh. subst xs xh.
    destruct (code th); cbn in *; try done.
    + destruct Hk as [Hb _]. by rewrite Hb in Hf.
    + by destruct (f (shared st)) as [[? ?]|].
  - destruct (Hot _ _ E1) as [Hout _]. specialize (Hout Ho). unfold outside_ok in Hout.
    rewrite Hr in Hout. destruct (code th); cbn in *; try done.
    unfold owned_by in Hf. destruct (owner st) as [o|]; [|done]. apply Nat.eqb_eq in Hf. congruence.
Qed.

(** An operation on a Thread object that fails one of its asserts, which ends
    the program. *)
Definition fails_use (st : state) (i : nat) (f : Thread -> outcome Thread) : bool :=
  match objects st !! i with
  | Some o => match f o with Ok _ => false | Fault _ => true end
  | None => true
  end.
Definition aborts (th : thread) (st : state) : bool :=
  match stat th, code th with Running, Use i f _ => fails_use st i f | _, _ => false end.

(** Nobody can run. *)
Definition stuck (st : state) : Prop := forall t w, step (Run t w) st = None.

Definition blocked (st : state) (th : thread) : Prop :=
  match stat th, code th with
  | Running, Done => True
  | Running, Join u _ =>
      match threads st !! u with Some th' => is_done th' = false | None => True end
  | Running, Use i f _ => fails_use st i f = true
  | Waiting c, _ => Wait_ok c (shared st) 0
  | _, _ => False
  end.

Lemma signal_enabled cv t k st : exists w, is_Some (step_cmd t w (Signal cv k) k st).
Proof.
  cbn. destruct (existsb (is_waiting cv) (threads st)) eqn:Ex.
  - apply existsb_exists in Ex as (th & Hin & Hw).
    apply list_elem_of_In, list_elem_of_lookup in Hin as [w Hl].
    exists (Some w). rewrite Hl, Hw. by eexists.
  - exists None. by eexists.
Qed.

(** If nobody can run, the mutex is free and every thread is done, waits where
    it may, or joins a thread that is not done. *)
Lemma woken_zero st : stuck st -> owner st = None -> forall c, woken (threads st) c = 0%nat.
Proof.
  intros Hst Ho c.
  assert (Hall : Forall (fun th => is_woken c th = false) (threads st)).
  { apply Forall_lookup. intros t th E1. unfold is_woken.
    destruct (stat th) eqn:Hr; try done. destruct (code th) eqn:Hc; try done.
    specialize (Hst t None). cbn in Hst. rewrite E1 in Hst. cbn in Hst. by rewrite Hr, Hc, Ho in Hst. }
  induction Hall as [|th ths Hth _ IH]; cbn; [done|]. by rewrite Hth, IH.
Qed.

Lemma stuck_running st t th : stuck st -> threads st !! t = Some th -> stat th = Running ->
  forall w, step_cmd t w (code th) (body th) st = None.
Proof.
  intros Hst E1 Hr w. specialize (Hst t w). cbn in Hst. rewrite E1 in Hst. cbn in Hst.
  by rewrite Hr in Hst.
Qed.

(** The owner of the mutex can always run. *)
Lemma stuck_unlocked st : ok st -> stuck st ->
  (forall t th, threads st !! t = Some th -> faulty t th st = false) -> owner st = None.
Proof.
  intros [Hin Hot] Hst Hnf. destruct (owner st) as [o|] eqn:Ho; [|done]. exfalso.
  unfold inside_ok in Hin. rewrite Ho in Hin.
  destruct Hin as ([xs xh xa xm] & th & Hs & _ & _ & _ & E1 & Hr & Hk).
  pose proof (stuck_running _ _ _ Hst E1 Hr) as Hn. specialize (Hnf _ _ E1).
  unfold faulty in Hnf. rewrite Hr in Hnf.
  destruct (code th) eqn:Hc; try (specialize (Hn None)); cbn in Hn, Hk, Hnf; try done.
  - apply negb_false_iff in Hnf. by rewrite Hnf in Hn.
  - apply negb_false_iff in Hnf. by rewrite Hnf in Hn.
  - destruct (signal_enabled c o c0 st) as [w [st' Hw]].
    pose proof (stuck_running _ _ _ Hst E1 Hr w) as Hn'. rewrite Hc in Hn'. cbn in Hw, Hn'. congruence.
  - apply negb_false_iff in Hnf. by rewrite Hnf in Hn.
  - by destruct (f (shared st)) as [[? ?]|].
Qed.

Lemma stuck_blocked st : ok st -> stuck st ->
  (forall t th, threads st !! t = Some th -> faulty t th st = false) ->
  owner st = None /\ forall t th, threads st !! t = Some th -> blocked st th.
Proof.
  intros Hok Hst Hnf. pose proof (stuck_unlocked _ Hok Hst Hnf) as Ho. split; [done|].
  intros t th E1. destruct (ok_unlocked _ Hok Ho) as (_ & _ & Hw). destruct Hok as [Hin Hot].
  destruct (Hot _ _ E1) as [Hout _]. rewrite Ho in Hout. specialize (Hout ltac:(done)).
  unfold outside_ok in Hout. unfold blocked. destruct (stat th) eqn:Hr.
  - pose proof (stuck_running _ _ _ Hst E1 Hr) as Hn.
    destruct (code th) eqn:Hc; try (specialize (Hn None)); cbn in Hn, Hout; try done.
    + by rewrite Ho in Hn.
    + destruct (signal_enabled c t c0 st) as [w [st' Hw']].
      pose proof (stuck_running _ _ _ Hst E1 Hr w) as Hn'. rewrite Hc in Hn'.
      cbn in Hw', Hn'. congruence.
    + unfold fails_use. destruct (objects st !! i); [|done]. by destruct (f _).
    + destruct (threads st !! t0) as [th'|]; [|done]. by destruct (is_done th').
  - destruct (Hw c) as (w & Hle & Hx); [by eexists _, _|].
    rewrite woken_zero in Hle by done. by replace w with 0%nat in Hx by lia.
  - destruct Hout as (c & k & Hc & _). specialize (Hst t None). cbn in Hst.
    rewrite E1 in Hst. cbn in Hst. by rewrite Hr, Hc, Ho in Hst.
Qed.

End Safe.
(** ** Events of one thread

    [emits c ks]: however it is scheduled, a thread that finishes [c] has
    emitted events of exactly the kinds [ks], and [at_wait cv] ([at_join u])
    holds of the kinds it still has to emit whenever it waits on [cv] (joins
    [u]). *)
Section Events.
Context {K : Type} (kind : E -> K).
Variable at_wait : cond -> list K -> Prop.
Variable at_join : tid -> list K -> Prop.

Fixpoint emits (c : cmd) (es : list K) : Prop :=
  match c with
  | Done => es = []
  | Again => False
  | PLock k | PUnlock k | Assign k | Unassign k | Signal _ k | Broadcast _ k
  | Assert _ k | Call _ k => emits k es
  | Join u k | Use u _ k => at_join u es /\ emits k es
  | CondWait cv k | WhileWait _ cv k => at_wait cv es /\ emits k es
  | Act f k => forall s s' e, f s = Ok (s', e) -> exists es', es = map kind e ++ es' /\ emits (k s) es'
  | Read k => forall s, emits (k s) es
  end.

Definition events_of (t : tid) (st : state) : list E :=
  map snd (filter (fun p => fst p = t) (trace st)).

Definition codes (st : state) : list cmd := map code (threads st).

Lemma codes_set_code k t ths :
  map code (alter (set_code k) t ths) = <[t := k]> (map code ths).
Proof.
  revert t. induction ths as [|th ths IH]; intros [|t]; cbn; [done..|]. f_equal. apply IH.
Qed.

Lemma codes_set_stat x t ths : map code (alter (set_stat x) t ths) = map code ths.
Proof. revert t. induction ths as [|th ths IH]; intros [|t]; cbn; [done..|]. f_equal. apply IH. Qed.

Lemma codes_add_call e t ths : map code (alter (add_call e) t ths) = map code ths.
Proof. revert t. induction ths as [|th ths IH]; intros [|t]; cbn; [done..|]. f_equal. apply IH. Qed.

Lemma codes_wake c ths : map code (map (wake c) ths) = map code ths.
Proof. rewrite map_map. apply map_ext. intros th. unfold wake. by destruct is_waiting. Qed.

(** A step changes the command of one thread [u], which emits [es]. *)
Lemma step_shape l st st' : step l st = Some st' ->
  exists u c k es, codes st !! u = Some c /\ codes st' = <[u := k]> (codes st) /\
    trace st' = trace st ++ map (pair u) es /\
    forall rest, emits c rest -> exists rest', emits k rest' /\ rest = map kind es ++ rest'.
Proof.
  intros Hst. destruct l as [u w|u]; cbn in Hst;
    (destruct (threads st !! u) as [th|] eqn:E1; cbn in Hst; [|done]);
    (assert (Ec : codes st !! u = Some (code th)) by (unfold codes; by rewrite list_lookup_fmap, E1)).
  - exists u, (code th). destruct (stat th).
    + destruct (code th) eqn:Hc; cbn in Hst; repeat case_match; simplify_eq;
        first
        [ by (eexists _, []; split; [exact Ec|]; unfold codes; cbn;
              rewrite ?codes_set_code, ?codes_set_stat, ?codes_add_call, ?codes_wake, app_nil_r;
              split; [first [reflexivity | symmetry; apply list_insert_id; exact Ec]|];
              split; [reflexivity|]; cbn; intros rest Hr; exists rest; split; [|reflexivity];
              first [exact Hr | exact (Hr _) | tauto])
        | eexists _, _; split; [exact Ec|]; unfold codes; cbn; rewrite codes_set_code;
          split; [reflexivity|]; split; [reflexivity|]; cbn; intros rest Hr;
          edestruct Hr as (es' & -> & ?); [eassumption|]; eauto ].
    + done.
    + destruct (code th) eqn:Hc; try done. destruct (owner st); [done|]. simplify_eq.
      eexists _, []. split; [exact Ec|]. unfold codes. cbn.
      rewrite codes_set_code, codes_set_stat, app_nil_r. split_and!; [reflexivity..|].
      intros rest [_ Hr]. by exists rest.
  - destruct (stat th); try done. simplify_eq. exists u, (code th), (code th), [].
    unfold codes in *. cbn. rewrite codes_set_stat, app_nil_r, list_insert_id by done.
    split_and!; [done..|eauto].
Qed.

Lemma events_of_app t u es st st' : trace st' = trace st ++ map (pair u) es ->
  events_of t st' = events_of t st ++ (if decide (u = t) then es else []).
Proof.
  intros H. unfold events_of. rewrite H, filter_app, map_app. f_equal.
  clear H. induction es as [|e es IH]; [by case_decide|].
  rewrite map_cons, filter_cons. cbn [fst]. case_decide; cbn [map snd]; rewrite IH; done.
Qed.

Lemma emits_steps st st' t c es :
  reachable st st' -> codes st !! t = Some c -> emits c es ->
  exists c' rest, codes st' !! t = Some c' /\ emits c' rest /\
    map kind (events_of t st) ++ es = map kind (events_of t st') ++ rest.
Proof.
  intros Hr. revert c es. induction Hr as [st|st st1 st2 [l Hst] _ IH]; intros c es Hc He.
  { eauto. }
  destruct (step_shape _ _ _ Hst) as (u & cu & k & ev & Hcu & Hk & Htr & Hem).
  rewrite (events_of_app t _ _ _ _ Htr) in IH.
  destruct (decide (u = t)) as [->|Hne].
  - rewrite Hc in Hcu. injection Hcu as <-. destruct (Hem _ He) as (rest & Hrest & ->).
    destruct (IH k rest) as (c' & rest' & ? & ? & Heq); [|done|].
    { rewrite Hk. apply list_lookup_insert_eq. by eapply lookup_lt_Some. }
    exists c', rest'. by rewrite <- Heq, map_app, <- app_assoc.
  - destruct (IH c es) as (c' & rest' & ? & ? & Heq); [|done|].
    { rewrite Hk. by rewrite list_lookup_insert_ne. }
    exists c', rest'. by rewrite app_nil_r in Heq.
Qed.

(** A finished thread has emitted all its events. *)
Lemma emits_done st st' t c es :
  reachable st st' -> trace st = [] -> codes st !! t = Some c -> emits c es ->
  codes st' !! t = Some Done -> map kind (events_of t st') = es.
Proof.
  intros Hr Htr Hc He Hd. destruct (emits_steps _ _ _ _ _ Hr Hc He) as (c' & rest & H1 & H2 & H3).
  rewrite H1 in Hd. injection Hd as ->. cbn in H2. subst rest.
  unfold events_of in H3 at 1. rewrite Htr in H3. cbn in H3. by rewrite app_nil_r in H3.
Qed.

End Events.

(** A thread that has ended or waits. *)
Definition idle (th : thread) : bool :=
  match stat th, code th with Running, Done => true | Waiting _, _ => true | _, _ => false end.

Lemma idle_stuck st : Forall (fun th => idle th = true) (threads st) -> stuck st.
Proof.
  intros H t w. cbn. destruct (threads st !! t) as [th|] eqn:E1; cbn; [|done].
  rewrite Forall_lookup in H. specialize (H _ _ E1). unfold idle in H.
  by destruct (stat th), (code th).
Qed.

Lemma reachable_num_threads st st' : reachable st st' -> length (codes st') = length (codes st).
Proof.
  induction 1 as [|st st1 st2 [l Hst] _ IH]; [done|]. rewrite IH.
  destruct (step_shape (fun _ => tt) (fun _ _ => True) (fun _ _ => True) _ _ _ Hst) as (u & cu & k & ev & _ & -> & _). apply length_insert.
Qed.

Lemma trace_tids st st' : reachable st st' -> trace st = [] ->
  Forall (fun p => (fst p < length (codes st))%nat) (trace st').
Proof.
  intros Hr Htr. revert st' Hr. refine (rtc_ind_r _ st _ _); [rewrite Htr; constructor|].
  intros st1 st2 Hr [l Hst] IH.
  destruct (step_shape (fun _ => tt) (fun _ _ => True) (fun _ _ => True) _ _ _ Hst) as (u & cu & k & ev & Hcu & _ & -> & _).
  apply Forall_app. split; [exact IH|]. apply Forall_map, Forall_true. intros e. cbn.
  rewrite <- (reachable_num_threads _ _ Hr). by eapply lookup_lt_Some.
Qed.

Lemma concat_insert (g : tid -> list E) t e ts : NoDup ts -> t ∈ ts ->
  concat (map (fun u => if decide (t = u) then e :: g u else g u) ts) ≡ₚ e :: concat (map g ts).
Proof.
  induction ts as [|u ts IH]; intros Hn Hin; [by apply elem_of_nil in Hin|].
  apply NoDup_cons in Hn as [Hu Hn]. cbn. destruct (decide (t = u)) as [->|Hne].
  - cbn. f_equiv. f_equiv.
    rewrite (map_ext_in _ g); [done|]. intros v Hv%list_elem_of_In.
    rewrite decide_False; congruence.
  - apply elem_of_cons in Hin as [?|Hin]; [done|]. rewrite (IH Hn Hin).
    by rewrite Permutation_middle.
Qed.

(** The history is made of the events of the threads. *)
Lemma history_perm st st' : reachable st st' -> trace st = [] ->
  history st' ≡ₚ concat (map (fun t => events_of t st') (seq 0 (length (codes st)))).
Proof.
  intros Hr Htr. pose proof (trace_tids _ _ Hr Htr) as Hall.
  unfold history, events_of. generalize (length (codes st)) Hall. intros n.
  generalize (trace st') as tr. induction tr as [|[t e] tr IH]; intros Hf.
  - rewrite (map_ext_in _ (fun _ => [])) by done. clear. by induction (seq 0 n).
  - apply Forall_cons in Hf as [Ht Hf]. cbn in Ht. cbn [map snd].
    rewrite (IH Hf). rewrite <- concat_insert with (t := t) (e := e).
    + apply reflexive_eq. f_equal. apply map_ext. intros u. rewrite filter_cons. cbn [fst].
      by destruct (decide (t = u)).
    + apply NoDup_seq.
    + apply elem_of_seq. lia.
Qed.

(** ** What a looping thread keeps

    [keeps t c evs cls]: the thread [t] at [c], having emitted [evs] and called
    [cls], is in [J t] whenever it starts its loop again or ends, in [at_wait t
    cv] whenever it waits on [cv], in [at_join t u] whenever it joins [u], and in
    [J_end t] when it ends; [Seen] holds of the data at any time. *)
Section Loops.
Variable Seen : S -> Prop.
Variables J J_end : tid -> list E -> list E -> Prop.
Variable at_wait : tid -> cond -> list E -> list E -> Prop.
Variable at_join : tid -> tid -> list E -> list E -> Prop.

Fixpoint keeps (t : tid) (c : cmd) (evs cls : list E) : Prop :=
  match c with
  | Done => J_end t evs cls
  | Again => J t evs cls
  | PLock k | PUnlock k | Assign k | Unassign k | Signal _ k | Broadcast _ k
  | Assert _ k => keeps t k evs cls
  | CondWait cv k | WhileWait _ cv k => at_wait t cv evs cls /\ keeps t k evs cls
  | Join u k | Use u _ k => at_join t u evs cls /\ keeps t k evs cls
  | Act f k => forall s s' es, Seen s -> f s = Ok (s', es) ->
      Seen s' /\ keeps t (k s) (evs ++ es) cls
  | Read k => forall s, Seen s -> keeps t (k s) evs cls
  | Call e k => keeps t k evs (cls ++ [e])
  end.

Definition view (th : thread) : cmd * cmd * list E := (code th, body th, calls th).
Definition views (st : state) : list (cmd * cmd * list E) := map view (threads st).

Lemma map_alter_same f t ths : (forall th, view (f th) = view th) ->
  map view (alter f t ths) = map view ths.
Proof.
  intros Hf. revert t. induction ths as [|th ths IH]; intros [|t]; cbn; [done|done|by rewrite Hf|].
  f_equal. apply IH.
Qed.

Lemma map_alter_code k t ths c b cl : map view ths !! t = Some (c, b, cl) ->
  map view (alter (set_code k) t ths) = <[t := (k, b, cl)]> (map view ths).
Proof.
  revert t. induction ths as [|th ths IH]; intros [|t] H; [done..| |].
  - unfold view in H. cbn in H. injection H as <- <- <-. done.
  - cbn in *. f_equal. by apply IH.
Qed.

Lemma map_alter_call e t ths c b cl : map view ths !! t = Some (c, b, cl) ->
  map view (alter (add_call e) t ths) = <[t := (c, b, cl ++ [e])]> (map view ths).
Proof.
  revert t. induction ths as [|th ths IH]; intros [|t] H; [done..| |].
  - unfold view in H. cbn in H. injection H as <- <- <-. done.
  - cbn in *. f_equal. by apply IH.
Qed.

Lemma map_wake_view c ths : map view (map (wake c) ths) = map view ths.
Proof. rewrite map_map. apply map_ext. intros th. unfold wake. by destruct is_waiting. Qed.

Lemma map_alter_code_call k e t ths c b cl : map view ths !! t = Some (c, b, cl) ->
  map view (alter (set_code k) t (alter (add_call e) t ths)) =
  <[t := (k, b, cl ++ [e])]> (map view ths).
Proof.
  intros H. pose proof (map_alter_call e _ _ _ _ _ H) as Hc.
  erewrite map_alter_code; [rewrite Hc; apply list_insert_insert_eq|].
  rewrite Hc. apply list_lookup_insert_eq. by eapply lookup_lt_Some.
Qed.

(** The view after a step of a running thread at [k] that emitted nothing. *)
Ltac view_step Ec :=
  eexists _, _, []; split; [exact Ec|]; split;
  [ first
    [ eapply map_alter_code_call; exact Ec
    | erewrite map_alter_code;
      [ rewrite ?map_wake_view; rewrite ?map_alter_same by done; reflexivity
      | rewrite ?map_wake_view; rewrite ?map_alter_same by done; exact Ec ]
    | rewrite map_alter_same by done; symmetry; apply list_insert_id; exact Ec ]
  | rewrite app_nil_r; split; [reflexivity|]; intros evs HJ HS Hk; rewrite app_nil_r;
    split; [exact HS|]; cbn in Hk;
    first [exact Hk | exact (HJ _ _ Hk) | exact (Hk _) | exact (Hk _ HS) | exact (proj2 Hk)
          | exact (conj (proj1 Hk) Hk) ] ].

Lemma step_view l st st' : step l st = Some st' ->
  exists u c b cl k cl' es, views st !! u = Some (c, b, cl) /\
    views st' = <[u := (k, b, cl')]> (views st) /\ trace st' = trace st ++ map (pair u) es /\
    forall evs, (forall evs' cls', J u evs' cls' -> keeps u b evs' cls') ->
      Seen (shared st) -> keeps u c evs cl -> Seen (shared st') /\ keeps u k (evs ++ es) cl'.
Proof.
  intros Hst. destruct l as [u w|u]; cbn in Hst;
    (destruct (threads st !! u) as [th|] eqn:E1; cbn in Hst; [|done]);
    (assert (Ec : views st !! u = Some (code th, body th, calls th))
      by (unfold views; by rewrite list_lookup_fmap, E1)).
  - exists u, (code th), (body th), (calls th). destruct (stat th).
    + destruct (code th) eqn:Hc; cbn in Hst; repeat case_match; simplify_eq;
        unfold views in *; cbn; first
        [ view_step Ec
        | eexists _, _, _; split; [exact Ec|]; split; [eapply map_alter_code; exact Ec|];
          split; [reflexivity|]; cbn; intros evs _ HS Hk; eapply Hk; eassumption ].
    + done.
    + destruct (code th) eqn:Hc; try done. destruct (owner st); [done|]. simplify_eq.
      unfold views in *. cbn. view_step Ec.
  - destruct (stat th); try done. simplify_eq. exists u, (code th), (body th), (calls th).
    unfold views in *. cbn. view_step Ec.
Qed.

(** Every thread of the monitor keeps [J]. *)
Definition all_keep (st : state) : Prop :=
  Seen (shared st) /\
  forall t c b cl, views st !! t = Some (c, b, cl) ->
    keeps t c (events_of t st) cl /\ forall evs cls, J t evs cls -> keeps t b evs cls.

Lemma reachable_keeps st st' : reachable st st' -> all_keep st -> all_keep st'.
Proof.
  induction 1 as [|st st1 st2 [l Hst] _ IH]; [done|]. intros [HS Hall]. apply IH. clear IH.
  destruct (step_view _ _ _ Hst) as (u & c & b & cl & k & cl' & es & Hu & Hv & Htr & Hk).
  destruct (Hall _ _ _ _ Hu) as [Hc Hb]. destruct (Hk _ Hb HS Hc) as [HS' Hk'].
  split; [done|]. intros t c0 b0 cl0 Ht. rewrite (events_of_app t _ _ _ _ Htr). rewrite Hv in Ht.
  destruct (decide (u = t)) as [->|Hne].
  - rewrite list_lookup_insert_eq in Ht by (by eapply lookup_lt_Some). injection Ht as <- <- <-. done.
  - rewrite list_lookup_insert_ne in Ht by done. rewrite app_nil_r. by apply Hall.
Qed.
End Loops.

(** ** Who uses the Thread objects

    The thread [w] alone uses them: the others are [calm], and [uses c kn objs]
    says that no operation of [w] fails, whatever the data are, when it is at [c],
    the objects are [objs], and it knows that [known] holds of the data if [kn].
    [known] is what the calm threads never make false. *)
Section Objects.
Variable known : S -> bool.

Fixpoint calm (c : cmd) : Prop :=
  match c with
  | Done | Again => True
  | PLock k | PUnlock k | Assign k | Unassign k | CondWait _ k | Signal _ k | Broadcast _ k
  | WhileWait _ _ k | Assert _ k | Join _ k | Call _ k => calm k
  | Act f k => forall s s' es, f s = Ok (s', es) ->
      (known s = true -> known s' = true) /\ calm (k s)
  | Read k => forall s, calm (k s)
  | Use _ _ _ => False
  end.

Fixpoint uses (c : cmd) (kn : bool) (objs : list Thread) : Prop :=
  match c with
  | Done => True
  | Again => False
  | PLock k | PUnlock k | Assign k | Unassign k | CondWait _ k | Signal _ k | Broadcast _ k
  | WhileWait _ _ k | Assert _ k | Join _ k | Call _ k => uses k kn objs
  | Act f k => forall s s' es, (kn = true -> known s = true) -> f s = Ok (s', es) ->
      uses (k s) (known s') objs
  | Read k => forall s, (kn = true -> known s = true) -> uses (k s) kn objs
  | Use i f k =>
      match objs !! i with
      | Some o => match f o with Ok o => uses k kn (<[i := o]> objs) | Fault _ => False end
      | None => False
      end
  end.

(** Code and body of every thread. *)
Definition progs (st : state) : list (cmd * cmd) := map (fun th => (code th, body th)) (threads st).

Lemma progs_same f t ths : (forall th, code (f th) = code th /\ body (f th) = body th) ->
  map (fun th => (code th, body th)) (alter f t ths) = map (fun th => (code th, body th)) ths.
Proof.
  intros Hf. revert t. induction ths as [|th ths IH]; intros [|t]; cbn; [done|done| |].
  - by destruct (Hf th) as [-> ->].
  - f_equal. apply IH.
Qed.

Lemma progs_code k t ths c b : map (fun th => (code th, body th)) ths !! t = Some (c, b) ->
  map (fun th => (code th, body th)) (alter (set_code k) t ths) =
  <[t := (k, b)]> (map (fun th => (code th, body th)) ths).
Proof.
  revert t. induction ths as [|th ths IH]; intros [|t] Hl; [done..| |].
  - cbn in Hl. by injection Hl as <- <-.
  - cbn in *. f_equal. by apply IH.
Qed.

Lemma progs_wake c ths :
  map (fun th => (code th, body th)) (map (wake c) ths) = map (fun th => (code th, body th)) ths.
Proof. rewrite map_map. apply map_ext. intros th. unfold wake. by destruct is_waiting. Qed.

(** A step moves one thread [u]; what it does to the data and the objects. *)
Definition moves_on (st st' : state) (c b k : cmd) : Prop :=
  (calm c -> calm b -> calm k /\ objects st' = objects st /\
     (known (shared st) = true -> known (shared st') = true)) /\
  (forall kn, (kn = true -> known (shared st) = true) -> uses c kn (objects st) ->
     exists kn', (kn' = true -> known (shared st') = true) /\ uses k kn' (objects st')).

Lemma step_objects l st st' : step l st = Some st' ->
  exists u c b k, progs st !! u = Some (c, b) /\ progs st' = <[u := (k, b)]> (progs st) /\
    moves_on st st' c b k.
Proof.
  intros Hst. unfold moves_on. destruct l as [u w|u]; cbn in Hst;
    (destruct (threads st !! u) as [th|] eqn:E1; cbn in Hst; [|done]);
    (assert (Ec : progs st !! u = Some (code th, body th))
      by (unfold progs; by rewrite list_lookup_fmap, E1)).
  - exists u, (code th), (body th). destruct (stat th).
    + destruct (code th) eqn:Hc; cbn in Hst; repeat case_match; simplify_eq;
        unfold progs in *; cbn;
        (eexists; split; [exact Ec|]; split;
          [ first
            [ rewrite progs_same by done; symmetry; apply list_insert_id; exact Ec
            | erewrite progs_code; [rewrite ?progs_wake; rewrite ?progs_same by done; reflexivity|];
              rewrite ?progs_wake; rewrite ?progs_same by done; exact Ec ]|]);
        (split; [naive_solver|]); try (intros kn Hkn Hu; exists kn; split; [done|];
          repeat match goal with
            | E : ?x = _, Hu : context [match ?x with _ => _ end] |- _ => rewrite E in Hu
            end; solve [done | exact Hu | eauto]).
      intros kn Hkn Hu. eexists. split; [intros Hs; exact Hs|]. by eapply Hu.
    + done.
    + destruct (code th) eqn:Hc; try done. destruct (owner st); [done|]. simplify_eq.
      unfold progs in *. cbn. exists c0. split; [exact Ec|]. split; [|split; [done|eauto]].
      rewrite (progs_code c0 u _ (CondWait c c0) (body th)); by rewrite progs_same.
  - destruct (stat th); try done. simplify_eq. exists u, (code th), (body th), (code th).
    unfold progs in *. cbn. rewrite progs_same by done.
    split; [done|]. split; [by rewrite list_insert_id|]. split; [done|eauto].
Qed.

(** [w] uses the objects and the others are calm. *)
Definition one_user (w : tid) (st : state) : Prop :=
  (forall t c b, t <> w -> progs st !! t = Some (c, b) -> calm c /\ calm b) /\
  (forall c b, progs st !! w = Some (c, b) ->
     exists kn, (kn = true -> known (shared st) = true) /\ uses c kn (objects st)).

Lemma reachable_one_user w st st' : reachable st st' -> one_user w st -> one_user w st'.
Proof.
  induction 1 as [|st st1 st2 [l Hst] _ IH]; [done|]. intros [Hc Hw]. apply IH. clear IH.
  destruct (step_objects _ _ _ Hst) as (u & c & b & k & Hu & Hp & Hcalm & Huse).
  assert (Hlt : (u < length (progs st))%nat) by (by eapply lookup_lt_Some).
  destruct (decide (u = w)) as [->|Hne].
  - split.
    + intros t c1 b1 Ht Hl. rewrite Hp, list_lookup_insert_ne in Hl by done. by eapply Hc.
    + intros c1 b1 Hl. rewrite Hp, list_lookup_insert_eq in Hl by done. injection Hl as <- <-.
      destruct (Hw _ _ Hu) as (kn & Hkn & Hus). by apply (Huse kn).
  - destruct (Hc _ _ _ Hne Hu) as [Hcc Hcb]. destruct (Hcalm Hcc Hcb) as (Hck & Hobj & Hkn'). split.
    + intros t c1 b1 Ht Hl. rewrite Hp in Hl. destruct (decide (u = t)) as [->|Hut].
      * rewrite list_lookup_insert_eq in Hl by done. by injection Hl as <- <-.
      * rewrite list_lookup_insert_ne in Hl by done. by eapply Hc.
    + intros c1 b1 Hl. rewrite Hp, list_lookup_insert_ne in Hl by done.
      destruct (Hw _ _ Hl) as (kn & Hkn & Hus). exists kn. rewrite Hobj. eauto.
Qed.

(** So no assert of a Thread object fails. *)
Lemma one_user_no_abort w st t th : one_user w st -> threads st !! t = Some th ->
  aborts th st = false.
Proof.
  intros [Hc Hw] E1. assert (Hl : progs st !! t = Some (code th, body th))
    by (unfold progs; by rewrite list_lookup_fmap, E1).
  unfold aborts, fails_use. destruct (stat th); [|done..]. destruct (code th) eqn:Ek; try done.
  destruct (decide (t = w)) as [->|Hne]; [|by destruct (Hc _ _ _ Hne Hl)].
  destruct (Hw _ _ Hl) as (kn & _ & Hu). cbn in Hu.
  destruct (objects st !! i); [|done]. by destruct (f _).
Qed.
End Objects.

(** ** Histories *)

(** Every event means what [P] says, given the events before it. *)
Definition each (P : list E -> E -> Prop) (h : list E) : Prop :=
  forall h1 e h2, h = h1 ++ e :: h2 -> P h1 e.

Lemma each_nil P : each P [].
Proof. intros h1 e h2 H. by destruct h1. Qed.

Lemma each_snoc P h e : each P h -> P h e -> each P (h ++ [e]).
Proof.
  intros Hh He h1 e1 h2 Heq. destruct h2 as [|e' h2 _] using rev_ind.
  - by apply app_inj_tail in Heq as [<- <-].
  - rewrite app_comm_cons, app_assoc in Heq. apply app_inj_tail in Heq as [-> _]. eauto.
Qed.

Definition num (p : E -> bool) (h : list E) : Z := zlen (List.filter p h).

Lemma num_app p h h' : num p (h ++ h') = (num p h + num p h')%Z.
Proof. unfold num. by rewrite List.filter_app, zlen_app. Qed.

Lemma num_snoc p h e : num p (h ++ [e]) = (num p h + Z.b2z (p e))%Z.
Proof. rewrite num_app. unfold num at 2. cbn. by destruct (p e). Qed.

Lemma num_nonneg p h : (0 <= num p h)%Z.
Proof. apply zlen_nonneg. Qed.

Lemma num_perm p h h' : h ≡ₚ h' -> num p h = num p h'.
Proof.
  unfold num, zlen. intros H. by rewrite H.
Qed.

Lemma num_history p st st' : reachable st st' -> trace st = [] ->
  num p (history st') =
  foldr (fun t z => num p (events_of t st') + z)%Z 0%Z (seq 0 (length (codes st))).
Proof.
  intros Hr Htr. rewrite (num_perm _ _ _ (history_perm _ _ Hr Htr)).
  induction (seq 0 (length (codes st))) as [|t ts IH]; cbn; [done|]. by rewrite num_app, IH.
Qed.

End Monitor.

Arguments cmd : clear implicits.
Arguments thread : clear implicits.
Arguments state : clear implicits.
Arguments knowledge : clear implicits.

Definition sum (g : nat -> Z) (n : nat) : Z :=
  foldr (fun t z => g t + z)%Z 0%Z (seq 0 n).

(** ** Systems of clients

    One thread per client, which runs [client b] to its end; the events it
    causes are of the kinds [kinds b]. *)
Section Clients.
Context {S E K B : Type} (client : B -> cmd S E) (kind : E -> K) (kinds : B -> list K).
Context (at_wait : cond -> list K -> Prop).

Definition system (s : S) (clients : list B) : state S E :=
  initial s [] (map (fun b => (client b, Done)) clients).

Definition no_join (_ : tid) (_ : list K) : Prop := False.

Hypothesis client_emits : forall b, emits kind at_wait no_join (client b) (kinds b).
Variable s : S.
Variable clients : list B.
Variable st : state S E.
Hypothesis st_reachable : reachable (system s clients) st.

Lemma system_threads : length (threads st) = length clients.
Proof.
  pose proof (reachable_num_threads _ _ st_reachable) as H. unfold codes, system, initial in H.
  cbn in H. by rewrite !length_fmap in H.
Qed.

Lemma client_progress t b : clients !! t = Some b ->
  exists th rest, threads st !! t = Some th /\ emits kind at_wait no_join (code th) rest /\
    kinds b = map kind (events_of t st) ++ rest.
Proof.
  intros Hc.
  destruct (emits_steps kind at_wait no_join _ _ t (client b) (kinds b) st_reachable)
    as (c & rest & H1 & H2 & H3).
  - unfold codes, system, initial. cbn. by rewrite !list_lookup_fmap, Hc.
  - apply client_emits.
  - unfold codes in H1. rewrite list_lookup_fmap in H1.
    destruct (threads st !! t) as [th|]; [|done]. cbn in H1. injection H1 as <-. by exists th, rest.
Qed.

Lemma num_clients p :
  num p (history st) = sum (fun t => num p (events_of t st)) (length clients).
Proof.
  rewrite (num_history _ _ _ st_reachable eq_refl). unfold codes, system, initial. cbn.
  by rewrite !length_fmap.
Qed.

(** When nobody can run: every client is done or waits where it may. *)
Lemma clients_stuck Inv Wait_ok may_fault Hist :
  ok Inv Wait_ok may_fault Hist st -> stuck st ->
  (forall t th, threads st !! t = Some th -> faulty t th st = false) ->
  forall t b, clients !! t = Some b -> exists th rest,
    threads st !! t = Some th /\ kinds b = map kind (events_of t st) ++ rest /\
    ((is_done th = true /\ rest = []) \/
     (exists c, stat th = Waiting c /\ at_wait c rest /\ Wait_ok c (shared st) 0%nat)).
Proof.
  intros Hok Hst Hnf t b Hb. destruct (client_progress _ _ Hb) as (th & rest & E1 & He & Heq).
  exists th, rest. split_and!; [done|done|].
  destruct (stuck_blocked _ _ _ _ _ Hok Hst Hnf) as [Ho Hbl]. specialize (Hbl _ _ E1).
  unfold blocked in Hbl. unfold is_done. destruct (stat th) eqn:Hs.
  - left. destruct (code th); try done; by destruct He.
  - right. exists c. destruct Hok as [_ Hot]. destruct (Hot _ _ E1) as [Hout _].
    rewrite Ho in Hout. specialize (Hout ltac:(done)). unfold outside_ok in Hout. rewrite Hs in Hout.
    destruct Hout as (k & Hc & _). rewrite Hc in He. by destruct He.
  - done.
Qed.
End Clients.

(** ** Totals over the clients of a monitor *)
Section Totals.
Context {B : Type}.
Local Open Scope Z_scope.

Definition total (f : B -> Z) (clients : list B) : Z := foldr (fun b n => f b + n) 0 clients.

(** A relation between one number per thread and one per client adds up. *)
Lemma total_bound (f : B -> Z) (g : nat -> Z) (R : Z -> Z -> Prop) clients :
  R 0 0 -> (forall a b c d, R a b -> R c d -> R (a + c) (b + d)) ->
  (forall t b, clients !! t = Some b -> R (g t) (f b)) ->
  R (sum g (length clients)) (total f clients).
Proof.
  unfold sum. intros H0 Hadd. revert g. induction clients as [|b clients IH]; intros g Hg; cbn; [done|].
  apply Hadd; [by apply (Hg 0%nat)|]. rewrite <- seq_shift, foldr_fmap.
  apply (IH (fun t => g (Datatypes.S t))). intros t b' Hb. by apply (Hg (Datatypes.S t)).
Qed.


Lemma total_app (f : B -> Z) l l' : total f (l ++ l') = total f l + total f l'.
Proof. unfold total. induction l as [|b l IH]; cbn; [done|]. rewrite IH. lia. Qed.

Lemma total_cons (f : B -> Z) b l : total f (b :: l) = f b + total f l.
Proof. done. Qed.

Lemma total_insert (f : B -> Z) l k b b' : l !! k = Some b ->
  total f (<[k := b']> l) = total f l - f b + f b'.
Proof.
  revert k. induction l as [|b0 l IH]; intros [|k] H; [done|done|..].
  - injection H as ->. change (<[0%nat:=b']> (b :: l)) with (b' :: l). rewrite !total_cons. lia.
  - change (<[Datatypes.S k:=b']> (b0 :: l)) with (b0 :: <[k:=b']> l).
    rewrite !total_cons, (IH k H). lia.
Qed.

Lemma total_nonneg (f : B -> Z) l : (forall b, 0 <= f b) -> 0 <= total f l.
Proof. intros Hf. unfold total. induction l as [|b l IH]; cbn; [lia|]. specialize (Hf b). lia. Qed.

Lemma total_le (f : B -> Z) (g : nat -> Z) clients :
  (forall t b, clients !! t = Some b -> g t <= f b) -> sum g (length clients) <= total f clients.
Proof. apply (total_bound f g Z.le); lia. Qed.

Lemma total_ge (f : B -> Z) (g : nat -> Z) clients :
  (forall t b, clients !! t = Some b -> f b <= g t) -> total f clients <= sum g (length clients).
Proof. apply (total_bound f g (fun a b => b <= a)); lia. Qed.

Lemma total_lt (f : B -> Z) (g : nat -> Z) clients t0 b0 :
  (forall t b, clients !! t = Some b -> g t <= f b) -> clients !! t0 = Some b0 -> g t0 < f b0 ->
  sum g (length clients) < total f clients.
Proof.
  revert g t0. induction clients as [|b clients IH]; intros g t0 Hle Hl Hlt; [done|].
  unfold sum in *. cbn. rewrite <- seq_shift, foldr_fmap. pose proof (Hle 0%nat b eq_refl).
  destruct t0 as [|t0]; cbn in Hl.
  - injection Hl as ->.
    pose proof (total_le f (fun t => g (Datatypes.S t)) clients
      (fun t b Hb => Hle (Datatypes.S t) b Hb)) as Hr. unfold sum, total in *; cbn in Hr; lia.
  - pose proof (IH (fun t => g (Datatypes.S t)) t0 (fun t b Hb => Hle (Datatypes.S t) b Hb) Hl Hlt) as Hr.
    unfold sum, total in *; cbn in Hr; lia.
Qed.
End Totals.
