(* ===== verification/Latch.v ===== *)
(** base/CountDownLatch.h and base/CountDownLatch.cc on the monitor of
    [Monitor]: [wait], [countDown] and [getCount] are the three operations, a
    client thread is a list of calls, and the events record what the calls have
    done.  The count is an int: decrementing INT_MIN is undefined. *)
From Stdlib Require Import ZArith Lia.
From stdpp Require Import base list relations.
From S2P Require Import Prelude Monitor.

#[local] Open Scope Z_scope.

Inductive event :=
| Counted          (* countDown has decremented the count *)
| Passed           (* wait is about to return *)
| Saw (n : Z).     (* getCount is about to return n *)

#[export] Instance event_eq_dec : EqDecision event.
Proof. solve_decision. Defined.

(** The data of the monitor is m_count; its only condition is m_cond. *)
Abbreviation prog := (cmd Z event).
Definition m_cond : cond := 0%nat.

Definition wait_latch (k : prog) : prog :=
  lock (WhileWait (fun m_count => 0 <? m_count) m_cond
    (Act (fun m_count => Ok (m_count, [Passed])) (fun _ =>
    unlock k))).

Definition countDown (k : prog) : prog :=
  lock (Act (fun m_count => c ← isub m_count 1; Ok (c, [Counted])) (fun old =>
    if old - 1 =? 0 then notifyAll m_cond (unlock k) else unlock k)).

(** getCount converts the int to a size_t. *)
Definition getCount (k : prog) : prog :=
  lock (Act (fun m_count => Ok (m_count, [Saw (wrapU 64 m_count)])) (fun _ => unlock k)).

Inductive call := Wait | CountDown | GetCount.

Fixpoint client (cs : list call) : prog :=
  match cs with
  | [] => Done
  | Wait :: cs => wait_latch (client cs)
  | CountDown :: cs => countDown (client cs)
  | GetCount :: cs => getCount (client cs)
  end.

(** CountDownLatch(count), used by one thread per element of [clients]. *)
Definition CountDownLatch (count : Z) (clients : list (list call)) : state Z event :=
  system client count clients.

Definition is_counted (e : event) : bool := match e with Counted => true | _ => false end.
Definition countdowns (cs : list call) : Z :=
  Z.of_nat (length (List.filter (fun c => match c with CountDown => true | _ => false end) cs)).
(** The countDown calls a thread makes before its first wait. *)
Fixpoint countdowns_before_wait (cs : list call) : Z :=
  match cs with
  | [] | Wait :: _ => 0
  | CountDown :: cs => 1 + countdowns_before_wait cs
  | GetCount :: cs => countdowns_before_wait cs
  end.
(** ** Invariant *)

Section Proofs.
Variable n : Z.     (* the initial count, an int *)
Hypothesis Hn : n < 2 ^ 31.

Definition Wait_ok (c : cond) (m_count : Z) (_ : nat) : Prop := c = m_cond /\ 0 < m_count.
(** The decrement is undefined only once the count is INT_MIN. *)
Definition underflow (_ : Z) (h : list event) : Prop := n - num is_counted h = - 2 ^ 31.
(** What an event means, in terms of the events before it: wait returns after
    [n] countDown calls, getCount returns what is left, as a size_t. *)
Definition event_ok (h : list event) (e : event) : Prop :=
  match e with
  | Passed => n <= num is_counted h
  | Saw v => v = wrapU 64 (n - num is_counted h)
  | Counted => True
  end.
Abbreviation all_ok := (each event_ok).

Definition Inv (m_count : Z) (h : list event) : Prop :=
  m_count = n - num is_counted h /\ - 2 ^ 31 <= m_count /\ all_ok h.

Lemma Inv_snoc m h e : Inv m h ->
  match e with Passed => m <= 0 | Counted => - 2 ^ 31 <= m - 1 | Saw v => v = wrapU 64 m end ->
  Inv (m - Z.b2z (is_counted e)) (h ++ [e]).
Proof.
  intros (-> & Hl & Hh) He. split; [rewrite num_snoc; lia|]. split.
  - destruct e; cbn; lia.
  - apply each_snoc; [done|]. destruct e; cbn; [done|lia|done].
Qed.

Abbreviation lsafe := (safe Inv Wait_ok underflow all_ok).

Lemma may_same c m w : Wait_ok c m w -> may Wait_ok c m w.
Proof. intros. exists w. split; [lia|done]. Qed.

Lemma safe_wait k : lsafe None k -> lsafe None (wait_latch k).
Proof.
  intros Hk. cbn. intros m h HI. split_and!; try done. { intros c w Hw. by left. }
  intros m' h' HI'. destruct (Z.ltb_spec 0 m') as [Hm|Hm]; [done|].
  pose proof (Inv_snoc _ _ Passed HI' ltac:(done)) as HI2. cbn in HI2. rewrite Z.sub_0_r in HI2.
  split_and!; [apply HI2|done| |done]. split; [done|].
  intros c w [?|[_ ?]]; by apply may_same.
Qed.

Lemma safe_countDown k : lsafe None k -> lsafe None (countDown k).
Proof.
  intros Hk. cbn. intros m h HI. unfold isub, ckS.
  destruct (inS 32 (m - 1)) eqn:Hin; unfold inS in Hin; cbn.
  - pose proof (Inv_snoc _ _ Counted HI ltac:(zbool; lia)) as HI2. cbn in HI2.
    split; [apply HI2|]. destruct (Z.eqb_spec (m - 1) 0) as [H0|H0]; cbn; (split; [done|]);
      (split; [|done]); (split; [done|]).
    + intros c w [[-> _] Hc]. by destruct Hc.
    + intros c w [-> Hm]. apply may_same. split; [done|]. cbn in *. lia.
  - destruct HI as (-> & Hl & Hh). unfold underflow.
    pose proof (num_nonneg is_counted h).
    apply andb_false_iff in Hin as [Hin|Hin]; zbool; lia.
Qed.

Lemma safe_getCount k : lsafe None k -> lsafe None (getCount k).
Proof.
  intros Hk. cbn. intros m h HI.
  pose proof (Inv_snoc _ _ (Saw (wrapU 64 m)) HI eq_refl) as HI2. cbn in HI2.
  rewrite Z.sub_0_r in HI2. split_and!; [apply HI2|done| |done]. split; [done|].
  intros c w ?. by apply may_same.
Qed.

Lemma latch_safe cs : lsafe None (client cs).
Proof.
  induction cs as [|[| |] cs IH]; [done|by apply safe_wait|by apply safe_countDown|by apply safe_getCount].
Qed.

Lemma latch_ok clients st : - 2 ^ 31 <= n -> reachable (CountDownLatch n clients) st ->
  ok Inv Wait_ok underflow (each event_ok) st /\ all_ok (history st).
Proof.
  intros Hl Hr.
  assert (Hi : ok Inv Wait_ok underflow (each event_ok) (CountDownLatch n clients)).
  { apply initial_ok.
    - split; [change (num is_counted []) with 0; lia|]. split; [done|]. apply each_nil.
    - apply Forall_map, Forall_true. intros cs. split; [apply latch_safe|done]. }
  split; [by eapply reachable_ok|]. eapply reachable_hist; [done| |done]. apply each_nil.
Qed.
End Proofs.

(** ** What the calls of a client emit *)

Definition kind (e : event) : call :=
  match e with Counted => CountDown | Passed => Wait | Saw _ => GetCount end.
Definition next_is_wait (_ : cond) (cs : list call) : Prop := head cs = Some Wait.

Lemma latch_emits cs : emits kind next_is_wait no_join (client cs) cs.
Proof.
  induction cs as [|[| |] cs IH]; [done|..]; cbn.
  - split; [done|]. intros m m' e [= <- <-]. by exists cs.
  - intros m m' e He. inv_ok He. subst. exists cs. split; [done|]. destruct (m - 1 =? 0); exact IH.
  - intros m m' e [= <- <-]. by exists cs.
Qed.

Lemma num_kinds h : num is_counted h = countdowns (map kind h).
Proof.
  unfold num, countdowns, zlen. f_equal. induction h as [|[| |] h IH]; cbn; [done|..]; by rewrite ?IH.
Qed.

Lemma countdowns_app cs cs' : countdowns (cs ++ cs') = countdowns cs + countdowns cs'.
Proof. unfold countdowns. rewrite List.filter_app, length_app. lia. Qed.

Abbreviation progress := (client_progress client kind id next_is_wait latch_emits).

Lemma num_counted_le n clients st : reachable (CountDownLatch n clients) st ->
  num is_counted (history st) <= total countdowns clients.
Proof.
  intros Hr. rewrite (num_clients _ _ _ _ Hr).
  apply total_le.
  intros t cs Hc. destruct (progress _ _ _ Hr _ _ Hc) as (th & rest & _ & _ & Heq).
  unfold id in Heq. subst cs. rewrite num_kinds, countdowns_app. unfold countdowns at 3. lia.
Qed.

Lemma before_wait_prefix cs1 cs2 : head cs2 = Some Wait \/ cs2 = [] ->
  countdowns_before_wait (cs1 ++ cs2) <= countdowns cs1.
Proof.
  intros H. induction cs1 as [|[| |] cs1 IH]; cbn.
  - by destruct H as [H | ->]; [destruct cs2 as [|[| |]]|].
  - unfold countdowns. lia.
  - unfold countdowns in *. cbn. lia.
  - unfold countdowns in *. cbn. lia.
Qed.

Section Results.
Variable n : Z.
Hypothesis Hn : - 2 ^ 31 <= n < 2 ^ 31.
Variable clients : list (list call).
Hypothesis Hfew : total countdowns clients < n + 2 ^ 31.

Lemma latch_not_faulty st t th : reachable (CountDownLatch n clients) st ->
  threads st !! t = Some th -> faulty t th st = false.
Proof.
  intros Hr E1. destruct (faulty t th st) eqn:Hf; [|done].
  destruct (latch_ok n ltac:(lia) clients st ltac:(lia) Hr) as [Hok _].
  pose proof (ok_not_faulty _ _ _ _ _ _ _ Hok E1 Hf) as Hu. unfold underflow in Hu.
  pose proof (num_counted_le _ _ _ Hr). lia.
Qed.

(** When nobody can run, no client waits: the count would still be positive,
    which the calls made before any wait exclude. *)
Lemma latch_stuck st : reachable (CountDownLatch n clients) st -> stuck st ->
  n <= total countdowns_before_wait clients ->
  forall t th, threads st !! t = Some th -> is_done th = true.
Proof.
  intros Hr Hst Hen t th E1.
  destruct (latch_ok n ltac:(lia) clients st ltac:(lia) Hr) as [Hok _].
  pose proof (clients_stuck client kind id next_is_wait latch_emits _ _ _ Hr _ _ _ _ Hok Hst
    (fun t th => latch_not_faulty st t th Hr)) as Hall.
  destruct (stuck_blocked _ _ _ _ _ Hok Hst (fun t th => latch_not_faulty st t th Hr)) as [Ho _].
  destruct (ok_unlocked _ _ _ _ _ Hok Ho) as (_ & [HI _] & _).
  assert (Hle : shared st <= 0).
  { rewrite HI, (num_clients _ _ _ _ Hr).
    assert (total countdowns_before_wait clients <=
      sum (fun t => num is_counted (events_of t st)) (length clients)); [|lia].
    apply total_ge.
    intros u cs Hcs. destruct (Hall _ _ Hcs) as (th' & rest & _ & Heq & Hc).
    unfold id in Heq. rewrite Heq, num_kinds. apply before_wait_prefix.
    destruct Hc as [[_ ->]|(c & _ & ? & _)]; auto. }
  destruct (clients !! t) as [cs|] eqn:Hcs.
  - destruct (Hall _ _ Hcs) as (th' & rest & E2 & _ & [[Hd _]|(c & _ & _ & [_ ?])]); [congruence|lia].
  - apply lookup_ge_None in Hcs. apply lookup_lt_Some in E1.
    pose proof (system_threads _ _ _ _ Hr). lia.
Qed.
End Results.

(** A thread that waits first, one that counts down and looks. *)
Definition example_clients : list (list call) := [[Wait]; [CountDown; GetCount]].
Definition example_schedule : list label :=
  repeat (Run 0 None) 5 ++ repeat (Run 1 None) 11 ++ repeat (Run 0 None) 6.
Definition example_end : state Z event := after example_schedule (CountDownLatch 1 example_clients).

Lemma latch_example_reachable : reachable (CountDownLatch 1 example_clients) example_end.
Proof. apply after_reachable. vm_compute. reflexivity. Qed.

Lemma example_done : Forall (fun th => is_done th = true) (threads example_end).
Proof. vm_compute. repeat constructor. Qed.

(** C23. A wait returns only after [count] countDown calls, and getCount returns
    what is left to count, whatever the clients and the schedule. *)
Theorem latch_opens_after_count count clients st :
  inS 32 count = true -> reachable (CountDownLatch count clients) st ->
  forall h1 h2,
    (history st = h1 ++ Passed :: h2 -> count <= num is_counted h1) /\
    (forall v, history st = h1 ++ Saw v :: h2 -> v = wrapU 64 (count - num is_counted h1)).
Proof.
  intros Hc Hr h1 h2. unfold inS in Hc. zbool.
  destruct (latch_ok count ltac:(lia) clients st ltac:(lia) Hr) as [_ Hall].
  split; [|intros v]; intros Heq; exact (Hall _ _ _ Heq).
Qed.

Lemma latch_opens_after_count_witness :
  inS 32 1 = true /\ history example_end = [Counted; Saw 0] ++ Passed :: [] /\
  1 <= num is_counted [Counted; Saw 0].
Proof.
  split_and!; [reflexivity|vm_compute; reflexivity|].
  eapply (latch_opens_after_count 1 example_clients example_end eq_refl latch_example_reachable _ []).
  vm_compute. reflexivity.
Defined.

(** C24. The latch never deadlocks: if the countDown calls that precede the waits
    of their threads are enough to open it (and too few to overflow the count),
    then whenever no thread can run all clients have finished.  In particular
    no wake-up is lost, whatever wake-ups are spurious. *)
Theorem latch_never_deadlocks count clients st :
  inS 32 count = true -> total countdowns clients < count + 2 ^ 31 ->
  count <= total countdowns_before_wait clients ->
  reachable (CountDownLatch count clients) st -> stuck st ->
  Forall (fun th => is_done th = true) (threads st).
Proof.
  intros Hc Hfew Hen Hr Hst. unfold inS in Hc. zbool. apply Forall_lookup. intros t th E1.
  by eapply (latch_stuck count ltac:(lia) clients Hfew st).
Qed.

Lemma latch_never_deadlocks_witness :
  1 <= total countdowns_before_wait example_clients /\
  Forall (fun th => is_done th = true) (threads example_end).
Proof.
  split; [vm_compute; discriminate|].
  apply (latch_never_deadlocks 1 example_clients); [reflexivity|vm_compute; reflexivity| | |].
  - vm_compute. discriminate.
  - exact latch_example_reachable.
  - apply idle_stuck. vm_compute. repeat constructor.
Defined.

(** The clients of a latch never misuse its mutex and never overflow its
    count, and m_holder only ever names the thread that owns the mutex. *)
Theorem latch_mutex_discipline count clients st :
  inS 32 count = true -> total countdowns clients < count + 2 ^ 31 ->
  reachable (CountDownLatch count clients) st ->
  (forall t th, threads st !! t = Some th -> faulty t th st = false) /\
  (forall t, holder st = Some t -> owner st = Some t) /\
  (owner st = None -> destroy_mutex (holder st) = Ok tt).
Proof.
  intros Hc Hfew Hr. unfold inS in Hc. zbool.
  destruct (latch_ok count ltac:(lia) clients st ltac:(lia) Hr) as [Hok _]. split_and!.
  - intros t th. by apply (latch_not_faulty count ltac:(lia) clients Hfew).
  - intros t. by apply (ok_holder _ _ _ _ _ _ Hok).
  - intros Ho. by destruct (ok_unlocked _ _ _ _ _ Hok Ho) as (-> & _).
Qed.

Lemma latch_mutex_discipline_witness :
  holder (after (repeat (Run 0 None) 2) (CountDownLatch 1 example_clients)) = Some 0%nat /\
  owner (after (repeat (Run 0 None) 2) (CountDownLatch 1 example_clients)) = Some 0%nat.
Proof.
  split; [vm_compute; reflexivity|].
  apply (latch_mutex_discipline 1 example_clients); [reflexivity|vm_compute; reflexivity| |].
  - apply after_reachable. vm_compute. reflexivity.
  - vm_compute. reflexivity.
Defined.
