(* ===== verification/QueueEvents.v ===== *)
(** What the clients of a queue observe: the events of base/BlockingQueue.h,
    base/BoundedBlockingQueue.h and base/ThreadPool.h, and the first-in first-out order of a history. *)
From Stdlib Require Import ZArith Lia.
From stdpp Require Import base list relations.
From S2P Require Import Prelude Monitor.

#[local] Open Scope Z_scope.

Inductive query := QSize | QEmpty | QCapacity.

Section QueueEvents.
Context {T : Type}.

Inductive event :=
| EvPut (v : T)      (* put has appended v *)
| EvGot (v : T)      (* get has removed v and is about to return it *)
| EvAns (q : query) (n : Z)      (* a query is about to return n *)
| EvCall (v : T)     (* a worker of a pool calls v *)
| EvInit.            (* a worker of a pool calls the initialisation function *)

Definition puts (h : list event) : list T :=
  omap (fun e => match e with EvPut v => Some v | _ => None end) h.
Definition gots (h : list event) : list T :=
  omap (fun e => match e with EvGot v => Some v | _ => None end) h.

(** Number of elements in the queue after a history. *)
Definition len (h : list event) : Z := zlen (puts h) - zlen (gots h).

Definition is_put (e : event) : bool := match e with EvPut _ => true | _ => false end.
Definition is_got (e : event) : bool := match e with EvGot _ => true | _ => false end.

Lemma puts_snoc h e : puts (h ++ [e]) = puts h ++ match e with EvPut v => [v] | _ => [] end.
Proof. unfold puts. rewrite omap_app. by destruct e. Qed.
Lemma gots_snoc h e : gots (h ++ [e]) = gots h ++ match e with EvGot v => [v] | _ => [] end.
Proof. unfold gots. rewrite omap_app. by destruct e. Qed.

Lemma num_puts h : num is_put h = zlen (puts h).
Proof. unfold num, zlen. f_equal. induction h as [|[] h IH]; cbn; by rewrite ?IH. Qed.
Lemma num_gots h : num is_got h = zlen (gots h).
Proof. unfold num, zlen. f_equal. induction h as [|[] h IH]; cbn; by rewrite ?IH. Qed.

(** What is in the queue, given the history. *)
Definition holds (q : list T) (h : list event) : Prop := puts h = gots h ++ q.

Lemma holds_nil : holds [] [].
Proof. done. Qed.
Lemma holds_put q h v : holds q h -> holds (q ++ [v]) (h ++ [EvPut v]).
Proof. unfold holds. intros H. rewrite puts_snoc, gots_snoc, H, app_nil_r. by rewrite app_assoc. Qed.
Lemma holds_got v q h : holds (v :: q) h -> holds q (h ++ [EvGot v]).
Proof. unfold holds. intros H. rewrite puts_snoc, gots_snoc, H, app_nil_r. by rewrite <- app_assoc. Qed.
Lemma holds_ans q h x n : holds q h -> holds q (h ++ [EvAns x n]).
Proof. unfold holds. intros H. by rewrite puts_snoc, gots_snoc, !app_nil_r. Qed.
Lemma holds_len q h : holds q h -> zlen q = len h.
Proof. unfold holds, len. intros ->. rewrite zlen_app. lia. Qed.
Lemma holds_first v q h : holds (v :: q) h -> puts h !! length (gots h) = Some v.
Proof. unfold holds. intros ->. by rewrite list_lookup_middle. Qed.

(** If every get returns the oldest element not yet taken, what has been taken
    is a prefix of what has been put. *)
Definition takes_oldest (h : list event) (e : event) : Prop :=
  match e with EvGot v => puts h !! length (gots h) = Some v | _ => True end.

Lemma takes_oldest_prefix h : each takes_oldest h -> gots h `prefix_of` puts h.
Proof.
  induction h as [|e h IH] using rev_ind; intros H; [done|].
  assert (Hh : each takes_oldest h).
  { intros h1 e1 h2 ->. apply (H h1 e1 (h2 ++ [e])). by rewrite <- app_assoc. }
  destruct (IH Hh) as [q Hq]. specialize (H h e [] eq_refl).
  rewrite puts_snoc, gots_snoc. destruct e as [v|v|x n|v|]; cbn in H; rewrite ?app_nil_r.
  - rewrite Hq, <- app_assoc. by apply prefix_app_r.
  - rewrite Hq in H |- *. rewrite lookup_app_r, Nat.sub_diag in H by done.
    destruct q as [|v' q]; [done|]. cbn in H. injection H as ->. exists q. by rewrite <- app_assoc.
  - by exists q.
  - by exists q.
  - by exists q.
Qed.
End QueueEvents.
Arguments event : clear implicits.

(** ** Kinds of events, and how many of them a client causes *)
Inductive kind := KPut | KGot | KAns.

Definition kind_of {T} (e : event T) : kind :=
  match e with EvPut _ => KPut | EvGot _ => KGot | EvAns _ _ | EvCall _ | EvInit => KAns end.

Definition n_puts (ks : list kind) : Z :=
  zlen (List.filter (fun k => match k with KPut => true | _ => false end) ks).
Definition n_gots (ks : list kind) : Z :=
  zlen (List.filter (fun k => match k with KGot => true | _ => false end) ks).
(** The elements a client puts before it takes one. *)
Fixpoint puts_before_got (ks : list kind) : Z :=
  match ks with
  | [] | KGot :: _ => 0
  | KPut :: ks => 1 + puts_before_got ks
  | KAns :: ks => puts_before_got ks
  end.

Lemma n_puts_app ks ks' : n_puts (ks ++ ks') = n_puts ks + n_puts ks'.
Proof. unfold n_puts. by rewrite List.filter_app, zlen_app. Qed.
Lemma n_gots_app ks ks' : n_gots (ks ++ ks') = n_gots ks + n_gots ks'.
Proof. unfold n_gots. by rewrite List.filter_app, zlen_app. Qed.
Lemma n_puts_nonneg ks : 0 <= n_puts ks.
Proof. apply zlen_nonneg. Qed.
Lemma n_gots_nonneg ks : 0 <= n_gots ks.
Proof. apply zlen_nonneg. Qed.

Lemma num_puts_kinds {T} (h : list (event T)) : num is_put h = n_puts (map kind_of h).
Proof. unfold num, n_puts, zlen. f_equal. induction h as [|[] h IH]; cbn; by rewrite ?IH. Qed.
Lemma num_gots_kinds {T} (h : list (event T)) : num is_got h = n_gots (map kind_of h).
Proof. unfold num, n_gots, zlen. f_equal. induction h as [|[] h IH]; cbn; by rewrite ?IH. Qed.

Lemma puts_before_got_le ks1 ks2 : head ks2 = Some KGot \/ ks2 = [] ->
  puts_before_got (ks1 ++ ks2) <= n_puts ks1.
Proof.
  intros H. induction ks1 as [|[| |] ks1 IH]; cbn.
  - by destruct H as [H | ->]; [destruct ks2 as [|[| |]]|].
  - unfold n_puts in *. cbn. rewrite zlen_cons. lia.
  - apply n_puts_nonneg.
  - exact IH.
Qed.

(** A client that only puts or only gets. *)
Definition one_sided (ks : list kind) : Prop := n_puts ks = 0 \/ n_gots ks = 0.

Lemma n_puts_head ks : head ks = Some KPut -> 0 < n_puts ks.
Proof.
  destruct ks as [|k ks]; [done|]. intros [= ->]. unfold n_puts. cbn. rewrite zlen_cons.
  pose proof (zlen_nonneg (List.filter (fun k => match k with KPut => true | _ => false end) ks)). lia.
Qed.
Lemma n_gots_head ks : head ks = Some KGot -> 0 < n_gots ks.
Proof.
  destruct ks as [|k ks]; [done|]. intros [= ->]. unfold n_gots. cbn. rewrite zlen_cons.
  pose proof (zlen_nonneg (List.filter (fun k => match k with KGot => true | _ => false end) ks)). lia.
Qed.
