(* ===== verification/BlockingQueue.v ===== *)
(** base/BlockingQueue.h: an unbounded queue on the monitor of [Monitor].  The
    deque is a list, [put], [get] and [size] are the operations, a client is a
    list of calls. *)
From Stdlib Require Import ZArith Lia.
From stdpp Require Import base tactics list relations.
From S2P Require Import Prelude Monitor QueueEvents.

#[local] Open Scope Z_scope.

Section BlockingQueue.
Context {T : Type}.

Abbreviation prog := (cmd (list T) (event T)).
Definition m_cond : cond := 0%nat.

Definition pop_front (q : list T) : outcome (list T * list (event T)) :=
  match q with [] => Fault Undefined | v :: q => Ok (q, [EvGot v]) end.

Definition empty (q : list T) : bool := match q with [] => true | _ => false end.

Definition get (k : prog) : prog :=
  lock (WhileWait empty m_cond
    (Assert (fun m_deque => negb (empty m_deque))
    (Act pop_front (fun _ =>
    unlock k)))).

Definition put (value : T) (k : prog) : prog :=
  lock (Act (fun m_deque => Ok (m_deque ++ [value], [EvPut value])) (fun _ =>
    notify m_cond (unlock k))).

Definition size (k : prog) : prog :=
  lock (Act (fun m_deque => Ok (m_deque, [EvAns QSize (zlen m_deque)])) (fun _ => unlock k)).

Inductive call := Put (v : T) | Get | Size.

Fixpoint client (cs : list call) : prog :=
  match cs with
  | [] => Done
  | Put v :: cs => put v (client cs)
  | Get :: cs => get (client cs)
  | Size :: cs => size (client cs)
  end.

Definition call_kind (c : call) : kind :=
  match c with Put _ => KPut | Get => KGot | Size => KAns end.

Definition BlockingQueue (clients : list (list call)) : state (list T) (event T) :=
  system client [] clients.

(** ** Invariant *)

(** get returns the oldest element not yet taken, size the number of elements. *)
Definition event_ok (h : list (event T)) (e : event T) : Prop :=
  takes_oldest h e /\ match e with EvAns QSize n => n = len h | _ => True end.

Definition Inv (q : list T) (h : list (event T)) : Prop := holds q h /\ each event_ok h.
(** A thread may be left waiting as long as enough others have been woken up to
    take what is in the queue: no wake-up is lost. *)
Definition Wait_ok (c : cond) (q : list T) (w : nat) : Prop := c = m_cond /\ (length q <= w)%nat.

Abbreviation qsafe := (safe Inv Wait_ok (fun _ _ => False) (each event_ok)).

Lemma bq_Inv_put q h v : Inv q h -> Inv (q ++ [v]) (h ++ [EvPut v]).
Proof. intros [Hq Hh]. split; [by apply holds_put|by apply each_snoc]. Qed.
Lemma bq_Inv_got v q h : Inv (v :: q) h -> Inv q (h ++ [EvGot v]).
Proof. intros [Hq Hh]. split; [by apply holds_got|apply each_snoc; [done|]].
  split; [by eapply holds_first|done]. Qed.
Lemma Inv_size q h : Inv q h -> Inv q (h ++ [EvAns QSize (zlen q)]).
Proof. intros [Hq Hh]. split; [by apply holds_ans|apply each_snoc; [done|]].
  split; [done|by apply holds_len]. Qed.

Lemma bq_safe_get k : qsafe None k -> qsafe None (get k).
Proof.
  intros Hk. cbn. intros q h HI. split_and!; try done. { intros c w Hw. by left. }
  intros q' h' HI'. destruct q' as [|v q']; cbn; [split; [done|cbn; lia]|].
  apply bq_Inv_got in HI'. split_and!; [done|apply HI'|done| |done]. split; [done|].
  intros c w [[-> Hw]|[_ [-> Hw]]]; exists w; cbn in Hw; (split; [done|split; [done|cbn; lia]]).
Qed.

Lemma bq_safe_put v k : qsafe None k -> qsafe None (put v k).
Proof.
  intros Hk. cbn. intros q h HI. pose proof (bq_Inv_put _ _ v HI) as HI2.
  split_and!; [apply HI2|done| |done]. split; [done|]. intros c w Hs. exists w. split; [done|].
  cbn in Hs. unfold signalled in Hs. destruct (Nat.eqb_spec c m_cond) as [->|Hne].
  - destruct Hs as (w0 & -> & _ & Hw). split; [done|]. cbn. rewrite length_app. cbn. lia.
  - by destruct Hs.
Qed.

Lemma safe_size k : qsafe None k -> qsafe None (size k).
Proof.
  intros Hk. cbn. intros q h HI. pose proof (Inv_size _ _ HI) as HI2.
  split_and!; [apply HI2|done| |done]. split; [done|]. intros c w Hs. by exists w.
Qed.

Lemma bq_safe cs : qsafe None (client cs).
Proof. induction cs as [|[] cs IH]; [done|by apply bq_safe_put|by apply bq_safe_get|by apply safe_size]. Qed.

Lemma bq_ok clients st : reachable (BlockingQueue clients) st ->
  ok Inv Wait_ok (fun _ _ => False) (each event_ok) st /\ each event_ok (history st).
Proof.
  intros Hr.
  assert (Hi : ok Inv Wait_ok (fun _ _ => False) (each event_ok) (BlockingQueue clients)).
  { apply initial_ok; [split; [done|apply each_nil]|].
    apply Forall_map, Forall_true. intros cs. split; [apply bq_safe|done]. }
  split; [by eapply reachable_ok|]. eapply reachable_hist; [done|apply each_nil|done].
Qed.

(** ** Progress *)

Definition call_kinds (cs : list call) : list kind := map call_kind cs.
Definition next_is_get (_ : cond) (ks : list kind) : Prop := head ks = Some KGot.

Lemma bq_emits cs : emits kind_of next_is_get no_join (client cs) (call_kinds cs).
Proof.
  induction cs as [|[v| |] cs IH]; [done|..]; cbn.
  - intros q q' e [= <- <-]. by exists (call_kinds cs).
  - split; [done|]. intros q q' e Hp. destruct q as [|v q]; [done|]. injection Hp as <- <-.
    by exists (call_kinds cs).
  - intros q q' e [= <- <-]. by exists (call_kinds cs).
Qed.

Lemma bq_not_faulty clients st t th : reachable (BlockingQueue clients) st ->
  threads st !! t = Some th -> faulty t th st = false.
Proof.
  intros Hr E1. destruct (faulty t th st) eqn:Hf; [|done].
  destruct (bq_ok _ _ Hr) as [Hok _]. by destruct (ok_not_faulty _ _ _ _ _ _ _ Hok E1 Hf).
Qed.

(** A thread that waits forever has a get to do that the elements put so far
    do not cover. *)
Lemma bq_stuck clients st : reachable (BlockingQueue clients) st -> stuck st ->
  total (fun cs => n_gots (call_kinds cs)) clients <=
  total (fun cs => puts_before_got (call_kinds cs)) clients ->
  forall t th, threads st !! t = Some th -> is_done th = true.
Proof.
  intros Hr Hst Hen t th E1. destruct (bq_ok _ _ Hr) as [Hok _].
  pose proof (clients_stuck client kind_of call_kinds next_is_get bq_emits _ _ _ Hr _ _ _ _ Hok Hst
    (fun t th => bq_not_faulty _ st t th Hr)) as Hall.
  destruct (stuck_blocked _ _ _ _ _ Hok Hst (fun t th => bq_not_faulty _ st t th Hr)) as [Ho _].
  destruct (ok_unlocked _ _ _ _ _ Hok Ho) as (_ & [HI _] & _).
  destruct (clients !! t) as [cs|] eqn:Hcs.
  2: { apply lookup_ge_None in Hcs. apply lookup_lt_Some in E1.
       pose proof (system_threads _ _ _ _ Hr). lia. }
  destruct (Hall _ _ Hcs) as (th' & rest & E2 & Heq & Hc).
  replace th' with th in * by congruence.
  destruct Hc as [[Hd _]|(c & _ & Hnext & [_ Hempty])]; [done|]. exfalso.
  pose proof (holds_len _ _ HI) as Hl. assert (zlen (shared st) = 0) by (unfold zlen; lia).
  unfold len in Hl. rewrite <- num_puts, <- num_gots, !(num_clients _ _ _ _ Hr) in Hl.
  assert (Hputs : total (fun cs => puts_before_got (call_kinds cs)) clients <=
    sum (fun t => num is_put (events_of t st)) (length clients));
  [apply total_ge|assert (Hgots : sum (fun t => num is_got (events_of t st)) (length clients) <
    total (fun cs => n_gots (call_kinds cs)) clients); [eapply total_lt; [|done|]|]].
  - intros u cs' Hcs'. destruct (Hall _ _ Hcs') as (th'' & rest' & _ & -> & Hc').
    rewrite num_puts_kinds. apply puts_before_got_le.
    destruct Hc' as [[_ ->]|(? & _ & ? & _)]; auto.
  - intros u cs' Hcs'. destruct (Hall _ _ Hcs') as (th'' & rest' & _ & -> & _).
    rewrite num_gots_kinds, n_gots_app. pose proof (n_gots_nonneg rest'). lia.
  - rewrite Heq, num_gots_kinds, n_gots_app. pose proof (n_gots_head _ Hnext). lia.
  - lia.
Qed.
End BlockingQueue.
Arguments call : clear implicits.

(** Two producers and a consumer. *)
Definition example_clients : list (list (call Z)) := [[Get; Get; Size]; [Put 7]; [Put 8]].
Definition example_schedule : list label :=
  repeat (Run 0 None) 5 ++ repeat (Run 1 None) 3 ++ [Run 1 (Some 0%nat)] ++ repeat (Run 1 None) 2 ++
  repeat (Run 2 None) 6 ++ repeat (Run 0 None) 19.
Definition example_end : state (list Z) (event Z) :=
  after example_schedule (BlockingQueue example_clients).

Lemma bq_example_reachable : reachable (BlockingQueue example_clients) example_end.
Proof. apply after_reachable. vm_compute. reflexivity. Qed.

(** C7. First in, first out: in every execution of any clients, each get returns
    the oldest element put and not yet taken, what has been taken is a prefix of
    what has been put, and size returns the number of elements in between. *)
Theorem queue_fifo {T} (clients : list (list (call T))) st :
  reachable (BlockingQueue clients) st ->
  gots (history st) `prefix_of` puts (history st) /\
  forall h1 h2,
    (forall v, history st = h1 ++ EvGot v :: h2 -> puts h1 !! length (gots h1) = Some v) /\
    (forall n, history st = h1 ++ EvAns QSize n :: h2 -> n = zlen (puts h1) - zlen (gots h1)).
Proof.
  intros Hr. destruct (bq_ok _ _ Hr) as [_ Hall]. split.
  - apply takes_oldest_prefix. intros h1 e h2 Heq. by apply (Hall _ _ _ Heq).
  - intros h1 h2. split; intros x Heq; by destruct (Hall _ _ _ Heq).
Qed.

Lemma queue_fifo_witness :
  history example_end = [EvPut 7; EvPut 8; EvGot 7; EvGot 8; EvAns QSize 0] /\
  gots (history example_end) `prefix_of` puts (history example_end).
Proof.
  split; [vm_compute; reflexivity|]. apply (queue_fifo example_clients example_end).
  exact bq_example_reachable.
Defined.

(** C8. No wake-up is lost: if the elements that clients put before they take
    any are as many as all the gets, then whenever no thread can run every
    client has finished, with any schedule and any spurious wake-ups. *)
Theorem queue_never_deadlocks {T} (clients : list (list (call T))) st :
  total (fun cs => n_gots (call_kinds cs)) clients <=
  total (fun cs => puts_before_got (call_kinds cs)) clients ->
  reachable (BlockingQueue clients) st -> stuck st ->
  Forall (fun th => is_done th = true) (threads st).
Proof. intros Hen Hr Hst. apply Forall_lookup. by eapply bq_stuck. Qed.

Lemma queue_never_deadlocks_witness :
  (total (fun cs => n_gots (call_kinds cs)) example_clients = 2 /\
   total (fun cs => puts_before_got (call_kinds cs)) example_clients = 2) /\
  Forall (fun th => is_done th = true) (threads example_end).
Proof.
  split; [vm_compute; split; reflexivity|]. apply (queue_never_deadlocks example_clients).
  - vm_compute. discriminate.
  - exact bq_example_reachable.
  - apply idle_stuck. vm_compute. repeat constructor.
Defined.

(** The queue is used under its mutex: no client ever finds the deque empty
    after the wait, unlocks or waits without the mutex, or locks it twice, and
    m_holder only ever names the owner. *)
Theorem queue_mutex_discipline {T} (clients : list (list (call T))) st :
  reachable (BlockingQueue clients) st ->
  (forall t th, threads st !! t = Some th -> faulty t th st = false) /\
  (forall t, holder st = Some t -> owner st = Some t) /\
  (owner st = None -> destroy_mutex (holder st) = Ok tt).
Proof.
  intros Hr. destruct (bq_ok _ _ Hr) as [Hok _]. split_and!.
  - intros t th. by apply (bq_not_faulty clients).
  - intros t. by apply (ok_holder _ _ _ _ _ _ Hok).
  - intros Ho. by destruct (ok_unlocked _ _ _ _ _ Hok Ho) as (-> & _).
Qed.

Lemma queue_mutex_discipline_witness :
  holder (after (repeat (Run 0 None) 2) (BlockingQueue example_clients)) = Some 0%nat /\
  owner (after (repeat (Run 0 None) 2) (BlockingQueue example_clients)) = Some 0%nat.
Proof.
  split; [vm_compute; reflexivity|].
  apply (queue_mutex_discipline example_clients).
  - apply after_reachable. vm_compute. reflexivity.
  - vm_compute. reflexivity.
Defined.
