(* ===== verification/BoundedBlockingQueue.v ===== *)
(** base/BoundedBlockingQueue.h on the monitor of [Monitor].  The
    boost::circular_buffer is a parameter: [CircularBuffer] lists the member
    functions the code calls, [CircularBufferLaws] what Boost documents of them,
    and [ring] is an instance. *)
From Stdlib Require Import ZArith Lia.
From stdpp Require Import base tactics list relations.
From S2P Require Import Prelude Monitor QueueEvents.

#[local] Open Scope Z_scope.

Class CircularBuffer (T B : Type) := {
  cb_new : Z -> B;                 (* circular_buffer(capacity) *)
  cb_push_back : T -> B -> B;
  cb_pop_front : B -> B;
  cb_front : B -> option T;        (* None: called on an empty buffer *)
  cb_full : B -> bool;
  cb_empty : B -> bool;
  cb_size : B -> Z;
  cb_capacity : B -> Z
}.

Class CircularBufferLaws (T B : Type) `{CircularBuffer T B} := {
  contents : B -> list T;
  new_contents n : 0 <= n -> contents (cb_new n) = [];
  new_capacity n : 0 <= n -> cb_capacity (cb_new n) = n;
  full_spec b : cb_full b = (zlen (contents b) =? cb_capacity b);
  empty_spec b : cb_empty b = (zlen (contents b) =? 0);
  size_spec b : cb_size b = zlen (contents b);
  push_contents v b : zlen (contents b) < cb_capacity b ->
    contents (cb_push_back v b) = contents b ++ [v];
  push_capacity v b : cb_capacity (cb_push_back v b) = cb_capacity b;
  front_spec b : cb_front b = head (contents b);
  pop_contents b : contents (cb_pop_front b) = tail (contents b);
  pop_capacity b : cb_capacity (cb_pop_front b) = cb_capacity b
}.

(** A circular buffer as its capacity and its elements; push_back on a full
    buffer overwrites the first one. *)
Record ring (T : Type) := mkRing { ring_cap : Z; ring_elems : list T }.
Arguments mkRing {T} _ _.
Arguments ring_cap {T} _.
Arguments ring_elems {T} _.

#[export] Instance ring_buffer T : CircularBuffer T (ring T) := {
  cb_new n := mkRing n [];
  cb_push_back v b := mkRing (ring_cap b)
    (if zlen (ring_elems b) <? ring_cap b then ring_elems b ++ [v]
     else tail (ring_elems b ++ [v]));
  cb_pop_front b := mkRing (ring_cap b) (tail (ring_elems b));
  cb_front b := head (ring_elems b);
  cb_full b := zlen (ring_elems b) =? ring_cap b;
  cb_empty b := zlen (ring_elems b) =? 0;
  cb_size b := zlen (ring_elems b);
  cb_capacity b := ring_cap b
}.

#[export, refine] Instance ring_laws T : CircularBufferLaws T (ring T) :=
  { contents := ring_elems }.
Proof. all: try done. intros v b H. cbn in *. by case_tests. Qed.

Section BoundedBlockingQueue.
Context {T B : Type} `{CircularBuffer T B}.

Abbreviation prog := (cmd B (event T)).
Definition m_full : cond := 0%nat.     (* waited on while the buffer is full *)
Definition m_empty : cond := 1%nat.

Definition put (value : T) (k : prog) : prog :=
  lock (WhileWait cb_full m_full
    (Assert (fun m_queue => negb (cb_full m_queue))
    (Act (fun m_queue => Ok (cb_push_back value m_queue, [EvPut value])) (fun _ =>
    notify m_empty (unlock k))))).

Definition get (k : prog) : prog :=
  lock (WhileWait cb_empty m_empty
    (Assert (fun m_queue => negb (cb_empty m_queue))
    (Act (fun m_queue =>
       match cb_front m_queue with
       | Some value => Ok (cb_pop_front m_queue, [EvGot value])
       | None => Fault Undefined
       end) (fun _ =>
    notify m_full (unlock k))))).

Definition ask (x : query) (answer : B -> Z) (k : prog) : prog :=
  lock (Act (fun m_queue => Ok (m_queue, [EvAns x (answer m_queue)])) (fun _ => unlock k)).

Definition empty (k : prog) : prog := ask QEmpty (fun m_queue => Z.b2z (cb_empty m_queue)) k.
(** capacity returns a bool: whether the capacity is not 0. *)
Definition capacity (k : prog) : prog :=
  ask QCapacity (fun m_queue => Z.b2z (negb (cb_capacity m_queue =? 0))) k.
Definition size (k : prog) : prog := ask QSize (fun m_queue => cb_size m_queue) k.

Inductive call := Put (v : T) | Get | Empty | Capacity | Size.

Fixpoint client (cs : list call) : prog :=
  match cs with
  | [] => Done
  | Put v :: cs => put v (client cs)
  | Get :: cs => get (client cs)
  | Empty :: cs => empty (client cs)
  | Capacity :: cs => capacity (client cs)
  | Size :: cs => size (client cs)
  end.

Definition call_kind (c : call) : kind :=
  match c with Put _ => KPut | Get => KGot | _ => KAns end.
Definition call_kinds (cs : list call) : list kind := map call_kind cs.

Definition BoundedBlockingQueue (maxSize : Z) (clients : list (list call)) : state B (event T) :=
  system client (cb_new maxSize) clients.

(** ** Invariant *)

Section Proofs.
Context `{!CircularBufferLaws T B}.
Variable cap : Z.     (* maxSize *)

(** put finds room, get returns the oldest element not yet taken, the queries
    tell the truth. *)
Definition event_ok (h : list (event T)) (e : event T) : Prop :=
  takes_oldest h e /\
  match e with
  | EvPut _ => len h < cap
  | EvAns QSize n => n = len h
  | EvAns QEmpty n => n = Z.b2z (len h =? 0)
  | EvAns QCapacity n => n = Z.b2z (negb (cap =? 0))
  | _ => True
  end.

Definition Inv (b : B) (h : list (event T)) : Prop :=
  holds (contents b) h /\ cb_capacity b = cap /\ zlen (contents b) <= cap /\ each event_ok h.
(** No wake-up is lost, of either condition. *)
Definition Wait_ok (c : cond) (b : B) (w : nat) : Prop :=
  (c = m_empty /\ zlen (contents b) <= Z.of_nat w) \/
  (c = m_full /\ cap - zlen (contents b) <= Z.of_nat w).

Abbreviation qsafe := (safe Inv Wait_ok (fun _ _ => False) (each event_ok)).

Lemma bb_Inv_put b h v : Inv b h -> cb_full b = false -> Inv (cb_push_back v b) (h ++ [EvPut v]).
Proof.
  intros (Hq & Hc & Hl & Hh) Hf. rewrite full_spec in Hf. zbool.
  assert (zlen (contents b) < cap) by lia. unfold Inv.
  rewrite push_contents, push_capacity, zlen_app by lia. unfold zlen at 2. cbn.
  split_and!; [by apply holds_put|done|lia|]. apply each_snoc; [done|]. split; [done|].
  by rewrite <- (holds_len _ _ Hq).
Qed.

Lemma bb_Inv_got b h : Inv b h -> cb_empty b = false -> exists v, cb_front b = Some v /\
  zlen (contents (cb_pop_front b)) = zlen (contents b) - 1 /\
  Inv (cb_pop_front b) (h ++ [EvGot v]).
Proof.
  intros (Hq & Hc & Hl & Hh) He. rewrite empty_spec in He. unfold Inv.
  rewrite front_spec, pop_contents, pop_capacity.
  destruct (contents b) as [|v q]; [done|]. exists v. cbn [head tail]. rewrite zlen_cons in *.
  split_and!; [done|lia|by apply holds_got|done|lia|].
  apply each_snoc; [done|]. split; [by eapply holds_first|done].
Qed.

Lemma Inv_ans b h x n : Inv b h -> event_ok h (EvAns x n) -> Inv b (h ++ [EvAns x n]).
Proof.
  intros (Hq & Hc & Hl & Hh) He. split_and!; [by apply holds_ans|done|done|by apply each_snoc].
Qed.

Lemma bb_may_intro c b w : Wait_ok c b w -> may Wait_ok c b w.
Proof. intros Hw. by exists w. Qed.

Lemma bb_safe_put v k : qsafe None k -> qsafe None (put v k).
Proof.
  intros Hk. cbn. intros b h HI. split_and!; try done. { intros c w Hw. by left. }
  clear b h HI. intros b h HI. destruct (cb_full b) eqn:Hf.
  - right. split; [done|]. rewrite full_spec in Hf. zbool. destruct HI as (_ & Hc & _). lia.
  - pose proof (bb_Inv_put _ _ v HI Hf) as HI2. split_and!; [done|apply HI2|done| |done].
    split; [done|]. intros c w Hw. apply bb_may_intro. cbn in *.
    destruct HI as (_ & Hc & Hl & _). rewrite full_spec in Hf. zbool.
    unfold Wait_ok. rewrite push_contents, zlen_app by lia. unfold zlen at 2 4. cbn.
    unfold signalled, may_awoken, Wait_ok in Hw.
    destruct (Nat.eqb_spec c m_empty) as [->|Hne]; [destruct Hw as (w0 & -> & Hw)|];
      intuition (try discriminate; lia).
Qed.

Lemma bb_safe_get k : qsafe None k -> qsafe None (get k).
Proof.
  intros Hk. cbn. intros b h HI. split_and!; try done. { intros c w Hw. by left. }
  clear b h HI. intros b h HI. destruct (cb_empty b) eqn:He.
  - left. split; [done|]. rewrite empty_spec in He. zbool. lia.
  - destruct (bb_Inv_got _ _ HI He) as (v & -> & Hlen & HI2).
    split_and!; [done|apply HI2|done| |done]. split; [done|]. intros c w Hw.
    apply bb_may_intro. cbn in *. unfold Wait_ok. rewrite Hlen.
    unfold signalled, may_awoken, Wait_ok in Hw.
    destruct (Nat.eqb_spec c m_full) as [->|Hne]; [destruct Hw as (w0 & -> & Hw)|];
      intuition (try discriminate; lia).
Qed.

Lemma safe_ask x answer k :
  (forall b h, Inv b h -> event_ok h (EvAns x (answer b))) -> qsafe None k ->
  qsafe None (ask x answer k).
Proof.
  intros Ha Hk. cbn. intros b h HI. pose proof (Inv_ans _ _ _ _ HI (Ha _ _ HI)) as HI2.
  split_and!; [apply HI2|done| |done]. split; [done|]. intros c w. apply bb_may_intro.
Qed.

Lemma bb_safe cs : qsafe None (client cs).
Proof.
  induction cs as [|[v| | | |] cs IH]; [done|by apply bb_safe_put|by apply bb_safe_get|..];
    (apply safe_ask; [|done]); intros b h (Hq & Hc & Hl & Hh); (split; [done|]); cbn.
  - by rewrite empty_spec, (holds_len _ _ Hq).
  - by rewrite Hc.
  - by rewrite size_spec, (holds_len _ _ Hq).
Qed.

Lemma bb_ok clients st : 0 <= cap -> reachable (BoundedBlockingQueue cap clients) st ->
  ok Inv Wait_ok (fun _ _ => False) (each event_ok) st /\ each event_ok (history st).
Proof.
  intros Hcap Hr.
  assert (Hi : ok Inv Wait_ok (fun _ _ => False) (each event_ok) (BoundedBlockingQueue cap clients)).
  { apply initial_ok.
    - split_and!; [|by apply new_capacity| |apply each_nil]; by rewrite new_contents by done.
    - apply Forall_map, Forall_true. intros cs. split; [apply bb_safe|done]. }
  split; [by eapply reachable_ok|]. eapply reachable_hist; [done|apply each_nil|done].
Qed.

(** ** Progress *)

Definition next_fits (c : cond) (ks : list kind) : Prop :=
  (c = m_full /\ head ks = Some KPut) \/ (c = m_empty /\ head ks = Some KGot).

Lemma bb_emits cs : emits kind_of next_fits no_join (client cs) (call_kinds cs).
Proof.
  induction cs as [|[v| | | |] cs IH]; [done|..]; cbn.
  - split; [by left|]. intros b b' e [= <- <-]. by exists (call_kinds cs).
  - split; [by right|]. intros b b' e Hp. destruct (cb_front b) as [v|]; [|done].
    injection Hp as <- <-. by exists (call_kinds cs).
  - intros b b' e [= <- <-]. by exists (call_kinds cs).
  - intros b b' e [= <- <-]. by exists (call_kinds cs).
  - intros b b' e [= <- <-]. by exists (call_kinds cs).
Qed.

Lemma bb_not_faulty clients st t th : 0 <= cap ->
  reachable (BoundedBlockingQueue cap clients) st ->
  threads st !! t = Some th -> faulty t th st = false.
Proof.
  intros Hcap Hr E1. destruct (faulty t th st) eqn:Hf; [|done].
  destruct (bb_ok _ _ Hcap Hr) as [Hok _]. by destruct (ok_not_faulty _ _ _ _ _ _ _ Hok E1 Hf).
Qed.

Section Stuck.
Variable clients : list (list call).
Variable st : state B (event T).
Hypothesis Hcap : 0 < cap.
Hypothesis Hr : reachable (BoundedBlockingQueue cap clients) st.
Hypothesis Hst : stuck st.
Hypothesis Hsided : forall cs, cs ∈ clients -> one_sided (call_kinds cs).

Abbreviation done_puts := (fun t => num is_put (events_of t st)).
Abbreviation done_gots := (fun t => num is_got (events_of t st)).
Abbreviation all_puts := (fun cs => n_puts (call_kinds cs)).
Abbreviation all_gots := (fun cs => n_gots (call_kinds cs)).

(** Where each client is. *)
Definition rests (rest : list kind) : Prop :=
  rest = [] \/ (head rest = Some KPut /\ cap <= zlen (contents (shared st))) \/
  (head rest = Some KGot /\ zlen (contents (shared st)) = 0).

Lemma stuck_clients t cs : clients !! t = Some cs -> exists th rest,
  threads st !! t = Some th /\ call_kinds cs = map kind_of (events_of t st) ++ rest /\
  rests rest /\ (rest = [] -> is_done th = true).
Proof.
  intros Hcs. destruct (bb_ok _ _ (Z.lt_le_incl _ _ Hcap) Hr) as [Hok _].
  destruct (clients_stuck client kind_of call_kinds next_fits bb_emits _ _ _ Hr _ _ _ _ Hok Hst
    (fun t th => bb_not_faulty _ st t th (Z.lt_le_incl _ _ Hcap) Hr) _ _ Hcs)
    as (th & rest & E1 & Heq & Hc).
  exists th, rest. split_and!; [done|done|..].
  - destruct Hc as [[_ ->]|(c & _ & Hn & Hw)]; [by left|]. right.
    pose proof (zlen_nonneg (contents (shared st))).
    destruct Hn as [[-> Hn]|[-> Hn]], Hw as [[? Hw]|[? Hw]]; try done;
      [left|right]; (split; [done|lia]).
  - destruct Hc as [[? _]|(c & _ & Hn & _)]; [done|]. intros ->. by destruct Hn as [[_ ?]|[_ ?]].
Qed.

Lemma stuck_len : zlen (contents (shared st)) =
  sum done_puts (length clients) - sum done_gots (length clients).
Proof.
  destruct (bb_ok _ _ (Z.lt_le_incl _ _ Hcap) Hr) as [Hok _].
  destruct (stuck_blocked _ _ _ _ _ Hok Hst
    (fun t th => bb_not_faulty _ st t th (Z.lt_le_incl _ _ Hcap) Hr)) as [Ho _].
  destruct (ok_unlocked _ _ _ _ _ Hok Ho) as (_ & [HI _] & _).
  rewrite (holds_len _ _ HI). unfold len.
  by rewrite <- num_puts, <- num_gots, !(num_clients _ _ _ _ Hr).
Qed.

Lemma done_puts_le t cs : clients !! t = Some cs -> done_puts t <= all_puts cs.
Proof.
  intros Hcs. destruct (stuck_clients _ _ Hcs) as (th & rest & _ & -> & _).
  rewrite num_puts_kinds, n_puts_app. pose proof (n_puts_nonneg rest). lia.
Qed.
Lemma done_gots_le t cs : clients !! t = Some cs -> done_gots t <= all_gots cs.
Proof.
  intros Hcs. destruct (stuck_clients _ _ Hcs) as (th & rest & _ & -> & _).
  rewrite num_gots_kinds, n_gots_app. pose proof (n_gots_nonneg rest). lia.
Qed.

(** A producer that waits: the buffer is full, so the consumers are done. *)
Lemma no_waiting_put t cs rest :
  total all_puts clients = total all_gots clients -> clients !! t = Some cs ->
  call_kinds cs = map kind_of (events_of t st) ++ rest -> head rest = Some KPut ->
  cap <= zlen (contents (shared st)) -> False.
Proof.
  intros Heq Hcs Hk Hh Hfull.
  assert (sum done_puts (length clients) < total all_puts clients) as Hp.
  { eapply total_lt; [exact done_puts_le|exact Hcs|]. cbn beta.
    rewrite Hk, num_puts_kinds, n_puts_app. pose proof (n_puts_head _ Hh). lia. }
  assert (total all_gots clients <= sum done_gots (length clients)) as Hg.
  { apply total_ge. intros u cs' Hcs'.
    destruct (stuck_clients _ _ Hcs') as (th & rest' & _ & Hk' & Hrest & _).
    pose proof (Hsided cs' ltac:(by eapply list_elem_of_lookup_2)) as Hs.
    rewrite Hk' in Hs |- *. rewrite num_gots_kinds. unfold one_sided in Hs.
    rewrite n_puts_app in Hs. rewrite n_gots_app in Hs |- *.
    pose proof (n_puts_nonneg (map kind_of (events_of u st))).
    pose proof (n_gots_nonneg (map kind_of (events_of u st))). pose proof (n_gots_nonneg rest').
    destruct Hrest as [->|[[Hh' _]|[_ ?]]]; [by rewrite Z.add_0_r| |lia].
    pose proof (n_puts_head _ Hh'). lia. }
  pose proof stuck_len. lia.
Qed.

(** A consumer that waits: the buffer is empty, so the producers are done. *)
Lemma no_waiting_get t cs rest :
  total all_puts clients = total all_gots clients -> clients !! t = Some cs ->
  call_kinds cs = map kind_of (events_of t st) ++ rest -> head rest = Some KGot ->
  zlen (contents (shared st)) = 0 -> False.
Proof.
  intros Heq Hcs Hk Hh Hempty.
  assert (sum done_gots (length clients) < total all_gots clients) as Hg.
  { eapply total_lt; [exact done_gots_le|exact Hcs|]. cbn beta.
    rewrite Hk, num_gots_kinds, n_gots_app. pose proof (n_gots_head _ Hh). lia. }
  assert (total all_puts clients <= sum done_puts (length clients)) as Hp.
  { apply total_ge. intros u cs' Hcs'.
    destruct (stuck_clients _ _ Hcs') as (th & rest' & _ & Hk' & Hrest & _).
    pose proof (Hsided cs' ltac:(by eapply list_elem_of_lookup_2)) as Hs.
    rewrite Hk' in Hs |- *. rewrite num_puts_kinds. unfold one_sided in Hs.
    rewrite n_gots_app in Hs. rewrite n_puts_app in Hs |- *.
    pose proof (n_puts_nonneg (map kind_of (events_of u st))).
    pose proof (n_gots_nonneg (map kind_of (events_of u st))). pose proof (n_puts_nonneg rest').
    destruct Hrest as [->|[[_ ?]|[Hh' _]]]; [by rewrite Z.add_0_r|lia|].
    pose proof (n_gots_head _ Hh'). lia. }
  pose proof stuck_len. lia.
Qed.

Lemma bb_stuck : total all_puts clients = total all_gots clients ->
  Forall (fun th => is_done th = true) (threads st).
Proof.
  intros Heq. apply Forall_lookup. intros t th E1. destruct (clients !! t) as [cs|] eqn:Hcs.
  - destruct (stuck_clients _ _ Hcs) as (th' & rest & E2 & Hk & Hrest & Hd).
    replace th' with th in Hd by congruence. apply Hd.
    destruct Hrest as [->|[[Hh ?]|[Hh ?]]]; [done|exfalso..].
    + by eapply no_waiting_put.
    + by eapply no_waiting_get.
  - apply lookup_ge_None in Hcs. apply lookup_lt_Some in E1.
    pose proof (system_threads _ _ _ _ Hr). lia.
Qed.
End Stuck.
End Proofs.
End BoundedBlockingQueue.
Arguments call : clear implicits.

(** A producer and a consumer over a buffer of one element. *)
Definition example_clients : list (list (call Z)) := [[Put 7; Put 8]; [Get; Size; Get; Capacity]].
Definition example_schedule : list label :=
  (* the producer blocks on its second put *)
  repeat (Run 0 None) 13 ++
  (* the consumer takes the first element and wakes it up *)
  repeat (Run 1 None) 5 ++ [Run 1 (Some 0%nat)] ++ repeat (Run 1 None) 2 ++
  repeat (Run 0 None) 8 ++ repeat (Run 1 None) 18.
Definition example_end : state (ring Z) (event Z) :=
  after example_schedule (BoundedBlockingQueue (T:=Z) (B:=ring Z) 1 example_clients).

Lemma bb_example_reachable :
  reachable (BoundedBlockingQueue (T:=Z) (B:=ring Z) 1 example_clients) example_end.
Proof. apply after_reachable. vm_compute. reflexivity. Qed.

(** C5. In every execution of any clients, each get returns the oldest element
    put and not yet taken, each put finds fewer than [maxSize] elements in the
    buffer, and the queries answer truthfully (capacity, declared to return a
    bool, says whether the capacity is not 0). *)
Theorem bounded_fifo {T B} `{CircularBufferLaws T B} maxSize (clients : list (list (call T)))
  (st : state B (event T)) :
  0 <= maxSize -> reachable (BoundedBlockingQueue maxSize clients) st ->
  gots (history st) `prefix_of` puts (history st) /\
  forall h1 h2,
    (forall v, history st = h1 ++ EvGot v :: h2 -> puts h1 !! length (gots h1) = Some v) /\
    (forall v, history st = h1 ++ EvPut v :: h2 -> zlen (puts h1) - zlen (gots h1) < maxSize) /\
    (forall n, history st = h1 ++ EvAns QSize n :: h2 -> n = zlen (puts h1) - zlen (gots h1)) /\
    (forall n, history st = h1 ++ EvAns QCapacity n :: h2 -> n = Z.b2z (negb (maxSize =? 0))).
Proof.
  intros Hc Hr. destruct (bb_ok maxSize _ _ Hc Hr) as [_ Hall]. split.
  - apply takes_oldest_prefix. intros h1 e h2 Heq. by apply (Hall _ _ _ Heq).
  - intros h1 h2. split_and!; intros x Heq; by destruct (Hall _ _ _ Heq).
Qed.

Lemma bounded_fifo_witness :
  history example_end = [EvPut 7; EvGot 7; EvPut 8; EvAns QSize 1; EvGot 8; EvAns QCapacity 1] /\
  gots (history example_end) `prefix_of` puts (history example_end).
Proof.
  split; [vm_compute; reflexivity|].
  apply (bounded_fifo 1 example_clients example_end); [lia|exact bb_example_reachable].
Defined.

(** C6. Producers and consumers of a bounded queue never deadlock: if each client
    only puts or only gets, and there are as many puts as gets, then whenever no
    thread can run every client has finished, for every positive capacity,
    schedule and spurious wake-up. *)
Theorem bounded_never_deadlocks {T B} `{CircularBufferLaws T B} maxSize
  (clients : list (list (call T))) (st : state B (event T)) :
  0 < maxSize -> (forall cs, cs ∈ clients -> one_sided (call_kinds cs)) ->
  total (fun cs => n_puts (call_kinds cs)) clients =
  total (fun cs => n_gots (call_kinds cs)) clients ->
  reachable (BoundedBlockingQueue maxSize clients) st -> stuck st ->
  Forall (fun th => is_done th = true) (threads st).
Proof. intros Hc Hs Heq Hr Hst. by eapply bb_stuck. Qed.

Lemma bounded_never_deadlocks_witness :
  Forall (fun th => is_done th = true) (threads example_end).
Proof.
  apply (bounded_never_deadlocks 1 example_clients example_end).
  - lia.
  - intros cs Hcs. unfold one_sided. repeat (apply elem_of_cons in Hcs as [->|Hcs]); [..|by inversion Hcs].
    + by right.
    + by left.
  - vm_compute. reflexivity.
  - exact bb_example_reachable.
  - apply idle_stuck. vm_compute. repeat constructor.
Defined.

(** The bounded queue is used under its mutex: neither assert ever fails, the
    mutex is never misused, and m_holder only ever names the owner. *)
Theorem bounded_mutex_discipline {T B} `{CircularBufferLaws T B} maxSize
  (clients : list (list (call T))) (st : state B (event T)) :
  0 <= maxSize -> reachable (BoundedBlockingQueue maxSize clients) st ->
  (forall t th, threads st !! t = Some th -> faulty t th st = false) /\
  (forall t, holder st = Some t -> owner st = Some t) /\
  (owner st = None -> destroy_mutex (holder st) = Ok tt).
Proof.
  intros Hc Hr. destruct (bb_ok maxSize _ _ Hc Hr) as [Hok _]. split_and!.
  - intros t th. by apply (bb_not_faulty maxSize clients).
  - intros t. by apply (ok_holder _ _ _ _ _ _ Hok).
  - intros Ho. by destruct (ok_unlocked _ _ _ _ _ Hok Ho) as (-> & _).
Qed.

Lemma bounded_mutex_discipline_witness :
  let st := after (repeat (Run 0 None) 2) (BoundedBlockingQueue (B:=ring Z) 1 example_clients) in
  holder st = Some 0%nat /\ owner st = Some 0%nat.
Proof.
  intros st. split; [vm_compute; reflexivity|].
  apply (bounded_mutex_discipline 1 example_clients); [lia| |].
  - apply after_reachable. vm_compute. reflexivity.
  - vm_compute. reflexivity.
Defined.
