(* ===== verification/ThreadPool.v ===== *)
(** base/ThreadPool.h and base/ThreadPool.cc on the monitor of [Monitor]: the
    workers run [runInThread], the clients call [run] and [stop] and destroy the
    pool.  A Task is a boost::function, None when it is empty; calling it is
    recorded ([Call]).

    [start] is the member function: it fills m_threads with the Thread objects of
    [Threads], of which those whose pthread_create succeeded run; [serving] is
    the system it leaves behind, worker i of which belongs to m_threads[i].
    [stop] joins them through [Threads.join], with its asserts. *)
From Stdlib Require Import ZArith Lia.
From stdpp Require Import base tactics list relations strings.
From S2P Require Import Prelude CLib Threads Monitor QueueEvents.

#[local] Open Scope Z_scope.

Section ThreadPool.
Context {F : Type}.
Abbreviation Task := (option F).

(** The data the mutex protects (m_brunning is also read without it). *)
Record pool := mkPool { m_brunning : bool; m_tasks : list Task }.

Abbreviation prog := (cmd pool (event Task)).
Definition m_notFull : cond := 0%nat.
Definition m_notEmpty : cond := 1%nat.

Definition no_tasks (s : pool) : bool := match m_tasks s with [] => true | _ => false end.

Definition pop_task (s : pool) : outcome (pool * list (event Task)) :=
  match m_tasks s with
  | [] => Ok (s, [])
  | task :: tasks => Ok (mkPool (m_brunning s) tasks, [EvGot task])
  end.

Definition getTask (k : Task -> prog) : prog :=
  lock (WhileWait (fun s => no_tasks s && m_brunning s) m_notEmpty
    (Act pop_task (fun s =>
       match m_tasks s with
       | [] => unlock (k None)
       | task :: _ => notify m_notFull (unlock (k task))
       end))).

(** The loop of runInThread. *)
Definition work : prog :=
  Read (fun s =>
    if m_brunning s then
      getTask (fun task => match task with Some _ => Call (EvCall task) Again | None => Again end)
    else Done).

Definition runInThread (m_ThreadInitFunc : bool) : prog :=
  if m_ThreadInitFunc then Call EvInit work else work.

Definition isFull (m_maxQueueSize : Z) (s : pool) : bool := m_maxQueueSize <=? zlen (m_tasks s).

(** run: without threads, [Task();] makes and drops an empty function. *)
Definition run_task (num_threads : nat) (m_maxQueueSize : Z) (task : Task) (k : prog) : prog :=
  if Nat.eqb num_threads 0 then k
  else
    lock (WhileWait (isFull m_maxQueueSize) m_notFull
      (Act (fun s => Ok (mkPool (m_brunning s) (m_tasks s ++ [task]), [EvPut task])) (fun _ =>
      notify m_notEmpty (unlock k)))).

(** Thread::join of the object m_threads[t]. *)
Definition thread_join (t : tid) (k : prog) : prog := Use t join (Join t k).

Fixpoint join_all (ts : list tid) (k : prog) : prog :=
  match ts with [] => k | t :: ts => thread_join t (join_all ts k) end.

Definition stop (num_threads : nat) (k : prog) : prog :=
  lock (Act (fun s => Ok (mkPool false (m_tasks s), [])) (fun _ =>
    notifyAll m_notEmpty (unlock
    (join_all (seq 0 num_threads) k)))).

(** The body of the destructor. *)
Definition ThreadPool_delete (num_threads : nat) (k : prog) : prog :=
  Read (fun s => if m_brunning s then stop num_threads k else k).

(** What a client does with a pool; Delete is the end of its life. *)
Inductive call := RunTask (task : Task) | Stop | Delete.

Fixpoint client (n : nat) (max : Z) (cs : list call) : prog :=
  match cs with
  | [] => Done
  | RunTask task :: cs => run_task n max task (client n max cs)
  | Stop :: cs => stop n (client n max cs)
  | Delete :: cs => ThreadPool_delete n (client n max cs)
  end.

(** Some call stops the pool. *)
Definition stops (cs : list call) : bool :=
  existsb (fun c => match c with RunTask _ => false | Stop | Delete => true end) cs.

(** Nothing but the destructor, which looks at m_brunning, follows a stop. *)
Definition never_stop (cs : list call) : bool :=
  forallb (fun c => match c with Stop => false | _ => true end) cs.
Fixpoint stops_once (cs : list call) : bool :=
  match cs with
  | [] => true
  | RunTask _ :: cs => stops_once cs
  | (Stop | Delete) :: cs => never_stop cs
  end.

(** The object.  The constructor leaves m_maxQueueSize unset. *)
Record threadpool := mkThreadPool {
  m_name : bytes;
  m_ThreadInitFunc : bool;      (* not empty *)
  m_maxQueueSize : Z;
  data : pool;
  m_threads : list Thread
}.

Definition ThreadPool_new (junk : Z) (name : bytes) : threadpool :=
  mkThreadPool name false junk (mkPool false []) [].
Definition setMaxQueueSize (new_size : Z) (o : threadpool) : threadpool :=
  mkThreadPool (m_name o) (m_ThreadInitFunc o) new_size (data o) (m_threads o).
Definition setThreadInitFunc (cb : bool) (o : threadpool) : threadpool :=
  mkThreadPool (m_name o) cb (m_maxQueueSize o) (data o) (m_threads o).

(** The names start gives its threads: snprintf(id, 32, "%d", i + 1). *)
Definition thread_name (m_name : bytes) (i : Z) : outcome bytes :=
  id ← c_string (snprintf_stored 32 (dec_of_Z (i + 1)));
  Ok (m_name ++ id).

(** The loop of start from iteration [i] on: [created] tells of each
    pthread_create whether it succeeds, [m_ThreadNum] is Thread's counter. *)
Fixpoint start_threads (name : bytes) (i : Z) (created : list bool) (m_ThreadNum : Z)
  : outcome (list Thread * Z) :=
  match created with
  | [] => Ok ([], m_ThreadNum)
  | c :: created =>
      name_i ← thread_name name i;
      '(t, m_ThreadNum) ← Thread_new name_i m_ThreadNum;
      t ← Threads.start c t;
      '(ts, m_ThreadNum) ← start_threads name (i + 1) created m_ThreadNum;
      Ok (t :: ts, m_ThreadNum)
  end.

(** start: the object, the counter, and the functions the caller itself has
    called.  reserve throws when numfoThreads, as a size_t, is too large. *)
Definition start (pthread_create : nat -> bool) (numfoThreads : Z) (o : threadpool) (m_ThreadNum : Z)
  : outcome (threadpool * Z * list (event Task)) :=
  _ ← assert_ (match m_threads o with [] => true | _ => false end);
  if numfoThreads <? 0 then Fault LengthError
  else
    '(ts, m_ThreadNum) ← start_threads (m_name o) 0
        (map pthread_create (seq 0 (Z.to_nat numfoThreads))) m_ThreadNum;
    Ok (mkThreadPool (m_name o) (m_ThreadInitFunc o) (m_maxQueueSize o)
          (mkPool true (m_tasks (data o))) ts,
        m_ThreadNum,
        if (numfoThreads =? 0) && m_ThreadInitFunc o then [EvInit] else []).

(** The threads of a started pool, and those that use it: threads 0, 1, ... are
    those of m_threads (one that could not be created does nothing). *)
Definition worker (o : threadpool) (t : Thread) : prog * prog :=
  if m_started t then (runInThread (m_ThreadInitFunc o), work) else (Done, Done).
Definition serving (o : threadpool) (clients : list (list call)) : state pool (event Task) :=
  initial (data o) (m_threads o)
    (map (worker o) (m_threads o) ++
     map (fun cs => (client (length (m_threads o)) (m_maxQueueSize o) cs, Done)) clients).

(** ** Invariant *)

Section Proofs.
Variable max : Z.          (* m_maxQueueSize *)
Variable stoppable : bool. (* some client calls stop *)

Definition event_ok (h : list (event Task)) (e : event Task) : Prop :=
  takes_oldest h e /\ match e with EvPut _ => len h < max | _ => True end.

Definition Inv (s : pool) (h : list (event Task)) : Prop :=
  holds (m_tasks s) h /\ each event_ok h /\ (stoppable = false -> m_brunning s = true).

Definition Wait_ok (c : cond) (s : pool) (w : nat) : Prop :=
  (c = m_notEmpty /\ zlen (m_tasks s) <= Z.of_nat w /\ m_brunning s = true) \/
  (c = m_notFull /\ max - zlen (m_tasks s) <= Z.of_nat w).

Abbreviation psafe := (safe Inv Wait_ok (fun _ _ => False) (each event_ok)).

Lemma pool_may_intro c s w : Wait_ok c s w -> may Wait_ok c s w.
Proof. intros Hw. by exists w. Qed.

Lemma safe_getTask k : (forall task, psafe None (k task)) -> psafe None (getTask k).
Proof.
  intros Hk. cbn. intros s h HI. split_and!; try done. { intros c w Hw. by left. }
  clear s h HI. intros [running tasks] h (Hq & Hh & Hs). unfold no_tasks, pop_task. cbn in *.
  destruct tasks as [|task tasks]; cbn.
  - destruct running; cbn; [by left|]. rewrite app_nil_r. split_and!; [done|done| |done].
    split; [done|]. intros c w Hw. apply pool_may_intro. cbn in *.
    unfold may_awoken, Wait_ok, m_notFull, m_notEmpty in *. cbn in *. intuition lia.
  - assert (each event_ok (h ++ [EvGot task])) as Hh2.
    { apply each_snoc; [done|]. split; [by eapply holds_first|done]. }
    split_and!; [done|done| |done]. split; [split_and!; [by apply holds_got|done|done]|].
    intros c w Hw. apply pool_may_intro. cbn in *. unfold may_awoken, signalled, Wait_ok in *. cbn in *.
    rewrite zlen_cons in Hw.
    destruct (Nat.eqb_spec c m_notFull) as [->|Hne]; [destruct Hw as (w0 & -> & Hw)|];
      intuition (try discriminate; lia).
Qed.

Lemma safe_work : psafe None work.
Proof.
  intros s. cbv beta. destruct (m_brunning s); [|done]. apply safe_getTask. by intros [task|].
Qed.

Variable n : nat.          (* number of threads *)

Lemma safe_run task k : psafe None k -> psafe None (run_task n max task k).
Proof.
  intros Hk. unfold run_task. destruct (Nat.eqb n 0); [done|].
  cbn. intros s h HI. split_and!; try done. { intros c w Hw. by left. }
  clear s h HI. intros [running tasks] h (Hq & Hh & Hs). unfold isFull. cbn in *.
  destruct (Z.leb_spec max (zlen tasks)) as [Hf|Hf]; [right; split; [done|cbn; lia]|].
  assert (each event_ok (h ++ [EvPut task])) as Hh2.
  { apply each_snoc; [done|]. split; [done|]. by rewrite <- (holds_len _ _ Hq). }
  split_and!; [done|done| |done]. split; [split_and!; [by apply holds_put|done|done]|].
  intros c w Hw. apply pool_may_intro. cbn in *. unfold may_awoken, signalled, Wait_ok in *. cbn in *.
  rewrite zlen_app. unfold zlen at 2 4. cbn.
  destruct (Nat.eqb_spec c m_notEmpty) as [->|Hne]; [destruct Hw as (w0 & -> & Hw)|];
    intuition (try discriminate; lia).
Qed.

Lemma safe_join ts k : psafe None k -> psafe None (join_all ts k).
Proof. intros Hk. by induction ts. Qed.

Lemma safe_stop k : stoppable = true -> psafe None k -> psafe None (stop n k).
Proof.
  intros Hs Hk. cbn. intros [running tasks] h (Hq & Hh & _). rewrite app_nil_r. cbn in *.
  split_and!; [done|done| |by apply safe_join]. split; [split_and!; [done|done|congruence]|].
  intros c w [Hw Hne]. apply pool_may_intro. cbn in *. unfold Wait_ok in *. cbn in *.
  intuition (try discriminate; lia).
Qed.

Lemma stops_cons c cs : (stops (c :: cs) = true -> stoppable = true) ->
  stops cs = true -> stoppable = true.
Proof. unfold stops. cbn. intros Hs Hc. apply Hs. rewrite Hc. apply orb_true_r. Qed.

Lemma pool_safe cs : (stops cs = true -> stoppable = true) -> psafe None (client n max cs).
Proof.
  induction cs as [|[task| |] cs IH]; intros Hs; [done|apply safe_run|apply safe_stop|];
    try (by apply IH, (stops_cons _ _ Hs)); [by apply Hs|].
  intros s. cbv beta. destruct (m_brunning s); [apply safe_stop; [by apply Hs|]|];
    by apply IH, (stops_cons _ _ Hs).
Qed.

(** ** What each thread has called *)
Variable created : tid -> bool.   (* which of them run *)
Variable clients : list (list call).

(** The tasks a client submits. *)
Definition submitted (cs : list call) : list Task :=
  omap (fun c => match c with RunTask task => Some task | _ => None end) cs.
Definition submitted_by (t : tid) : list Task :=
  if Nat.ltb t n then []
  else match clients !! (t - n)%nat with Some cs => submitted cs | None => [] end.

Definition called (cls : list (event Task)) : list Task :=
  omap (fun e => match e with EvCall task => Some task | _ => None end) cls.
(** The functions that are not empty. *)
Definition nonempty (tasks : list Task) : list Task :=
  List.filter (fun task => match task with Some _ => true | None => false end) tasks.
(** A thread has called the tasks it has taken, in that order. *)
Definition matched (evs cls : list (event Task)) : Prop := called cls = nonempty (gots evs).

(** Unless it can be stopped, the pool runs, and its threads do not end. *)
Definition running (s : pool) : Prop := stoppable = false -> m_brunning s = true.
Definition at_loop (t : tid) (evs cls : list (event Task)) : Prop :=
  (t < n)%nat /\ created t = true /\ matched evs cls /\ puts evs = [].
Definition at_end (t : tid) (evs cls : list (event Task)) : Prop :=
  matched evs cls /\ ((t < n)%nat -> created t = true -> stoppable = true) /\
  puts evs = submitted_by t.
Definition at_wait (t : tid) (c : cond) (evs cls : list (event Task)) : Prop :=
  matched evs cls /\ c = (if Nat.ltb t n then m_notEmpty else m_notFull) /\
  ((t < n)%nat -> puts evs = []).
Definition at_join (t u : tid) (evs cls : list (event Task)) : Prop :=
  matched evs cls /\ (n <= t)%nat /\ (u < n)%nat /\ stoppable = true.

Abbreviation pkeeps := (keeps running at_loop at_end at_wait at_join).

Lemma matched_got evs cls task : matched evs cls ->
  matched (evs ++ [EvGot task]) (cls ++ match task with Some _ => [EvCall task] | None => [] end).
Proof.
  unfold matched, called, nonempty. intros H.
  rewrite gots_snoc, omap_app, List.filter_app, H. by destruct task.
Qed.

Lemma matched_put evs cls task : matched evs cls -> matched (evs ++ [EvPut task]) cls.
Proof. unfold matched. intros H. by rewrite gots_snoc, app_nil_r. Qed.

Lemma keeps_work t evs cls : at_loop t evs cls -> pkeeps t work evs cls.
Proof.
  intros (Ht & Hc & Hm & Hp). cbn. intros s0 HS. destruct (m_brunning s0) eqn:Hrun.
  2: { split_and!; [done| |].
       - intros _ _. unfold running in HS. destruct stoppable; [done|]. naive_solver.
       - unfold submitted_by. by destruct (Nat.ltb_spec t n); [|lia]. }
  cbn. split; [split_and!; [done|by destruct (Nat.ltb_spec t n); [|lia]|done]|].
  intros s s' es Hs. unfold pop_task. destruct (m_tasks s) as [|task tasks]; intros [= <- <-];
    (split; [exact Hs|]).
  - cbn. by rewrite app_nil_r.
  - apply (matched_got _ _ task) in Hm.
    assert (puts (evs ++ [EvGot task]) = []) by (by rewrite puts_snoc, app_nil_r).
    destruct task; cbn; [done|]. by rewrite app_nil_r in Hm.
Qed.

Lemma keeps_runInThread t init : (t < n)%nat -> created t = true -> pkeeps t (runInThread init) [] [].
Proof. intros Ht Hc. destruct init; cbn [runInThread keeps]; by apply keeps_work. Qed.

Lemma keeps_stop t k evs cls : (n <= t)%nat -> stoppable = true -> matched evs cls ->
  pkeeps t k evs cls -> pkeeps t (stop n k) evs cls.
Proof.
  intros Ht Hs Hm Hk. cbn. intros s s' es HS [= <- <-]. rewrite app_nil_r.
  split; [intros Hns; by rewrite Hs in Hns|].
  assert (Hj : forall ts, (forall u, u ∈ ts -> (u < n)%nat) -> pkeeps t (join_all ts k) evs cls).
  { induction ts as [|u ts IHts]; intros Hts; cbn; [done|].
    assert (Hj : at_join t u evs cls) by (split_and!; [done|done|apply Hts; left|done]).
    split; [done|]. split; [done|]. apply IHts. intros. apply Hts. by right. }
  apply Hj. intros u Hu%elem_of_seq. lia.
Qed.

Lemma keeps_client t cs evs cls : (n <= t)%nat -> n <> 0%nat ->
  (stops cs = true -> stoppable = true) ->
  matched evs cls -> puts evs ++ submitted cs = submitted_by t -> pkeeps t (client n max cs) evs cls.
Proof.
  intros Ht Hn. revert evs. induction cs as [|[task| |] cs IH]; intros evs Hs Hm Hp.
  - split_and!; [done|lia|]. by rewrite app_nil_r in Hp.
  - unfold client, run_task. fold (client n max cs). rewrite (proj2 (Nat.eqb_neq n 0) Hn).
    cbn. split; [split_and!; [done|by destruct (Nat.ltb_spec t n); [lia|]|lia]|].
    intros s s' es HS [= <- <-]. split; [exact HS|].
    apply IH; [exact (stops_cons _ _ Hs)|by apply matched_put|].
    rewrite puts_snoc, <- app_assoc. exact Hp.
  - apply keeps_stop; [done|by apply Hs|done|]. apply IH; [exact (stops_cons _ _ Hs)|done|done].
  - intros s0 _. assert (pkeeps t (client n max cs) evs cls)
      by (apply IH; [exact (stops_cons _ _ Hs)|done|done]).
    destruct (m_brunning s0); [|done]. apply keeps_stop; [done|by apply Hs|done|done].
Qed.

End Proofs.

(** ** The whole pool *)
Section System.
Variable o : threadpool.
Variable stoppable : bool.
Variable clients : list (list call).
Abbreviation n := (length (m_threads o)).
Abbreviation max := (m_maxQueueSize o).
Abbreviation init := (m_ThreadInitFunc o).
Definition created (t : tid) : bool :=
  match m_threads o !! t with Some th => m_started th | None => false end.
Abbreviation pok := (ok (Inv max stoppable) (Wait_ok max) (fun _ _ => False) (each (event_ok max))).

Lemma serving_view t c b cl : views (serving o clients) !! t = Some (c, b, cl) ->
  cl = [] /\
  (((t < n)%nat /\ created t = true /\ c = runInThread init /\ b = work) \/
   ((t < n)%nat /\ created t = false /\ c = Done /\ b = Done) \/
   ((n <= t)%nat /\ exists cs, clients !! (t - n)%nat = Some cs /\ c = client n max cs /\ b = Done)).
Proof.
  intros Hl. unfold views, serving, initial in Hl. cbn [threads] in Hl. rewrite map_map in Hl.
  rewrite list_lookup_fmap in Hl. destruct (decide (t < n)%nat) as [Ht|Ht].
  - rewrite lookup_app_l in Hl by (rewrite length_map; lia). rewrite list_lookup_fmap in Hl.
    unfold created. destruct (m_threads o !! t) as [th|] eqn:Eth; [|done].
    unfold worker in Hl. cbn in Hl. destruct (m_started th); cbn in Hl; injection Hl as <- <- <-;
      (split; [done|]); [left|right; left]; by split_and!.
  - rewrite lookup_app_r in Hl by (rewrite length_map; lia). rewrite length_map in Hl.
    rewrite list_lookup_fmap in Hl. destruct (clients !! _) as [cs|]; [|done].
    cbn in Hl. injection Hl as <- <- <-. split; [done|]. right. right. split; [lia|].
    by exists cs.
Qed.

Hypothesis Hn : n <> 0%nat.
Hypothesis Hdata : data o = mkPool true [].
Hypothesis Hstops : forall cs, cs ∈ clients -> stops cs = true -> stoppable = true.
Variable st : state pool (event Task).
Hypothesis Hr : reachable (serving o clients) st.

Lemma pool_ok : pok st /\ each (event_ok max) (history st).
Proof.
  assert (Hi : pok (serving o clients)).
  { apply initial_ok; [rewrite Hdata; split_and!; [done|apply each_nil|done]|].
    apply Forall_app. split; apply Forall_map, Forall_forall.
    - intros t _. unfold worker. destruct (m_started t); [|done]. cbn [fst snd].
      split; [|apply safe_work]. destruct init; cbn [runInThread]; apply safe_work.
    - intros cs Hcs. split; [|done]. apply pool_safe. by apply Hstops. }
  split; [by eapply reachable_ok|]. eapply reachable_hist; [done|apply each_nil|done].
Qed.

Lemma pool_not_faulty t th : threads st !! t = Some th -> faulty t th st = false.
Proof.
  intros E1. destruct (faulty t th st) eqn:Hf; [|done].
  destruct pool_ok as [Hok _]. by destruct (ok_not_faulty _ _ _ _ _ _ _ Hok E1 Hf).
Qed.

Lemma pool_keeps : all_keep (running stoppable) (at_loop n created)
  (at_end stoppable n created clients) (at_wait n) (at_join stoppable n) st.
Proof.
  eapply reachable_keeps; [exact Hr|]. split; [intros _; cbn; by rewrite Hdata|].
  intros t c b cl Hl. change (events_of t (serving o clients)) with (@nil (event Task)).
  destruct (serving_view _ _ _ _ Hl) as (-> & [(Ht & Hc & -> & ->)|[(Ht & Hc & -> & ->)|(Ht & cs & Hcs & -> & ->)]]).
  - split; [by apply keeps_runInThread|]. intros evs cls. apply keeps_work.
  - split; [|intros evs cls (_ & ? & _); congruence]. split_and!; [done|congruence|].
    unfold submitted_by. by destruct (Nat.ltb_spec t n); [|lia].
  - split; [|intros evs cls (? & _); lia]. apply keeps_client; [lia|done| |done|].
    + apply Hstops. by eapply list_elem_of_lookup_2.
    + unfold submitted_by. destruct (Nat.ltb_spec t n); [lia|]. by rewrite Hcs.
Qed.

(** Where the threads are when nobody can run. *)
Lemma pool_stuck t th : stuck st -> threads st !! t = Some th ->
  matched (events_of t st) (calls th) /\
  ((t < n)%nat \/ is_done th = true -> puts (events_of t st) = submitted_by n clients t) /\
  ((is_done th = true /\ ((t < n)%nat -> created t = true -> stoppable = true)) \/
   ((t < n)%nat /\ stat th = Waiting m_notEmpty /\ m_tasks (shared st) = [] /\
      m_brunning (shared st) = true) \/
   ((n <= t)%nat /\ stat th = Waiting m_notFull /\ max <= zlen (m_tasks (shared st))) \/
   ((n <= t)%nat /\ stoppable = true /\ exists u, (u < n)%nat /\
      match threads st !! u with Some th' => is_done th' = false | None => True end) \/
   (stoppable = true /\ aborts th st = true)).
Proof.
  intros Hst E1. destruct pool_ok as [Hok _].
  destruct (stuck_blocked _ _ _ _ _ Hok Hst pool_not_faulty) as [Ho Hb].
  specialize (Hb _ _ E1).
  destruct pool_keeps as [_ Hkeep].
  destruct (Hkeep t (code th) (body th) (calls th)) as [Hk _].
  { unfold views. by rewrite list_lookup_fmap, E1. }
  unfold blocked in Hb. unfold is_done. destruct (stat th) eqn:Hs.
  - destruct (code th) eqn:Hc; try done.
    + destruct Hk as (Hm & He & Hp). split_and!; [done|done|by left].
    + destruct Hk as [(Hm & Ht & Hu & Hst') _]. split_and!; [done|lia|].
      do 4 right. split; [done|]. unfold aborts. by rewrite Hs, Hc.
    + destruct Hk as [(Hm & Ht & Hu & Hst') _]. split_and!; [done|lia|].
      do 3 right. left. split_and!; [done|done|]. by exists t0.
  - destruct Hok as [_ Hot]. destruct (Hot _ _ E1) as [Hout _]. rewrite Ho in Hout.
    specialize (Hout ltac:(done)). unfold outside_ok in Hout. rewrite Hs in Hout.
    destruct Hout as (k & Hc & _). rewrite Hc in Hk |- *. destruct Hk as [(Hm & Hcv & Hp) _].
    split; [done|]. unfold Wait_ok in Hb. unfold submitted_by. destruct (Nat.ltb_spec t n); subst c.
    + split; [intros _; by apply Hp|]. right. left. destruct Hb as [(_ & Hb & Hrun)|[? _]]; [|done].
      unfold zlen in Hb. destruct (m_tasks (shared st)); [done|cbn in Hb; lia].
    + split; [intros [?|?]; [lia|done]|]. right. right. left.
      destruct Hb as [(? & _)|[_ Hb]]; [done|]. split_and!; [lia|done|lia].
  - done.
Qed.

(** Everything taken has been called, exactly once. *)
Lemma pool_called : stuck st ->
  concat (map (fun th => called (calls th)) (threads st)) ≡ₚ nonempty (gots (history st)).
Proof.
  intros Hst.
  assert (Hg : forall h h', h ≡ₚ h' -> nonempty (gots h) ≡ₚ nonempty (gots h')).
  { intros h h' Hp. unfold gots, nonempty. by rewrite Hp. }
  rewrite (Hg _ _ (history_perm _ _ Hr eq_refl)). clear Hg.
  pose proof (reachable_num_threads _ _ Hr) as Hlen. rewrite <- Hlen. clear Hlen.
  assert (Hall : forall t th, threads st !! t = Some th ->
    called (calls th) = nonempty (gots (events_of t st))).
  { intros t th E1. by apply (pool_stuck t th Hst). }
  unfold codes. rewrite length_fmap.
  assert (Happ : forall hs : list (list (event Task)), nonempty (gots (concat hs)) =
    concat (map (fun h => nonempty (gots h)) hs)).
  { induction hs as [|h hs IH]; cbn; [done|]. unfold gots, nonempty in *.
    by rewrite omap_app, List.filter_app, IH. }
  rewrite Happ, map_map. apply reflexive_eq. f_equal.
  apply list_eq. intros t. rewrite !list_lookup_fmap.
  destruct (threads st !! t) as [th|] eqn:E1.
  - rewrite lookup_seq_lt by (by eapply lookup_lt_Some). cbn. by rewrite (Hall _ _ E1).
  - rewrite lookup_seq_ge; [done|]. by apply lookup_ge_None.
Qed.

Lemma pool_num_threads : length (threads st) = (n + length clients)%nat.
Proof.
  pose proof (reachable_num_threads _ _ Hr) as H. unfold codes, serving, initial in H. cbn in H.
  by rewrite !length_fmap, length_app, !length_map in H.
Qed.

(** If all clients have ended, what has been put is what they submitted. *)
Lemma pool_puts : stuck st ->
  (forall t th, (n <= t)%nat -> threads st !! t = Some th -> is_done th = true) ->
  puts (history st) ≡ₚ concat (map submitted clients).
Proof.
  intros Hst Hdone. unfold puts at 1. rewrite (history_perm _ _ Hr eq_refl).
  rewrite <- (reachable_num_threads _ _ Hr). unfold codes. rewrite length_fmap, pool_num_threads.
  assert (Happ : forall hs : list (list (event Task)), puts (concat hs) = concat (map puts hs)).
  { induction hs as [|h hs IH]; cbn; [done|]. unfold puts in *. by rewrite omap_app, IH. }
  fold (puts (concat (map (fun t => events_of t st) (seq 0 (n + length clients))))).
  rewrite Happ, map_map. apply reflexive_eq.
  rewrite (map_ext_in _ (submitted_by n clients)).
  - rewrite seq_app, map_app, concat_app.
    replace (concat (map (submitted_by n clients) (seq 0 n))) with (@nil Task).
    + cbn. f_equal. apply list_eq. intros i. rewrite !list_lookup_fmap.
      destruct (clients !! i) as [cs|] eqn:Hcs.
      * rewrite lookup_seq_lt by (by eapply lookup_lt_Some). cbn. unfold submitted_by.
        destruct (Nat.ltb_spec (n + i) n); [lia|].
        replace (n + i - n)%nat with i by lia. by rewrite Hcs.
      * rewrite lookup_seq_ge; [done|]. by apply lookup_ge_None.
    + assert (Hz : forall ts, (forall u, u ∈ ts -> (u < n)%nat) ->
        concat (map (submitted_by n clients) ts) = []).
      { induction ts as [|u ts IH]; intros Hts; cbn; [done|]. unfold submitted_by at 1.
        destruct (Nat.ltb_spec u n) as [|Hu]; [|pose proof (Hts u ltac:(left)); lia].
        apply IH. intros. apply Hts. by right. }
      symmetry. apply Hz. intros u Hu%elem_of_seq. lia.
  - intros t Ht%list_elem_of_In%elem_of_seq.
    destruct (threads st !! t) as [th|] eqn:E1.
    + destruct (pool_stuck t th Hst E1) as (_ & Hp & _). apply Hp.
      destruct (decide (t < n)%nat); [by left|]. right. apply (Hdone t); [lia|done].
    + apply lookup_ge_None in E1. rewrite pool_num_threads in E1. lia.
Qed.
End System.

(** ** One client that stops the pool

    It can join every thread; the others never touch the Thread objects. *)
Definition stopped (s : pool) : bool := negb (m_brunning s).

Abbreviation puses := (uses stopped).
Abbreviation pcalm := (calm stopped).

Lemma calm_work : pcalm work.
Proof.
  intros s. destruct (m_brunning s); [|done]. cbn. intros s0 s' es. unfold pop_task.
  destruct (m_tasks s0) as [|[task|] tasks]; intros [= <- <-]; done.
Qed.

Lemma calm_client n max cs : stops cs = false -> pcalm (client n max cs).
Proof.
  induction cs as [|[task| |] cs IH]; intros Hs; try done. cbn [client]. unfold run_task.
  specialize (IH Hs). destruct (Nat.eqb n 0); [done|]. cbn. by intros s s' es [= <- <-].
Qed.

(** Objects that can be joined. *)
Definition joinable (objs : list Thread) (i : tid) : Prop :=
  exists t, objs !! i = Some t /\ m_started t = true /\ m_joined t = false.

Lemma uses_join_all ts k kn objs : NoDup ts -> (forall i, i ∈ ts -> joinable objs i) ->
  (forall objs, puses k kn objs) -> puses (join_all ts k) kn objs.
Proof.
  intros Hnd Hj Hk. revert objs Hj. induction Hnd as [|i ts Hi _ IH]; intros objs Hj; [by apply Hk|].
  destruct (Hj i ltac:(left)) as (t & Ht & Hs & Hm). cbn. rewrite Ht. unfold join.
  rewrite Hs, Hm. cbn. apply IH. intros j Hin. unfold joinable. rewrite list_lookup_insert_ne by set_solver.
  apply Hj. by right.
Qed.

Lemma uses_run n max task k kn objs : (forall kn, puses k kn objs) ->
  puses (run_task n max task k) kn objs.
Proof.
  intros Hk. unfold run_task. destruct (Nat.eqb n 0); [done|]. cbn. by intros s s' es _ [= <- <-].
Qed.

(** After the pool has been stopped, it stays so, and is not joined again. *)
Lemma uses_never_stop n max cs objs : never_stop cs = true -> puses (client n max cs) true objs.
Proof.
  revert objs. induction cs as [|[task| |] cs IH]; intros objs Hs; try done.
  - cbn [client]. unfold run_task. destruct (Nat.eqb n 0); [by apply IH|].
    cbn. intros s s' es Hkn [= <- <-]. specialize (IH objs Hs).
    assert (Hst : stopped (mkPool (m_brunning s) (m_tasks s ++ [task])) = true) by exact (Hkn eq_refl).
    by rewrite Hst.
  - cbn. intros s Hkn. specialize (Hkn eq_refl). apply negb_true_iff in Hkn. rewrite Hkn.
    by apply IH.
Qed.

Lemma uses_stop n max cs kn objs : (forall i, (i < n)%nat -> joinable objs i) ->
  never_stop cs = true -> puses (stop n (client n max cs)) kn objs.
Proof.
  intros Hj Hs. cbn. intros s s' es _ [= <- <-]. cbn. apply uses_join_all.
  - apply NoDup_seq.
  - intros i Hi%elem_of_seq. apply Hj. lia.
  - intros objs'. by apply uses_never_stop.
Qed.

Lemma never_stop_once cs : never_stop cs = true -> stops_once cs = true.
Proof. induction cs as [|[task| |] cs IH]; intros Hs; try done. by apply IH. Qed.

Lemma uses_client n max cs kn objs : (forall i, (i < n)%nat -> joinable objs i) ->
  stops_once cs = true -> puses (client n max cs) kn objs.
Proof.
  intros Hj. revert kn. induction cs as [|[task| |] cs IH]; intros kn Hs; [done|..]; cbn [client].
  - apply uses_run. intros kn'. by apply IH.
  - by apply uses_stop.
  - unfold ThreadPool_delete. cbn -[stop]. intros s _.
    destruct (m_brunning s); [by apply uses_stop|]. by apply IH, never_stop_once.
Qed.

Lemma serving_one_user o clients w cs :
  (forall i, (i < length (m_threads o))%nat -> joinable (m_threads o) i) ->
  clients !! w = Some cs -> stops_once cs = true ->
  (forall j cs, j <> w -> clients !! j = Some cs -> stops cs = false) ->
  one_user stopped (length (m_threads o) + w) (serving o clients).
Proof.
  intros Hj Hw Hs Ho.
  assert (Hp : forall t c b, progs (serving o clients) !! t = Some (c, b) ->
    ((t < length (m_threads o))%nat /\ pcalm c /\ pcalm b) \/
    exists cs, (length (m_threads o) <= t)%nat /\ clients !! (t - length (m_threads o))%nat = Some cs /\
      c = client (length (m_threads o)) (m_maxQueueSize o) cs /\ b = Done).
  { intros t c b Hl.
    assert (Hv : exists cl, views (serving o clients) !! t = Some (c, b, cl)).
    { unfold progs in Hl. apply list_lookup_fmap_Some_1 in Hl as (th & Heq & Hth).
      exists (calls th). unfold views. rewrite list_lookup_fmap, Hth. cbn. unfold view.
      by injection Heq as -> ->. }
    destruct Hv as [cl Hv].
    destruct (serving_view _ _ _ _ _ _ Hv) as (_ & [(Ht & _ & -> & ->)|[(Ht & _ & -> & ->)|(Ht & cs' & Hcs & -> & ->)]]).
    - left. split; [done|]. split; [|apply calm_work].
      destruct (m_ThreadInitFunc o); cbn [runInThread calm]; apply calm_work.
    - by left.
    - right. by exists cs'. }
  split.
  - intros t c b Ht Hl. destruct (Hp _ _ _ Hl) as [(_ & ? & ?)|(cs' & Hle & Hcs & -> & ->)]; [done|].
    split; [|done]. apply calm_client. apply (Ho (t - length (m_threads o))%nat); [lia|done].
  - intros c b Hl. destruct (Hp _ _ _ Hl) as [(? & _)|(cs' & Hle & Hcs & -> & ->)]; [lia|].
    replace (_ + w - _)%nat with w in Hcs by lia. rewrite Hw in Hcs. injection Hcs as <-.
    exists false. split; [done|]. by apply uses_client.
Qed.

(** ** start *)

Lemma start_threads_ok name i created num ts num' :
  start_threads name i created num = Ok (ts, num') ->
  map m_started ts = created /\ Forall (fun t => m_joined t = false) ts.
Proof.
  revert i num ts num'. induction created as [|c created IH]; intros i num ts num' Hs.
  - cbn in Hs. by simplify_eq.
  - cbn [start_threads] in Hs. unfold_monad. destruct (thread_name name i) as [nm|]; [|done].
    cbn [mbind outcome_bind] in Hs. unfold Thread_new in Hs. destruct (setDefaultName nm num) as [[nm' num1]|]; [|done].
    cbn in Hs. unfold Threads.start in Hs. cbn in Hs.
    destruct (start_threads name (i + 1) created num1) as [[ts' num2]|] eqn:E1; [|done].
    cbn in Hs. simplify_eq. destruct (IH _ _ _ _ E1) as [<- Hall].
    destruct c; (split; [done|by constructor]).
Qed.

(** What start leaves: a running pool, with one Thread object per thread. *)
Lemma start_ok pthread_create k o num p num' evs :
  start pthread_create k o num = Ok (p, num', evs) ->
  0 <= k /\ m_threads o = [] /\ length (m_threads p) = Z.to_nat k /\
  data p = mkPool true (m_tasks (data o)) /\ m_maxQueueSize p = m_maxQueueSize o /\
  m_ThreadInitFunc p = m_ThreadInitFunc o /\
  (forall i, (i < Z.to_nat k)%nat -> exists t, m_threads p !! i = Some t /\
     m_started t = pthread_create i /\ m_joined t = false) /\
  evs = (if (k =? 0) && m_ThreadInitFunc o then [EvInit] else []).
Proof.
  unfold start. intros Hs. destruct (m_threads o); [|done]. unfold_monad.
  destruct (Z.ltb_spec k 0); [done|].
  destruct (start_threads _ _ _ _) as [[ts num1]|] eqn:E1; [|done]. simplify_eq/=.
  apply start_threads_ok in E1 as [Hst Hj].
  assert (Hlen : length ts = Z.to_nat k)
    by (rewrite <- (length_map m_started), Hst, length_map; apply length_seq).
  split_and!; try done. intros i Hi.
  destruct (lookup_lt_is_Some_2 ts i) as [t Ht]; [lia|]. exists t. split; [done|].
  rewrite Forall_lookup in Hj. split; [|by eapply Hj].
  assert (Hm : map m_started ts !! i = Some (pthread_create i)).
  { rewrite Hst, list_lookup_fmap, lookup_seq_lt by lia. done. }
  rewrite list_lookup_fmap, Ht in Hm. by injection Hm.
Qed.

(** start succeeds, as long as the numbers of the threads are ints. *)
Lemma thread_name_ok name i : 0 <= i < 2 ^ 31 ->
  thread_name name i = Ok (name ++ dec_of_Z (i + 1)).
Proof.
  intros Hi. unfold thread_name.
  pose proof (length_dec_of_Z 10 (i + 1) ltac:(simpl in *; lia) ltac:(lia)) as Hl.
  rewrite snprintf_fits by (unfold zlen; lia).
  rewrite c_string_app; [done|]. apply (nul_free_digits (i + 1)), dec_of_Z_digits. lia.
Qed.

Lemma start_threads_succeeds name i created num : 0 <= i -> i + zlen created <= 2 ^ 31 ->
  0 <= num -> num + zlen created < 2 ^ 31 ->
  exists ts, start_threads name i created num = Ok (ts, num + zlen created).
Proof.
  revert i num. induction created as [|c created IH]; intros i num Hi Hl Hn Hb.
  - exists []. by rewrite zlen_nil, Z.add_0_r.
  - rewrite zlen_cons in Hl, Hb |- *. pose proof (zlen_nonneg created).
    cbn [start_threads]. rewrite thread_name_ok by lia. cbn [mbind outcome_bind].
    rewrite Thread_new_ok by lia. cbn [mbind outcome_bind].
    destruct (IH (i + 1) (num + 1)) as [ts Hts]; [lia..|].
    eexists. unfold Threads.start. cbn [m_started negb assert_ mbind outcome_bind].
    rewrite Hts. cbn [mbind outcome_bind]. do 2 f_equal. lia.
Qed.

Lemma start_succeeds pthread_create k junk name max num : 0 <= k -> 0 <= num -> num + k < 2 ^ 31 ->
  exists p evs, start pthread_create k (setMaxQueueSize max (ThreadPool_new junk name)) num =
    Ok (p, num + k, evs).
Proof.
  intros Hk Hn Hb. unfold start. cbn [m_threads setMaxQueueSize ThreadPool_new assert_ mbind outcome_bind].
  destruct (Z.ltb_spec k 0); [lia|].
  assert (Hl : zlen (map pthread_create (seq 0 (Z.to_nat k))) = k).
  { unfold zlen. rewrite length_map, length_seq. lia. }
  destruct (start_threads_succeeds name 0 (map pthread_create (seq 0 (Z.to_nat k))) num) as [ts Hts];
    [lia..|]. cbn [m_name setMaxQueueSize ThreadPool_new]. rewrite Hts, Hl. by eexists _, _.
Qed.
End ThreadPool.
Arguments call : clear implicits.
Arguments pool : clear implicits.

(** ** Results *)

Lemma unlocked_holds {F} max stoppable (st : state (pool F) (event (option F))) :
  ok (Inv max stoppable) (Wait_ok max) (fun _ _ => False) (each (event_ok max)) st -> stuck st ->
  (forall t th, threads st !! t = Some th -> faulty t th st = false) ->
  holds (m_tasks (shared st)) (history st).
Proof.
  intros Hok Hst Hnf. destruct (stuck_blocked _ _ _ _ _ Hok Hst Hnf) as [Ho _].
  by destruct (ok_unlocked _ _ _ _ _ Hok Ho) as (_ & [HI _] & _).
Qed.

(** A pool as its user sets it up. *)
Definition new_pool {F} (junk : Z) (name : bytes) (init : bool) (max : Z) : @threadpool F :=
  setMaxQueueSize max (setThreadInitFunc init (ThreadPool_new junk name)).

(** Two workers, a queue of at most one task, a client that submits three tasks;
    the second pthread_create fails. *)
Definition example_clients : list (list (call nat)) :=
  [[RunTask (Some 10%nat); RunTask (Some 20%nat); RunTask None]].
Definition example_create (i : nat) : bool := Nat.eqb i 0.
Definition example_object : @threadpool nat :=
  mkThreadPool (lit "pool") true 1 (mkPool true [])
    [Threads.mkThread 0 (lit "pool1") true false [Create];
     Threads.mkThread 0 (lit "pool2") false false []].
Definition example_pool := serving example_object example_clients.

Lemma example_started :
  start example_create 2 (new_pool 7 (lit "pool") true 1) 0 = Ok (example_object, 2, []).
Proof. vm_compute. reflexivity. Qed.

(** The schedule that always runs the first thread that can run. *)
Fixpoint eager_label {S E} (n : nat) (t : tid) (st : state S E) : option (label * state S E) :=
  match n with
  | O => None
  | Datatypes.S n =>
      match step (Run t None) st with
      | Some st' => Some (Run t None, st')
      | None =>
          match step (Run t (Some 0%nat)) st, step (Run t (Some 1%nat)) st with
          | Some st', _ => Some (Run t (Some 0%nat), st')
          | None, Some st' => Some (Run t (Some 1%nat), st')
          | None, None => eager_label n (Datatypes.S t) st
          end
      end
  end.
Fixpoint eager {S E} (fuel : nat) (st : state S E) : list label :=
  match fuel with
  | O => []
  | Datatypes.S fuel =>
      match eager_label (length (threads st)) 0 st with
      | Some (l, st') => l :: eager fuel st'
      | None => []
      end
  end.
Definition example_schedule : list label := eager 200 example_pool.
Definition example_end := after example_schedule example_pool.

Lemma pool_example_reachable : reachable example_pool example_end.
Proof. apply after_reachable. vm_compute. reflexivity. Qed.

(** C2. Every task given to run is called exactly once: when start has created
    at least one thread, the queue has room for a task, and nobody stops or
    destroys the pool, then, whenever no thread can run, all clients have
    returned from run, no task is queued, and the functions that the threads
    have called are those submitted that are not empty. *)
Theorem pool_runs_every_task {F} junk name init max pthread_create k num p num' evs
    (clients : list (list (call F))) st :
  start pthread_create k (new_pool junk name init max) num = Ok (p, num', evs) ->
  (exists i, Z.of_nat i < k /\ pthread_create i = true) -> 0 < max ->
  (forall cs, cs ∈ clients -> stops cs = false) ->
  reachable (serving p clients) st -> stuck st ->
  (forall t th, (Z.to_nat k <= t)%nat -> threads st !! t = Some th -> is_done th = true) /\
  m_tasks (shared st) = [] /\
  concat (map (fun th => called (calls th)) (threads st)) ≡ₚ
    nonempty (concat (map submitted clients)).
Proof.
  intros Hstart (i & Hi & Hc) Hmax Hns Hr Hst.
  destruct (start_ok _ _ _ _ _ _ _ Hstart) as (_ & _ & Hlen & Hd & Hm & _ & Hcr & _).
  cbn in Hd, Hm. assert (Hn : length (m_threads p) <> 0%nat) by lia.
  assert (Hs : forall cs, cs ∈ clients -> stops cs = true -> false = true)
    by (intros cs H1 H2; rewrite (Hns cs H1) in H2; done).
  pose proof (pool_stuck p false clients Hn Hd Hs st Hr) as Hall.
  destruct (pool_ok p false clients Hd Hs st Hr) as [Hok _].
  assert (Hcreated : created p i = true).
  { destruct (Hcr i) as (t & Ht & Hst' & _); [lia|]. unfold created. by rewrite Ht, Hst'. }
  assert (Hempty : m_tasks (shared st) = []).
  { destruct (threads st !! i) as [th|] eqn:E1.
    - destruct (Hall _ _ Hst E1) as (_ & _ & [[_ He]|[(_ & _ & ? & _)|[[? _]|[(_ & ? & _)|[? _]]]]]);
        [|done|lia|done..]. by specialize (He ltac:(lia) Hcreated).
    - apply lookup_ge_None in E1. rewrite (pool_num_threads p clients st Hr) in E1. lia. }
  assert (Hdone : forall t th, (length (m_threads p) <= t)%nat -> threads st !! t = Some th ->
    is_done th = true).
  { intros t th Ht E1.
    destruct (Hall _ _ Hst E1) as (_ & _ & [[? _]|[[? _]|[(_ & _ & Hfull)|[(_ & ? & _)|[? _]]]]]);
      [done|lia| |done..]. rewrite Hempty, zlen_nil, Hm in Hfull. lia. }
  split_and!; [by rewrite <- Hlen|done|].
  rewrite (pool_called p false clients Hn Hd Hs st Hr Hst).
  pose proof (unlocked_holds _ false st Hok Hst (pool_not_faulty p false clients Hd Hs st Hr)) as HI.
  unfold holds in HI. rewrite Hempty, app_nil_r in HI. rewrite <- HI.
  unfold nonempty. by rewrite (pool_puts p false clients Hn Hd Hs st Hr Hst Hdone).
Qed.

Lemma pool_runs_every_task_witness :
  concat (map (fun th => called (calls th)) (threads example_end)) ≡ₚ [Some 10%nat; Some 20%nat].
Proof.
  apply (pool_runs_every_task 7 (lit "pool") true 1 example_create 2 0 example_object 2 []
    example_clients).
  - exact example_started.
  - exists 0%nat. split; [lia|reflexivity].
  - lia.
  - intros cs Hcs. apply elem_of_cons in Hcs as [->|Hcs]; [reflexivity|by inversion Hcs].
  - exact pool_example_reachable.
  - apply idle_stuck. vm_compute. repeat constructor.
Defined.

(** C30. stop, called directly or by the destructor of a running pool, ends the
    threads.  When every pthread_create has succeeded and one client stops the
    pool, once, no assert of Thread::join fails; and when the pool has been
    stopped and no thread can run, every thread of the pool has ended, each task
    it had taken has been called exactly once, and a client that has not finished
    is blocked in run on a full queue (which stop does not wake up). *)
Theorem pool_stop_ends_threads {F} junk name init max pthread_create k num p num' evs
    (clients : list (list (call F))) w cs st :
  start pthread_create k (new_pool junk name init max) num = Ok (p, num', evs) -> 0 < k ->
  (forall i, Z.of_nat i < k -> pthread_create i = true) ->
  clients !! w = Some cs -> stops_once cs = true ->
  (forall j cs, j <> w -> clients !! j = Some cs -> stops cs = false) ->
  reachable (serving p clients) st ->
  (forall t th, threads st !! t = Some th -> aborts th st = false) /\
  (stuck st -> m_brunning (shared st) = false ->
   (forall t th, (t < Z.to_nat k)%nat -> threads st !! t = Some th -> is_done th = true) /\
   (forall t th, (Z.to_nat k <= t)%nat -> threads st !! t = Some th ->
      is_done th = true \/ (stat th = Waiting m_notFull /\ max <= zlen (m_tasks (shared st)))) /\
   concat (map (fun th => called (calls th)) (threads st)) ≡ₚ nonempty (gots (history st))).
Proof.
  intros Hstart Hk Hc Hw Honce Hothers Hr.
  destruct (start_ok _ _ _ _ _ _ _ Hstart) as (_ & _ & Hlen & Hd & Hm & _ & Hcr & _).
  cbn in Hd, Hm. assert (Hn : length (m_threads p) <> 0%nat) by lia.
  assert (Hj : forall i, (i < length (m_threads p))%nat -> joinable (m_threads p) i).
  { intros i Hi. destruct (Hcr i) as (t & Ht & Hst & Hjn); [lia|]. exists t. split_and!; [done| |done].
    rewrite Hst. apply Hc. lia. }
  assert (Hna : forall t th, threads st !! t = Some th -> aborts th st = false).
  { intros t th. eapply one_user_no_abort, reachable_one_user; [exact Hr|]. by eapply serving_one_user. }
  split; [done|]. intros Hst Hrun.
  assert (Hs : forall cs, cs ∈ clients -> stops cs = true -> true = true) by done.
  pose proof (pool_stuck p true clients Hn Hd Hs st Hr) as Hall.
  assert (Hends : forall t th, (t < length (m_threads p))%nat -> threads st !! t = Some th ->
    is_done th = true).
  { intros t th Ht E1.
    destruct (Hall _ _ Hst E1) as (_ & _ & [[? _]|[(_ & _ & _ & ?)|[[? _]|[[? _]|[_ Ha]]]]]);
      [done|congruence|lia|lia|]. by rewrite (Hna _ _ E1) in Ha. }
  rewrite <- Hlen. split_and!; [done| |by apply (pool_called p true clients)].
  intros t th Ht E1.
  destruct (Hall _ _ Hst E1) as (_ & _ & [[? _]|[[? _]|[(_ & ? & Hf)|[(_ & _ & u & Hu & Hju)|[_ Ha]]]]]).
  - by left.
  - lia.
  - right. by rewrite Hm in Hf.
  - destruct (threads st !! u) as [th'|] eqn:E2.
    + by rewrite (Hends _ _ Hu E2) in Hju.
    + apply lookup_ge_None in E2. rewrite (pool_num_threads p clients st Hr) in E2. lia.
  - by rewrite (Hna _ _ E1) in Ha.
Qed.

(** One thread, a queue of one task, a client that submits and one that stops. *)
Definition stop_clients : list (list (call nat)) :=
  [[RunTask (Some 1%nat); RunTask (Some 2%nat); RunTask (Some 3%nat)]; [Delete]].
Definition stop_object : @threadpool nat :=
  mkThreadPool [] false 1 (mkPool true []) [Threads.mkThread 0 (lit "1") true false [Create]].
Definition stop_pool := serving stop_object stop_clients.
(** The submitter fills the queue and blocks; the destructor, which stops the
    pool, runs before the worker starts. *)
Definition stop_schedule : list label :=
  repeat (Run 1 None) 12 ++ repeat (Run 2 None) 8 ++ [Run 0 None; Run 2 None].
Definition stop_end := after stop_schedule stop_pool.

Lemma stop_started :
  start (fun _ => true) 1 (new_pool 7 [] false 1) 0 = Ok (stop_object, 1, []).
Proof. vm_compute. reflexivity. Qed.

Lemma stop_reachable : reachable stop_pool stop_end.
Proof. apply after_reachable. vm_compute. reflexivity. Qed.

Lemma stop_stuck : stuck stop_end.
Proof. apply idle_stuck. vm_compute. repeat constructor. Qed.

Lemma pool_stop_ends_threads_witness :
  m_brunning (shared stop_end) = false /\
  concat (map (fun th => called (calls th)) (threads stop_end)) ≡ₚ nonempty (gots (history stop_end)).
Proof.
  split; [vm_compute; reflexivity|].
  apply (pool_stop_ends_threads 7 [] false 1 (fun _ => true) 1 0 stop_object 1 [] stop_clients 1
    [Delete] stop_end).
  - exact stop_started.
  - lia.
  - reflexivity.
  - reflexivity.
  - reflexivity.
  - intros [|[|j]] cs Hne Hcs; [injection Hcs as <-; reflexivity|done|done].
  - exact stop_reachable.
  - exact stop_stuck.
  - vm_compute. reflexivity.
Defined.

(** stop leaves a client blocked in run for ever, and a queued task uncalled. *)
Lemma stop_leaves_run_blocked :
  reachable stop_pool stop_end /\ stuck stop_end /\
  map (fun th => (is_done th, stat th)) (threads stop_end) =
    [(true, Running); (false, Waiting m_notFull); (true, Running)] /\
  m_tasks (shared stop_end) = [Some 1%nat].
Proof. split; [exact stop_reachable|split; [exact stop_stuck|vm_compute; split; reflexivity]]. Qed.

(** stop may be called once only, and not when a thread could not be created:
    otherwise an assert of Thread::join fails. *)
Lemma second_stop_aborts :
  exists st, reachable (serving stop_object [[Stop; Stop]]) st /\
    existsb (fun th => aborts th st) (threads st) = true.
Proof.
  eexists. split.
  - apply (after_reachable (repeat (Run 1 None) 7 ++ [Run 0 None; Run 1 None] ++ repeat (Run 1 None) 6)).
    vm_compute. reflexivity.
  - vm_compute. reflexivity.
Qed.

Lemma stop_without_thread_aborts :
  exists st, reachable (serving example_object [[Stop]]) st /\
    existsb (fun th => aborts th st) (threads st) = true.
Proof.
  eexists. split.
  - apply (after_reachable (repeat (Run 2 None) 7 ++ repeat (Run 0 None) 2 ++ [Run 2 None])).
    vm_compute. reflexivity.
  - vm_compute. reflexivity.
Qed.

(** Without threads, run neither queues nor calls its task, and start itself
    calls m_ThreadInitFunc; a second start fails its assert. *)
Lemma run_without_threads {F} max (task : option F) k : run_task 0 max task k = k.
Proof. done. Qed.

Lemma start_without_threads {F} pthread_create junk name init max num :
  start pthread_create 0 (@new_pool F junk name init max) num =
    Ok (mkThreadPool name init max (mkPool true []) [], num, if init then [EvInit] else []).
Proof. done. Qed.

Lemma second_start_aborts {F} pthread_create pthread_create' k k' (o : @threadpool F) num p num' evs :
  0 < k -> start pthread_create k o num = Ok (p, num', evs) ->
  start pthread_create' k' p num' = Fault AssertFail.
Proof.
  intros Hk Hs. destruct (start_ok _ _ _ _ _ _ _ Hs) as (_ & _ & Hlen & _). unfold start.
  destruct (m_threads p); [cbn in Hlen; lia|done].
Qed.

(** C31. The queue of tasks: tasks are taken in the order of their submission, no
    task is queued while m_maxQueueSize tasks are, and the mutex is never
    misused by the threads of the pool or its clients. *)
Theorem pool_queue_bounded_fifo {F} junk name init max pthread_create k num p num' evs
    (clients : list (list (call F))) st :
  start pthread_create k (new_pool junk name init max) num = Ok (p, num', evs) ->
  reachable (serving p clients) st ->
  gots (history st) `prefix_of` puts (history st) /\
  (forall h1 task h2, history st = h1 ++ EvPut task :: h2 -> zlen (puts h1) - zlen (gots h1) < max) /\
  (forall t th, threads st !! t = Some th -> faulty t th st = false) /\
  (forall t, holder st = Some t -> owner st = Some t).
Proof.
  intros Hstart Hr. destruct (start_ok _ _ _ _ _ _ _ Hstart) as (_ & _ & _ & Hd & Hm & _).
  cbn in Hd, Hm. assert (Hs : forall cs, cs ∈ clients -> stops cs = true -> true = true) by done.
  destruct (pool_ok p true clients Hd Hs st Hr) as [Hok Hall]. split_and!.
  - apply takes_oldest_prefix. intros h1 e h2 Heq. by apply (Hall _ _ _ Heq).
  - intros h1 task h2 Heq. rewrite <- Hm. by destruct (Hall _ _ _ Heq).
  - intros t th. by apply (pool_not_faulty p true clients Hd Hs).
  - intros t. by apply (ok_holder _ _ _ _ _ _ Hok).
Qed.

Lemma pool_queue_bounded_fifo_witness :
  gots (history example_end) `prefix_of` puts (history example_end).
Proof.
  apply (pool_queue_bounded_fifo 7 (lit "pool") true 1 example_create 2 0 example_object 2 []
    example_clients); [exact example_started|exact pool_example_reachable].
Defined.
