(* ===== verification/SysLocks.v ===== *)
(** The locks of the operating system that time-sem.c uses: fcntl record locks,
    flock, a System V semaphore, pthread mutexes and IRIX locks in shared memory.

    [locks] is the part of the system's state that the manual pages speak of,
    [takes_effect] what a successful call does to it, [fork_effect] and [exit_effect] what
    the beginning and the end of a process do: a fork shares the open file
    descriptions, which flock locks belong to; at exit fcntl locks go, an flock
    lock goes with the last process that has its description open, and the
    adjustments of SEM_UNDO are applied to the semaphore.  [OSLaws] says that the
    system behaves so, and that nobody but the processes of the program uses the
    lock file, the semaphore and the shared memory while it runs; [lock_system] is
    a system that does. *)
From Stdlib Require Import ZArith Lia.
From stdpp Require Import base tactics list gmap.
From S2P Require Import Prelude.

#[local] Open Scope Z_scope.

Abbreviation pid := nat (only parsing).

(** ** System calls *)
Inductive syscall :=
(* fcntl, flock *)
| open_create | open_existing | unlink_file
| fcntl_setlkw_lock | fcntl_setlkw_unlock | flock_ex | flock_un
(* System V semaphores; the flag is SEM_UNDO *)
| semget | semctl_setval (val : Z) | semop (sem_op : Z) (undo : bool)
(* pthread *)
| open_zero | mmap_shared | close_fd | mutexattr_init | mutexattr_setpshared
| pthread_mutex_init | pthread_mutex_lock | pthread_mutex_unlock
| sigprocmask_block | sigprocmask_setmask
(* IRIX locks *)
| usconfig | usinit | usnewlock | ussetlock | usunsetlock
(* shared memory *)
| mmap_anon | shmget | shmat | shmctl_rmid.

(** errno == EINTR and the other errors. *)
Inductive errno := EINTR | EOTHER.

(** Taking a lock, releasing it, making or initialising it, none of these. *)
Inductive effect := Locks | Unlocks | Sets | Neutral.
Definition effect_of (c : syscall) : effect :=
  match c with
  | fcntl_setlkw_lock | flock_ex | pthread_mutex_lock | ussetlock => Locks
  | fcntl_setlkw_unlock | flock_un | pthread_mutex_unlock | usunsetlock => Unlocks
  | semop op _ => if op <? 0 then Locks else Unlocks
  | open_create | open_existing | semctl_setval _ | pthread_mutex_init | usnewlock => Sets
  | _ => Neutral
  end.

(** The result that means success, as the manual pages document it; of the calls
    that do not concern a lock it does not matter. *)
Definition succeeds (c : syscall) (ret : Z) : bool :=
  match c with
  | open_create | open_existing => negb (ret =? -1)
  | fcntl_setlkw_lock | fcntl_setlkw_unlock | semctl_setval _ => 0 <=? ret
  | flock_ex | flock_un | semop _ _ | pthread_mutex_init | pthread_mutex_lock
  | pthread_mutex_unlock | usunsetlock => ret =? 0
  | ussetlock => ret =? 1
  | usnewlock => negb (ret =? 0)
  | _ => true
  end.

(** The other results the manual pages list. *)
Definition in_range (c : syscall) (r : Z) : Prop :=
  match c with
  | fcntl_setlkw_lock | fcntl_setlkw_unlock => -1 <= r
  | flock_ex | flock_un | semop _ _ | usunsetlock => r = 0 \/ r = -1
  | ussetlock => r = 1 \/ r = 0 \/ r = -1
  | _ => True
  end.

(** ** The state of the locks *)

(** An open file description of the lock file: who opened it, and a number. *)
Abbreviation description := (pid * nat)%type (only parsing).

Record locks := mkLocks {
  fcntl_owner : option pid;
  files : gmap pid (list description);     (* open in a process, the last opened first *)
  flock_owner : option description;
  sem_val : Z;
  sem_pid : pid;                           (* the process of the last operation *)
  sem_adj : gmap pid Z;                    (* what is added when the process exits *)
  mutex : option pid                       (* of the mutex, or the IRIX lock *)
}.

Definition files_of (L : locks) (p : pid) : list description := default [] (files L !! p).
Definition adj_of (L : locks) (p : pid) : Z := default 0 (sem_adj L !! p).
(** flock_fd is the descriptor opened last. *)
Definition flock_fd (L : locks) (p : pid) : option description := head (files_of L p).

Definition set_fcntl (o : option pid) (L : locks) : locks :=
  mkLocks o (files L) (flock_owner L) (sem_val L) (sem_pid L) (sem_adj L) (mutex L).
Definition set_files (f : gmap pid (list description)) (L : locks) : locks :=
  mkLocks (fcntl_owner L) f (flock_owner L) (sem_val L) (sem_pid L) (sem_adj L) (mutex L).
Definition set_flock (o : option description) (L : locks) : locks :=
  mkLocks (fcntl_owner L) (files L) o (sem_val L) (sem_pid L) (sem_adj L) (mutex L).
Definition set_sem (val : Z) (p : pid) (adj : gmap pid Z) (L : locks) : locks :=
  mkLocks (fcntl_owner L) (files L) (flock_owner L) val p adj (mutex L).
Definition set_mutex (o : option pid) (L : locks) : locks :=
  mkLocks (fcntl_owner L) (files L) (flock_owner L) (sem_val L) (sem_pid L) (sem_adj L) o.

(** A description that nobody has open, and that holds no lock. *)
Definition unused_description (d : description) (L : locks) : Prop :=
  flock_owner L <> Some d /\ forall p, d ∉ files_of L p.

(** What a successful call of process [p] does. *)
Definition takes_effect (p : pid) (c : syscall) (L L' : locks) : Prop :=
  match c with
  | open_create | open_existing => exists n, unused_description (p, n) L /\
      L' = set_files (<[p := (p, n) :: files_of L p]> (files L)) L
  | fcntl_setlkw_lock =>
      (fcntl_owner L = None \/ fcntl_owner L = Some p) /\ L' = set_fcntl (Some p) L
  | fcntl_setlkw_unlock =>
      L' = if decide (fcntl_owner L = Some p) then set_fcntl None L else L
  | flock_ex => exists d, flock_fd L p = Some d /\
      (flock_owner L = None \/ flock_owner L = Some d) /\ L' = set_flock (Some d) L
  | flock_un => exists d, flock_fd L p = Some d /\
      L' = if decide (flock_owner L = Some d) then set_flock None L else L
  | semctl_setval val => exists q, L' = set_sem val q ∅ L
  | semop op undo => 0 <= sem_val L + op /\
      L' = set_sem (sem_val L + op) p
             (if undo then <[p := adj_of L p - op]> (sem_adj L) else sem_adj L) L
  | pthread_mutex_init | usnewlock => L' = set_mutex None L
  | pthread_mutex_lock | ussetlock => mutex L = None /\ L' = set_mutex (Some p) L
  | pthread_mutex_unlock | usunsetlock => mutex L = Some p -> L' = set_mutex None L
  | _ => L' = L
  end.

(** A call that does not return yet. *)
Definition blocks (p : pid) (c : syscall) (L : locks) : Prop :=
  match c with
  | fcntl_setlkw_lock => exists q, fcntl_owner L = Some q /\ q <> p
  | flock_ex => exists d d', flock_fd L p = Some d /\ flock_owner L = Some d' /\ d <> d'
  | semop op _ => sem_val L + op < 0
  | pthread_mutex_lock | ussetlock => mutex L <> None
  | _ => False
  end.

(** [q] is the new child of [p]. *)
Definition fork_effect (p q : pid) (L : locks) : locks :=
  mkLocks (fcntl_owner L) (<[q := files_of L p]> (files L)) (flock_owner L)
    (sem_val L) (sem_pid L) (delete q (sem_adj L)) (mutex L).

Definition is_open (d : description) (f : gmap pid (list description)) : Prop :=
  map_Exists (fun _ ds => d ∈ ds) f.

Definition exit_effect (p : pid) (L : locks) : locks :=
  let f := delete p (files L) in
  mkLocks (if decide (fcntl_owner L = Some p) then None else fcntl_owner L) f
    (match flock_owner L with
     | Some d => if decide (is_open d f) then Some d else None
     | None => None
     end)
    (sem_val L + adj_of L p) (if adj_of L p =? 0 then sem_pid L else p) (delete p (sem_adj L))
    (mutex L).

(** ** The system *)

Class OS := {
  os : Type;
  boot : os;
  view : os -> locks;
  sys : pid -> syscall -> Z -> errno -> os -> os -> Prop;    (* result, errno, new state *)
  process_fork : pid -> pid -> os -> os -> Prop;
  process_exit : pid -> os -> os -> Prop
}.

Class OSLaws `{OS} := {
  (* the lock file of this run does not exist yet; the semaphore, which is found
     by its key, and the memory of a mutex may hold anything *)
  boot_unused : fcntl_owner (view boot) = None /\ flock_owner (view boot) = None /\
    files (view boot) = ∅;
  sys_succeeds p c r e s s' : sys p c r e s s' -> succeeds c r = true ->
    takes_effect p c (view s) (view s');
  sys_fails p c r e s s' : sys p c r e s s' -> succeeds c r = false -> view s' = view s;
  result_range p c r e s s' : sys p c r e s s' -> in_range c r;
  (* only taking a lock may block *)
  sys_enabled p c s : ~ blocks p c (view s) -> exists r e s', sys p c r e s s';
  fork_copies p q s s' : process_fork p q s s' -> view s' = fork_effect p q (view s);
  exit_releases p s s' : process_exit p s s' -> view s' = exit_effect p (view s);
  exit_enabled p s : exists s', process_exit p s s'
}.

(** ** A system *)

Definition success_value (c : syscall) : Z :=
  match c with ussetlock | usnewlock => 1 | _ => 0 end.
Definition failure_value (c : syscall) : Z :=
  match c with ussetlock | usnewlock => 0 | _ => -1 end.

Definition new_locks : locks := mkLocks None ∅ None 7 0%nat ∅ (Some 5%nat).

(** Its state is that of the locks, and any call that does not block may fail. *)
#[export] Instance lock_system : OS := {
  os := locks;
  boot := new_locks;
  view L := L;
  sys p c r e L L' :=
    (r = success_value c /\ takes_effect p c L L') \/
    (r = failure_value c /\ effect_of c <> Neutral /\ ~ blocks p c L /\ L' = L);
  process_fork p q L L' := L' = fork_effect p q L;
  process_exit p L L' := L' = exit_effect p L
}.

Lemma failure_fails c : effect_of c <> Neutral -> succeeds c (failure_value c) = false.
Proof. by destruct c. Qed.

Lemma success_succeeds c : succeeds c (success_value c) = true.
Proof. by destruct c. Qed.

#[export] Instance lock_system_laws : OSLaws.
Proof.
  split.
  - done.
  - intros p c r e s s' [(-> & Hd)|(-> & Hn & _ & ->)] Hs; [done|].
    by rewrite (failure_fails _ Hn) in Hs.
  - intros p c r e s s' [(-> & _)|(_ & _ & _ & ->)] Hs; [by rewrite success_succeeds in Hs|done].
  - intros p c r e s s' [(-> & _)|(-> & _)]; destruct c; cbn; lia || done.
  - intros p c s Hb. destruct (effect_of c) eqn:He.
    1-3: exists (failure_value c), EOTHER, s; right; split_and!; [done|by rewrite He|done|done].
    exists (success_value c), EOTHER, s. left. split; [done|].
    destruct c; try done. cbn in He. by destruct (_ <? _).
  - done.
  - done.
  - intros p s. by exists (exit_effect p s).
Qed.
