(* ===== verification/TimeSem.v ===== *)
(** time-sem.c: the semaphore timing program.

    The accept mutex exists in six variants chosen at compile time; each of its
    functions is a list of system calls together with the code that looks at
    their results ([call]).  The operating system is the one of [SysLocks], with
    its locks, forks and exits.  [step] interleaves the parent and the children of
    [main] at the granularity of system calls and of accesses to the shared
    counter; a process that exits, for whatever reason, gives back what the system
    takes back ([process_exit]); processes are not killed by signals.  [main_runs] is main with its arguments.  The
    shared memory is an anonymous mapping or a segment of shmget (without
    MOVEBREAK).

    The invariant [Inv] ties the program counters to the kernel's locks
    ([holder]): a process between accept_mutex_on and accept_mutex_off holds the
    lock, and a held lock belongs to such a process or to one that has exited with
    an error, in a variant whose lock outlives it ([keeps_lock]). *)
From Stdlib Require Import ZArith Lia.
From stdpp Require Import base tactics list gmap relations.
From S2P Require Import Prelude CLib Monitor SysLocks.

#[local] Open Scope Z_scope.

Inductive verdict :=
| Next               (* go on with the next statement *)
| Retry              (* call again: [continue] *)
| Die (code : Z).    (* perror and exit(code) *)

Record call := mkCall { what : syscall; interpret : Z -> errno -> verdict }.

Definition die_if (b : bool) : verdict := if b then Die 1 else Next.
(** if (f(...) < 0) exit(1);  if (f(...) == -1) ...;  if (f(...)) ...;  f(...); *)
Definition negative (c : syscall) : call := mkCall c (fun ret _ => die_if (ret <? 0)).
Definition minus_one (c : syscall) : call := mkCall c (fun ret _ => die_if (ret =? -1)).
Definition nonzero (c : syscall) : call := mkCall c (fun ret _ => die_if (negb (ret =? 0))).
Definition ignored (c : syscall) : call := mkCall c (fun _ _ => Next).
(** while ((ret = f(...)) < 0 && errno == EINTR) continue; if (ret < 0) exit(1); *)
Definition retried (c : syscall) : call :=
  mkCall c (fun ret e =>
    if (ret <? 0) && match e with EINTR => true | EOTHER => false end then Retry
    else die_if (ret <? 0)).

Inductive variant :=
| FCNTL | FLOCK | SYSVSEM (no_sem_undo : bool) | PTHREAD | USLOCK.

(** The three or four functions of each variant. *)
Definition fcntl_init : list call := [minus_one open_create; ignored unlink_file].
Definition fcntl_on : list call := [retried fcntl_setlkw_lock].
Definition fcntl_off : list call := [negative fcntl_setlkw_unlock].

Definition flock_init : list call := [minus_one open_create].
Definition flock_child_init : list call := [minus_one open_existing].
Definition flock_cleanup : list call := [ignored unlink_file].
Definition flock_on : list call := [retried flock_ex].
Definition flock_off : list call := [negative flock_un].

Definition sysvsem_init : list call := [negative semget; negative (semctl_setval 1)].
Definition sysvsem_on (no_sem_undo : bool) : list call :=
  if no_sem_undo then [nonzero sigprocmask_block; negative (semop (-1) false)]
  else [negative (semop (-1) true)].
Definition sysvsem_off (no_sem_undo : bool) : list call :=
  if no_sem_undo then [negative (semop 1 false); nonzero sigprocmask_setmask]
  else [negative (semop 1 true)].

Definition pthread_init : list call :=
  [minus_one open_zero; minus_one mmap_shared; ignored close_fd;
   nonzero mutexattr_init; nonzero mutexattr_setpshared; nonzero pthread_mutex_init].
Definition pthread_on : list call := [nonzero sigprocmask_block; nonzero pthread_mutex_lock].
Definition pthread_off : list call := [nonzero pthread_mutex_unlock; nonzero sigprocmask_setmask].

Definition uslock_init : list call :=
  let fails ret := if ret : bool then Die (-1) else Next in
  [mkCall usconfig (fun ret _ => fails (ret =? -1));
   mkCall usconfig (fun ret _ => fails (ret =? -1));
   mkCall usconfig (fun ret _ => fails (ret =? -1));
   mkCall usinit (fun ret _ => fails (ret =? 0));
   mkCall usnewlock (fun ret _ => fails (ret =? 0))].
(** switch: any other result is treated as success. *)
Definition uslock_on : list call :=
  [mkCall ussetlock (fun ret _ =>
     if ret =? 1 then Next else if ret =? 0 then Die (-1)
     else if ret =? -1 then Die (-1) else Next)].
Definition uslock_off : list call :=
  [mkCall usunsetlock (fun ret _ => if ret =? -1 then Die (-1) else Next)].

(** get_shared_mem: an anonymous mapping, or, with USE_SHMGET_SCOREBOARD (and
    without MOVEBREAK), a segment that is removed as soon as it is attached;
    when shmat fails the segment is removed too, and then the program exits. *)
Inductive shared_memory := ANON_MMAP | SHMGET.
Definition mmap_shared_mem : list call := [minus_one mmap_anon].
Definition shmget_shared_mem : list call := [minus_one shmget].
Definition get_shared_mem (m : shared_memory) : list call :=
  match m with ANON_MMAP => mmap_shared_mem | SHMGET => shmget_shared_mem end.
Definition after_shmat (result : Z) : list call :=
  if result =? -1 then [mkCall shmctl_rmid (fun _ _ => Die 1)] else [ignored shmctl_rmid].

(** The function that is compiled, by variant. *)
Definition accept_mutex_init (v : variant) : list call :=
  Eval cbv beta delta [fcntl_init flock_init sysvsem_init pthread_init uslock_init] in
  match v with
  | FCNTL => fcntl_init | FLOCK => flock_init | SYSVSEM _ => sysvsem_init
  | PTHREAD => pthread_init | USLOCK => uslock_init
  end.

Definition accept_mutex_child_init (v : variant) : list call :=
  Eval cbv delta [flock_child_init] in match v with FLOCK => flock_child_init | _ => [] end.

Definition accept_mutex_cleanup (v : variant) : list call :=
  Eval cbv delta [flock_cleanup] in match v with FLOCK => flock_cleanup | _ => [] end.

Definition accept_mutex_on (v : variant) : list call :=
  Eval cbv beta delta [fcntl_on flock_on sysvsem_on pthread_on uslock_on] in
  match v with
  | FCNTL => fcntl_on | FLOCK => flock_on | SYSVSEM no_sem_undo => sysvsem_on no_sem_undo
  | PTHREAD => pthread_on | USLOCK => uslock_on
  end.

Definition accept_mutex_off (v : variant) : list call :=
  Eval cbv beta delta [fcntl_off flock_off sysvsem_off pthread_off uslock_off] in
  match v with
  | FCNTL => fcntl_off | FLOCK => flock_off | SYSVSEM no_sem_undo => sysvsem_off no_sem_undo
  | PTHREAD => pthread_off | USLOCK => uslock_off
  end.

(** ** The lock of each variant *)

Section Lock.
Variable v : variant.

Definition holder (L : locks) : option pid :=
  match v with
  | FCNTL => fcntl_owner L
  | FLOCK => fst <$> flock_owner L
  | SYSVSEM _ => if sem_val L =? 0 then Some (sem_pid L) else None
  | PTHREAD | USLOCK => mutex L
  end.

(** The call that takes it, and the one that releases it. *)
Definition lock_call : syscall :=
  match v with
  | FCNTL => fcntl_setlkw_lock | FLOCK => flock_ex | SYSVSEM no_undo => semop (-1) (negb no_undo)
  | PTHREAD => pthread_mutex_lock | USLOCK => ussetlock
  end.
Definition unlock_call : syscall :=
  match v with
  | FCNTL => fcntl_setlkw_unlock | FLOCK => flock_un | SYSVSEM no_undo => semop 1 (negb no_undo)
  | PTHREAD => pthread_mutex_unlock | USLOCK => usunsetlock
  end.

(** Whose exit leaves the lock taken.  The description that the parent locks with
    flock stays open in the children, which have inherited it. *)
Definition keeps_lock (p : pid) : bool :=
  match v with
  | FCNTL | SYSVSEM false => false
  | FLOCK => Nat.eqb p 0
  | SYSVSEM true | PTHREAD | USLOCK => true
  end.

(** With flock, a process locks a description of its own. *)
Definition ready (L : locks) (p : pid) : Prop :=
  match v with FLOCK => exists n, flock_fd L p = Some (p, n) | _ => True end.

Record lock_wf (L : locks) : Prop := {
  wf_files p d : d ∈ files_of L p -> fst d = p \/ fst d = 0%nat;
  wf_flock d : v = FLOCK -> flock_owner L = Some d -> flock_fd L (fst d) = Some d \/ files_of L (fst d) = [];
  wf_sem b : v = SYSVSEM b -> (sem_val L = 0 \/ sem_val L = 1) /\
    forall p, adj_of L p = Z.b2z (negb b && (sem_val L =? 0) && Nat.eqb (sem_pid L) p)
}.

(** What process [me] does concerns the locks of the others in no way. *)
Record spares (me : pid) (L L' : locks) : Prop := {
  sp_wf : lock_wf L';
  sp_files p : p <> me -> files_of L' p = files_of L p;
  sp_keep p : p <> me -> ready L p -> holder L = Some p -> holder L' = Some p;
  sp_back p : p <> me -> holder L' = Some p -> holder L = Some p
}.

Lemma spares_same me L : lock_wf L -> spares me L L.
Proof. by split. Qed.

Lemma spares_trans me L1 L2 L3 : spares me L1 L2 -> spares me L2 L3 -> spares me L1 L3.
Proof.
  intros H1 H2. split.
  - apply H2.
  - intros p Hp. rewrite (sp_files _ _ _ H2 p Hp). by apply H1.
  - intros p Hp Hr Hh. apply H2; [done| |by apply H1].
    unfold ready, flock_fd in *. by rewrite (sp_files _ _ _ H1 p Hp).
  - intros p Hp Hh. apply H1; [done|]. by apply H2.
Qed.

Lemma spares_ready me L L' p : spares me L L' -> p <> me -> ready L p -> ready L' p.
Proof. intros H1 Hp. unfold ready, flock_fd. by rewrite (sp_files _ _ _ H1 p Hp). Qed.

Lemma adj_of_insert L val q p x : adj_of (set_sem val q (<[p := x]> (sem_adj L)) L) p = x.
Proof. unfold adj_of. cbn. by rewrite lookup_insert_eq. Qed.
Lemma adj_of_insert_ne L val q p p' x : p <> p' ->
  adj_of (set_sem val q (<[p := x]> (sem_adj L)) L) p' = adj_of L p'.
Proof. intros Hp. unfold adj_of. cbn. by rewrite lookup_insert_ne. Qed.

(** A semaphore operation of [me] that leaves the value [val], 0 or 1. *)
Lemma sem_wf b me L op : v = SYSVSEM b -> lock_wf L ->
  (sem_val L = 1 /\ op = -1) \/ (sem_val L = 0 /\ sem_pid L = me /\ op = 1) ->
  lock_wf (set_sem (sem_val L + op) me
    (if negb b then <[me := adj_of L me - op]> (sem_adj L) else sem_adj L) L).
Proof.
  intros Hv Hwf Hop. destruct (wf_sem _ Hwf b Hv) as [_ Hadj]. split; try apply Hwf.
  intros b' Hb. assert (b' = b) as -> by congruence. cbn. split; [lia|]. intros p.
  pose proof (Hadj p) as Hp. pose proof (Hadj me) as Hme.
  destruct b; cbn [negb andb] in *; [done|].
  destruct (Nat.eqb_spec me p) as [<-|Hne].
  - rewrite adj_of_insert, Hme. destruct Hop as [[-> ->]|(-> & -> & ->)]; [done|].
    by rewrite Nat.eqb_refl.
  - rewrite adj_of_insert_ne, Hp by done. rewrite andb_false_r.
    destruct Hop as [[-> ->]|(-> & -> & ->)]; [done|]. by destruct (Nat.eqb_spec me p).
Qed.

(** Taking the lock. *)
Lemma lock_effect me L L' : lock_wf L -> ready L me -> takes_effect me lock_call L L' ->
  spares me L L' /\ (holder L = None \/ holder L = Some me) /\ holder L' = Some me /\
  files L' = files L.
Proof.
  intros Hwf Hr Hd. unfold lock_call in Hd.
  assert (Hfiles : files L' = files L).
  { destruct v as [| |b| |]; cbn in Hd; try (by destruct Hd as [_ ->]); by destruct Hd as (? & _ & _ & ->). }
  assert (Hmain : lock_wf L' /\ (holder L = None \/ holder L = Some me) /\ holder L' = Some me).
  { unfold holder, ready in *. destruct v as [| |b| |] eqn:Hv; cbn in Hd.
    - destruct Hd as [Ho ->]. split; [split; apply Hwf|done].
    - destruct Hr as [n Hr]. destruct Hd as (d & Hfd & Ho & ->). rewrite Hr in Hfd. injection Hfd as <-.
      split; [|cbn; destruct Ho as [-> | ->]; auto]. split; try apply Hwf.
      cbn. intros d _ [= <-]. by left.
    - destruct Hd as [Hle ->]. destruct (wf_sem _ Hwf b Hv) as [Hval _].
      assert (H1 : sem_val L = 1) by lia. split; [|cbn; rewrite H1; by auto].
      apply (sem_wf b); [done|done|by left].
    - destruct Hd as [Ho ->]. split; [split; apply Hwf|auto].
    - destruct Hd as [Ho ->]. split; [split; apply Hwf|auto]. }
  destruct Hmain as (Hwf' & Hold & Hnew). unfold holder in *. split_and!; try done. split; try done.
  - intros p _. unfold files_of. by rewrite Hfiles.
  - intros p Hp _ Hh. destruct Hold as [Hold|Hold]; unfold holder in *; congruence.
  - intros p Hp Hh. unfold holder in *. congruence.
Qed.

(** Releasing it. *)
Lemma unlock_effect me L L' : lock_wf L -> ready L me -> holder L = Some me ->
  takes_effect me unlock_call L L' -> spares me L L' /\ holder L' = None /\ files L' = files L.
Proof.
  intros Hwf Hr Hh Hd.
  assert (Hmain : lock_wf L' /\ holder L' = None /\ files L' = files L).
  { unfold holder, ready, unlock_call in *. destruct v as [| |b| |] eqn:Hv; cbn in Hd.
    - rewrite decide_True in Hd by done. subst. split; [split; apply Hwf|done].
    - destruct Hr as [n Hr]. destruct Hd as (d & Hfd & ->). rewrite Hr in Hfd. injection Hfd as <-.
      destruct (flock_owner L) as [d|] eqn:Ho; [|done]. injection Hh as Hd.
      assert (d = (me, n)) as ->.
      { destruct (wf_flock _ Hwf d Hv Ho) as [Hfd|Hnil]; rewrite Hd in *; [congruence|].
        unfold flock_fd in Hr. by rewrite Hnil in Hr. }
      rewrite decide_True by done. split; [|done]. by split; try apply Hwf.
    - destruct Hd as [_ ->]. destruct (Z.eqb_spec (sem_val L) 0) as [H0|]; [|done]. injection Hh as Hp.
      split; [|cbn; by rewrite H0]. apply (sem_wf b); [done|done|by right].
    - rewrite (Hd Hh). split; [split; apply Hwf|done].
    - rewrite (Hd Hh). split; [split; apply Hwf|done]. }
  destruct Hmain as (Hwf' & Hnew & Hfiles). split_and!; try done. split; try done.
  - intros p _. unfold files_of. by rewrite Hfiles.
  - intros p Hp _ Hq. congruence.
  - intros p Hp Hq. congruence.
Qed.

(** Opening the lock file. *)
Lemma open_effect me L L' : lock_wf L -> holder L <> Some me ->
  takes_effect me open_existing L L' ->
  spares me L L' /\ holder L' = holder L /\ ready L' me.
Proof.
  intros Hwf Hh (n & [Hu _] & ->).
  assert (Hof : forall p, files_of (set_files (<[me := (me, n) :: files_of L me]> (files L)) L) p =
    if decide (p = me) then (me, n) :: files_of L me else files_of L p).
  { intros p. unfold files_of. cbn. destruct (decide (p = me)) as [->|Hne].
    - by rewrite lookup_insert_eq.
    - by rewrite lookup_insert_ne. }
  split_and!.
  - split; [split| | |].
    + intros p d. rewrite Hof. destruct (decide (p = me)) as [->|]; [|apply Hwf].
      intros [->|Hd]%elem_of_cons; [by left|]. by apply (wf_files _ Hwf).
    + cbn. intros d Hv Hd. unfold flock_fd. rewrite Hof. destruct (decide (fst d = me)) as [Hme|].
      * destruct Hh. unfold holder. by rewrite Hv, Hd, <- Hme.
      * by apply (wf_flock _ Hwf).
    + apply Hwf.
    + intros p Hp. rewrite Hof. by rewrite decide_False.
    + done.
    + done.
  - done.
  - unfold ready, flock_fd. rewrite Hof, decide_True by done. destruct v; try done. by exists n.
Qed.

(** A new child [q] of the parent. *)
Lemma fork_spares q L : lock_wf L -> q <> 0%nat -> holder L <> Some q ->
  spares q L (fork_effect 0 q L) /\ holder (fork_effect 0 q L) = holder L.
Proof.
  intros Hwf Hq Hh.
  assert (Hof : forall p, files_of (fork_effect 0 q L) p =
    if decide (p = q) then files_of L 0 else files_of L p).
  { intros p. unfold files_of at 1. cbn. destruct (decide (p = q)) as [->|Hne].
    - by rewrite lookup_insert_eq.
    - by rewrite lookup_insert_ne. }
  split; [|done]. split; [split| | |]; try done.
  - intros p d. rewrite Hof. destruct (decide (p = q)) as [->|]; [|apply Hwf].
    intros Hd. destruct (wf_files _ Hwf _ _ Hd); by right.
  - cbn. intros d Hv Hd. unfold flock_fd. rewrite Hof. destruct (decide (fst d = q)) as [Hme|].
    + destruct Hh. unfold holder. by rewrite Hv, Hd, <- Hme.
    + by apply (wf_flock _ Hwf).
  - intros b Hv. destruct (wf_sem _ Hwf b Hv) as [Hval Hadj]. split; [done|]. intros p.
    specialize (Hadj p). unfold adj_of in *. cbn. destruct (decide (q = p)) as [<-|Hne].
    + rewrite lookup_delete_eq. unfold holder in Hh. rewrite Hv in Hh.
      destruct (sem_val L =? 0); [|by rewrite andb_false_r].
      destruct (Nat.eqb_spec (sem_pid L) q); [congruence|by rewrite andb_false_r].
    + by rewrite lookup_delete_ne.
  - intros p Hp. rewrite Hof. by rewrite decide_False.
Qed.

(** An exit. *)
Lemma exit_files me L p : files_of (exit_effect me L) p = if decide (p = me) then [] else files_of L p.
Proof.
  unfold files_of. cbn. destruct (decide (p = me)) as [->|Hne].
  - by rewrite lookup_delete_eq.
  - by rewrite lookup_delete_ne.
Qed.

Lemma exit_open me L p d : p <> me -> d ∈ files_of L p -> is_open d (delete me (files L)).
Proof.
  intros Hp Hd. unfold files_of in Hd. destruct (files L !! p) as [ds|] eqn:E1; [|by apply not_elem_of_nil in Hd].
  apply map_Exists_lookup. exists p, ds. split; [by rewrite lookup_delete_ne|done].
Qed.

Lemma exit_closed me L d : is_open d (delete me (files L)) -> exists p, p <> me /\ d ∈ files_of L p.
Proof.
  intros (p & ds & Hl & Hd)%map_Exists_lookup. apply lookup_delete_Some in Hl as [Hne Hl].
  exists p. split; [done|]. unfold files_of. by rewrite Hl.
Qed.

Lemma exit_sem b me L : v = SYSVSEM b -> lock_wf L ->
  (sem_val L = 0 /\ sem_pid L = me /\ b = false /\ sem_val (exit_effect me L) = 1 \/
   sem_val (exit_effect me L) = sem_val L /\ sem_pid (exit_effect me L) = sem_pid L /\
   (sem_val L = 0 -> sem_pid L = me -> b = true)) /\
  (sem_val (exit_effect me L) = 0 \/ sem_val (exit_effect me L) = 1) /\
  forall p, adj_of (exit_effect me L) p = if decide (p = me) then 0 else adj_of L p.
Proof.
  intros Hv Hwf. destruct (wf_sem _ Hwf b Hv) as [Hval Hadj]. pose proof (Hadj me) as Hme.
  assert (Hadj' : forall p, adj_of (exit_effect me L) p = if decide (p = me) then 0 else adj_of L p).
  { intros p. unfold adj_of. cbn. destruct (decide (p = me)) as [->|Hne].
    - by rewrite lookup_delete_eq.
    - by rewrite lookup_delete_ne. }
  cbn [exit_effect sem_val sem_pid]. rewrite Hme.
  destruct b; cbn [negb andb Z.b2z]; [split_and!; [right; split_and!; [lia|done|done]|lia|done]|].
  destruct (Z.eqb_spec (sem_val L) 0) as [Hz|Hz]; cbn [andb Z.b2z];
    [|split_and!; [right; split_and!; [lia|done|done]|lia|done]].
  destruct (Nat.eqb_spec (sem_pid L) me) as [Hs|Hs]; cbn [Z.b2z].
  - split_and!; [left; split_and!; lia || done|lia|done].
  - split_and!; [right; split_and!; lia || done|lia|done].
Qed.

Lemma exit_spares me L : lock_wf L ->
  spares me L (exit_effect me L) /\
  (holder (exit_effect me L) = Some me -> holder L = Some me /\ keeps_lock me = true).
Proof.
  intros Hwf.
  assert (Hf : flock_owner (exit_effect me L) = flock_owner L \/ flock_owner (exit_effect me L) = None).
  { cbn. destruct (flock_owner L); [|by left]. case_decide; auto. }
  split; [split|].
  - split.
    + intros p d. rewrite exit_files. case_decide; [by intros ?%not_elem_of_nil|apply Hwf].
    + intros d Hv Hd. unfold flock_fd. rewrite exit_files. case_decide; [by right|].
      apply (wf_flock _ Hwf); [done|]. by destruct Hf as [<-|Hn]; [|rewrite Hn in Hd].
    + intros b Hv. destruct (exit_sem b me L Hv Hwf) as (Hs & Hval & Hadj). split; [done|].
      destruct (wf_sem _ Hwf b Hv) as [Hval0 Hadj0]. intros p. rewrite Hadj, Hadj0.
      destruct Hs as [(Hz & Hp & -> & ->)|(-> & -> & Hb)].
      * case_decide; [by rewrite andb_false_r|]. rewrite Hz, Hp. cbn.
        destruct (Nat.eqb_spec me p); [congruence|done].
      * case_decide; [|done]. subst p. destruct (Z.eqb_spec (sem_val L) 0) as [Hz|]; [|by rewrite andb_false_r].
        destruct (Nat.eqb_spec (sem_pid L) me) as [Hp|]; [|by rewrite andb_false_r].
        by rewrite (Hb Hz Hp).
  - intros p Hp. rewrite exit_files. by rewrite decide_False.
  - intros p Hp Hr Hh. unfold holder, ready in *. destruct v as [| |b| |] eqn:Hv; try done.
    + cbn. rewrite decide_False by congruence. done.
    + destruct (flock_owner L) as [d|] eqn:Ho; [|done]. injection Hh as Hd. destruct Hr as [n Hr].
      cbn. rewrite Ho. rewrite decide_True; [cbn; by rewrite Hd|].
      apply (exit_open _ _ p); [done|]. destruct (wf_flock _ Hwf d Hv Ho) as [Hfd|Hnil]; rewrite Hd in *.
      * unfold flock_fd in Hfd. destruct (files_of L p); [done|]. injection Hfd as ->. by left.
      * unfold flock_fd in Hr. by rewrite Hnil in Hr.
    + destruct (exit_sem b me L Hv Hwf) as ([(Hz & Hp' & _)|(-> & -> & _)] & _); [|done].
      rewrite Hz in Hh. cbn in Hh. congruence.
  - intros p Hp Hh. unfold holder in *. destruct v as [| |b| |] eqn:Hv; try done.
    + cbn in Hh. by case_decide.
    + by destruct Hf as [<-|Hn]; [|rewrite Hn in Hh].
    + destruct (exit_sem b me L Hv Hwf) as ([(_ & _ & _ & Hs)|(Hs & Hs' & _)] & _);
        rewrite Hs in Hh; [done|]. by rewrite Hs' in Hh.
  - intros Hh. unfold holder, keeps_lock in *. destruct v as [| |b| |] eqn:Hv; try done.
    + cbn in Hh. by case_decide.
    + cbn in Hh. destruct (flock_owner L) as [d|] eqn:Ho; [|done]. case_decide as Hop; [|done].
      injection Hh as Hd. split; [cbn; by rewrite Hd|].
      apply exit_closed in Hop as (p & Hne & Hin). destruct (wf_files _ Hwf _ _ Hin); [congruence|].
      apply Nat.eqb_eq. congruence.
    + destruct (exit_sem b me L Hv Hwf) as ([(_ & _ & _ & Hs)|(Hs & Hs' & Hb)] & _);
        rewrite Hs in Hh; [done|]. rewrite Hs' in Hh.
      destruct (Z.eqb_spec (sem_val L) 0) as [Hz|]; [|done]. injection Hh as Hp.
      split; [by rewrite Hp|]. by rewrite (Hb Hz Hp).
Qed.

(** ** The locks before accept_mutex_init has returned *)
Definition unused (L : locks) : Prop :=
  fcntl_owner L = None /\ flock_owner L = None /\ forall p d, d ∈ files_of L p -> fst d = p \/ fst d = 0%nat.

(** The calls of accept_mutex_init that are not without effect. *)
Lemma unused_sets c L L' : effect_of c = Sets -> unused L -> takes_effect 0 c L L' -> unused L'.
Proof.
  intros He (H1 & H2 & H3) Hd. destruct c; try done; cbn in Hd.
  1-2: destruct Hd as (n & _ & ->); split_and!; try done; intros p d; unfold files_of; cbn;
    (destruct (decide (p = 0%nat)) as [->|Hp];
     [rewrite lookup_insert_eq; intros [->|Hd]%elem_of_cons; [by left|by apply H3]
     |rewrite lookup_insert_ne by done; apply H3]).
  - by destruct Hd as [q ->].
  - cbn in He. by destruct (_ <? _).
  - by subst.
  - by subst.
Qed.

(** The call that makes the lock. *)
Definition init_call : option syscall :=
  match v with
  | FCNTL => None | FLOCK => Some open_create | SYSVSEM _ => Some (semctl_setval 1)
  | PTHREAD => Some pthread_mutex_init | USLOCK => Some usnewlock
  end.

Definition prepared (L : locks) : Prop := lock_wf L /\ holder L = None /\ ready L 0.

Lemma init_effect L L' : unused L ->
  match init_call with Some c => takes_effect 0 c L L' | None => L' = L end -> prepared L'.
Proof.
  intros Hu Hd.
  assert (Hu' : unused L').
  { unfold init_call in Hd. destruct v; [by subst|..]; (eapply unused_sets; [|exact Hu|exact Hd]; done). }
  destruct Hu' as (H1 & H2 & H3). unfold prepared, holder, ready, init_call in *.
  destruct v as [| |b| |] eqn:Hv; cbn in Hd.
  - split_and!; try done. split; [done| |]; congruence.
  - split_and!; [split; [done| |]; congruence|by rewrite H2|]. destruct Hd as (n & _ & ->).
    exists n. unfold flock_fd, files_of. cbn. by rewrite lookup_insert_eq.
  - destruct Hd as [q ->]. split_and!; try done. split; [done|congruence|].
    intros b' _. split; [by right|]. intros p. unfold adj_of. cbn. by rewrite andb_false_r.
  - subst. split_and!; try done. split; [done| |]; congruence.
  - subst. split_and!; try done. split; [done| |]; congruence.
Qed.

(** A free lock can be taken. *)
Lemma free_enabled me L : lock_wf L -> holder L = None -> ~ blocks me lock_call L.
Proof.
  intros Hwf Hh. unfold holder, lock_call in *. destruct v as [| |b| |] eqn:Hv; cbn.
  - intros (q & Hq & _). congruence.
  - intros (d & d' & _ & Ho & _). by rewrite Ho in Hh.
  - destruct (Z.eqb_spec (sem_val L) 0); [done|]. destruct (wf_sem _ Hwf b Hv) as [Hval _]. lia.
  - rewrite Hh. tauto.
  - rewrite Hh. tauto.
Qed.

Lemma unlock_enabled me L : lock_wf L -> ~ blocks me unlock_call L.
Proof.
  intros Hwf. unfold unlock_call. destruct v as [| |b| |] eqn:Hv; cbn; try tauto.
  destruct (wf_sem _ Hwf b Hv) as [Hval _]. lia.
Qed.
End Lock.

(** ** main *)

(** The children, with their iteration [i]: the calls still to make, the reading
    of the counter, YIELD, its writing. *)
Inductive child :=
| CInit (cs : list call)
| CLoop (i : Z)
| COn (i : Z) (cs : list call)
| CRead (i : Z)
| CYield (i tmp : Z)
| CWrite (i tmp : Z)
| COff (i : Z) (cs : list call)
| CExit (code : Z).

Inductive parent :=
| PMem (cs : list call) (attach : bool)     (* in get_shared_mem; shmat is still to be called *)
| PInit (cs : list call)
| POn (cs : list call)
| PFork (i : Z)
| PCheck
| POff (cs : list call)
| PWait (i : Z)
| PCompare
| PCleanup (cs : list call)
| PExit (code : Z).

(** The usage, and the two complaints that the program may print. *)
Inductive message := Usage | WTF_before | WTF_after.

Section Main.
Context `{OSLaws}.
Variable v : variant.
Variables num_child num_iter : Z.     (* atoi(argv[1]), atoi(argv[2]) *)

Record state := mkState {
  os_st : os;
  shared_counter : Z;                 (* unsigned long, 64 bits *)
  par : parent;
  children : list child;
  reaped : nat;                       (* children that wait has returned *)
  printed : list message
}.

(** The start of get_shared_mem; [fresh] is what new memory happens to hold. *)
Definition start (m : shared_memory) (fresh : Z) : state :=
  mkState boot fresh (PMem (get_shared_mem m) (match m with SHMGET => true | _ => false end)) [] 0 [].

(** One system call of process [p]; what is left to call, or the exit code. *)
Inductive called (p : pid) : list call -> os -> list call + Z -> os -> Prop :=
| called_next c cs r e s s' : sys p (what c) r e s s' -> interpret c r e = Next ->
    called p (c :: cs) s (inl cs) s'
| called_retry c cs r e s s' : sys p (what c) r e s s' -> interpret c r e = Retry ->
    called p (c :: cs) s (inl (c :: cs)) s'
| called_die c cs r e s s' code : sys p (what c) r e s s' -> interpret c r e = Die code ->
    called p (c :: cs) s (inr code) s'.

(** The calls a process is making. *)
Definition child_calls (c : child) : option (list call * (list call -> child)) :=
  match c with
  | CInit cs => Some (cs, CInit)
  | COn i cs => Some (cs, COn i)
  | COff i cs => Some (cs, COff i)
  | _ => None
  end.
Definition parent_calls (p : parent) : option (list call * (list call -> parent)) :=
  match p with
  | PMem cs attach => Some (cs, fun cs => PMem cs attach)
  | PInit cs => Some (cs, PInit)
  | POn cs => Some (cs, POn)
  | POff cs => Some (cs, POff)
  | PCleanup cs => Some (cs, PCleanup)
  | _ => None
  end.

(** What a child does by itself: its next state and the counter. *)
Definition child_next (c : child) (counter : Z) : option (child * Z) :=
  match c with
  | CInit [] => Some (CLoop 0, counter)
  | CLoop i => Some (if i <? num_iter then COn i (accept_mutex_on v) else CExit 0, counter)
  | COn i [] => Some (CRead i, counter)
  | CRead i => Some (CYield i counter, counter)
  | CYield i tmp => Some (CWrite i tmp, counter)
  | CWrite i tmp => Some (COff i (accept_mutex_off v), wrapU 64 (tmp + 1))
  | COff i [] => Some (CLoop (i + 1), counter)
  | _ => None
  end.

Definition exited (c : child) : bool := match c with CExit _ => true | _ => false end.
Definition num_exited (cs : list child) : nat := length (List.filter exited cs).

(** The system after a step to a state in which process [p] has exited ([b]) or not. *)
Definition leaves (p : pid) (b : bool) (s s' : os) : Prop :=
  if b then process_exit p s s' else s' = s.

Definition set_par (p : parent) (st : state) : state :=
  mkState (os_st st) (shared_counter st) p (children st) (reaped st) (printed st).

(** What the parent does by itself. *)
Inductive parent_next (st : state) : state -> Prop :=
| P_shmat r e s' : par st = PMem [] true -> sys 0 shmat r e (os_st st) s' ->
    parent_next st (mkState s' (shared_counter st) (PMem (after_shmat r) false) (children st)
      (reaped st) (printed st))
| P_mem : par st = PMem [] false ->
    parent_next st (mkState (os_st st) 0 (PInit (accept_mutex_init v)) (children st) (reaped st)
      (printed st))
| P_init : par st = PInit [] -> parent_next st (set_par (POn (accept_mutex_on v)) st)
| P_on : par st = POn [] -> parent_next st (set_par (PFork 0) st)
| P_fork i s' : par st = PFork i -> i < num_child ->
    process_fork 0 (Datatypes.S (length (children st))) (os_st st) s' ->
    parent_next st (mkState s' (shared_counter st) (PFork (i + 1))
      (children st ++ [CInit (accept_mutex_child_init v)]) (reaped st) (printed st))
| P_fork_fails i s' : par st = PFork i -> i < num_child -> process_exit 0 (os_st st) s' ->
    parent_next st (mkState s' (shared_counter st) (PExit 1) (children st) (reaped st) (printed st))
| P_forked i : par st = PFork i -> num_child <= i -> parent_next st (set_par PCheck st)
| P_check_fails s' : par st = PCheck -> shared_counter st <> 0 -> process_exit 0 (os_st st) s' ->
    parent_next st (mkState s' (shared_counter st) (PExit 1) (children st) (reaped st)
      (printed st ++ [WTF_before]))
| P_check : par st = PCheck -> shared_counter st = 0 ->
    parent_next st (set_par (POff (accept_mutex_off v)) st)
| P_off : par st = POff [] -> parent_next st (set_par (PWait 0) st)
| P_wait i : par st = PWait i -> i < num_child ->
    (reaped st < num_exited (children st))%nat ->
    parent_next st (mkState (os_st st) (shared_counter st) (PWait (i + 1)) (children st)
      (Datatypes.S (reaped st)) (printed st))
| P_wait_fails i : par st = PWait i -> i < num_child -> reaped st = length (children st) ->
    parent_next st (set_par (PWait (i + 1)) st)
| P_waited i : par st = PWait i -> num_child <= i -> parent_next st (set_par PCompare st)
| P_compare m : par st = PCompare -> imul num_child num_iter = Ok m ->
    parent_next st (mkState (os_st st) (shared_counter st) (PCleanup (accept_mutex_cleanup v))
      (children st) (reaped st)
      (printed st ++ if shared_counter st =? wrapU 64 m then [] else [WTF_after]))
| P_exit s' : par st = PCleanup [] -> process_exit 0 (os_st st) s' ->
    parent_next st (mkState s' (shared_counter st) (PExit 0) (children st) (reaped st) (printed st)).

Inductive step (st : state) : state -> Prop :=
| S_parent st' : parent_next st st' -> step st st'
| S_parent_call cs back cs' s' : parent_calls (par st) = Some (cs, back) ->
    called 0 cs (os_st st) (inl cs') s' ->
    step st (mkState s' (shared_counter st) (back cs') (children st) (reaped st) (printed st))
| S_parent_die cs back code s1 s' : parent_calls (par st) = Some (cs, back) ->
    called 0 cs (os_st st) (inr code) s1 -> process_exit 0 s1 s' ->
    step st (mkState s' (shared_counter st) (PExit code) (children st) (reaped st) (printed st))
| S_child k c c' n s' : children st !! k = Some c ->
    child_next c (shared_counter st) = Some (c', n) ->
    leaves (Datatypes.S k) (exited c') (os_st st) s' ->
    step st (mkState s' n (par st) (<[k := c']> (children st)) (reaped st) (printed st))
| S_child_call k c cs back cs' s' : children st !! k = Some c ->
    child_calls c = Some (cs, back) -> called (Datatypes.S k) cs (os_st st) (inl cs') s' ->
    step st (mkState s' (shared_counter st) (par st) (<[k := back cs']> (children st)) (reaped st)
      (printed st))
| S_child_die k c cs back code s1 s' : children st !! k = Some c ->
    child_calls c = Some (cs, back) -> called (Datatypes.S k) cs (os_st st) (inr code) s1 ->
    process_exit (Datatypes.S k) s1 s' ->
    step st (mkState s' (shared_counter st) (par st) (<[k := CExit code]> (children st)) (reaped st)
      (printed st)).

Definition reachable (st : state) : Prop := exists m fresh, rtc step (start m fresh) st.

(** No process has exited with an error. *)
Definition healthy (st : state) : Prop :=
  (forall code, par st = PExit code -> code = 0) /\
  forall k code, children st !! k = Some (CExit code) -> code = 0.

(** ** The calls and the lock *)

Abbreviation V st := (view (os_st st)).

(** The code recognises success: it goes on exactly when the call has had its
    effect. *)
Definition recognised (c : call) : Prop := forall p r e s s', sys p (what c) r e s s' ->
  effect_of (what c) = Neutral \/
  (if interpret c r e is Next then succeeds (what c) r = true else succeeds (what c) r = false).

Definition releases (c : call) : bool := match effect_of (what c) with Unlocks => true | _ => false end.
(** The process still holds the lock while it has an unlocking call to make. *)
Definition holding (cs : list call) : bool := existsb releases cs.

Definition tail_of (all cs : list call) : Prop := exists pre, all = pre ++ cs.

Lemma tail_of_all all : tail_of all all.
Proof. by exists []. Qed.

Lemma tail_of_cons all c cs : tail_of all (c :: cs) -> tail_of all cs.
Proof. intros [pre ->]. exists (pre ++ [c]). by rewrite <- app_assoc. Qed.

Lemma tail_of_Forall (P : call -> Prop) all c cs : Forall P all -> tail_of all (c :: cs) -> P c.
Proof. intros Hall [pre ->]. by apply Forall_app in Hall as [_ [? _]%Forall_cons]. Qed.

Definition neutral (c : call) : Prop := effect_of (what c) = Neutral.

Ltac recognise :=
  intros p r e s s' Hsys; pose proof (result_range _ _ _ _ _ _ Hsys) as Hrange; cbn in Hrange; cbn;
  try (left; reflexivity); right; unfold die_if; try destruct e; cbn;
  repeat (case_tests; cbn); try done; lia.

Ltac each_recognised := cbn; rewrite ?Forall_cons; split_and?; try apply Forall_nil_2; recognise.

Lemma on_recognised : Forall recognised (accept_mutex_on v).
Proof. destruct v as [| |[|]| |]; each_recognised. Qed.

Lemma off_recognised : Forall recognised (accept_mutex_off v).
Proof. destruct v as [| |[|]| |]; each_recognised. Qed.

Lemma init_recognised : Forall recognised (accept_mutex_init v).
Proof. destruct v as [| |[|]| |]; each_recognised. Qed.

Lemma child_init_recognised : Forall recognised (accept_mutex_child_init v).
Proof. destruct v as [| |[|]| |]; each_recognised. Qed.

Lemma on_shape : exists ns l, accept_mutex_on v = ns ++ [l] /\ Forall neutral ns /\
  what l = lock_call v.
Proof.
  destruct v as [| |[|]| |]; [exists []|exists []|eexists [_]|exists []|eexists [_]|exists []];
    eexists; (split; [reflexivity|]); (split; [repeat constructor|reflexivity]).
Qed.

Lemma off_shape : exists u ns, accept_mutex_off v = u :: ns /\ Forall neutral ns /\
  what u = unlock_call v.
Proof.
  destruct v as [| |[|]| |]; eexists _, _; (split; [reflexivity|]);
    (split; [repeat constructor|reflexivity]).
Qed.

(** Every call of accept_mutex_init but the one that makes the lock, which is the
    last one unless it has no effect on the lock, is neutral or opens the file. *)
Lemma init_calls c cs : tail_of (accept_mutex_init v) (c :: cs) -> recognised c /\
  (effect_of (what c) = Neutral \/ effect_of (what c) = Sets) /\
  (cs = [] -> match init_call v with Some c0 => what c = c0 | None => neutral c end).
Proof.
  intros Ht. split; [apply (tail_of_Forall _ _ _ _ init_recognised Ht)|]. split.
  - refine (tail_of_Forall (fun c => effect_of (what c) = Neutral \/ effect_of (what c) = Sets)
      _ _ _ _ Ht). destruct v; cbn; rewrite ?Forall_cons; split_and?; try apply Forall_nil_2; by (left + right).
  - intros ->. destruct Ht as [pre Ht].
    assert (Hlast : last (accept_mutex_init v) = Some c) by (rewrite Ht; apply last_snoc).
    destruct v; cbn in Hlast; injection Hlast as <-; reflexivity.
Qed.

Lemma child_init_calls c cs : tail_of (accept_mutex_child_init v) (c :: cs) -> recognised c /\
  what c = open_existing /\ cs = [].
Proof.
  intros Ht. split; [apply (tail_of_Forall _ _ _ _ child_init_recognised Ht)|].
  destruct Ht as [pre Ht]. assert (Hlen : length (accept_mutex_child_init v) = length (pre ++ c :: cs))
    by (by rewrite Ht). rewrite length_app in Hlen. cbn in Hlen.
  destruct v; cbn in Ht, Hlen; try (lia || by destruct pre). destruct pre, cs; cbn in *; try lia.
  by injection Ht as <-.
Qed.

Lemma cleanup_neutral : Forall neutral (accept_mutex_cleanup v).
Proof. destruct v as [| |[|]| |]; repeat constructor. Qed.

Lemma lock_call_locks : effect_of (lock_call v) = Locks.
Proof. by destruct v as [| |[|]| |]. Qed.
Lemma unlock_call_unlocks : effect_of (unlock_call v) = Unlocks.
Proof. by destruct v as [| |[|]| |]. Qed.

Lemma on_call c cs : tail_of (accept_mutex_on v) (c :: cs) -> recognised c /\
  ((cs = [] /\ what c = lock_call v) \/ (cs <> [] /\ neutral c)).
Proof.
  intros Ht. split; [apply (tail_of_Forall _ _ _ _ on_recognised Ht)|]. destruct Ht as [pre Heq].
  destruct on_shape as (ns & l & Hl & Hns & Hlock). rewrite Heq in Hl.
  destruct cs as [|c' cs _] using rev_ind.
  - left. apply app_inj_tail in Hl as [_ ->]. done.
  - right. split; [by destruct cs|]. rewrite app_comm_cons, app_assoc in Hl.
    apply app_inj_tail in Hl as [<- ->]. by apply Forall_app in Hns as [_ [? _]%Forall_cons].
Qed.

Lemma neutral_holding l : Forall neutral l -> holding l = false.
Proof. induction 1 as [|x l Hx _ IH]; [done|]. unfold holding in *. cbn. unfold releases at 1. by rewrite Hx. Qed.

Lemma off_call c cs : tail_of (accept_mutex_off v) (c :: cs) -> recognised c /\
  ((what c = unlock_call v /\ holding (c :: cs) = true /\ holding cs = false) \/
   (neutral c /\ holding (c :: cs) = false /\ holding cs = false)).
Proof.
  intros Ht. split; [apply (tail_of_Forall _ _ _ _ off_recognised Ht)|]. destruct Ht as [pre Heq].
  destruct off_shape as (u & ns & Hu & Hns & Hunlock). rewrite Heq in Hu.
  destruct pre as [|c' pre]; cbn in Hu.
  - injection Hu as -> ->. left. split_and!; [done| |by apply neutral_holding].
    unfold holding. cbn. unfold releases at 1. by rewrite Hunlock, unlock_call_unlocks.
  - injection Hu as -> <-. apply Forall_app in Hns as [_ Hcs].
    right. split; [by apply Forall_cons in Hcs as [? _]|]. split; apply neutral_holding; [done|].
    by apply Forall_cons in Hcs as [_ ?].
Qed.

(** exit is never called with 0 after a failed call. *)
Definition dies_nonzero (c : call) : Prop := forall r e, interpret c r e <> Die 0.

(** ** What a call does to the locks *)

Lemma neutral_effect p c L L' : effect_of c = Neutral -> takes_effect p c L L' -> L' = L.
Proof. destruct c; try done. cbn. by destruct (_ <? _). Qed.

Lemma called_neutral me c cs s res s' : neutral c -> called me (c :: cs) s res s' ->
  view s' = view s /\ match res with inl cs' => cs' = cs \/ cs' = c :: cs | inr _ => True end.
Proof.
  intros Hn Hc.
  assert (Hs : forall r e, sys me (what c) r e s s' -> view s' = view s).
  { intros r e Hs. destruct (succeeds (what c) r) eqn:Hr; [|by eapply sys_fails].
    eapply neutral_effect; [exact Hn|by eapply sys_succeeds]. }
  inversion Hc; subst; (split; [by eapply Hs|auto]).
Qed.

Lemma called_effect me c cs s res s' : recognised c -> effect_of (what c) <> Neutral ->
  called me (c :: cs) s res s' ->
  (res = inl cs /\ takes_effect me (what c) (view s) (view s')) \/
  (view s' = view s /\ match res with inl cs' => cs' = c :: cs | inr _ => True end).
Proof.
  intros Hr He Hc. inversion Hc as [? ? r e ? ? Hs Hi|? ? r e ? ? Hs Hi|? ? r e ? ? ? Hs Hi]; subst;
    destruct (Hr _ _ _ _ _ Hs) as [Hn|Hsucc]; try done; rewrite Hi in Hsucc.
  - left. split; [done|]. by eapply sys_succeeds.
  - right. split; [|done]. by eapply sys_fails.
  - right. split; [|done]. by eapply sys_fails.
Qed.

Lemma neutral_step all me cs s res s' : Forall neutral all -> tail_of all cs ->
  called me cs s res s' ->
  view s' = view s /\ match res with inl cs' => tail_of all cs' | inr _ => True end.
Proof.
  intros Hall Ht Hc. destruct cs as [|c cs]; [inversion Hc|].
  destruct (called_neutral _ _ _ _ _ _ (tail_of_Forall _ _ _ _ Hall Ht) Hc) as [Hs Hres]. split; [done|].
  destruct res as [cs'|]; [|done]. destruct Hres as [->| ->]; [by eapply tail_of_cons|done].
Qed.

(** The calls of accept_mutex_on, by a process that does not hold the lock. *)
Lemma on_step me cs s res s' : tail_of (accept_mutex_on v) cs -> lock_wf v (view s) ->
  ready v (view s) me -> holder v (view s) <> Some me -> called me cs s res s' ->
  match res with
  | inl cs' => spares v me (view s) (view s') /\ files (view s') = files (view s) /\
      tail_of (accept_mutex_on v) cs' /\
      (holder v (view s') = Some me <-> cs' = []) /\
      (cs' = [] -> holder v (view s) = None)
  | inr _ => view s' = view s
  end.
Proof.
  intros Ht Hwf Hrd Hh Hc. destruct cs as [|c cs]; [inversion Hc|].
  destruct (on_call _ _ Ht) as [Hr [[-> He]|[Hne Hn]]].
  - destruct (called_effect _ _ _ _ _ _ Hr ltac:(by rewrite He, lock_call_locks) Hc) as [(-> & Hd)|[Hs Hres]].
    + rewrite He in Hd. destruct (lock_effect _ _ _ _ Hwf Hrd Hd) as (Hsp & [Hold|?] & Hnew & Hf); [|done].
      split_and!; [done|done|by eapply tail_of_cons|by split|done].
    + destruct res; [subst|done]. rewrite Hs. split_and!; [by apply spares_same|done|done|by split|done].
  - destruct (called_neutral _ _ _ _ _ _ Hn Hc) as [Hs Hres]. destruct res as [cs'|]; [|done].
    rewrite Hs. split_and!; [by apply spares_same|done| | |].
    + destruct Hres as [->| ->]; [by eapply tail_of_cons|done].
    + split; [done|]. by destruct Hres as [->| ->].
    + by destruct Hres as [->| ->].
Qed.

(** The calls of accept_mutex_off. *)
Lemma off_step me cs s res s' : tail_of (accept_mutex_off v) cs -> lock_wf v (view s) ->
  ready v (view s) me -> (holder v (view s) = Some me <-> holding cs = true) -> called me cs s res s' ->
  match res with
  | inl cs' => spares v me (view s) (view s') /\ files (view s') = files (view s) /\
      tail_of (accept_mutex_off v) cs' /\
      (holder v (view s') = Some me <-> holding cs' = true) /\
      (holding cs' = true -> holding cs = true)
  | inr _ => view s' = view s
  end.
Proof.
  intros Ht Hwf Hrd Hh Hc. destruct cs as [|c cs]; [inversion Hc|].
  destruct (off_call _ _ Ht) as [Hr [(He & Hhold & Hno)|(Hn & Hno & Hno')]].
  - destruct (called_effect _ _ _ _ _ _ Hr ltac:(by rewrite He, unlock_call_unlocks) Hc) as [(-> & Hd)|[Hs Hres]].
    + rewrite He in Hd.
      destruct (unlock_effect _ _ _ _ Hwf Hrd (proj2 Hh Hhold) Hd) as (Hsp & Hnew & Hf).
      split_and!; [done|done|by eapply tail_of_cons| |congruence]. rewrite Hnew, Hno. by split.
    + destruct res; [subst|done]. rewrite Hs. by split_and!; [apply spares_same|..].
  - destruct (called_neutral _ _ _ _ _ _ Hn Hc) as [Hs Hres]. destruct res as [cs'|]; [|done].
    assert (Hno2 : holding cs' = false) by (by destruct Hres as [->| ->]).
    rewrite Hs. split_and!; [by apply spares_same|done| | |congruence].
    + destruct Hres as [->| ->]; [by eapply tail_of_cons|done].
    + by rewrite Hh, Hno, Hno2.
Qed.

(** The calls of accept_mutex_child_init. *)
Lemma child_init_step me cs s res s' : tail_of (accept_mutex_child_init v) cs ->
  lock_wf v (view s) -> holder v (view s) <> Some me -> called me cs s res s' ->
  match res with
  | inl cs' => spares v me (view s) (view s') /\ tail_of (accept_mutex_child_init v) cs' /\
      holder v (view s') = holder v (view s) /\ (cs' = [] -> ready v (view s') me)
  | inr _ => view s' = view s
  end.
Proof.
  intros Ht Hwf Hh Hc. destruct cs as [|c cs]; [inversion Hc|].
  destruct (child_init_calls _ _ Ht) as (Hr & He & ->).
  destruct (called_effect _ _ _ _ _ _ Hr ltac:(by rewrite He) Hc) as [(-> & Hd)|[Hs Hres]].
  - rewrite He in Hd. destruct (open_effect _ _ _ _ Hwf Hh Hd) as (Hsp & Hsame & Hrd).
    split_and!; [done|by eapply tail_of_cons|done|done].
  - destruct res; [subst|done]. rewrite Hs. by split_and!; [apply spares_same|..].
Qed.

(** The calls of accept_mutex_init. *)
Lemma init_step cs s cs' s' : tail_of (accept_mutex_init v) cs -> unused (view s) ->
  called 0 cs s (inl cs') s' ->
  unused (view s') /\ tail_of (accept_mutex_init v) cs' /\ (cs' = [] -> prepared v (view s')).
Proof.
  intros Ht Hu Hc. destruct cs as [|c cs]; [inversion Hc|].
  destruct (init_calls _ _ Ht) as (Hr & [Hn|He] & Hlast).
  - destruct (called_neutral _ _ _ _ _ _ Hn Hc) as [Hs Hres].
    split; [by rewrite Hs|]. split.
    + destruct Hres as [->| ->]; [by eapply tail_of_cons|done].
    + intros ->. destruct Hres as [<-|?]; [|done]. specialize (Hlast eq_refl).
      apply (init_effect v (view s)); [done|]. destruct (init_call v) as [c0|] eqn:Hi; [|done].
      rewrite Hlast in Hn. clear - Hi Hn. destruct v; cbn in Hi; simplify_eq; done.
  - destruct (called_effect _ _ _ _ _ _ Hr ltac:(by rewrite He) Hc) as [([= ->] & Hd)|[Hs Hres]].
    + split; [by eapply unused_sets|]. split; [by eapply tail_of_cons|]. intros ->.
      specialize (Hlast eq_refl). apply (init_effect v (view s)); [done|].
      destruct (init_call v) as [c0|]; [by rewrite <- Hlast|]. unfold neutral in Hlast. congruence.
    + subst. rewrite Hs. split_and!; done.
Qed.

(** ** Invariants *)

(** Between accept_mutex_on and accept_mutex_off. *)
Definition child_holds (c : child) : bool :=
  match c with
  | COn _ [] | CRead _ | CYield _ _ | CWrite _ _ => true
  | COff _ cs => holding cs
  | _ => false
  end.
Definition parent_holds (p : parent) : bool :=
  match p with
  | POn [] | PFork _ | PCheck => true
  | POff cs => holding cs
  | _ => false
  end.
Definition holds (st : state) (p : pid) : Prop :=
  match p with
  | O => parent_holds (par st) = true
  | Datatypes.S k => exists c, children st !! k = Some c /\ child_holds c = true
  end.

(** A process that has exited with an error, and whose lock outlives it. *)
Definition abandoned (st : state) (p : pid) : Prop :=
  keeps_lock v p = true /\ exists code, code <> 0 /\
  match p with
  | O => par st = PExit code
  | Datatypes.S k => children st !! k = Some (CExit code)
  end.

(** Past accept_mutex_child_init, or accept_mutex_init, and not yet at its exit. *)
Definition child_running (c : child) : bool :=
  match c with CInit (_ :: _) | CExit _ => false | _ => true end.
Definition setup (p : parent) : bool := match p with PMem _ _ | PInit _ => true | _ => false end.
Definition parent_exited (p : parent) : bool := match p with PExit _ => true | _ => false end.
Definition runs (st : state) (p : pid) : Prop :=
  match p with
  | O => setup (par st) = false /\ parent_exited (par st) = false
  | Datatypes.S k => exists c, children st !! k = Some c /\ child_running c = true
  end.

(** The calls in progress are what is left of the function being run. *)
Definition child_wf (counter : Z) (c : child) : Prop :=
  match c with
  | CInit cs => tail_of (accept_mutex_child_init v) cs
  | CLoop i => 0 <= i <= Z.max 0 num_iter
  | COn i cs => 0 <= i < num_iter /\ tail_of (accept_mutex_on v) cs
  | CRead i => 0 <= i < num_iter
  | CYield i tmp | CWrite i tmp => 0 <= i < num_iter /\ tmp = counter
  | COff i cs => 0 <= i < num_iter /\ tail_of (accept_mutex_off v) cs
  | CExit _ => True
  end.
Definition parent_wf (p : parent) : Prop :=
  match p with
  | PMem cs _ => Forall neutral cs /\ Forall dies_nonzero cs
  | PInit cs => tail_of (accept_mutex_init v) cs
  | POn cs => tail_of (accept_mutex_on v) cs
  | POff cs => tail_of (accept_mutex_off v) cs
  | PCleanup cs => tail_of (accept_mutex_cleanup v) cs
  | _ => True
  end.

(** Before the parent has released the lock, no child has got anywhere. *)
Definition before_launch (p : parent) : bool :=
  match p with
  | PInit _ | POn _ | PFork _ | PCheck => true
  | POff cs => holding cs
  | _ => false
  end.
Definition not_started (c : child) : bool :=
  match c with
  | CInit _ | CExit _ => true
  | CLoop i => i =? 0
  | COn i cs => (i =? 0) && match cs with [] => false | _ => true end
  | _ => false
  end.
Definition early (p : parent) (n : Z) (cs : list child) : Prop :=
  before_launch p = true -> n = 0 /\
  match p with
  | PInit _ | POn _ => cs = []
  | _ => forall k c, cs !! k = Some c -> not_started c = true
  end.

(** The lock has been made, and somebody may still use it. *)
Definition live (st : state) : Prop :=
  setup (par st) = false /\ (parent_exited (par st) = true -> children st <> []).

Record locked (st : state) : Prop := {
  lk_wf : lock_wf v (V st);
  lk_ready p : runs st p -> ready v (V st) p;
  lk_holds p : holds st p -> holder v (V st) = Some p;
  lk_back p : holder v (V st) = Some p -> holds st p \/ abandoned st p
}.

Record Inv (st : state) : Prop := {
  inv_setup : setup (par st) = true -> children st = [] /\ unused (V st) /\
    (par st = PInit [] -> prepared v (V st));
  inv_live : live st -> locked st;
  inv_parent : parent_wf (par st);
  inv_children : forall k c, children st !! k = Some c -> child_wf (shared_counter st) c;
  inv_early : early (par st) (shared_counter st) (children st);
  inv_reaped : (reaped st <= num_exited (children st))%nat
}.

Ltac memory_calls := repeat constructor; intros r0 e0; cbn; unfold die_if; repeat case_match; done.

Lemma start_inv m fresh : Inv (start m fresh).
Proof.
  split; cbn; try done.
  - intros _. split; [done|]. split; [|done]. destruct boot_unused as (H1 & H2 & H3).
    split_and!; [done|done|]. intros p d. unfold files_of. rewrite H3, lookup_empty.
    by intros ?%not_elem_of_nil.
  - by intros [? _].
  - destruct m; split; memory_calls.
Qed.

Lemma after_shmat_wf r : Forall neutral (after_shmat r) /\ Forall dies_nonzero (after_shmat r).
Proof. unfold after_shmat. destruct (r =? -1); split; memory_calls. Qed.

Lemma holds_live st p : Inv st -> holds st p -> live st.
Proof.
  intros HI Hp. destruct p as [|k]; cbn in Hp.
  - unfold live. by destruct (par st).
  - destruct Hp as (c & Hk & _). split.
    + destruct (setup (par st)) eqn:Hs; [|done]. destruct (inv_setup _ HI Hs) as [Hn _].
      by rewrite Hn in Hk.
    + intros _ Hn. by rewrite Hn in Hk.
Qed.

Lemma child_live st k c : Inv st -> children st !! k = Some c -> live st.
Proof.
  intros HI Hk. split.
  - destruct (setup (par st)) eqn:Hs; [|done]. destruct (inv_setup _ HI Hs) as [Hn _]. by rewrite Hn in Hk.
  - intros _ Hn. by rewrite Hn in Hk.
Qed.

Lemma exclusive st p q : Inv st -> holds st p -> holds st q -> p = q.
Proof.
  intros HI Hp Hq. pose proof (inv_live _ HI (holds_live _ _ HI Hp)) as HL.
  pose proof (lk_holds _ HL _ Hp). pose proof (lk_holds _ HL _ Hq). congruence.
Qed.

Lemma num_exited_total cs : Z.of_nat (num_exited cs) = total (fun c => Z.b2z (exited c)) cs.
Proof.
  unfold num_exited, total. induction cs as [|c cs IH]; cbn; [done|]. destruct (exited c); cbn; lia.
Qed.

Lemma num_exited_insert cs k c c' : cs !! k = Some c -> exited c = false ->
  (num_exited cs <= num_exited (<[k := c']> cs))%nat.
Proof.
  intros Hk Hex. apply Nat2Z.inj_le. rewrite !num_exited_total, (total_insert _ _ _ _ _ Hk), Hex.
  destruct (exited c'); cbn; lia.
Qed.

Lemma num_exited_app cs cs' : num_exited (cs ++ cs') = (num_exited cs + num_exited cs')%nat.
Proof. unfold num_exited. by rewrite List.filter_app, length_app. Qed.

Lemma num_exited_le cs : (num_exited cs <= length cs)%nat.
Proof. apply List.filter_length_le. Qed.

Lemma on_nonempty : accept_mutex_on v <> [].
Proof. destruct on_shape as (ns & l & -> & _). by destruct ns. Qed.

Lemma off_holding : holding (accept_mutex_off v) = true.
Proof.
  destruct off_shape as (u & ns & -> & _ & Hu). unfold holding. cbn. unfold releases.
  by rewrite Hu, unlock_call_unlocks.
Qed.

(** *** Children *)

(** A child that has not exited holds the lock exactly when the kernel says so. *)
Lemma child_holder st k c : Inv st -> children st !! k = Some c -> exited c = false ->
  holder v (V st) = Some (Datatypes.S k) <-> child_holds c = true.
Proof.
  intros HI Hk Hex. pose proof (inv_live _ HI (child_live _ _ _ HI Hk)) as HL. split.
  - intros Hh. destruct (lk_back _ HL _ Hh) as [(c0 & Hk0 & Hc0)|(_ & code & _ & Hk0)]; simplify_eq; done.
  - intros Hc. apply (lk_holds _ HL). by exists c.
Qed.

(** A step of child [k] to [c']. *)
Lemma inv_child st k c c' s' n : Inv st -> children st !! k = Some c -> exited c = false ->
  spares v (Datatypes.S k) (V st) (view s') ->
  (child_running c' = true -> ready v (view s') (Datatypes.S k)) ->
  (child_holds c' = true -> holder v (view s') = Some (Datatypes.S k)) ->
  (holder v (view s') = Some (Datatypes.S k) -> child_holds c' = true \/
     keeps_lock v (Datatypes.S k) = true /\ exists code, code <> 0 /\ c' = CExit code) ->
  child_wf n c' -> (child_holds c = false -> n = shared_counter st) ->
  (parent_holds (par st) = true -> not_started c = true -> not_started c' = true) ->
  Inv (mkState s' n (par st) (<[k := c']> (children st)) (reaped st) (printed st)).
Proof.
  intros HI Hk Hex Hsp Hrd Hh Hb Hwf Hn Hns.
  pose proof (inv_live _ HI (child_live _ _ _ HI Hk)) as HL.
  assert (Hlt : (k < length (children st))%nat) by (by eapply lookup_lt_Some).
  assert (Hget : forall k' c0, <[k := c']> (children st) !! k' = Some c0 ->
    (k' = k /\ c0 = c') \/ (k' <> k /\ children st !! k' = Some c0)).
  { intros k' c0 Hl. destruct (decide (k' = k)) as [->|Hne].
    - rewrite list_lookup_insert_eq in Hl by done. injection Hl as <-. by left.
    - rewrite list_lookup_insert_ne in Hl by done. by right. }
  destruct HI as [Hset _ Hpar Hch Hearly Hreap]. split; cbn.
  - intros Hs. destruct (Hset Hs) as [Hnil _]. by rewrite Hnil in Hk.
  - intros _. split; cbn; [apply Hsp| | |].
    + intros [|k'] Hr.
      * eapply spares_ready; [exact Hsp|done|]. by apply (lk_ready _ HL 0%nat).
      * destruct Hr as (c0 & Hl & Hc0). cbn in Hl. destruct (Hget _ _ Hl) as [[-> ->]|[Hne Hl']]; [auto|].
        eapply spares_ready; [exact Hsp|congruence|]. apply (lk_ready _ HL (Datatypes.S k')). by exists c0.
    + intros [|k'] Hp.
      * assert (Hp0 : holds st 0) by exact Hp. apply (sp_keep _ _ _ _ Hsp); [done| |by apply (lk_holds _ HL)].
        apply (lk_ready _ HL 0%nat). cbn in Hp |- *. by destruct (par st).
      * destruct Hp as (c0 & Hl & Hc0). cbn in Hl. destruct (Hget _ _ Hl) as [[-> ->]|[Hne Hl']]; [auto|].
        apply (sp_keep _ _ _ _ Hsp); [congruence| |apply (lk_holds _ HL); by exists c0].
        apply (lk_ready _ HL (Datatypes.S k')). exists c0. split; [done|]. by destruct c0 as [[|]| | | | | | |].
    + intros p Hp. destruct (decide (p = Datatypes.S k)) as [->|Hne].
      * destruct (Hb Hp) as [Hc|(Hkeep & code & Hcode & ->)].
        -- left. exists c'. cbn. by rewrite list_lookup_insert_eq.
        -- right. split; [done|]. exists code. cbn. by rewrite list_lookup_insert_eq.
      * destruct (lk_back _ HL _ (sp_back _ _ _ _ Hsp _ Hne Hp)) as [Hold|(Hkeep & code & Hcode & Hold)].
        -- left. destruct p as [|k']; [exact Hold|]. destruct Hold as (c0 & Hl & Hc0).
           exists c0. cbn. rewrite list_lookup_insert_ne by congruence. done.
        -- right. split; [done|]. exists code. split; [done|]. destruct p as [|k']; [exact Hold|].
           cbn. rewrite list_lookup_insert_ne by congruence. done.
  - done.
  - intros k' c0 Hl. destruct (Hget _ _ Hl) as [[-> ->]|[Hne Hl']]; [done|].
    pose proof (Hch _ _ Hl') as Hw. destruct (child_holds c) eqn:Hc; [|by rewrite Hn].
    assert (Hno : child_holds c0 = false).
    { destruct (child_holds c0) eqn:Hc0; [|done]. exfalso.
      assert (H1 : holds st (Datatypes.S k)) by (by exists c).
      assert (H2 : holds st (Datatypes.S k')) by (by exists c0).
      pose proof (lk_holds _ HL _ H1). pose proof (lk_holds _ HL _ H2). congruence. }
    by destruct c0.
  - intros He. destruct (Hearly He) as [Hz Hcs].
    assert (Hph : parent_holds (par st) = true).
    { destruct (par st) as [| |[]| | |cs| | | |]; try done; by rewrite Hcs in Hk. }
    assert (Hnc : child_holds c = false).
    { destruct (child_holds c) eqn:Hc; [|done].
      assert (H1 : holds st (Datatypes.S k)) by (by exists c).
      pose proof (lk_holds _ HL _ H1). pose proof (lk_holds _ HL 0%nat Hph). congruence. }
    split; [rewrite Hn; done|].
    assert (Hall : forall k' c0, children st !! k' = Some c0 -> not_started c0 = true).
    { destruct (par st); try done; by rewrite Hcs in Hk. }
    destruct (par st); try done; try (by rewrite Hcs in Hk);
      intros k' c0 Hl; destruct (Hget _ _ Hl) as [[-> ->]|[Hne Hl']]; eauto.
  - etrans; [exact Hreap|]. by eapply num_exited_insert.
Qed.

(** The calls of a child. *)
Lemma child_call_step me n c cs back s cs' s' : child_wf n c -> child_calls c = Some (cs, back) ->
  lock_wf v (view s) -> (child_running c = true -> ready v (view s) me) ->
  (holder v (view s) = Some me <-> child_holds c = true) -> called me cs s (inl cs') s' ->
  spares v me (view s) (view s') /\ child_wf n (back cs') /\
  (child_running (back cs') = true -> ready v (view s') me) /\
  (holder v (view s') = Some me <-> child_holds (back cs') = true) /\
  (not_started c = true -> not_started (back cs') = true \/ holder v (view s) = None).
Proof.
  intros Hwf Hb Hlw Hrd Hh Hc. destruct c as [cs0| |i cs0| | | |i cs0|]; cbn in Hb; try done;
    injection Hb as -> <-; cbn in Hwf, Hh, Hrd.
  - assert (Hno : holder v (view s) <> Some me) by (by intros ?%Hh).
    destruct (child_init_step _ _ _ _ _ Hwf Hlw Hno Hc) as (Hsp & Ht & Hs & Hr). cbn. rewrite Hs.
    split_and!; [done|done|by destruct cs'; auto|done|by left].
  - destruct Hwf as [Hi Ht]. destruct cs as [|c cs]; [inversion Hc|].
    assert (Hno : holder v (view s) <> Some me) by (by intros ?%Hh).
    destruct (on_step _ _ _ _ _ Ht Hlw (Hrd eq_refl) Hno Hc) as (Hsp & Hf & Ht' & Hh' & Hn). cbn.
    split; [done|]. split; [done|]. split; [|split].
    + intros _. specialize (Hrd eq_refl). unfold ready, flock_fd, files_of in *. by rewrite Hf.
    + rewrite Hh'. by destruct cs'.
    + intros Hns. destruct cs'; [right; by apply Hn|by left].
  - destruct Hwf as [Hi Ht].
    destruct (off_step _ _ _ _ _ Ht Hlw (Hrd eq_refl) Hh Hc) as (Hsp & Hf & Ht' & Hh' & Hn). cbn.
    split; [done|]. split; [done|]. split; [|by split].
    intros _. specialize (Hrd eq_refl). unfold ready, flock_fd, files_of in *. by rewrite Hf.
Qed.

(** A call after which a process exits leaves the locks alone. *)
Lemma child_call_die me n c cs back s code s' : child_wf n c -> child_calls c = Some (cs, back) ->
  lock_wf v (view s) -> (child_running c = true -> ready v (view s) me) ->
  (holder v (view s) = Some me <-> child_holds c = true) -> called me cs s (inr code) s' ->
  view s' = view s.
Proof.
  intros Hwf Hb Hlw Hrd Hh Hc. destruct c as [cs0| |i cs0| | | |i cs0|]; cbn in Hb; try done;
    injection Hb as -> <-; cbn in Hwf, Hh, Hrd.
  - assert (Hno : holder v (view s) <> Some me) by (by intros ?%Hh).
    by apply (child_init_step _ _ _ _ _ Hwf Hlw Hno Hc).
  - destruct Hwf as [_ Ht]. destruct cs as [|c cs]; [inversion Hc|].
    assert (Hno : holder v (view s) <> Some me) by (by intros ?%Hh).
    by apply (on_step _ _ _ _ _ Ht Hlw (Hrd eq_refl) Hno Hc).
  - destruct Hwf as [_ Ht]. by apply (off_step _ _ _ _ _ Ht Hlw (Hrd eq_refl) Hh Hc).
Qed.

(** What a child does by itself keeps its invariant; only the holder of the lock
    changes the counter. *)
Lemma child_next_step c n c' n' : child_wf n c -> child_next c n = Some (c', n') ->
  child_wf n' c' /\ child_running c = true /\ (exited c' = false -> child_holds c' = child_holds c) /\
  (exited c' = true -> child_holds c = false) /\
  (child_holds c = false -> n' = n) /\ (not_started c = true -> not_started c' = true).
Proof.
  intros Hwf Hnx. pose proof on_nonempty as Hon. pose proof off_holding as Hoff.
  destruct c as [[|]|i|i [|]|i|i tmp|i tmp|i [|]|]; cbn in Hnx, Hwf; try done;
    injection Hnx as <- <-; cbn.
  - split_and!; [lia|lia|done..].
  - destruct (Z.ltb_spec i num_iter); cbn; [|by split_and!]. destruct (accept_mutex_on v) eqn:Ha; [done|].
    split; [split; [lia|apply tail_of_all]|]. split_and!; [done|done|done|done|]. by intros ->%Z.eqb_eq.
  - split_and!; [lia|lia|done|done|done|done|by rewrite andb_false_r].
  - split_and!; [lia|lia|done..].
  - split_and!; [lia|lia|apply Hwf|done..].
  - split; [split; [lia|apply tail_of_all]|]. split_and!; done.
  - split_and!; [lia|lia|done..].
Qed.

(** *** The parent *)

Lemma parent_holder st : Inv st -> live st -> parent_exited (par st) = false ->
  holder v (V st) = Some 0%nat <-> parent_holds (par st) = true.
Proof.
  intros HI Hlive Hex. pose proof (inv_live _ HI Hlive) as HL. split.
  - intros Hh. destruct (lk_back _ HL _ Hh) as [Hp|(_ & code & _ & Hp)]; [exact Hp|].
    by rewrite Hp in Hex.
  - intros Hp. by apply (lk_holds _ HL 0%nat).
Qed.

(** A step of the parent, after accept_mutex_init. *)
Lemma inv_par st p' s' r m : Inv st -> live st -> setup p' = false ->
  spares v 0 (V st) (view s') ->
  (parent_exited p' = false -> ready v (view s') 0) ->
  (parent_holds p' = true -> holder v (view s') = Some 0%nat) ->
  (holder v (view s') = Some 0%nat -> parent_holds p' = true \/
     keeps_lock v 0 = true /\ exists code, code <> 0 /\ p' = PExit code) ->
  parent_wf p' -> early p' (shared_counter st) (children st) ->
  (r <= num_exited (children st))%nat ->
  Inv (mkState s' (shared_counter st) p' (children st) r m).
Proof.
  intros HI Hlive Hset Hsp Hrd Hh Hb Hwf He Hr. pose proof (inv_live _ HI Hlive) as HL.
  destruct HI as [_ _ Hpar Hch Hearly Hreap]. split; cbn; try done.
  - by rewrite Hset.
  - intros _. split; cbn; [apply Hsp| | |].
    + intros [|k] Hrun; [by apply Hrd, Hrun|].
      eapply spares_ready; [exact Hsp|done|]. by apply (lk_ready _ HL (Datatypes.S k)).
    + intros [|k] Hp; [by apply Hh|]. apply (sp_keep _ _ _ _ Hsp); [done| |by apply (lk_holds _ HL)].
      apply (lk_ready _ HL (Datatypes.S k)). destruct Hp as (c & Hk & Hc). exists c. split; [done|].
      by destruct c as [[|]| | | | | | |].
    + intros p Hp. destruct p as [|k].
      * destruct (Hb Hp) as [?|(Hkeep & code & Hcode & ->)]; [by left|]. right. split; [done|].
        by exists code.
      * destruct (lk_back _ HL _ (sp_back _ _ _ _ Hsp (Datatypes.S k) ltac:(done) Hp)) as [Ho|Ho];
          [left; exact Ho|right; exact Ho].
Qed.

(** A step that leaves the system alone. *)
Lemma inv_par_same st p' r m : Inv st -> live st -> setup p' = false ->
  parent_exited (par st) = false -> parent_exited p' = false ->
  parent_holds p' = parent_holds (par st) -> parent_wf p' ->
  early p' (shared_counter st) (children st) -> (r <= num_exited (children st))%nat ->
  Inv (mkState (os_st st) (shared_counter st) p' (children st) r m).
Proof.
  intros HI Hlive Hset Hex Hex' Hh Hwf He Hr. pose proof (inv_live _ HI Hlive) as HL.
  apply inv_par; try done.
  - apply spares_same, (lk_wf _ HL).
  - intros _. apply (lk_ready _ HL 0%nat). split; [apply Hlive|done].
  - rewrite Hh. by apply parent_holder.
  - rewrite Hh, parent_holder by done. by left.
Qed.

(** An exit of the parent. *)
Lemma inv_par_exit st s1 s' code m : Inv st -> live st -> view s1 = V st ->
  process_exit 0 s1 s' -> (parent_holds (par st) = true -> code <> 0) ->
  parent_exited (par st) = false ->
  Inv (mkState s' (shared_counter st) (PExit code) (children st) (reaped st) m).
Proof.
  intros HI Hlive Hs1 Hx Hcode Hex. apply exit_releases in Hx. rewrite Hs1 in Hx.
  pose proof (inv_live _ HI Hlive) as HL.
  destruct (exit_spares v 0 (V st) (lk_wf _ HL)) as [Hsp Hk]. rewrite <- Hx in Hsp, Hk.
  apply inv_par; try done.
  - intros Hh. right. destruct (Hk Hh) as [Hold Hkeep]. split; [done|]. exists code. split; [|done].
    apply Hcode. by apply parent_holder.
  - apply HI.
Qed.

(** The parent gives up before there are children. *)
Lemma inv_early_exit st s' n code m : Inv st -> children st = [] ->
  Inv (mkState s' n (PExit code) (children st) (reaped st) m).
Proof.
  intros HI Hnil. split; cbn; try done.
  - intros [_ Hl]. cbn in Hl. by destruct (Hl eq_refl).
  - intros k c Hk. by rewrite Hnil in Hk.
  - apply HI.
Qed.

(** A step before accept_mutex_init has returned. *)
Lemma inv_setup_step st p' s' n : Inv st -> setup (par st) = true -> setup p' = true ->
  unused (view s') -> (p' = PInit [] -> prepared v (view s')) -> parent_wf p' ->
  (before_launch p' = true -> n = 0) ->
  Inv (mkState s' n p' (children st) (reaped st) (printed st)).
Proof.
  intros HI Hs Hs' Hu Hp Hwf Hn. destruct (inv_setup _ HI Hs) as [Hnil _]. split; cbn; try done.
  - intros [Hl _]. cbn in Hl. congruence.
  - intros k c Hk. by rewrite Hnil in Hk.
  - intros Hb. split; [by apply Hn|]. by destruct p'.
  - apply HI.
Qed.

(** fork. *)
Lemma inv_fork st i s' : Inv st -> par st = PFork i ->
  process_fork 0 (Datatypes.S (length (children st))) (os_st st) s' ->
  Inv (mkState s' (shared_counter st) (PFork (i + 1))
    (children st ++ [CInit (accept_mutex_child_init v)]) (reaped st) (printed st)).
Proof.
  intros HI Hpar Hf. apply fork_copies in Hf. set (q := Datatypes.S (length (children st))) in *.
  assert (Hlive : live st) by (unfold live; by rewrite Hpar).
  pose proof (inv_live _ HI Hlive) as HL.
  assert (Hh0 : holder v (V st) = Some 0%nat) by (apply (lk_holds _ HL 0%nat); cbn; by rewrite Hpar).
  destruct (fork_spares v q (V st) (lk_wf _ HL) ltac:(done) ltac:(rewrite Hh0; unfold q; congruence)) as [Hsp Hh].
  rewrite <- Hf in Hsp, Hh.
  destruct HI as [_ _ _ Hch Hearly Hreap]. rewrite Hpar in Hearly.
  assert (Hget : forall k c, (children st ++ [CInit (accept_mutex_child_init v)]) !! k = Some c ->
    children st !! k = Some c \/ (Datatypes.S k = q /\ c = CInit (accept_mutex_child_init v))).
  { intros k c [Hk|[Hle Hk]]%lookup_app_Some; [by left|].
    apply list_lookup_singleton_Some in Hk as [Hz <-]. right. split; [unfold q; lia|done]. }
  split; cbn; try done.
  - intros _. split; cbn; [apply Hsp| | |].
    + intros [|k] Hrun.
      * eapply spares_ready; [exact Hsp|done|]. apply (lk_ready _ HL 0%nat). cbn. by rewrite Hpar.
      * destruct Hrun as (c & Hk & Hc). cbn in Hk. destruct (Hget _ _ Hk) as [Hk'|[_ ->]].
        -- eapply spares_ready; [exact Hsp| |apply (lk_ready _ HL (Datatypes.S k)); by exists c].
           apply lookup_lt_Some in Hk'. unfold q. lia.
        -- unfold ready. by destruct v.
    + intros [|k] Hp; [by rewrite Hh|]. destruct Hp as (c & Hk & Hc). cbn in Hk.
      destruct (Hget _ _ Hk) as [Hk'|[_ ->]]; [|done]. rewrite Hh. apply (lk_holds _ HL). by exists c.
    + intros p Hp. rewrite Hh, Hh0 in Hp. injection Hp as <-. by left.
  - intros k c Hk. destruct (Hget _ _ Hk) as [Hk'|[_ ->]]; [by apply Hch in Hk'|apply tail_of_all].
  - intros _. destruct (Hearly eq_refl) as [Hz Hall]. split; [done|]. intros k c Hk.
    destruct (Hget _ _ Hk) as [Hk'|[_ ->]]; [by eapply Hall|done].
  - fold (num_exited (children st ++ [CInit (accept_mutex_child_init v)])).
    rewrite num_exited_app. lia.
Qed.

(** The calls of the parent after accept_mutex_init. *)
Lemma parent_call_step st cs back cs' s' : Inv st -> live st ->
  parent_calls (par st) = Some (cs, back) -> called 0 cs (os_st st) (inl cs') s' ->
  Inv (mkState s' (shared_counter st) (back cs') (children st) (reaped st) (printed st)).
Proof.
  intros HI Hlive Hb Hc. pose proof (inv_live _ HI Hlive) as HL. destruct Hlive as [Hset Hlive].
  pose proof (inv_parent _ HI) as Hwf. pose proof (inv_early _ HI) as He. unfold early in He.
  assert (Hex : parent_exited (par st) = false) by (by destruct (par st)).
  pose proof (parent_holder st HI (conj Hset Hlive) Hex) as Hh.
  assert (Hrd : ready v (V st) 0) by (apply (lk_ready _ HL 0%nat); by split).
  assert (Hready : files (view s') = files (V st) -> ready v (view s') 0).
  { intros Hf. unfold ready, flock_fd, files_of in *. by rewrite Hf. }
  assert (Hlive' : live st) by (by split).
  destruct (par st) as [cs0 att|cs0|cs0| | |cs0| | |cs0|] eqn:Hpar; cbn in Hb; try done;
    injection Hb as -> <-; cbn in Hwf, Hh.
  - destruct cs as [|c cs]; [inversion Hc|].
    assert (Hno : holder v (V st) <> Some 0%nat) by (by intros ?%Hh).
    destruct (on_step _ _ _ _ _ Hwf (lk_wf _ HL) Hrd Hno Hc) as (Hsp & Hf & Ht & Hh' & _).
    apply inv_par; try done; [intros _; auto|..].
    + cbn. destruct cs'; [|done]. intros _. by apply Hh'.
    + intros ->%Hh'. by left.
    + apply HI.
  - destruct (off_step _ _ _ _ _ Hwf (lk_wf _ HL) Hrd Hh Hc) as (Hsp & Hf & Ht & Hh' & Hn).
    apply inv_par; try done; [intros _; auto|..].
    + apply Hh'.
    + intros ?%Hh'. by left.
    + intros Hbl. apply He. cbn in Hbl |- *. by apply Hn.
    + apply HI.
  - destruct (neutral_step _ _ _ _ _ _ cleanup_neutral Hwf Hc) as [Hs Ht].
    apply inv_par; rewrite ?Hs; try done.
    + apply spares_same, (lk_wf _ HL).
    + by intros ?%Hh.
    + apply HI.
Qed.

Lemma parent_call_die st cs back code s' : Inv st -> live st ->
  parent_calls (par st) = Some (cs, back) -> called 0 cs (os_st st) (inr code) s' ->
  view s' = V st.
Proof.
  intros HI Hlive Hb Hc. pose proof (inv_live _ HI Hlive) as HL.
  pose proof (inv_parent _ HI) as Hwf.
  assert (Hex : parent_exited (par st) = false) by (by destruct (par st)).
  pose proof (parent_holder st HI Hlive Hex) as Hh. destruct Hlive as [Hset _].
  assert (Hrd : ready v (V st) 0) by (apply (lk_ready _ HL 0%nat); by split).
  destruct (par st) as [cs0 att|cs0|cs0| | |cs0| | |cs0|] eqn:Hpar; cbn in Hb; try done;
    injection Hb as -> <-; cbn in Hwf, Hh.
  - destruct cs as [|c cs]; [inversion Hc|].
    assert (Hno : holder v (V st) <> Some 0%nat) by (by intros ?%Hh).
    apply (on_step _ _ _ _ _ Hwf (lk_wf _ HL) Hrd Hno Hc).
  - apply (off_step _ _ _ _ _ Hwf (lk_wf _ HL) Hrd Hh Hc).
  - apply (neutral_step _ _ _ _ _ _ cleanup_neutral Hwf Hc).
Qed.

(** *** Exit codes *)

Lemma all_die_nonzero all : all ∈ [accept_mutex_init v; accept_mutex_child_init v;
    accept_mutex_cleanup v; accept_mutex_on v; accept_mutex_off v] -> Forall dies_nonzero all.
Proof.
  intros Hall. repeat (apply elem_of_cons in Hall as [->|Hall]); [..|by inversion Hall];
    destruct v as [| |[|]| |]; cbn; rewrite ?Forall_cons; split_and?; try apply Forall_nil_2;
    intros r e; cbn; unfold die_if; try destruct e; repeat case_match; done.
Qed.

Lemma called_die_nonzero all me cs s code s' : Forall dies_nonzero all -> tail_of all cs ->
  called me cs s (inr code) s' -> code <> 0.
Proof.
  intros Hall [pre ->] Hc. inversion Hc as [| |c cs0 r e s0 s0' code' Hs Hi]; subst.
  apply Forall_app in Hall as [_ Hall]. apply Forall_cons in Hall as [Hd _].
  intros ->. by apply (Hd r e).
Qed.

Lemma child_die n c cs back me s code s' : child_wf n c -> child_calls c = Some (cs, back) ->
  called me cs s (inr code) s' -> code <> 0.
Proof.
  intros Hwf Hb Hc. destruct c; cbn in Hb; try done; injection Hb as -> <-; cbn in Hwf;
    try destruct Hwf as [_ Hwf]; (eapply called_die_nonzero; [|exact Hwf|exact Hc]);
    apply all_die_nonzero; set_solver.
Qed.

Lemma parent_die p cs back me s code s' : parent_wf p -> parent_calls p = Some (cs, back) ->
  called me cs s (inr code) s' -> code <> 0.
Proof.
  intros Hwf Hb Hc. destruct p; cbn in Hb; try done; injection Hb as -> <-; cbn in Hwf;
    [by eapply called_die_nonzero; [exact (proj2 Hwf)|apply tail_of_all|]|..];
    (eapply called_die_nonzero; [|exact Hwf|exact Hc]); apply all_die_nonzero; set_solver.
Qed.

(** *** Every step *)

Lemma parent_next_inv st st' : Inv st -> parent_next st st' -> Inv st'.
Proof.
  intros HI Hp. pose proof (inv_reaped _ HI) as Hreap. pose proof (inv_early _ HI) as Hearly.
  pose proof off_holding as Hoff. pose proof on_nonempty as Hon. unfold early in Hearly.
  destruct Hp as [r e s' Hp Hsys|Hp|Hp|Hp|i s' Hp Hi Hf|i s' Hp Hi Hx|i Hp Hi|s' Hp Hz Hx|Hp Hz|Hp
    |i Hp Hi Hr|i Hp Hi Hr|i Hp Hi|m Hp Hm|s' Hp Hx].
  - assert (Hs : setup (par st) = true) by by rewrite Hp.
    destruct (inv_setup _ HI Hs) as (_ & Hu & _).
    apply inv_setup_step; [done|done|done| |done|apply after_shmat_wf|done].
    assert (Hv : view s' = V st); [|by rewrite Hv].
    eapply (neutral_effect 0%nat shmat); [done|]. by eapply sys_succeeds.
  - assert (Hs : setup (par st) = true) by by rewrite Hp.
    destruct (inv_setup _ HI Hs) as (_ & Hu & _).
    apply inv_setup_step; try done; [|apply tail_of_all]. intros Hnil. exfalso.
    injection Hnil. by destruct v.
  - assert (Hs : setup (par st) = true) by by rewrite Hp.
    destruct (inv_setup _ HI Hs) as (Hnil & _ & Hpre). destruct (Hpre Hp) as (Hwf & Hfree & Hrd).
    split; cbn; try done.
    + intros _. split; cbn; [done| | |].
      * intros [|k]; cbn; [done|]. intros (c & Hk & _). by rewrite Hnil in Hk.
      * intros [|k]; cbn; [by destruct (accept_mutex_on v)|]. intros (c & Hk & _). by rewrite Hnil in Hk.
      * intros p. by rewrite Hfree.
    + apply tail_of_all.
    + intros k c Hk. by rewrite Hnil in Hk.
    + intros _. rewrite Hp in Hearly. by apply Hearly.
  - assert (Hlive : live st) by (unfold live; by rewrite Hp). rewrite Hp in Hearly.
    apply inv_par_same; try done; try (by rewrite Hp).
    intros _. destruct (Hearly eq_refl) as [? ->]. by split.
  - by eapply inv_fork.
  - assert (Hlive : live st) by (unfold live; by rewrite Hp).
    eapply inv_par_exit; try done. by rewrite Hp.
  - assert (Hlive : live st) by (unfold live; by rewrite Hp). rewrite Hp in Hearly.
    apply inv_par_same; try done; by rewrite Hp.
  - assert (Hlive : live st) by (unfold live; by rewrite Hp).
    eapply inv_par_exit; try done. by rewrite Hp.
  - assert (Hlive : live st) by (unfold live; by rewrite Hp). rewrite Hp in Hearly.
    apply inv_par_same; try done; [by rewrite Hp|by cbn; rewrite Hp|apply tail_of_all|].
    intros _. by apply Hearly.
  - assert (Hlive : live st) by (unfold live; by rewrite Hp).
    apply inv_par_same; try done; by rewrite Hp.
  - assert (Hlive : live st) by (unfold live; by rewrite Hp).
    apply inv_par_same; try done; by rewrite Hp.
  - assert (Hlive : live st) by (unfold live; by rewrite Hp).
    apply inv_par_same; try done; by rewrite Hp.
  - assert (Hlive : live st) by (unfold live; by rewrite Hp).
    apply inv_par_same; try done; by rewrite Hp.
  - assert (Hlive : live st) by (unfold live; by rewrite Hp).
    apply inv_par_same; try done; [by rewrite Hp|by cbn; rewrite Hp|apply tail_of_all].
  - assert (Hlive : live st) by (unfold live; by rewrite Hp).
    eapply inv_par_exit; try done; by rewrite Hp.
Qed.

Lemma step_inv st st' : Inv st -> step st st' -> Inv st'.
Proof.
  intros HI Hst.
  destruct Hst as [st1 Hp|cs back cs' s' Hb Hc|cs back code s1 s' Hb Hc Hx|k c c' n s' Hk Hn Hx
    |k c cs back cs' s' Hk Hb Hc|k c cs back code s1 s' Hk Hb Hc Hx].
  - by eapply parent_next_inv.
  - destruct (setup (par st)) eqn:Hs.
    + destruct (inv_setup _ HI Hs) as (_ & Hu & _). pose proof (inv_parent _ HI) as Hwf.
      destruct (par st) as [cs0 att|cs0| | | | | | | |] eqn:Hp; try done; cbn in Hb, Hwf; injection Hb as -> <-.
      * destruct Hwf as [Hn Hd]. destruct (neutral_step _ _ _ _ _ _ Hn (tail_of_all _) Hc) as [Hv [pre ->]].
        apply inv_setup_step; try done; [by rewrite Hp|by rewrite Hv|].
        apply Forall_app in Hn as [_ Hn], Hd as [_ Hd]. done.
      * destruct (init_step _ _ _ _ Hwf Hu Hc) as (Hu' & Ht & Hpre).
        apply inv_setup_step; try done; [by rewrite Hp| |].
        -- intros [= ->]. by apply Hpre.
        -- intros _. pose proof (inv_early _ HI) as He. rewrite Hp in He. by apply He.
    + eapply parent_call_step; eauto. split; [done|]. by destruct (par st).
  - destruct (setup (par st)) eqn:Hs.
    + apply inv_early_exit; [done|]. by apply (inv_setup _ HI Hs).
    + assert (Hlive : live st) by (split; [done|by destruct (par st)]).
      eapply inv_par_exit; [done|done| |exact Hx| |by destruct (par st)].
      * by eapply parent_call_die.
      * intros _. eapply parent_die; [exact (inv_parent _ HI)|exact Hb|exact Hc].
  - pose proof (inv_children _ HI _ _ Hk) as Hwf.
    destruct (child_next_step _ _ _ _ Hwf Hn) as (Hwf' & Hrun & Hsame & Hfree & Hcnt & Hns).
    assert (Hex : exited c = false) by (by destruct c).
    pose proof (inv_live _ HI (child_live _ _ _ HI Hk)) as HL.
    pose proof (child_holder _ _ _ HI Hk Hex) as Hh.
    assert (Hrd : ready v (V st) (Datatypes.S k)) by (apply (lk_ready _ HL (Datatypes.S k)); by exists c).
    destruct (exited c') eqn:Hx'; cbn in Hx.
    + apply exit_releases in Hx. destruct (exit_spares v (Datatypes.S k) (V st) (lk_wf _ HL)) as [Hsp Hkp].
      rewrite <- Hx in Hsp, Hkp. specialize (Hfree eq_refl).
      eapply inv_child; try done; try (by destruct c'); auto.
      intros Hhold. destruct (Hkp Hhold) as [Hold _]. apply Hh in Hold. congruence.
    + subst s'. specialize (Hsame eq_refl).
      eapply inv_child; try done; auto; [apply spares_same, (lk_wf _ HL)|rewrite Hsame..].
      * apply Hh.
      * intros ?%Hh. by left.
  - pose proof (inv_children _ HI _ _ Hk) as Hwf.
    assert (Hex : exited c = false) by (by destruct c).
    pose proof (inv_live _ HI (child_live _ _ _ HI Hk)) as HL.
    pose proof (child_holder _ _ _ HI Hk Hex) as Hh.
    assert (Hrd : child_running c = true -> ready v (V st) (Datatypes.S k))
      by (intros ?; apply (lk_ready _ HL (Datatypes.S k)); by exists c).
    destruct (child_call_step _ _ _ _ _ _ _ _ Hwf Hb (lk_wf _ HL) Hrd Hh Hc) as (Hsp & Hwf' & Hrd' & Hh' & Hns).
    eapply inv_child; try done; [apply Hh'|intros ?%Hh'; by left|].
    intros Hp Hnot. destruct (Hns Hnot) as [?|Hfree]; [done|].
    pose proof (lk_holds _ HL 0%nat Hp). congruence.
  - pose proof (inv_children _ HI _ _ Hk) as Hwf.
    assert (Hex : exited c = false) by (by destruct c).
    pose proof (inv_live _ HI (child_live _ _ _ HI Hk)) as HL.
    pose proof (child_holder _ _ _ HI Hk Hex) as Hh.
    assert (Hrd : child_running c = true -> ready v (V st) (Datatypes.S k))
      by (intros ?; apply (lk_ready _ HL (Datatypes.S k)); by exists c).
    pose proof (child_call_die _ _ _ _ _ _ _ _ Hwf Hb (lk_wf _ HL) Hrd Hh Hc) as Hs1.
    apply exit_releases in Hx. rewrite Hs1 in Hx.
    destruct (exit_spares v (Datatypes.S k) (V st) (lk_wf _ HL)) as [Hsp Hkp]. rewrite <- Hx in Hsp, Hkp.
    eapply inv_child; try done.
    intros Hhold. destruct (Hkp Hhold) as [_ Hkeep]. right. split; [done|]. exists code.
    split; [|done]. eapply child_die; [exact Hwf|exact Hb|exact Hc].
Qed.

Lemma reachable_inv st : reachable st -> Inv st.
Proof.
  intros (m & fresh & Hr). refine (rtc_ind_r (fun st => Inv st) _ (start_inv m fresh) _ st Hr).
  intros st1 st2 _ Hst HI. by eapply step_inv.
Qed.

(** ** Termination *)

Definition len {A} (l : list A) : Z := zlen l.

(** Bounds on the number of steps that are not retries. *)
Definition loop_work (i : Z) : Z :=
  Z.max 0 (num_iter - i) * (len (accept_mutex_on v) + len (accept_mutex_off v) + 6) + 1.
Definition child_work (c : child) : Z :=
  match c with
  | CInit cs => len cs + 1 + loop_work 0
  | CLoop i => loop_work i
  | COn i cs => len cs + len (accept_mutex_off v) + 5 + loop_work (i + 1)
  | CRead i => len (accept_mutex_off v) + 4 + loop_work (i + 1)
  | CYield i _ => len (accept_mutex_off v) + 3 + loop_work (i + 1)
  | CWrite i _ => len (accept_mutex_off v) + 2 + loop_work (i + 1)
  | COff i cs => len cs + 1 + loop_work (i + 1)
  | CExit _ => 0
  end.
Definition fork_work (i : Z) : Z :=
  Z.max 0 (num_child - i) * (child_work (CInit (accept_mutex_child_init v)) + 1).
Definition wait_work (i : Z) : Z := Z.max 0 (num_child - i) + len (accept_mutex_cleanup v) + 3.
Definition parent_work (p : parent) : Z :=
  match p with
  | PMem cs attach => len cs + (if attach then 2 else 0) + 1 + len (accept_mutex_init v) +
      len (accept_mutex_on v) + len (accept_mutex_off v) + 5 + fork_work 0 + wait_work 0
  | PInit cs => len cs + len (accept_mutex_on v) + len (accept_mutex_off v) + 5 + fork_work 0 + wait_work 0
  | POn cs => len cs + len (accept_mutex_off v) + 4 + fork_work 0 + wait_work 0
  | PFork i => len (accept_mutex_off v) + 3 + fork_work i + wait_work 0
  | PCheck => len (accept_mutex_off v) + 2 + wait_work 0
  | POff cs => len cs + 1 + wait_work 0
  | PWait i => wait_work i
  | PCompare => len (accept_mutex_cleanup v) + 2
  | PCleanup cs => len cs + 1
  | PExit _ => 0
  end.
Definition work (st : state) : Z := parent_work (par st) + total child_work (children st).

Lemma len_nonneg {A} (l : list A) : 0 <= len l.
Proof. apply zlen_nonneg. Qed.

Lemma len_cons {A} (x : A) l : len (x :: l) = 1 + len l.
Proof. apply zlen_cons. Qed.

Lemma loop_work_pos i : 1 <= loop_work i.
Proof.
  unfold loop_work. pose proof (len_nonneg (accept_mutex_on v)).
  pose proof (len_nonneg (accept_mutex_off v)). nia.
Qed.

Lemma loop_work_step i : i < num_iter ->
  loop_work i = len (accept_mutex_on v) + len (accept_mutex_off v) + 6 + loop_work (i + 1).
Proof.
  intros H1. unfold loop_work. replace (Z.max 0 (num_iter - i)) with (Z.max 0 (num_iter - (i + 1)) + 1) by lia.
  lia.
Qed.

Lemma child_work_nonneg c : 0 <= child_work c.
Proof.
  pose proof (len_nonneg (accept_mutex_off v)).
  destruct c as [cs|i|i cs|i|i tmp|i tmp|i cs|code]; cbn; try lia;
    try (pose proof (loop_work_pos i)); try (pose proof (loop_work_pos (i + 1)));
    try (pose proof (loop_work_pos 0)); try (pose proof (len_nonneg cs)); lia.
Qed.

Lemma fork_work_step i : i < num_child ->
  fork_work i = child_work (CInit (accept_mutex_child_init v)) + 1 + fork_work (i + 1).
Proof.
  intros H1. unfold fork_work.
  replace (Z.max 0 (num_child - i)) with (Z.max 0 (num_child - (i + 1)) + 1) by lia. lia.
Qed.

Lemma fork_work_nonneg i : 0 <= fork_work i.
Proof. unfold fork_work. pose proof (child_work_nonneg (CInit (accept_mutex_child_init v))). nia. Qed.

Lemma wait_work_bounds i : len (accept_mutex_cleanup v) + 3 <= wait_work i /\
  (i < num_child -> wait_work (i + 1) < wait_work i).
Proof. unfold wait_work. lia. Qed.

Lemma called_len p cs s res s' : called p cs s res s' ->
  match res with inl cs' => cs' = cs \/ len cs' < len cs | inr _ => cs <> [] end.
Proof.
  destruct 1; [right; rewrite len_cons; lia|by left|done].
Qed.

Lemma parent_next_work st st' : parent_next st st' -> work st' < work st.
Proof.
  pose proof (len_nonneg (accept_mutex_on v)). pose proof (len_nonneg (accept_mutex_off v)).
  pose proof (len_nonneg (accept_mutex_cleanup v)). pose proof (fork_work_nonneg 0).
  pose proof (wait_work_bounds 0) as [Hw0 _]. unfold work.
  destruct 1 as [r e s' Hp Hsys|Hp|Hp|Hp|i s' Hp Hi Hf|i s' Hp Hi Hx|i Hp Hi|s' Hp Hz Hx|Hp Hz|Hp
    |i Hp Hi Hr|i Hp Hi Hr|i Hp Hi|m Hp Hm|s' Hp Hx];
    unfold set_par; cbn [par children]; rewrite Hp; unfold parent_work; rewrite ?zlen_nil;
    change (len (@nil call)) with 0; try lia.
  - unfold after_shmat. destruct (r =? -1); unfold len, zlen; cbn [length]; lia.
  - rewrite total_app, (fork_work_step i Hi). unfold total at 2. cbn. lia.
  - pose proof (fork_work_nonneg i). lia.
  - pose proof (fork_work_nonneg i). lia.
  - pose proof (wait_work_bounds i) as [_ Hw]. specialize (Hw Hi). lia.
  - pose proof (wait_work_bounds i) as [_ Hw]. specialize (Hw Hi). lia.
  - pose proof (wait_work_bounds i). lia.
Qed.

Lemma child_next_work c n c' n' : child_next c n = Some (c', n') -> child_work c' < child_work c.
Proof.
  intros Hc. pose proof (len_nonneg (accept_mutex_off v)).
  destruct c as [[|]|i|i [|]|i|i tmp|i tmp|i [|]|]; cbn in Hc; try done; injection Hc as <- <-;
    cbn [child_work]; change (len (@nil call)) with 0; try lia.
  pose proof (loop_work_pos i). destruct (Z.ltb_spec i num_iter); cbn [child_work]; [|lia].
  rewrite (loop_work_step i) by done. lia.
Qed.

Lemma child_calls_work c cs back : child_calls c = Some (cs, back) ->
  c = back cs /\ forall cs', child_work (back cs') - len cs' = child_work c - len cs.
Proof. destruct c; cbn; try done; intros [= <- <-]; (split; [done|]); intros; cbn; lia. Qed.

Lemma parent_calls_work p cs back : parent_calls p = Some (cs, back) ->
  p = back cs /\ forall cs', parent_work (back cs') - len cs' = parent_work p - len cs.
Proof. destruct p; cbn; try done; intros [= <- <-]; (split; [done|]); intros; cbn; lia. Qed.

Lemma parent_work_pos p cs back : parent_calls p = Some (cs, back) -> 0 < parent_work p.
Proof.
  pose proof (len_nonneg (accept_mutex_on v)). pose proof (len_nonneg (accept_mutex_off v)).
  pose proof (len_nonneg (accept_mutex_cleanup v)). pose proof (fork_work_nonneg 0).
  pose proof (wait_work_bounds 0) as [Hw0 _]. pose proof (len_nonneg (accept_mutex_init v)).
  destruct p as [cs0 []|cs0|cs0| | |cs0| | |cs0|]; cbn; try done; intros _; pose proof (len_nonneg cs0); lia.
Qed.

Lemma child_work_pos c cs back : child_calls c = Some (cs, back) -> 0 < child_work c.
Proof.
  pose proof (len_nonneg (accept_mutex_off v)). pose proof (loop_work_pos 0).
  destruct c as [cs0| |i cs0| | | |i cs0|]; cbn; try done; intros _;
    pose proof (len_nonneg cs0); try (pose proof (loop_work_pos (i + 1))); lia.
Qed.

(** A step uses up work, unless it repeats an interrupted system call. *)
Definition retry (st st' : state) : Prop :=
  exists s', st' = mkState s' (shared_counter st) (par st) (children st) (reaped st) (printed st).

Lemma step_work st st' : step st st' -> work st' < work st \/ retry st st'.
Proof.
  destruct 1 as [st1 Hp|cs back cs' s' Hb Hc|cs back code s1 s' Hb Hc Hx|k c c' n s' Hk Hn Hx
    |k c cs back cs' s' Hk Hb Hc|k c cs back code s1 s' Hk Hb Hc Hx].
  - left. by apply parent_next_work.
  - destruct (parent_calls_work _ _ _ Hb) as [He Hw]. destruct (called_len _ _ _ _ _ Hc) as [->|Hl].
    + right. exists s'. by rewrite <- He.
    + left. unfold work. cbn [par children]. specialize (Hw cs'). lia.
  - left. unfold work. cbn [par children]. change (parent_work (PExit code)) with 0.
    pose proof (parent_work_pos _ _ _ Hb). lia.
  - left. unfold work. cbn [par children]. rewrite (total_insert _ _ _ _ _ Hk).
    pose proof (child_next_work _ _ _ _ Hn). lia.
  - destruct (child_calls_work _ _ _ Hb) as [He Hw]. destruct (called_len _ _ _ _ _ Hc) as [->|Hl].
    + right. exists s'. f_equal. rewrite <- He. by apply list_insert_id.
    + left. unfold work. cbn [par children]. rewrite (total_insert _ _ _ _ _ Hk). specialize (Hw cs'). lia.
  - left. unfold work. cbn [par children]. rewrite (total_insert _ _ _ _ _ Hk). change (child_work (CExit code)) with 0.
    pose proof (child_work_pos _ _ _ Hb). lia.
Qed.

Lemma work_nonneg st : 0 <= work st.
Proof.
  unfold work. pose proof (total_nonneg child_work (children st) child_work_nonneg).
  assert (0 <= parent_work (par st)); [|lia].
  pose proof (len_nonneg (accept_mutex_on v)). pose proof (len_nonneg (accept_mutex_off v)).
  pose proof (len_nonneg (accept_mutex_cleanup v)). pose proof (fork_work_nonneg 0).
  pose proof (wait_work_bounds 0) as [Hw0 _].
  pose proof (len_nonneg (accept_mutex_init v)).
  destruct (par st) as [cs []|cs|cs|i| |cs|i| |cs|]; cbn; try (pose proof (len_nonneg cs));
    try (pose proof (fork_work_nonneg i)); try (pose proof (wait_work_bounds i)); lia.
Qed.

(** ** Executions in which no process fails *)

(** Iterations a child has counted. *)
Definition written (c : child) : Z :=
  match c with
  | CInit _ => 0
  | CLoop i | COn i _ | CRead i | CYield i _ | CWrite i _ => i
  | COff i _ => i + 1
  | CExit _ => num_iter
  end.

Definition par_ok (st : state) : Prop :=
  let n := zlen (children st) in let r := Z.of_nat (reaped st) in
  match par st with
  | PMem _ _ | PInit _ | POn _ => n = 0 /\ r = 0
  | PFork i => i <= num_child /\ n = i /\ r = 0
  | PCheck | POff _ => n = num_child /\ r = 0
  | PWait i => i <= num_child /\ n = num_child /\ r = i
  | PCompare | PCleanup _ | PExit _ => n = num_child /\ r = num_child
  end.

Definition in_memory (p : parent) : bool := match p with PMem _ _ => true | _ => false end.

Record Good (st : state) : Prop := {
  good_count : in_memory (par st) = false -> shared_counter st = total written (children st);
  good_par : par_ok st;
  good_printed : printed st = []
}.

Lemma all_exited cs k c : num_exited cs = length cs -> cs !! k = Some c -> exited c = true.
Proof.
  unfold num_exited. revert k. induction cs as [|c0 cs IH]; intros k Hn Hk; [done|].
  pose proof (List.filter_length_le exited cs). cbn in Hn.
  destruct (exited c0) eqn:Hc; cbn in Hn; [|lia]. destruct k as [|k]; [by injection Hk as <-|].
  by apply (IH k); [lia|].
Qed.

Section Healthy.
Hypothesis Hchild : 0 <= num_child.
Hypothesis Hiter : 0 <= num_iter.
Hypothesis Hproduct : num_child * num_iter < 2 ^ 31.

Lemma start_good m fresh : Good (start m fresh).
Proof. by split. Qed.

Lemma healthy_back st st' : step st st' -> healthy st' -> healthy st.
Proof.
  intros Hst [Hp Hc].
  destruct Hst as [st1 Hn|cs back cs' s' Hb Hcl|cs back code' s1 s' Hb Hcl Hx|k c c' n s' Hk Hn Hx
    |k c cs back cs' s' Hk Hb Hcl|k c cs back code' s1 s' Hk Hb Hcl Hx]; split; cbn in Hp, Hc;
    try done; try (by intros code Hpar; rewrite Hpar in Hb).
  - intros code Hpar. destruct Hn; congruence.
  - intros k0 code Hk0. destruct Hn; cbn in Hc; try (by eapply Hc).
    apply (Hc k0). by apply lookup_app_l_Some.
  - intros k0 code Hk0. apply (Hc k0). rewrite list_lookup_insert_ne; [done|]. intros ->.
    rewrite Hk in Hk0. by simplify_eq.
  - intros k0 code Hk0. apply (Hc k0). rewrite list_lookup_insert_ne; [done|]. intros ->.
    rewrite Hk in Hk0. by simplify_eq.
  - intros k0 code Hk0. apply (Hc k0). rewrite list_lookup_insert_ne; [done|]. intros ->.
    rewrite Hk in Hk0. by simplify_eq.
Qed.

Lemma written_bound n c : child_wf n c -> 0 <= written c <= num_iter.
Proof. destruct c; cbn; lia. Qed.

Lemma children_bound st : Inv st -> 0 <= total written (children st) <= zlen (children st) * num_iter.
Proof.
  intros HI. pose proof (inv_children _ HI) as Hch. generalize dependent (children st).
  induction l as [|c cs IH]; intros Hch; [done|]. rewrite total_cons, zlen_cons.
  pose proof (written_bound _ _ (Hch 0%nat c eq_refl)).
  specialize (IH (fun k => Hch (Datatypes.S k))). lia.
Qed.

Lemma par_len st : par_ok st -> zlen (children st) <= num_child.
Proof. unfold par_ok. destruct (par st); lia. Qed.

(** The children's part of the conclusion, for a child that goes from [c] to [c']. *)
Lemma good_child st k c c' s' n : Good st -> children st !! k = Some c ->
  n - shared_counter st = written c' - written c ->
  Good (mkState s' n (par st) (<[k := c']> (children st)) (reaped st) (printed st)).
Proof.
  intros [Hc Hp Hpr] Hk Hn. split; cbn [os_st shared_counter children par reaped printed].
  - intros Hm. specialize (Hc Hm). rewrite (total_insert _ _ _ _ _ Hk). lia.
  - unfold par_ok in *. cbn [children par reaped]. unfold zlen in *. by rewrite length_insert.
  - done.
Qed.

(** The parent's part. *)
Lemma good_parent st n p' s' cs' r : Good st ->
  (in_memory p' = false -> n = total written (children st)) ->
  (cs' = children st \/ cs' = children st ++ [CInit (accept_mutex_child_init v)]) ->
  par_ok (mkState s' n p' cs' r []) -> Good (mkState s' n p' cs' r []).
Proof.
  intros [Hc Hp Hpr] Hn Hcs Hpar. split; cbn [os_st shared_counter children par reaped printed]; try done.
  intros Hm. rewrite (Hn Hm). destruct Hcs as [->| ->]; [done|]. rewrite total_app. unfold total at 3. cbn. lia.
Qed.

(** At the end all children have made all their iterations. *)
Lemma finished_count st : Inv st -> Good st -> healthy st -> in_memory (par st) = false ->
  zlen (children st) = num_child ->
  Z.of_nat (reaped st) = num_child -> shared_counter st = num_child * num_iter.
Proof.
  intros HI [Hc _ _] [_ Hh] Hmem Hlen Hreap. rewrite (Hc Hmem). pose proof (inv_reaped _ HI) as Hr.
  pose proof (num_exited_le (children st)). assert (num_exited (children st) = length (children st)) as Hall.
  { unfold zlen in Hlen. lia. }
  assert (Heq : total written (children st) = zlen (children st) * num_iter); [|by rewrite Heq, Hlen].
  clear - Hall. revert Hall. induction (children st) as [|c cs IH]; intros Hall; [done|].
  rewrite total_cons, zlen_cons. pose proof (all_exited _ 0 c Hall eq_refl) as Hex.
  rewrite IH; [destruct c; cbn in *; try done; lia|].
  unfold num_exited in *. cbn in Hall. rewrite Hex in Hall. cbn in Hall. lia.
Qed.

Lemma good_parent_next st st' : Inv st -> Good st -> healthy st -> parent_next st st' ->
  healthy st' -> Good st'.
Proof.
  intros HI HG Hhl Hst [Hx _]. pose proof HG as [Hc Hp Hpr].
  pose proof (num_exited_le (children st)) as Hle. pose proof (inv_reaped _ HI) as Hr.
  unfold par_ok in Hp.
  destruct Hst as [r e s' Hpar Hsys|Hpar|Hpar|Hpar|i s' Hpar Hi Hf|i s' Hpar Hi Hex|i Hpar Hi
    |s' Hpar Hz Hex|Hpar Hz|Hpar|i Hpar Hi Hn|i Hpar Hi Hn|i Hpar Hi|m Hpar Hm|s' Hpar Hex];
    unfold set_par in *; rewrite Hpar in Hp, Hc; cbn in Hx; rewrite ?Hpr;
    try (by specialize (Hx _ eq_refl)).
  all: try (apply (good_parent st);
    [ exact HG
    | first [exact Hc|done|rewrite (proj1 (inv_setup _ HI ltac:(by rewrite Hpar))); done]
    | auto
    | unfold par_ok; cbn; unfold zlen in *; rewrite ?length_app; cbn; lia ]).
  (* PCompare *)
  assert (Hm' : m = num_child * num_iter).
  { unfold imul, ckS in Hm. destruct (inS 32 _); [by injection Hm as <-|done]. }
  assert (Hmem : in_memory (par st) = false) by by rewrite Hpar.
  rewrite (finished_count st HI HG Hhl Hmem) by lia. rewrite Hm'.
  rewrite wrapU_small, Z.eqb_refl by nia. rewrite <- (finished_count st HI HG Hhl Hmem) by lia.
  apply (good_parent st); [exact HG|exact Hc|auto|done].
Qed.

Lemma step_good st st' : Inv st -> Good st -> healthy st -> step st st' -> healthy st' -> Good st'.
Proof.
  intros HI HG Hhl Hst Hhl'. pose proof HG as [Hc Hp Hpr].
  pose proof (children_bound _ HI) as Hbound. pose proof (par_len _ Hp) as Hlen.
  destruct Hst as [st1 Hn|cs back cs' s' Hb Hcl|cs back code s1 s' Hb Hcl Hx|k c c' n s' Hk Hn Hx
    |k c cs back cs' s' Hk Hb Hcl|k c cs back code s1 s' Hk Hb Hcl Hx].
  - by eapply good_parent_next.
  - rewrite Hpr. apply (good_parent st); auto.
    { intros Hm. apply Hc. destruct (par st); cbn in Hb; try done; injection Hb as <- <-; done. }
    unfold par_ok in *. cbn [children par reaped]. destruct (par st); cbn in Hb; try done;
      injection Hb as <- <-; done.
  - destruct Hhl' as [Hz _]. cbn in Hz. specialize (Hz _ eq_refl).
    by destruct (parent_die _ _ _ _ _ _ _ (inv_parent _ HI) Hb Hcl).
  - pose proof (inv_children _ HI _ _ Hk) as Hwf. pose proof (written_bound _ _ Hwf) as Hw.
    eapply good_child; try done.
    assert (zlen (children st) * num_iter <= num_child * num_iter) by nia.
    assert (Hmem : in_memory (par st) = false).
    { destruct (child_live _ _ _ HI Hk) as [Hset _]. by destruct (par st). }
    specialize (Hc Hmem). destruct c as [[|]|i|i [|]|i|i tmp|i tmp|i [|]|]; cbn in Hn, Hwf; try done;
      injection Hn as <- <-; cbn; try lia.
    + destruct (Z.ltb_spec i num_iter); cbn; lia.
    + destruct Hwf as [_ ->]. rewrite wrapU_small by lia. lia.
  - eapply good_child; try done.
    destruct c; cbn in Hb; try done; injection Hb as <- <-; cbn; lia.
  - destruct Hhl' as [_ Hz]. cbn in Hz. exfalso.
    eapply (child_die _ _ _ _ _ _ _ _ (inv_children _ HI _ _ Hk) Hb Hcl).
    apply (Hz k). apply list_lookup_insert_eq. by eapply lookup_lt_Some.
Qed.

Lemma reachable_good st : reachable st -> healthy st -> Good st.
Proof.
  intros (m & fresh & Hr). refine (rtc_ind_r (fun st => healthy st -> Good st) _ _ _ st Hr).
  - intros _. apply start_good.
  - intros st1 st2 Hr1 Hst IH Hh. pose proof (healthy_back _ _ Hst Hh).
    eapply step_good; eauto. apply reachable_inv. by exists m, fresh.
Qed.
End Healthy.

(** ** Progress *)

Lemma called_total me c cs s : ~ blocks me (what c) (view s) ->
  exists res s', called me (c :: cs) s res s'.
Proof.
  intros Hf. destruct (sys_enabled me (what c) s Hf) as (r & e & s' & Hs).
  destruct (interpret c r e) eqn:Hi; eexists _, s'.
  - by eapply called_next.
  - by eapply called_retry.
  - by eapply called_die.
Qed.

Lemma neutral_enabled p c L : effect_of c = Neutral -> ~ blocks p c L.
Proof. destruct c; cbn; try done; try tauto. by destruct (_ <? _). Qed.

Lemma on_enabled me c cs L : tail_of (accept_mutex_on v) (c :: cs) -> lock_wf v L ->
  holder v L = None -> ~ blocks me (what c) L.
Proof.
  intros Ht Hwf Hh. destruct (on_call _ _ Ht) as [_ [[_ ->]|[_ Hn]]];
    [by apply free_enabled|by apply neutral_enabled].
Qed.

Lemma off_enabled me c cs L : tail_of (accept_mutex_off v) (c :: cs) -> lock_wf v L ->
  ~ blocks me (what c) L.
Proof.
  intros Ht Hwf. destruct (off_call _ _ Ht) as [_ [[-> _]|[Hn _]]];
    [by apply unlock_enabled|by apply neutral_enabled].
Qed.

(** A child that has not exited can run if nobody else holds the lock. *)
Lemma child_runs st k c : Inv st -> children st !! k = Some c -> exited c = false ->
  (holder v (V st) = None \/ child_holds c = true) -> exists st', step st st'.
Proof.
  intros HI Hk Hex Hlock. pose proof (inv_children _ HI _ _ Hk) as Hwf.
  pose proof (lk_wf _ (inv_live _ HI (child_live _ _ _ HI Hk))) as Hlw.
  destruct (child_next c (shared_counter st)) as [[c' n]|] eqn:Hn.
  { assert (Hx : exists s', leaves (Datatypes.S k) (exited c') (os_st st) s').
    { destruct (exited c'); cbn; [apply exit_enabled|by eexists]. }
    destruct Hx as [s' Hx]. eexists. by eapply S_child. }
  destruct (child_calls c) as [[cs back]|] eqn:Hb; [|by destruct c as [[|]| |? [|]| | | |? [|]|]].
  destruct cs as [|c0 cs].
  { destruct c as [[|]| |? [|]| | | |? [|]|]; cbn in Hb, Hn; try done; injection Hb; congruence. }
  assert (Hen : ~ blocks (Datatypes.S k) (what c0) (V st)).
  { destruct c as [cs1| |i cs1| | | |i cs1|]; cbn in Hb; try done; injection Hb as -> <-; cbn in Hwf, Hlock.
    - destruct (child_init_calls _ _ Hwf) as (_ & -> & _). cbn. tauto.
    - destruct Hwf as [_ Ht]. eapply on_enabled; [exact Ht|done|]. by destruct Hlock.
    - destruct Hwf as [_ Ht]. by eapply off_enabled. }
  destruct (called_total (Datatypes.S k) c0 cs (os_st st) Hen) as ([cs'|code] & s1 & Hc).
  - eexists. by eapply S_child_call.
  - destruct (exit_enabled (Datatypes.S k) s1) as [s' Hx]. eexists. by eapply S_child_die.
Qed.

(** So can the parent, when it makes system calls. *)
Lemma parent_runs st c cs back : parent_calls (par st) = Some (c :: cs, back) ->
  ~ blocks 0 (what c) (V st) -> exists st', step st st'.
Proof.
  intros Hb Hf. destruct (called_total 0 c cs (os_st st) Hf) as ([cs'|code] & s1 & Hc).
  - eexists. by eapply S_parent_call.
  - destruct (exit_enabled 0 s1) as [s' Hx]. eexists. by eapply S_parent_die.
Qed.

(** The lock belongs to a process that will never release it. *)
Definition lock_abandoned (st : state) : Prop :=
  exists p, holder v (V st) = Some p /\ abandoned st p.
(** Every process has exited. *)
Definition all_over (st : state) : Prop :=
  parent_exited (par st) = true /\ forall k c, children st !! k = Some c -> exited c = true.

Lemma some_child_runs cs : (num_exited cs < length cs)%nat ->
  exists k c, cs !! k = Some c /\ exited c = false.
Proof.
  intros Hlt. unfold num_exited in Hlt. induction cs as [|c cs IH]; cbn in Hlt; [lia|].
  destruct (exited c) eqn:Hc; [|by exists 0%nat, c]. cbn in Hlt.
  destruct IH as (k & c0 & Hk & Hc0); [lia|]. by exists (Datatypes.S k), c0.
Qed.

(** With children left, and the parent outside its section: somebody runs. *)
Lemma children_progress st : Inv st -> parent_holds (par st) = false ->
  (num_exited (children st) < length (children st))%nat ->
  (exists st', step st st') \/ lock_abandoned st.
Proof.
  intros HI Hp Hlt. destruct (some_child_runs _ Hlt) as (k & c & Hk & Hc).
  pose proof (inv_live _ HI (child_live _ _ _ HI Hk)) as HL.
  destruct (holder v (V st)) as [p|] eqn:Hh; [|left; by eapply child_runs; [| | |left]].
  destruct (lk_back _ HL _ Hh) as [Hold|Hab]; [|right; by exists p].
  left. destruct p as [|k0]; cbn in Hold; [by rewrite Hp in Hold|].
  destruct Hold as (c0 & Hk0 & Hc0). eapply (child_runs st k0 c0); [done|done|by destruct c0|by right].
Qed.

Lemma waiting_progress st i : Inv st -> par st = PWait i ->
  (exists st', step st st') \/ lock_abandoned st.
Proof.
  intros HI Hp.
  destruct (Z.ltb_spec i num_child) as [Hlt|Hge]; [|left; eexists; apply S_parent; by eapply P_waited].
  pose proof (inv_reaped _ HI) as Hr. pose proof (num_exited_le (children st)) as Hle.
  destruct (decide (reaped st < num_exited (children st))%nat) as [Hr'|Hr'].
  { left. eexists. apply S_parent. by eapply P_wait. }
  destruct (decide (reaped st = length (children st))) as [He|He].
  { left. eexists. apply S_parent. by eapply P_wait_fails. }
  apply children_progress; [done|by rewrite Hp|lia].
Qed.

Lemma over_progress st : Inv st -> parent_exited (par st) = true ->
  (exists st', step st st') \/ all_over st \/ lock_abandoned st.
Proof.
  intros HI Hx. pose proof (num_exited_le (children st)) as Hle.
  destruct (decide (num_exited (children st) = length (children st))) as [He|He].
  - right. left. split; [done|]. intros k c. by apply all_exited.
  - destruct (children_progress st HI) as [?|?]; [by destruct (par st)|lia|by left|right; by right].
Qed.

Lemma progress st : inS 32 (num_child * num_iter) = true -> Inv st ->
  (exists st', step st st') \/ all_over st \/ lock_abandoned st.
Proof.
  intros Hm HI. pose proof (inv_parent _ HI) as Hwf. pose proof (inv_live _ HI) as HL.
  destruct (par st) as [[|c cs] att|[|c cs]|[|c cs]|i| |[|c cs]|i| |[|c cs]|code] eqn:Hpar; cbn in Hwf;
    try (assert (Hlive : live st) by (unfold live; by rewrite Hpar); specialize (HL Hlive)).
  - left. destruct (sys_enabled 0 shmat (os_st st)) as (r & e & s' & Hs); [cbn; tauto|].
    destruct att; eexists; apply S_parent; [by eapply P_shmat|apply P_mem, Hpar].
  - left. apply (parent_runs st c cs (fun cs => PMem cs att)); [by rewrite Hpar|].
    apply neutral_enabled. by destruct Hwf as [[? _]%Forall_cons _].
  - left. eexists. apply S_parent, P_init, Hpar.
  - left. apply (parent_runs st c cs PInit); [by rewrite Hpar|].
    destruct (init_calls _ _ Hwf) as (_ & [Hn|Hs] & _); [by apply neutral_enabled|].
    destruct (what c); cbn in Hs |- *; try done; try tauto. by destruct (_ <? _).
  - left. eexists. apply S_parent, P_on, Hpar.
  - left. apply (parent_runs st c cs POn); [by rewrite Hpar|].
    eapply on_enabled; [exact Hwf|apply (lk_wf _ HL)|].
    destruct (holder v (V st)) as [p|] eqn:Hh; [|done]. exfalso.
    pose proof (inv_early _ HI) as He. rewrite Hpar in He. destruct (He eq_refl) as [_ Hz].
    destruct (lk_back _ HL _ Hh) as [Hold|(_ & code & _ & Hold)]; destruct p as [|k]; cbn in Hold;
      try (by rewrite Hpar in Hold); rewrite Hz in Hold; [|done]. by destruct Hold as (c0 & ? & _).
  - left. destruct (Z.ltb_spec i num_child).
    + destruct (exit_enabled 0 (os_st st)) as [s' Hx]. eexists. apply S_parent. by eapply P_fork_fails.
    + eexists. apply S_parent. by eapply P_forked.
  - left. destruct (decide (shared_counter st = 0)) as [Hz|Hz].
    + eexists. by apply S_parent, P_check.
    + destruct (exit_enabled 0 (os_st st)) as [s' Hx]. eexists. apply S_parent. by eapply P_check_fails.
  - left. eexists. apply S_parent, P_off, Hpar.
  - left. apply (parent_runs st c cs POff); [by rewrite Hpar|].
    eapply off_enabled; [exact Hwf|apply (lk_wf _ HL)].
  - destruct (waiting_progress st i HI Hpar) as [?|?]; [by left|right; by right].
  - left. eexists. apply S_parent, P_compare; [done|]. unfold imul, ckS. by rewrite Hm.
  - left. destruct (exit_enabled 0 (os_st st)) as [s' Hx]. eexists. apply S_parent. by apply P_exit.
  - left. apply (parent_runs st c cs PCleanup); [by rewrite Hpar|].
    apply neutral_enabled, (tail_of_Forall _ _ _ _ cleanup_neutral Hwf).
  - apply over_progress; [done|by rewrite Hpar].
Qed.

(** When no process has failed, no lock is abandoned. *)
Lemma healthy_not_abandoned st : healthy st -> ~ lock_abandoned st.
Proof.
  intros [Hp Hc] (p & _ & _ & code & Hcode & Hx). destruct p; [by apply Hp in Hx|by apply Hc in Hx].
Qed.
End Main.

(** The whole of main, on the argc strings of argv: the number of children and of
    iterations are what atoi makes of the two arguments. *)
Definition usage_exit `{OS} : state := mkState boot 0 (PExit 1) [] 0 [Usage].
Definition main_runs `{OS} (v : variant) (argv : list bytes) (st : state) : Prop :=
  match argv with
  | [_; arg1; arg2] => reachable v (atoi arg1) (atoi arg2) st
  | _ => st = usage_exit
  end.

(** The time main prints: between the two gettimeofday. *)
Definition elapsed (first_sec first_usec last_sec last_usec : Z) : Z * Z :=
  let last_sec := last_sec - first_sec in
  let ms := last_usec - first_usec in
  if ms <? 0 then (last_sec - 1, ms + 1000000) else (last_sec, ms).

(** ** Runs on [lock_system] *)

(** One step of such a run; a system call succeeds. *)
Ltac no_files := unfold unused_description, files_of; split; [done|]; intros ? ;
  cbn; rewrite ?lookup_insert_ne, ?lookup_empty by done; by intros ?%not_elem_of_nil.
Ltac by_effect := left; split; [reflexivity|]; cbn;
  first [ reflexivity
        | split; [solve [by left | by right | reflexivity | lia]|reflexivity]
        | exists 0%nat; split; [no_files|reflexivity]
        | eexists; split; [reflexivity|]; split; [by left|reflexivity]
        | eexists; reflexivity ].
Ltac by_parent H := eapply rtc_l;
  [apply S_parent; eapply H; try reflexivity; try (cbn; lia); try (apply Nat.ltb_lt; reflexivity)|cbn].
Ltac by_call := eapply rtc_l; [eapply S_parent_call; [reflexivity|];
  eapply called_next with (r := 0) (e := EOTHER); [by_effect|reflexivity]|cbn].
Ltac by_shmat := eapply rtc_l;
  [apply S_parent; eapply P_shmat with (r := 0) (e := EOTHER); [reflexivity|by_effect]|cbn].
Ltac by_child := eapply rtc_l; [eapply (S_child _ _ _ _ 0%nat); reflexivity|cbn].
Ltac by_child_call := eapply rtc_l; [eapply (S_child_call _ _ _ _ 0%nat); [reflexivity|reflexivity|];
  eapply called_next with (r := 0) (e := EOTHER); [by_effect|reflexivity]|cbn].

(** One child, one iteration, with fcntl. *)
Lemma timesem_example_reachable :
  exists L, reachable FCNTL 1 1 (mkState L 1 (PExit 0) [CExit 0] 1 []).
Proof.
  eexists. exists SHMGET, 77. unfold start. cbn.
  by_call. by_shmat. by_call. by_parent P_mem. by_call. by_call. by_parent P_init. by_call. by_parent P_on.
  by_parent P_fork. by_parent P_forked. by_parent P_check. by_call. by_parent P_off.
  by_child. by_child. by_child_call. by_child. by_child. by_child. by_child. by_child_call.
  by_child. by_child.
  by_parent P_wait. by_parent P_waited. by_parent P_compare. by_parent P_exit.
  apply rtc_refl.
Qed.

(** The parent has forked the child and still holds the lock. *)
Lemma example_forked_reachable :
  exists L, reachable FCNTL 1 1 (mkState L 0 PCheck [CInit []] 0 []).
Proof.
  eexists. exists ANON_MMAP, 77. unfold start. cbn.
  by_call. by_parent P_mem. by_call. by_call. by_parent P_init. by_call. by_parent P_on.
  by_parent P_fork. by_parent P_forked. apply rtc_refl.
Qed.

(** When the second fork fails, the parent exits with the lock: a pthread mutex
    stays locked, and so does a file that is locked with flock, since the child
    has inherited the parent's file description and keeps it open.  The first
    child waits for ever. *)
Lemma blocked_not_called p c cs L res L' : effect_of (what c) = Locks -> blocks p (what c) L ->
  called p (c :: cs) L res L' -> False.
Proof.
  assert (Hno : forall sc r e, effect_of sc = Locks -> blocks p sc L -> sys p sc r e L L' -> False).
  { intros sc r e He Hb [(_ & Ht)|(_ & _ & Hnb & _)]; [|done]. destruct sc; cbn in *; try done.
    - destruct Hb as (q & Hq & Hne). destruct Ht as [[?|?] _]; congruence.
    - destruct Hb as (d & d' & Hd & Ho & Hne). destruct Ht as (d0 & Hd0 & [?|?] & _); congruence.
    - destruct Ht as [Hle _]. lia.
    - by destruct Ht.
    - by destruct Ht. }
  intros He Hb Hc. inversion Hc; subst; by eapply Hno.
Qed.

Lemma blocked_for_ever v num_child num_iter L n i c r m :
  effect_of (what c) = Locks -> blocks 1 (what c) L ->
  forall st', ~ step v num_child num_iter (mkState L n (PExit 1) [COn i [c]] r m) st'.
Proof.
  intros He Hb st' Hst.
  inversion Hst as [st1 Hp|cs back cs' s' Hb' Hc|cs back code s1 s' Hb' Hc Hx|k c0 c' n' s' Hk Hn Hx
    |k c0 cs back cs' s' Hk Hb' Hc|k c0 cs back code s1 s' Hk Hb' Hc Hx]; subst; try done.
  - inversion Hp; done.
  - destruct k as [|k]; [|done]. injection Hk as <-. done.
  - destruct k as [|k]; [|done]. injection Hk as <-. injection Hb' as <- _. by eapply blocked_not_called.
  - destruct k as [|k]; [|done]. injection Hk as <-. injection Hb' as <- _. by eapply blocked_not_called.
Qed.

Lemma fork_failure_hangs_pthread : exists L,
  let st := mkState L 0 (PExit 1) [COn 0 [nonzero pthread_mutex_lock]] 0 [] in
  reachable PTHREAD 2 1 st /\ forall st', ~ step PTHREAD 2 1 st st'.
Proof.
  eexists. split.
  - exists ANON_MMAP, 77. unfold start. cbn.
    by_call. by_parent P_mem. do 6 by_call. by_parent P_init. do 2 by_call. by_parent P_on.
    by_parent P_fork. by_child. by_child. by_child_call.
    eapply rtc_l; [apply S_parent; eapply P_fork_fails; [reflexivity|cbn; lia|reflexivity]|cbn].
    apply rtc_refl.
  - apply blocked_for_ever; [done|]. cbn. done.
Qed.

Lemma fork_failure_hangs_flock : exists L,
  let st := mkState L 0 (PExit 1) [COn 0 [retried flock_ex]] 0 [] in
  reachable FLOCK 2 1 st /\ forall st', ~ step FLOCK 2 1 st st'.
Proof.
  eexists. split.
  - exists ANON_MMAP, 77. unfold start. cbn.
    by_call. by_parent P_mem. by_call. by_parent P_init. by_call. by_parent P_on.
    by_parent P_fork.
    eapply rtc_l; [eapply (S_child_call _ _ _ _ 0%nat); [reflexivity|reflexivity|];
      eapply called_next with (r := 0) (e := EOTHER); [|reflexivity]|cbn].
    { left. split; [reflexivity|]. exists 0%nat. split; [|reflexivity]. split; [done|].
      intros p. unfold files_of. cbn. rewrite !lookup_insert, lookup_empty.
      repeat case_decide; cbn; set_solver. }
    by_child. by_child.
    eapply rtc_l; [apply S_parent; eapply P_fork_fails; [reflexivity|cbn; lia|reflexivity]|cbn].
    apply rtc_refl.
  - apply blocked_for_ever; [done|]. exists (1%nat, 0%nat), (0%nat, 0%nat). by vm_compute.
Qed.

(** ** Results *)

(** C32. The accept mutex excludes: whichever variant is compiled, whatever calls
    and forks fail or are interrupted, and whichever processes have exited, at
    most one process is between accept_mutex_on and accept_mutex_off; the lock,
    once it has been made, is held by that process, or by one that has exited
    with an error in a variant whose lock outlives it, and is free otherwise; and
    when the parent checks that no child has started, the counter is 0, so "WTF!"
    is not printed there. *)
Theorem timesem_mutual_exclusion `{OSLaws} v num_child num_iter st :
  reachable v num_child num_iter st ->
  (forall p q, holds st p -> holds st q -> p = q) /\
  (forall p, holds st p -> holder v (view (os_st st)) = Some p) /\
  (live st -> forall p, holder v (view (os_st st)) = Some p -> holds st p \/ abandoned v st p) /\
  (before_launch (par st) = true -> shared_counter st = 0).
Proof.
  intros Hr. apply reachable_inv in Hr. split_and!.
  - intros p q. by eapply exclusive.
  - intros p Hp. by apply (lk_holds _ _ (inv_live _ _ _ Hr (holds_live _ _ _ _ Hr Hp))).
  - intros Hl p. apply (lk_back _ _ (inv_live _ _ _ Hr Hl)).
  - intros Hb. by apply (inv_early _ _ _ Hr).
Qed.

Lemma timesem_mutual_exclusion_witness :
  exists st, children st = [CInit []] /\ shared_counter st = 0 /\
    holder FCNTL (os_st st) = Some 0%nat /\ ~ holds st 1.
Proof.
  destruct example_forked_reachable as [L Hr].
  pose proof (timesem_mutual_exclusion FCNTL 1 1 _ Hr) as (Hex & Hh & _ & Hz).
  eexists. split; [|split; [exact (Hz eq_refl)|split; [exact (Hh 0%nat eq_refl)|]]]; [reflexivity|].
  intros H1. by pose proof (Hex 0%nat 1%nat eq_refl H1).
Defined.

(** C21. No increment is lost: when the two arguments are the decimal texts of
    ints, children and iterations, whose product is an int, and no process
    fails, then at the end the shared counter is that product and neither
    complaint has been printed, whichever variants of the mutex and of the shared
    memory are compiled and whatever fresh memory holds; and with any other
    number of arguments main only prints its usage and exits with 1. *)
Theorem timesem_counts_all_iterations `{OSLaws} v argv st :
  main_runs v argv st -> healthy st \/ length argv <> 3%nat ->
  match argv with
  | [_; arg1; arg2] => forall num_child num_iter,
      arg1 = dec_of_Z num_child -> arg2 = dec_of_Z num_iter ->
      0 <= num_child < 2 ^ 31 -> 0 <= num_iter < 2 ^ 31 -> num_child * num_iter < 2 ^ 31 ->
      par st = PExit 0 -> shared_counter st = num_child * num_iter /\ printed st = []
  | _ => par st = PExit 1 /\ printed st = [Usage] /\ children st = []
  end.
Proof.
  intros Hr Hh. destruct argv as [|arg0 [|arg1 [|arg2 [|? ?]]]]; cbn in Hr; try (by subst).
  destruct Hh as [Hh|?]; [|done]. intros num_child num_iter -> -> Hc Hi Hp Hx.
  rewrite !atoi_dec_of_Z in Hr.
  destruct Hc as [Hc _], Hi as [Hi _].
  assert (HG : Good num_child num_iter st) by (by eapply reachable_good).
  pose proof (good_par _ _ _ HG) as Hpar. unfold par_ok in Hpar. rewrite Hx in Hpar.
  split; [|by apply (good_printed _ _ _ HG)].
  eapply finished_count; [by eapply reachable_inv|exact HG|exact Hh|by rewrite Hx|lia|lia].
Qed.

Lemma timesem_counts_all_iterations_witness :
  exists st, par st = PExit 0 /\ shared_counter st = 1 * 1.
Proof.
  destruct timesem_example_reachable as [L Hr]. eexists.
  refine (conj _ (proj1 (timesem_counts_all_iterations FCNTL [[]; dec_of_Z 1; dec_of_Z 1] _ Hr _
    1 1 eq_refl eq_refl _ _ _ eq_refl))); [reflexivity| |lia|lia|lia].
  left. split; cbn; [by intros code [= <-]|]. intros [|k] code Hk; by inversion Hk.
Defined.

(** C33. The program terminates: as long as no process that exited with an error
    holds the lock, some process can run until all have exited, and every step
    uses up a part of a finite amount of work, except for repeating a system call
    that was interrupted.  The lock can be lost so only when some call or fork has
    failed, and never with fcntl or a semaphore with SEM_UNDO. *)
Theorem timesem_terminates `{OSLaws} v num_child num_iter st :
  inS 32 (num_child * num_iter) = true -> reachable v num_child num_iter st ->
  ((exists st', step v num_child num_iter st st') \/ all_over st \/ lock_abandoned v st) /\
  (healthy st \/ v = FCNTL \/ v = SYSVSEM false -> ~ lock_abandoned v st) /\
  0 <= work v num_child num_iter st /\
  forall st', step v num_child num_iter st st' ->
    work v num_child num_iter st' < work v num_child num_iter st \/ retry st st'.
Proof.
  intros Hp Hr. split; [|split; [|split; [apply work_nonneg|intros st'; apply step_work]]].
  - eapply progress; [exact Hp|by eapply reachable_inv].
  - intros [Hh|Hv]; [by apply healthy_not_abandoned|].
    intros (p & _ & Hk & _). by destruct Hv as [-> | ->].
Qed.

Lemma timesem_terminates_witness :
  (exists st', step PTHREAD 3 4 (start SHMGET 5) st') /\ work PTHREAD 3 4 (start SHMGET 5) = 154.
Proof.
  split; [|vm_compute; reflexivity].
  assert (Hr : reachable PTHREAD 3 4 (start SHMGET 5)) by (exists SHMGET, 5; apply rtc_refl).
  destruct (timesem_terminates PTHREAD 3 4 (start SHMGET 5) eq_refl Hr) as ([Hs|[[Hx _]|Hl]] & Hno & _);
    [exact Hs|done|].
  destruct Hno; [|exact Hl]. left. split; cbn; [done|]. intros k code Hk. done.
Defined.

(** The printed interval is the difference of the two times, with the
    microseconds in range. *)
Lemma elapsed_correct fs fu ls lu : 0 <= fu < 1000000 -> 0 <= lu < 1000000 ->
  let '(s, u) := elapsed fs fu ls lu in
  s * 1000000 + u = (ls * 1000000 + lu) - (fs * 1000000 + fu) /\ 0 <= u < 1000000.
Proof. intros. unfold elapsed. destruct (Z.ltb_spec (lu - fu) 0); lia. Qed.

(** With a negative argument the loops do nothing, and the final comparison of the
    counter with the product, converted to unsigned long, complains. *)
Lemma negative_argument_complains num_child num_iter m :
  num_child < 0 < num_iter -> imul num_child num_iter = Ok m -> (0 =? wrapU 64 m) = false.
Proof.
  intros Hn Hm. unfold imul, ckS in Hm. destruct (inS 32 _) eqn:Hin; [|done]. injection Hm as <-.
  unfold inS in Hin. zbool. apply Z.eqb_neq. unfold wrapU. intros Hz.
  assert (num_child * num_iter < 0) by nia.
  rewrite <- (Z.mod_add _ 1) in Hz by lia. rewrite Z.mod_small in Hz; lia.
Qed.
