(* ===== verification/Sockets.v ===== *)
(** Sockets and addresses: net/SocketsOps.h, net/SocketsOps.cc, net/Socket.h,
    net/Socket.cc, net/InetAddress.h and net/InetAddress.cc.

    The operating system is a class [Kernel] of system calls over a state [W]
    that includes errno; [KernelLaws] states what the manual pages say of the
    descriptors they open and close, and [simple_kernel] is a model of both.
    inet_ntop and inet_pton, which the C library provides, are defined.  The
    functions are those of the default build; SocketVariants.v has those of the
    builds with VALGRIND or NO_ACCEPT4. *)
From Stdlib Require Import ZArith Lia Ascii String.
From stdpp Require Import base list strings gmap sets.
From S2P Require Import Prelude.
From S2P Require Import CLib.
From S2P Require Import Endian.

#[local] Open Scope Z_scope.

(** ** Constants of the Linux headers *)

Definition AF_INET : Z := 2.
Definition SOCK_STREAM : Z := 1.
Definition SOCK_NONBLOCK : Z := 2048.
Definition SOCK_CLOEXEC : Z := 524288.
Definition IPPROTO_TCP : Z := 6.
Definition TCP_NODELAY : Z := 1.
Definition SOL_SOCKET : Z := 1.
Definition SO_REUSEADDR : Z := 2.
Definition SO_ERROR : Z := 4.
Definition SO_KEEPALIVE : Z := 9.
Definition SO_REUSEPORT : Z := 15.
Definition SOMAXCONN : Z := 4096.
Definition SHUT_WR : Z := 1.
Definition INET_ADDRSTRLEN : Z := 16.
Definition INADDR_ANY : Z := 0.
Definition INADDR_LOOPBACK : Z := 2130706433.

Definition EPERM : Z := 1.
Definition EINTR : Z := 4.
Definition EBADF : Z := 9.
Definition EAGAIN : Z := 11.
Definition EACCES : Z := 13.
Definition EFAULT : Z := 14.
Definition EMFILE : Z := 24.
Definition EPROTO : Z := 71.
Definition ENOTSOCK : Z := 88.
Definition EAFNOSUPPORT : Z := 97.
Definition EADDRINUSE : Z := 98.
Definition EADDRNOTAVAIL : Z := 99.
Definition ENETUNREACH : Z := 101.
Definition ECONNABORTED : Z := 103.
Definition EISCONN : Z := 106.
Definition ECONNREFUSED : Z := 111.
Definition EALREADY : Z := 114.
Definition EINPROGRESS : Z := 115.

(** struct sockaddr_in: the values of the fields as the host reads them. *)
Record sockaddr_in := mkSockaddr { sin_family : Z; sin_port : Z; s_addr : Z }.

(** bzero(&addr, sizeof addr) *)
Definition sockaddr_zero : sockaddr_in := mkSockaddr 0 0 0.

(** ** inet_ntop and inet_pton for AF_INET *)

Definition dotted (octets : list Z) : bytes :=
  match octets with
  | [] => []
  | o :: rest => dec_of_Z o ++ List.concat (List.map (fun o => lit "." ++ dec_of_Z o) rest)
  end.

(** inet_ntop: the text of the first four bytes at [src], stored in buf unless
    [size] is too small. *)
Definition inet_ntop (src : bytes) (size : Z) : option bytes :=
  let text := dotted (List.map Z_of_byte (take 4 src)) in
  if zlen text <? size then Some text else None.

(** inet_pton: [don] are the octets read, [cur] the value of the current one. *)
Fixpoint inet_pton_from (s : bytes) (don : list Z) (cur : option Z) : option (list Z) :=
  match s with
  | [] =>
      match cur with
      | Some v => if (length don =? 3)%nat then Some (don ++ [v]) else None
      | None => None
      end
  | c :: s =>
      match digit_val c, cur with
      | Some d, Some v =>
          if (v =? 0) || (255 <? v * 10 + d) then None else inet_pton_from s don (Some (v * 10 + d))
      | Some d, None => inet_pton_from s don (Some d)
      | None, Some v =>
          if Ascii.eqb c "." && negb (length don =? 3)%nat then inet_pton_from s (don ++ [v]) None
          else None
      | None, None => None
      end
  end.
Definition inet_pton (s : bytes) : option (list Z) := inet_pton_from s [] None.

(** ** System calls *)

(** Calls that return -1 have set errno. *)
Class Kernel (W : Type) := {
  errno : W -> Z;
  set_errno : Z -> W -> W;
  sys_socket : Z -> Z -> Z -> W -> Z * W;
  sys_bind : Z -> sockaddr_in -> W -> Z * W;
  sys_listen : Z -> Z -> W -> Z * W;
  sys_accept : Z -> Z -> W -> Z * option sockaddr_in * W;   (* descriptor, flags *)
  sys_connect : Z -> sockaddr_in -> W -> Z * W;
  sys_read : Z -> Z -> W -> Z * bytes * W;
  sys_readv : Z -> list Z -> W -> Z * list bytes * W;
  sys_write : Z -> bytes -> W -> Z * W;
  sys_close : Z -> W -> Z * W;
  sys_shutdown : Z -> Z -> W -> Z * W;
  sys_setsockopt : Z -> Z -> Z -> Z -> W -> Z * W;
  sys_getsockopt : Z -> Z -> Z -> W -> Z * Z * W;           (* result, optval *)
  sys_getsockname : Z -> W -> Z * option sockaddr_in * W;
  sys_getpeername : Z -> W -> Z * option sockaddr_in * W;
  sys_open : bytes -> Z -> W -> Z * W
}.

(** A call that may return a new descriptor, or -1. *)
Definition opens {W} (fds : W -> gset Z) (call : W -> Z * W) : Prop := forall w,
  let '(fd, w') := call w in
  (0 <= fd /\ (fd ∉ fds w) /\ fds w' = {[fd]} ∪ fds w) \/ (fd = -1 /\ fds w' = fds w).

Class KernelLaws (W : Type) `{Kernel W} := {
  open_fds : W -> gset Z;
  set_errno_fds : forall e w, open_fds (set_errno e w) = open_fds w;
  socket_opens : forall d t p, opens open_fds (sys_socket d t p);
  open_opens : forall path flags, opens open_fds (sys_open path flags);
  accept_opens : forall fd flags,
    opens open_fds (fun w => let '(r, _, w) := sys_accept fd flags w in (r, w));
  close_fds : forall fd w, open_fds (snd (sys_close fd w)) = open_fds w ∖ {[fd]};
  bind_fds : forall fd a w, open_fds (snd (sys_bind fd a w)) = open_fds w;
  listen_fds : forall fd n w, open_fds (snd (sys_listen fd n w)) = open_fds w;
  connect_fds : forall fd a w, open_fds (snd (sys_connect fd a w)) = open_fds w;
  setsockopt_fds : forall fd l o v w, open_fds (snd (sys_setsockopt fd l o v w)) = open_fds w
}.

(** ** namespace sockets *)

Section Ops.
Context {W : Type} `{Kernel W}.

Definition createNonBlockingOrDie (w : W) : Z * W :=
  sys_socket AF_INET (Z.lor (Z.lor SOCK_STREAM SOCK_NONBLOCK) SOCK_CLOEXEC) IPPROTO_TCP w.
Definition bindOrDie (sockfd : Z) (addr : sockaddr_in) (w : W) : W := snd (sys_bind sockfd addr w).
Definition listenOrDie (sockfd : Z) (w : W) : W := snd (sys_listen sockfd SOMAXCONN w).

(** accept: *addr is overwritten when a connection is returned. *)
Definition accept (sockfd : Z) (addr : sockaddr_in) (w : W) : Z * sockaddr_in * W :=
  let '(connfd, peer, w) := sys_accept sockfd (Z.lor SOCK_NONBLOCK SOCK_CLOEXEC) w in
  let w :=
    if connfd <? 0 then
      let savedErrno := errno w in
      if (savedErrno =? EAGAIN) || (savedErrno =? ECONNABORTED) || (savedErrno =? EINTR) ||
         (savedErrno =? EPROTO) || (savedErrno =? EPERM) || (savedErrno =? EMFILE)
      then set_errno savedErrno w else w
    else w in
  (connfd, match peer with Some p => p | None => addr end, w).

Definition connect (sockfd : Z) (addr : sockaddr_in) (w : W) : Z * W := sys_connect sockfd addr w.
Definition read (sockfd count : Z) (w : W) : Z * bytes * W := sys_read sockfd count w.
Definition readv (sockfd : Z) (iov : list Z) (w : W) : Z * list bytes * W := sys_readv sockfd iov w.
Definition write (sockfd : Z) (buf : bytes) (w : W) : Z * W := sys_write sockfd buf w.
Definition close (sockfd : Z) (w : W) : W := snd (sys_close sockfd w).
Definition shutdownWrite (sockfd : Z) (w : W) : W := snd (sys_shutdown sockfd SHUT_WR w).

Definition getSocketError (sockfd : Z) (w : W) : Z * W :=
  let '(ret, optval, w) := sys_getsockopt sockfd SOL_SOCKET SO_ERROR w in
  if ret <? 0 then (errno w, w) else (optval, w).

Definition getLocalAddr (sockfd : Z) (w : W) : sockaddr_in * W :=
  let '(_, addr, w) := sys_getsockname sockfd w in (default sockaddr_zero addr, w).
Definition getPeerAddr (sockfd : Z) (w : W) : sockaddr_in * W :=
  let '(_, addr, w) := sys_getpeername sockfd w in (default sockaddr_zero addr, w).
Definition isSelfConnect (sockfd : Z) (w : W) : bool * W :=
  let '(local, w) := getLocalAddr sockfd w in
  let '(peer, w) := getPeerAddr sockfd w in
  ((s_addr local =? s_addr peer) && (sin_port local =? sin_port peer), w).
End Ops.

Section Addresses.
Context {host : Host}.

(** The bytes of a struct sockaddr_in. *)
Definition sockaddr_bytes (a : sockaddr_in) : bytes :=
  mem_of 2 (sin_family a) ++ mem_of 2 (sin_port a) ++ mem_of 4 (s_addr a) ++ replicate 8 NUL.

(** The casts between the two kinds of address look at the same memory: a struct
    sockaddr is its 16 bytes. *)
Definition sockaddr_cast (addr : sockaddr_in) : bytes := sockaddr_bytes addr.
Definition sockaddr_in_cast (addr : bytes) : sockaddr_in :=
  mkSockaddr (of_mem (take 2 addr)) (of_mem (take 2 (drop 2 addr))) (of_mem (take 4 (drop 4 addr))).

(** toIpPort and toIp: what buf, an array of [size] zero bytes before the
    call, holds as a C string.  inet_ntop is passed the struct itself. *)
Definition sockets_toIpPort (size : Z) (addr : sockaddr_in) : outcome bytes :=
  _ ← assert_ (INET_ADDRSTRLEN <=? size);
  let buf := default [] (inet_ntop (sockaddr_cast addr) size) in
  let fin := zlen buf in
  let port := networkToHost16 (sin_port addr) in
  _ ← assert_ (fin <? size);
  tail ← c_string (snprintf_stored (Z.to_nat (size - fin)) (lit ":" ++ dec_of_Z port));
  Ok (buf ++ tail).

Definition sockets_toIp (size : Z) (addr : sockaddr_in) : outcome bytes :=
  _ ← assert_ (INET_ADDRSTRLEN <? size);
  Ok (default [] (inet_ntop (sockaddr_cast addr) size)).

(** fromIpPort: sin_addr keeps its value when the text is not an address. *)
Definition fromIpPort (ip : bytes) (port : Z) (addr : sockaddr_in) : sockaddr_in :=
  mkSockaddr AF_INET (hostToNetwork16 port)
    match inet_pton ip with
    | Some octets => of_mem (List.map byte_of_Z octets)
    | None => s_addr addr
    end.

(** ** InetAddress *)

Record InetAddress := mkInetAddress { addr_ : sockaddr_in }.

(** The C string that c_str() of a std::string designates. *)
Fixpoint until_nul (s : bytes) : bytes :=
  match s with [] => [] | c :: s => if Ascii.eqb c NUL then [] else c :: until_nul s end.

Definition InetAddress_of_ip (ip_addr : bytes) (port : Z) : InetAddress :=
  mkInetAddress (fromIpPort (until_nul ip_addr) port sockaddr_zero).
Definition InetAddress_of_port (port : Z) (loopbackonly : bool) : InetAddress :=
  mkInetAddress (mkSockaddr AF_INET (hostToNetwork16 port)
    (if loopbackonly then hostToNetwork32 INADDR_LOOPBACK else hostToNetwork32 INADDR_ANY)).
Definition InetAddress_of (addr : sockaddr_in) : InetAddress := mkInetAddress addr.

Definition getSockAddrInet (a : InetAddress) : sockaddr_in := addr_ a.
Definition setSockAddrInet (addr : sockaddr_in) (a : InetAddress) : InetAddress := mkInetAddress addr.
Definition ipNetEndian (a : InetAddress) : Z := s_addr (addr_ a).
Definition portNetEndian (a : InetAddress) : Z := sin_port (addr_ a).
Definition toIp (a : InetAddress) : outcome bytes := sockets_toIp 32 (addr_ a).
Definition toIpPort (a : InetAddress) : outcome bytes := sockets_toIpPort 32 (addr_ a).
Definition toPort (a : InetAddress) : Z := networkToHost16 (sin_port (addr_ a)).
End Addresses.

(** ** Socket *)

Section Socket.
Context {W : Type} `{Kernel W}.

Record Socket := mkSocket { sockfd_ : Z }.

Definition socket_fd (s : Socket) : Z := sockfd_ s.
Definition Socket_delete (s : Socket) (w : W) : W := close (sockfd_ s) w.
Definition bindAddress (localaddr : InetAddress) (s : Socket) (w : W) : W :=
  bindOrDie (sockfd_ s) (getSockAddrInet localaddr) w.
Definition socket_listen (s : Socket) (w : W) : W := listenOrDie (sockfd_ s) w.

(** accept(peeraddr): the descriptor, *peeraddr, and the system. *)
Definition socket_accept (peeraddr : InetAddress) (s : Socket) (w : W) : Z * InetAddress * W :=
  let '(connfd, addr, w) := accept (sockfd_ s) sockaddr_zero w in
  (connfd, if 0 <? connfd then setSockAddrInet addr peeraddr else peeraddr, w).

Definition socket_shutdownWrite (s : Socket) (w : W) : W := shutdownWrite (sockfd_ s) w.
Definition setTcpNoDelay (on : bool) (s : Socket) (w : W) : W :=
  snd (sys_setsockopt (sockfd_ s) IPPROTO_TCP TCP_NODELAY (if on then 1 else 0) w).
Definition setKeepAlive (on : bool) (s : Socket) (w : W) : W :=
  snd (sys_setsockopt (sockfd_ s) SOL_SOCKET SO_KEEPALIVE (if on then 1 else 0) w).
Definition setReuseAddr (on : bool) (s : Socket) (w : W) : W :=
  snd (sys_setsockopt (sockfd_ s) SOL_SOCKET SO_REUSEADDR (if on then 1 else 0) w).
Definition setReusePort (on : bool) (s : Socket) (w : W) : W :=
  snd (sys_setsockopt (sockfd_ s) SOL_SOCKET SO_REUSEPORT (if on then 1 else 0) w).
End Socket.

(** ** A system that satisfies the laws *)

(** Open descriptors, their limit, the connections waiting to be accepted, and
    errno.  Everything else succeeds and transfers nothing. *)
Record simple_os := mkOs {
  os_fds : list Z;
  os_limit : nat;
  os_pending : list sockaddr_in;
  os_errno : Z
}.

Definition os_new_fd (o : simple_os) : Z := 1 + foldr Z.max (-1) (os_fds o).
Definition os_set_errno (e : Z) (o : simple_os) : simple_os :=
  mkOs (os_fds o) (os_limit o) (os_pending o) e.
Definition os_alloc (o : simple_os) : Z * simple_os :=
  if (length (os_fds o) <? os_limit o)%nat
  then (os_new_fd o, mkOs (os_new_fd o :: os_fds o) (os_limit o) (os_pending o) (os_errno o))
  else (-1, os_set_errno EMFILE o).
Definition os_close (fd : Z) (o : simple_os) : Z * simple_os :=
  if bool_decide (fd ∈ os_fds o)
  then (0, mkOs (filter (fun x => x <> fd) (os_fds o)) (os_limit o) (os_pending o) (os_errno o))
  else (-1, os_set_errno EBADF o).
Definition os_accept (fd flags : Z) (o : simple_os) : Z * option sockaddr_in * simple_os :=
  match os_pending o with
  | [] => (-1, None, os_set_errno EAGAIN o)
  | p :: rest =>
      let '(r, o) := os_alloc o in
      if r <? 0 then (r, None, o)
      else (r, Some p, mkOs (os_fds o) (os_limit o) rest (os_errno o))
  end.

#[export] Instance simple_kernel : Kernel simple_os := {
  errno := os_errno;
  set_errno := os_set_errno;
  sys_socket := fun _ _ _ => os_alloc;
  sys_bind := fun _ _ w => (0, w);
  sys_listen := fun _ _ w => (0, w);
  sys_accept := os_accept;
  sys_connect := fun fd _ w => (-1, os_set_errno (if fd <? 0 then EBADF else EINPROGRESS) w);
  sys_read := fun _ _ w => (0, [], w);
  sys_readv := fun _ _ w => (0, [], w);
  sys_write := fun _ buf w => (zlen buf, w);
  sys_close := os_close;
  sys_shutdown := fun _ _ w => (0, w);
  sys_setsockopt := fun _ _ _ _ w => (0, w);
  sys_getsockopt := fun _ _ _ w => (0, 0, w);
  sys_getsockname := fun _ w => (0, Some sockaddr_zero, w);
  sys_getpeername := fun _ w => (0, Some sockaddr_zero, w);
  sys_open := fun _ _ => os_alloc
}.

Lemma os_new_fd_fresh o : 0 <= os_new_fd o /\ (os_new_fd o ∉ os_fds o).
Proof.
  unfold os_new_fd.
  assert (H : forall l, -1 <= foldr Z.max (-1) l /\ forall x : Z, x ∈ l -> x <= foldr Z.max (-1) l).
  { induction l as [|y l [IH1 IH2]]; cbn [foldr].
    - split; [lia|]. intros x Hx. by apply not_elem_of_nil in Hx.
    - split; [lia|]. intros x Hx. apply elem_of_cons in Hx as [->|Hx]; [lia|].
      specialize (IH2 x Hx). lia. }
  destruct (H (os_fds o)) as [H1 H2]. split; [lia|]. intros Hin. specialize (H2 _ Hin). lia.
Qed.

Lemma os_alloc_opens : opens (fun o => list_to_set (os_fds o) : gset Z) os_alloc.
Proof.
  intros o. unfold os_alloc. destruct (_ <? _)%nat.
  - left. destruct (os_new_fd_fresh o) as [H1 H2]. split; [done|].
    split; [by rewrite elem_of_list_to_set|]. done.
  - by right.
Qed.

#[export] Instance simple_kernel_laws : KernelLaws simple_os.
Proof.
  refine {| open_fds := fun o => list_to_set (os_fds o) |}; try done.
  - intros; apply os_alloc_opens.
  - intros; apply os_alloc_opens.
  - intros fd flags o. cbn [sys_accept simple_kernel]. unfold os_accept.
    destruct (os_pending o) as [|p rest]; [by right|].
    pose proof (os_alloc_opens o) as Ha. destruct (os_alloc o) as [r o'].
    destruct Ha as [(H1 & H2 & H3)|[-> H]]; [|by right].
    destruct (Z.ltb_spec r 0); [lia|]. by left.
  - intros fd o. cbn [sys_close simple_kernel]. unfold os_close.
    case_bool_decide as Hin; cbn [snd os_set_errno os_fds].
    + apply set_eq. intros x. rewrite elem_of_difference, !elem_of_list_to_set, elem_of_singleton.
      rewrite list_elem_of_filter. tauto.
    + apply set_eq. intros x. rewrite elem_of_difference, !elem_of_list_to_set, elem_of_singleton.
      split; [|tauto]. intros Hx. split; [done|]. by intros ->.
Defined.

(** ** Lemmas *)

(** The part of inet_pton that consumes the digits of one octet. *)
Fixpoint octet_from (s : bytes) (cur : option Z) : option (option Z) :=
  match s with
  | [] => Some cur
  | c :: s =>
      match digit_val c, cur with
      | Some d, Some v => if (v =? 0) || (255 <? v * 10 + d) then None
                          else octet_from s (Some (v * 10 + d))
      | Some d, None => octet_from s (Some d)
      | None, _ => None
      end
  end.

Lemma inet_pton_octet s cur v rest don : octet_from s cur = Some v ->
  inet_pton_from (s ++ rest) don cur = inet_pton_from rest don v.
Proof.
  revert cur. induction s as [|c s IH]; intros cur H; cbn [octet_from app inet_pton_from] in *.
  - by injection H as ->.
  - destruct (digit_val c) as [d|]; [|done]. destruct cur as [u|]; [|by apply IH].
    destruct ((u =? 0) || (255 <? u * 10 + d)); [done|]. by apply IH.
Qed.

Lemma octet_from_dec o : 0 <= o < 256 -> octet_from (dec_of_Z o) None = Some (Some o).
Proof.
  intros Ho.
  assert (H : forallb (fun n => bool_decide
    (octet_from (dec_of_Z (Z.of_nat n)) None = Some (Some (Z.of_nat n)))) (seq 0 256) = true)
    by (vm_compute; reflexivity).
  rewrite forallb_forall in H. specialize (H (Z.to_nat o)).
  rewrite Z2Nat.id in H by lia.
  apply bool_decide_eq_true_1 in H; [done|]. apply in_seq. lia.
Qed.

Lemma inet_pton_dotted a b c d :
  0 <= a < 256 -> 0 <= b < 256 -> 0 <= c < 256 -> 0 <= d < 256 ->
  inet_pton (dotted [a; b; c; d]) = Some [a; b; c; d].
Proof.
  intros Ha Hb Hc Hd. unfold inet_pton, dotted. cbn [List.map List.concat].
  rewrite app_nil_r, <- !app_assoc.
  rewrite (inet_pton_octet _ _ _ _ _ (octet_from_dec a Ha)). cbn [lit list_ascii_of_string app inet_pton_from].
  change (digit_val "."%char) with (@None Z). cbn [Ascii.eqb Bool.eqb andb length Nat.eqb negb app].
  rewrite (inet_pton_octet _ _ _ _ _ (octet_from_dec b Hb)). cbn [inet_pton_from].
  change (digit_val "."%char) with (@None Z). cbn [Ascii.eqb Bool.eqb andb length Nat.eqb negb app].
  rewrite (inet_pton_octet _ _ _ _ _ (octet_from_dec c Hc)). cbn [inet_pton_from].
  change (digit_val "."%char) with (@None Z). cbn [Ascii.eqb Bool.eqb andb length Nat.eqb negb app].
  rewrite <- (app_nil_r (dec_of_Z d)).
  rewrite (inet_pton_octet _ _ _ _ _ (octet_from_dec d Hd)). done.
Qed.

(** A text that is no dotted address is one that inet_pton rejects; the values
    it accepts are octets. *)
Lemma inet_pton_from_octets s don cur l :
  Forall (fun o => 0 <= o < 256) don -> (forall v, cur = Some v -> 0 <= v < 256) ->
  (length don <= 3)%nat -> inet_pton_from s don cur = Some l ->
  length l = 4%nat /\ Forall (fun o => 0 <= o < 256) l.
Proof.
  assert (Hdig : forall c d, digit_val c = Some d -> 0 <= d <= 9).
  { intros c d H. unfold digit_val in H. case_match; [|done]. zbool. simplify_eq. lia. }
  revert don cur. induction s as [|c s IH]; intros don cur Hdon Hcur Hlen H; cbn [inet_pton_from] in H.
  - destruct cur as [v|]; [|done]. destruct (Nat.eqb_spec (length don) 3); [|done].
    injection H as <-. rewrite length_app. split; [simpl; lia|].
    apply Forall_app. split; [done|]. apply Forall_singleton. by apply Hcur.
  - destruct (digit_val c) as [d|] eqn:Hd.
    + specialize (Hdig c d Hd). destruct cur as [v|].
      * destruct (Z.eqb_spec v 0), (Z.ltb_spec 255 (v * 10 + d)); cbn [orb] in H; try done.
        specialize (Hcur v eq_refl). apply (IH don (Some (v * 10 + d))); try done.
        intros u Hu. simplify_eq. lia.
      * apply (IH don (Some d)); try done. intros u Hu. simplify_eq. lia.
    + destruct cur as [v|]; [|done]. destruct (Ascii.eqb c ".") ; [|done]. cbn [andb] in H.
      destruct (Nat.eqb_spec (length don) 3); [done|]. cbn [negb] in H.
      apply (IH (don ++ [v]) None); try done.
      * apply Forall_app. split; [done|]. apply Forall_singleton. by apply Hcur.
      * rewrite length_app. simpl. lia.
Qed.

Section AddressLemmas.
Context {host : Host}.

Lemma network_host_16 x : 0 <= x < 2 ^ 16 -> networkToHost16 (hostToNetwork16 x) = x.
Proof.
  intros Hx. unfold networkToHost16, hostToNetwork16. rewrite htobe_involutive.
  by apply wrapU_small.
Qed.

(** The bytes of an unsigned integer are determined by what they denote. *)
Lemma mem_of_octets octets : length octets = 4%nat ->
  mem_of 4 (of_mem (List.map byte_of_Z octets)) = List.map byte_of_Z octets.
Proof.
  intros Hl. rewrite <- Hl, <- (List.length_map byte_of_Z octets). apply mem_of_of_mem.
Qed.
End AddressLemmas.

Lemma until_nul_id s : NUL ∉ s -> until_nul s = s.
Proof.
  induction s as [|c s IH]; intros H; [done|]. rewrite not_elem_of_cons in H. destruct H as [H1 H2].
  cbn [until_nul]. destruct (Ascii.eqb_spec c NUL) as [->|_]; [done|]. by rewrite IH.
Qed.

Lemma dotted_nul_free l : Forall (fun o => 0 <= o) l -> NUL ∉ dotted l.
Proof.
  assert (Hd : forall o, 0 <= o -> NUL ∉ dec_of_Z o)
    by (intros o Ho; apply (nul_free_digits o); by apply dec_of_Z_digits).
  destruct l as [|o l]; intros H; [by apply not_elem_of_nil|].
  apply Forall_cons in H as [Ho H]. cbn [dotted]. apply not_elem_of_app. split; [by apply Hd|].
  induction H as [|x l Hx _ IH]; cbn [List.map List.concat]; [by apply not_elem_of_nil|].
  rewrite !not_elem_of_app. repeat split; [by apply (bool_decide_unpack _)|by apply Hd|done].
Qed.

(** ** Properties *)

(** C38. Addresses keep what they are given, on hosts of either byte order: the
    socket address made from any dotted address and port holds, in memory, the
    port and the four octets in network order, toPort returns the port, and
    printing the octets and reading the text back gives them again; the
    address made from a port alone is that of all interfaces, 0.0.0.0, or of
    the loopback interface, 127.0.0.1. *)
Theorem inet_address_roundtrip {host : Host} a b c d port :
  0 <= a < 256 -> 0 <= b < 256 -> 0 <= c < 256 -> 0 <= d < 256 -> 0 <= port < 2 ^ 16 ->
  let addr := InetAddress_of_ip (dotted [a; b; c; d]) port in
  let octets := List.map byte_of_Z [a; b; c; d] in
  toPort addr = port /\ mem_of 2 (portNetEndian addr) = be_bytes 2 port /\
  mem_of 4 (ipNetEndian addr) = octets /\
  inet_ntop (mem_of 4 (ipNetEndian addr)) INET_ADDRSTRLEN = Some (dotted [a; b; c; d]) /\
  inet_pton (dotted [a; b; c; d]) = Some [a; b; c; d] /\
  forall loopback, let addr := InetAddress_of_port port loopback in
    toPort addr = port /\
    mem_of 4 (ipNetEndian addr) =
      List.map byte_of_Z (if loopback then [127; 0; 0; 1] else [0; 0; 0; 0]).
Proof.
  intros Ha Hb Hc Hd Hp addr octets.
  pose proof (inet_pton_dotted a b c d Ha Hb Hc Hd) as Hpton.
  assert (Hmem : mem_of 4 (ipNetEndian addr) = octets).
  { unfold addr, ipNetEndian, InetAddress_of_ip, fromIpPort. cbn [addr_ s_addr].
    rewrite until_nul_id by (apply dotted_nul_free; rewrite !Forall_cons; repeat split; (lia || constructor)). rewrite Hpton.
    by apply mem_of_octets. }
  split; [by apply network_host_16|]. split; [apply mem_of_htobe|]. split; [done|].
  split; [|split; [done|]].
  - rewrite Hmem. unfold inet_ntop. cbn [octets List.map take].
    rewrite !Z_of_byte_of_Z, !Z.mod_small by lia.
    assert (Hl : forall o, 0 <= o < 256 -> (length (dec_of_Z o) <= 3)%nat).
    { intros o Ho. unfold dec_of_Z. destruct (Z.ltb_spec o 0); [lia|].
      apply (length_digits_in 10 ltac:(lia) 3); simpl; lia. }
    pose proof (Hl a Ha). pose proof (Hl b Hb). pose proof (Hl c Hc). pose proof (Hl d Hd).
    destruct (Z.ltb_spec (zlen (dotted [a; b; c; d])) INET_ADDRSTRLEN) as [|Hge]; [done|].
    exfalso. revert Hge. unfold dotted, zlen, INET_ADDRSTRLEN. cbn [List.map List.concat].
    rewrite app_nil_r, !length_app. change (length (lit ".")) with 1%nat. lia.
  - intros loopback. split; [by apply network_host_16|].
    unfold InetAddress_of_port, ipNetEndian. cbn [addr_ s_addr].
    destruct loopback; unfold hostToNetwork32; rewrite mem_of_htobe; reflexivity.
Qed.

Lemma inet_address_roundtrip_witness :
  let addr := InetAddress_of_ip (host := LittleEndian) (dotted [192; 168; 1; 20]) 8080 in
  let octets := List.map byte_of_Z [192; 168; 1; 20] in
  toPort (host := LittleEndian) addr = 8080 /\
  mem_of (host := LittleEndian) 2 (portNetEndian addr) = be_bytes 2 8080 /\
  mem_of (host := LittleEndian) 4 (ipNetEndian addr) = octets /\
  inet_ntop (mem_of (host := LittleEndian) 4 (ipNetEndian addr)) INET_ADDRSTRLEN =
    Some (dotted [192; 168; 1; 20]) /\
  inet_pton (dotted [192; 168; 1; 20]) = Some [192; 168; 1; 20] /\
  forall loopback, let addr := InetAddress_of_port (host := LittleEndian) 8080 loopback in
    toPort (host := LittleEndian) addr = 8080 /\
    mem_of (host := LittleEndian) 4 (ipNetEndian addr) =
      List.map byte_of_Z (if loopback then [127; 0; 0; 1] else [0; 0; 0; 0]).
Proof. apply (inet_address_roundtrip (host := LittleEndian) 192 168 1 20 8080); lia. Defined.

(** inet_pton accepts nothing but four octets. *)
Lemma inet_pton_sound s l : inet_pton s = Some l ->
  length l = 4%nat /\ Forall (fun o => 0 <= o < 256) l.
Proof. apply inet_pton_from_octets; [constructor|done|simpl; lia]. Qed.

(** A text that is not an address leaves 0.0.0.0. *)
Lemma bad_address_is_any {host : Host} ip port : inet_pton (until_nul ip) = None ->
  ipNetEndian (InetAddress_of_ip ip port) = 0.
Proof. intros H. unfold InetAddress_of_ip, fromIpPort, ipNetEndian. by rewrite H. Qed.

(** ** Behaviour that callers may not expect *)

(** Casting an address and back gives its fields again, on either kind of host. *)
Lemma sockaddr_casts {host : Host} a :
  0 <= sin_family a < 2 ^ 16 -> 0 <= sin_port a < 2 ^ 16 -> 0 <= s_addr a < 2 ^ 32 ->
  zlen (sockaddr_cast a) = 16 /\ sockaddr_in_cast (sockaddr_cast a) = a.
Proof.
  intros Hf Hp Ha. split.
  { unfold sockaddr_cast, sockaddr_bytes. rewrite !zlen_app, !zlen_mem_of, zlen_replicate. done. }
  unfold sockaddr_in_cast, sockaddr_cast, sockaddr_bytes. destruct a as [f p i].
  cbn [sin_family sin_port s_addr] in *. f_equal.
  - by rewrite take_app_length', of_mem_mem_of, wrapU_small by (rewrite ?length_mem_of; done).
  - by rewrite drop_app_length', take_app_length', of_mem_mem_of, wrapU_small
      by (rewrite ?length_mem_of; done).
  - by rewrite app_assoc, drop_app_length', take_app_length', of_mem_mem_of, wrapU_small
      by (rewrite ?length_app, ?length_mem_of; done).
Qed.

(** toIp and toIpPort print the first four bytes of the struct, the address
    family and the port, instead of the address. *)
Lemma toIp_prints_the_port :
  toIp (host := LittleEndian) (InetAddress_of_ip (host := LittleEndian) (lit "192.168.1.20") 8080)
    = Ok (lit "2.0.31.144") /\
  toIpPort (host := LittleEndian) (InetAddress_of_ip (host := LittleEndian) (lit "192.168.1.20") 8080)
    = Ok (lit "2.0.31.144:8080").
Proof. split; vm_compute; reflexivity. Qed.
