(* ===== verification/SocketVariants.v ===== *)
(** The other builds of net/SocketsOps.cc: VALGRIND and NO_ACCEPT4.

    Where accept4 and the flags of socket are missing, the code sets the flags of
    a new descriptor afterwards with fcntl ([setNonBlockAndCloseOnExec]).
    [Fcntl] adds fcntl and the flags of descriptors to the system calls of
    Sockets.v, with what the manual pages say of them.  The constant CLOEXEC,
    which no header defines, is an argument; FD_CLOEXEC is what it should be.

    [other_builds_agree]: whatever CLOEXEC is, a descriptor that these builds
    return is the one that the default build returns, in the same state but for
    its close-on-exec flag, and a failure is the same but for errno, which
    setNonBlockAndCloseOnExec overwrites.  [no_accept4] is the
    kernel over which the default build behaves like these builds; with it
    Acceptor.v says what that means for an acceptor. *)
From Stdlib Require Import ZArith Lia Ascii String.
From stdpp Require Import base list strings gmap sets.
From S2P Require Import Prelude CLib Endian Sockets.

#[local] Open Scope Z_scope.

Definition F_GETFD : Z := 1.
Definition F_SETFD : Z := 2.
Definition F_GETFL : Z := 3.
Definition F_SETFL : Z := 4.
Definition O_NONBLOCK : Z := 2048.
Definition FD_CLOEXEC : Z := 1.

(** The two sets of flags that a descriptor has: of its open file, and its own. *)
Record fd_flags := mkFlags { fl_status : Z; fl_fd : Z }.

(** socket and accept4 with [how], which may contain SOCK_NONBLOCK and
    SOCK_CLOEXEC, give a descriptor that would otherwise have the flags [f]. *)
Definition with_flags (how : Z) (f : fd_flags) : fd_flags :=
  mkFlags (if Z.land how SOCK_NONBLOCK =? 0 then fl_status f else Z.lor (fl_status f) O_NONBLOCK)
          (if Z.land how SOCK_CLOEXEC =? 0 then fl_fd f else FD_CLOEXEC).

Class Fcntl (W : Type) `{KernelLaws W} := {
  sys_fcntl : Z -> Z -> Z -> W -> Z * W;      (* descriptor, command, argument *)
  flags : Z -> W -> fd_flags;
  set_flags : Z -> fd_flags -> W -> W;
  settable : Z;                               (* the status flags that F_SETFL can change *)
  errno_set : forall e w, errno (set_errno e w) = e;
  settable_nonblock : Z.land O_NONBLOCK settable = O_NONBLOCK;
  flags_set : forall fd f w, flags fd (set_flags fd f w) = f;
  set_flags_twice : forall fd f g w, set_flags fd f (set_flags fd g w) = set_flags fd f w;
  set_flags_fds : forall fd f w, open_fds (set_flags fd f w) = open_fds w;
  fcntl_getfl : forall fd a w, fd ∈ open_fds w -> sys_fcntl fd F_GETFL a w = (fl_status (flags fd w), w);
  fcntl_setfl : forall fd a w, fd ∈ open_fds w ->
    sys_fcntl fd F_SETFL a w =
      (0, set_flags fd (mkFlags (Z.lor (Z.ldiff (fl_status (flags fd w)) settable) (Z.land a settable))
                          (fl_fd (flags fd w))) w);
  fcntl_getfd : forall fd a w, fd ∈ open_fds w -> sys_fcntl fd F_GETFD a w = (fl_fd (flags fd w), w);
  fcntl_setfd : forall fd a w, fd ∈ open_fds w ->
    sys_fcntl fd F_SETFD a w =
      (0, set_flags fd (mkFlags (fl_status (flags fd w)) (Z.land a FD_CLOEXEC)) w);
  fcntl_bad : forall fd cmd a w, fd ∉ open_fds w -> sys_fcntl fd cmd a w = (-1, set_errno EBADF w);
  socket_flags : forall domain type how protocol w, Z.land type (Z.lor SOCK_NONBLOCK SOCK_CLOEXEC) = 0 ->
    let '(fd, w') := sys_socket domain type protocol w in
    (0 <= fd -> fl_fd (flags fd w') = 0) /\
    sys_socket domain (Z.lor type how) protocol w =
      (fd, if fd <? 0 then w' else set_flags fd (with_flags how (flags fd w')) w');
  accept_flags : forall sockfd how w,
    let '(fd, peer, w') := sys_accept sockfd 0 w in
    (0 <= fd -> fl_fd (flags fd w') = 0) /\
    sys_accept sockfd how w =
      (fd, peer, if fd <? 0 then w' else set_flags fd (with_flags how (flags fd w')) w')
}.

(** ** namespace sockets, with VALGRIND or NO_ACCEPT4 *)

Section Variants.
Context {W : Type} `{Fcntl W}.
Variable CLOEXEC : Z.

Definition setNonBlockAndCloseOnExec (sockfd : Z) (w : W) : W :=
  let '(flags, w) := sys_fcntl sockfd F_GETFL 0 w in
  let flags := Z.lor flags O_NONBLOCK in
  let '(_, w) := sys_fcntl sockfd F_SETFL flags w in
  let '(flags, w) := sys_fcntl sockfd F_GETFD 0 w in
  let flags := Z.lor flags CLOEXEC in
  let '(_, w) := sys_fcntl sockfd F_SETFD flags w in
  w.

(** With VALGRIND. *)
Definition createNonBlockingOrDie_valgrind (w : W) : Z * W :=
  let '(sockfd, w) := sys_socket AF_INET SOCK_STREAM IPPROTO_TCP w in
  (sockfd, setNonBlockAndCloseOnExec sockfd w).

(** With VALGRIND or NO_ACCEPT4. *)
Definition accept_no_accept4 (sockfd : Z) (addr : sockaddr_in) (w : W) : Z * sockaddr_in * W :=
  let '(connfd, peer, w) := sys_accept sockfd 0 w in
  let w := setNonBlockAndCloseOnExec connfd w in
  let w :=
    if connfd <? 0 then
      let savedErrno := errno w in
      if (savedErrno =? EAGAIN) || (savedErrno =? ECONNABORTED) || (savedErrno =? EINTR) ||
         (savedErrno =? EPROTO) || (savedErrno =? EPERM) || (savedErrno =? EMFILE)
      then set_errno savedErrno w else w
    else w in
  (connfd, match peer with Some p => p | None => addr end, w).

(** The system as these builds use it: socket and accept4 with flags, made of
    the calls without flags and of fcntl. *)
Definition no_accept4 : Kernel W := {|
  errno := errno;
  set_errno := set_errno;
  sys_socket := fun domain type protocol w =>
    let '(fd, w) := sys_socket domain
      (Z.ldiff type (Z.lor SOCK_NONBLOCK SOCK_CLOEXEC)) protocol w in
    (fd, setNonBlockAndCloseOnExec fd w);
  sys_bind := sys_bind;
  sys_listen := sys_listen;
  sys_accept := fun sockfd how w =>
    let '(fd, peer, w) := sys_accept sockfd 0 w in
    (fd, peer, if how =? 0 then w else setNonBlockAndCloseOnExec fd w);
  sys_connect := sys_connect;
  sys_read := sys_read;
  sys_readv := sys_readv;
  sys_write := sys_write;
  sys_close := sys_close;
  sys_shutdown := sys_shutdown;
  sys_setsockopt := sys_setsockopt;
  sys_getsockopt := sys_getsockopt;
  sys_getsockname := sys_getsockname;
  sys_getpeername := sys_getpeername;
  sys_open := sys_open
|}.

(** ** Lemmas *)

(** Adding a flag that can be set, and leaving the others as they are. *)
Lemma setfl_adds s : Z.lor (Z.ldiff s settable) (Z.land (Z.lor s O_NONBLOCK) settable) = Z.lor s O_NONBLOCK.
Proof.
  apply Z.bits_inj'. intros n Hn. rewrite !Z.lor_spec, Z.ldiff_spec, Z.land_spec, Z.lor_spec.
  assert (Hs : Z.testbit O_NONBLOCK n && Z.testbit settable n = Z.testbit O_NONBLOCK n)
    by (by rewrite <- Z.land_spec, settable_nonblock).
  revert Hs. by destruct (Z.testbit s n), (Z.testbit O_NONBLOCK n), (Z.testbit settable n).
Qed.

Lemma setNonBlock_closed fd w : fd ∉ open_fds w ->
  open_fds (setNonBlockAndCloseOnExec fd w) = open_fds w /\
  exists w', setNonBlockAndCloseOnExec fd w = set_errno EBADF w'.
Proof.
  intros Hfd. unfold setNonBlockAndCloseOnExec.
  assert (Hn : forall w', open_fds w' = open_fds w -> fd ∉ open_fds (set_errno EBADF w'))
    by (intros w' E; by rewrite set_errno_fds, E).
  rewrite (fcntl_bad fd F_GETFL) by done.
  rewrite (fcntl_bad fd F_SETFL) by (by apply Hn).
  rewrite (fcntl_bad fd F_GETFD) by (apply Hn; by rewrite set_errno_fds).
  rewrite (fcntl_bad fd F_SETFD) by (apply Hn; by rewrite !set_errno_fds).
  rewrite !set_errno_fds. split; [done|by eexists].
Qed.

Lemma setNonBlock_fds fd w : open_fds (setNonBlockAndCloseOnExec fd w) = open_fds w.
Proof.
  destruct (decide (fd ∈ open_fds w)) as [Hfd|Hfd]; [|by apply setNonBlock_closed].
  unfold setNonBlockAndCloseOnExec.
  rewrite fcntl_getfl, fcntl_setfl by done. set (w1 := set_flags fd _ w).
  assert (Hf : open_fds w1 = open_fds w) by apply set_flags_fds.
  rewrite fcntl_getfd, fcntl_setfd by by rewrite Hf. by rewrite set_flags_fds, Hf.
Qed.

#[export] Instance no_accept4_laws : @KernelLaws W no_accept4.
Proof.
  refine (@Build_KernelLaws W no_accept4 open_fds _ _ _ _ _ _ _ _ _).
  - exact set_errno_fds.
  - intros d t p w. cbn [sys_socket no_accept4].
    pose proof (socket_opens d (Z.ldiff t (Z.lor SOCK_NONBLOCK SOCK_CLOEXEC)) p w) as Ho.
    destruct (sys_socket d _ p w) as [fd w']. by rewrite setNonBlock_fds.
  - exact open_opens.
  - intros fd how w. cbn [sys_accept no_accept4]. pose proof (accept_opens fd 0 w) as Ho. cbv beta in Ho.
    destruct (sys_accept fd 0 w) as [[r peer] w']. destruct (how =? 0); [done|].
    by rewrite setNonBlock_fds.
  - exact close_fds.
  - exact bind_fds.
  - exact listen_fds.
  - exact connect_fds.
  - exact setsockopt_fds.
Defined.

(** A descriptor whose close-on-exec flag is what CLOEXEC makes of it. *)
Definition with_cloexec (fd : Z) (w : W) : W :=
  set_flags fd (mkFlags (fl_status (flags fd w)) (Z.land CLOEXEC FD_CLOEXEC)) w.

Lemma setNonBlock_open fd w : fd ∈ open_fds w -> fl_fd (flags fd w) = 0 ->
  setNonBlockAndCloseOnExec fd w =
    with_cloexec fd (set_flags fd (with_flags (Z.lor SOCK_NONBLOCK SOCK_CLOEXEC) (flags fd w)) w).
Proof.
  intros Hfd Hclo. unfold setNonBlockAndCloseOnExec, with_cloexec.
  rewrite fcntl_getfl by done. rewrite fcntl_setfl, setfl_adds by done.
  set (w1 := set_flags fd _ w).
  assert (Hfd1 : fd ∈ open_fds w1) by (unfold w1; by rewrite set_flags_fds).
  rewrite fcntl_getfd, fcntl_setfd by done. unfold w1. rewrite !flags_set, !set_flags_twice.
  cbn [fl_status fl_fd]. by rewrite Hclo.
Qed.

(** Nothing changes where the flag is already so. *)
Lemma with_cloexec_same fd f w : fl_fd f = Z.land CLOEXEC FD_CLOEXEC ->
  with_cloexec fd (set_flags fd f w) = set_flags fd f w.
Proof.
  intros Hf. unfold with_cloexec. rewrite flags_set, set_flags_twice, <- Hf. by destruct f.
Qed.
End Variants.

(** ** A system with flags *)

(** [simple_os] with the flags of its descriptors, which are open for reading and
    writing. *)
Record flag_os := mkFlagOs { fo_os : simple_os; fo_flags : gmap Z fd_flags }.

Definition O_RDWR : Z := 2.
Definition plain : fd_flags := mkFlags O_RDWR 0.
Definition fo_on (f : simple_os -> simple_os) (o : flag_os) : flag_os := mkFlagOs (f (fo_os o)) (fo_flags o).
Definition fo_call (f : simple_os -> Z * simple_os) (o : flag_os) : Z * flag_os :=
  let '(r, s) := f (fo_os o) in (r, mkFlagOs s (fo_flags o)).
Definition fo_set (fd : Z) (f : fd_flags) (o : flag_os) : flag_os :=
  mkFlagOs (fo_os o) (<[fd := f]> (fo_flags o)).
Definition fo_new (fd how : Z) (o : flag_os) : flag_os :=
  if fd <? 0 then o else fo_set fd (with_flags how plain) o.
Definition fo_get (fd : Z) (o : flag_os) : fd_flags := default plain (fo_flags o !! fd).

#[export] Instance flag_kernel : Kernel flag_os := {
  errno o := os_errno (fo_os o);
  set_errno e := fo_on (os_set_errno e);
  sys_socket _ type _ o := let '(fd, o) := fo_call os_alloc o in (fd, fo_new fd type o);
  sys_bind _ _ o := (0, o);
  sys_listen _ _ o := (0, o);
  sys_accept fd how o :=
    let '(r, peer, s) := os_accept fd how (fo_os o) in
    (r, peer, fo_new r how (mkFlagOs s (fo_flags o)));
  sys_connect fd a := fo_call (sys_connect fd a);
  sys_read _ _ o := (0, [], o);
  sys_readv _ _ o := (0, [], o);
  sys_write _ buf o := (zlen buf, o);
  sys_close fd := fo_call (os_close fd);
  sys_shutdown _ _ o := (0, o);
  sys_setsockopt _ _ _ _ o := (0, o);
  sys_getsockopt _ _ _ o := (0, 0, o);
  sys_getsockname _ o := (0, Some sockaddr_zero, o);
  sys_getpeername _ o := (0, Some sockaddr_zero, o);
  sys_open _ _ o := let '(fd, o) := fo_call os_alloc o in (fd, fo_new fd 0 o)
}.

Lemma fo_new_os fd how o : fo_os (fo_new fd how o) = fo_os o.
Proof. unfold fo_new. by destruct (fd <? 0). Qed.

#[export] Instance flag_kernel_laws : KernelLaws flag_os.
Proof.
  assert (Halloc : forall how, opens (fun o => open_fds (fo_os o))
    (fun o => let '(fd, o) := fo_call os_alloc o in (fd, fo_new fd how o))).
  { intros how o. pose proof (os_alloc_opens (fo_os o)) as Ho. unfold fo_call.
    destruct (os_alloc (fo_os o)) as [fd s]. by rewrite fo_new_os. }
  refine (@Build_KernelLaws flag_os flag_kernel (fun o => open_fds (fo_os o)) _ _ _ _ _ _ _ _ _);
    try done.
  - intros; apply Halloc.
  - intros; apply Halloc.
  - intros fd how o. cbn [sys_accept flag_kernel].
    pose proof (accept_opens fd how (fo_os o)) as Ho. cbv beta in Ho. cbn [sys_accept simple_kernel] in Ho.
    destruct (os_accept fd how (fo_os o)) as [[r peer] s]. by rewrite fo_new_os.
  - intros fd o. cbn [sys_close flag_kernel]. pose proof (close_fds fd (fo_os o)) as Hc.
    cbn [sys_close simple_kernel] in Hc. unfold fo_call. by destruct (os_close fd (fo_os o)).
Defined.

Definition fo_fcntl (fd cmd arg : Z) (o : flag_os) : Z * flag_os :=
  if bool_decide (fd ∈ os_fds (fo_os o)) then
    let f := fo_get fd o in
    if cmd =? F_GETFL then (fl_status f, o)
    else if cmd =? F_SETFL then
      (0, fo_set fd (mkFlags (Z.lor (Z.ldiff (fl_status f) O_NONBLOCK) (Z.land arg O_NONBLOCK)) (fl_fd f)) o)
    else if cmd =? F_GETFD then (fl_fd f, o)
    else (0, fo_set fd (mkFlags (fl_status f) (Z.land arg FD_CLOEXEC)) o)
  else (-1, fo_on (os_set_errno EBADF) o).

Lemma fo_fcntl_open fd o : fd ∈ open_fds o -> bool_decide (fd ∈ os_fds (fo_os o)) = true.
Proof. intros H. apply bool_decide_eq_true. by apply elem_of_list_to_set in H. Qed.

Lemma with_flags_lor type how f : Z.land type (Z.lor SOCK_NONBLOCK SOCK_CLOEXEC) = 0 ->
  with_flags (Z.lor type how) f = with_flags how f.
Proof.
  intros Ht. unfold with_flags. rewrite !Z.land_lor_distr_l.
  assert (Hz : forall m, Z.land (Z.lor SOCK_NONBLOCK SOCK_CLOEXEC) m = m -> Z.land type m = 0)
    by (intros m Hm; by rewrite <- Hm, Z.land_assoc, Ht).
  by rewrite (Hz SOCK_NONBLOCK eq_refl), (Hz SOCK_CLOEXEC eq_refl).
Qed.

Lemma fo_new_with fd how how' o : fd <? 0 = false ->
  Z.land how (Z.lor SOCK_NONBLOCK SOCK_CLOEXEC) = 0 ->
  fo_get fd (fo_new fd how o) = plain /\
  fo_new fd how' o = fo_set fd (with_flags how' plain) (fo_new fd how o).
Proof.
  intros Hfd Hhow. unfold fo_new, fo_set, fo_get. rewrite Hfd. cbn [fo_os fo_flags].
  rewrite lookup_insert_eq, insert_insert_eq. split; [|done].
  pose proof (with_flags_lor how 0 plain Hhow) as Hw. rewrite Z.lor_0_r in Hw. by rewrite Hw.
Qed.

#[export, refine] Instance flag_fcntl : Fcntl flag_os := {
  sys_fcntl := fo_fcntl;
  flags := fo_get;
  set_flags := fo_set;
  settable := O_NONBLOCK
}.
Proof.
  - done.
  - done.
  - intros fd f o. unfold fo_get, fo_set. cbn [fo_flags]. by rewrite lookup_insert_eq.
  - intros fd f g o. unfold fo_set. cbn [fo_flags fo_os]. by rewrite insert_insert_eq.
  - done.
  - intros fd a o Hfd. unfold fo_fcntl. by rewrite (fo_fcntl_open _ _ Hfd).
  - intros fd a o Hfd. unfold fo_fcntl. by rewrite (fo_fcntl_open _ _ Hfd).
  - intros fd a o Hfd. unfold fo_fcntl. by rewrite (fo_fcntl_open _ _ Hfd).
  - intros fd a o Hfd. unfold fo_fcntl. by rewrite (fo_fcntl_open _ _ Hfd).
  - intros fd cmd a o Hfd. unfold fo_fcntl.
    rewrite bool_decide_eq_false_2; [done|]. intros Hin. apply Hfd. by apply elem_of_list_to_set.
  - intros d type how p o Ht. cbn [sys_socket flag_kernel]. unfold fo_call.
    destruct (os_alloc (fo_os o)) as [fd s]. destruct (fd <? 0) eqn:Hfd.
    + unfold fo_new. rewrite Hfd. split; [|done]. apply Z.ltb_lt in Hfd. lia.
    + destruct (fo_new_with fd type (Z.lor type how) (mkFlagOs s (fo_flags o)) Hfd Ht) as [Hg Hn].
      rewrite Hg, Hn, with_flags_lor by done. by split.
  - intros fd how o. cbn [sys_accept flag_kernel].
    unfold os_accept.
    destruct (os_pending (fo_os o)) as [|p rest]; [split; [lia|done]|].
    destruct (os_alloc (fo_os o)) as [r s]. destruct (r <? 0) eqn:Hr.
    + unfold fo_new. rewrite Hr. split; [|done]. apply Z.ltb_lt in Hr. lia.
    + destruct (fo_new_with r 0 how (mkFlagOs (mkOs (os_fds s) (os_limit s) rest (os_errno s)) (fo_flags o))
        Hr eq_refl) as [Hg Hn].
      rewrite Hr, Hg, Hn. by split.
Defined.

(** ** Properties *)

(** C16. The builds without accept4 do what the default build does, apart from
    errno and from what the constant CLOEXEC is.  For every value of CLOEXEC, a
    socket that createNonBlockingOrDie returns, and a connection that accept
    returns, is the descriptor that the default build returns, in the same state
    of the system with the same peer and the same flags but close-on-exec, which
    is set exactly if CLOEXEC contains FD_CLOEXEC; if it does, nothing differs.
    When there is no descriptor, these builds too return -1 and open nothing, but
    errno is then EBADF, whatever the reason was. *)
Theorem other_builds_agree {W} `{Fcntl W} CLOEXEC sockfd addr (w : W) :
  -1 ∉ open_fds w ->
  (let '(fd, w') := createNonBlockingOrDie w in
   if fd <? 0
   then exists w2, createNonBlockingOrDie_valgrind CLOEXEC w = (fd, w2) /\
          open_fds w2 = open_fds w' /\ errno w2 = EBADF
   else createNonBlockingOrDie_valgrind CLOEXEC w = (fd, with_cloexec CLOEXEC fd w') /\
          (Z.testbit CLOEXEC 0 = true -> with_cloexec CLOEXEC fd w' = w')) /\
  (let '(fd, peer, w') := accept sockfd addr w in
   if fd <? 0
   then exists w2, accept_no_accept4 CLOEXEC sockfd addr w = (fd, peer, w2) /\
          open_fds w2 = open_fds w' /\ errno w2 = EBADF
   else accept_no_accept4 CLOEXEC sockfd addr w = (fd, peer, with_cloexec CLOEXEC fd w') /\
          (Z.testbit CLOEXEC 0 = true -> with_cloexec CLOEXEC fd w' = w')).
Proof.
  intros Hneg.
  assert (Hbit : Z.testbit CLOEXEC 0 = true -> FD_CLOEXEC = Z.land CLOEXEC FD_CLOEXEC).
  { intros Hb. change FD_CLOEXEC with (Z.ones 1). rewrite Z.land_ones by done.
    change (2 ^ 1) with 2. by rewrite <- Z.bit0_mod, Hb. }
  split.
  - unfold createNonBlockingOrDie, createNonBlockingOrDie_valgrind.
    pose proof (socket_flags AF_INET SOCK_STREAM (Z.lor SOCK_NONBLOCK SOCK_CLOEXEC) IPPROTO_TCP w eq_refl) as Hs.
    pose proof (socket_opens AF_INET SOCK_STREAM IPPROTO_TCP w) as Ho.
    destruct (sys_socket AF_INET SOCK_STREAM IPPROTO_TCP w) as [fd w'].
    rewrite <- Z.lor_assoc. destruct Hs as [Hc ->]. destruct (Z.ltb_spec fd 0) as [Hlt|Hge].
    + destruct Ho as [(? & _)|[-> Ho]]; [lia|].
      destruct (setNonBlock_closed CLOEXEC (-1) w') as (Hf & w2 & E); [by rewrite Ho|].
      eexists. split; [done|]. split; [exact Hf|]. rewrite E. apply errno_set.
    + destruct Ho as [(_ & _ & Ho)|[-> _]]; [|lia].
      rewrite setNonBlock_open; [|rewrite Ho; set_solver|by apply Hc].
      split; [done|]. intros Hb. apply with_cloexec_same. by apply Hbit.
  - unfold accept, accept_no_accept4.
    pose proof (accept_flags sockfd (Z.lor SOCK_NONBLOCK SOCK_CLOEXEC) w) as Hs.
    pose proof (accept_opens sockfd 0 w) as Ho. cbv beta in Ho.
    destruct (sys_accept sockfd 0 w) as [[fd peer] w'].
    destruct Hs as [Hc ->]. destruct (Z.ltb_spec fd 0) as [Hlt|Hge].
    + destruct Ho as [(? & _)|[-> Ho]]; [lia|].
      destruct (setNonBlock_closed CLOEXEC (-1) w') as (Hf & w2 & E); [by rewrite Ho|].
      eexists. split; [done|]. rewrite E, errno_set in *. cbn [Z.eqb EBADF EAGAIN ECONNABORTED EINTR EPROTO EPERM EMFILE Pos.eqb orb].
      rewrite errno_set. split; [|done]. rewrite Hf. destruct (_ || _); [by rewrite set_errno_fds|done].
    + destruct Ho as [(_ & _ & Ho)|[-> _]]; [|lia].
      rewrite setNonBlock_open; [|rewrite Ho; set_solver|by apply Hc].
      split; [done|]. intros Hb. apply with_cloexec_same. by apply Hbit.
Qed.

(** A connection is waiting, and descriptor 0 is open. *)
Definition waiting_os : flag_os := mkFlagOs (mkOs [0] 2 [mkSockaddr AF_INET 1 1] 0) ∅.

(** With FD_CLOEXEC, and with O_CLOEXEC, of which fcntl takes no notice. *)
Definition O_CLOEXEC : Z := 524288.
Definition accepted (fd_flag : Z) : Z * sockaddr_in * flag_os :=
  (1, mkSockaddr AF_INET 1 1,
   mkFlagOs (mkOs [1; 0] 2 [] 0) {[1 := mkFlags (Z.lor O_RDWR O_NONBLOCK) fd_flag]}).

Lemma other_builds_agree_witness :
  accept_no_accept4 FD_CLOEXEC 0 sockaddr_zero waiting_os = accepted FD_CLOEXEC /\
  accept_no_accept4 O_CLOEXEC 0 sockaddr_zero waiting_os = accepted 0.
Proof.
  split.
  - destruct (other_builds_agree FD_CLOEXEC 0 sockaddr_zero waiting_os) as [_ [Ha Hsame]].
    + set_solver.
    + rewrite (Hsame eq_refl) in Ha. exact Ha.
  - destruct (other_builds_agree O_CLOEXEC 0 sockaddr_zero waiting_os) as [_ [Ha _]].
    + set_solver.
    + exact Ha.
Defined.
