(* ===== verification/Channel.v ===== *)
(** Channels: net/Channel.h and net/Channel.cc.

    A channel is a descriptor, the poll events it is interested in and the
    callbacks for them.  The callbacks are the client's and the event loop is
    not in the repository (EventLoop.h is empty): both are interfaces.  A
    callback acts on the channel and on the rest of the world [W]; the class
    [EventLoop] has the functions of the loop that a channel calls, and
    [EventLoopLaws] is what the users of channels assume of registering and removing
    them.  The theorems on channels do not use it: [recording_loop] writes down
    what a channel asks of its loop. *)
From Stdlib Require Import ZArith Lia Ascii String.
From stdpp Require Import base list strings gmap.
From S2P Require Import Prelude.
From S2P Require Import CLib.
From S2P Require Import Timestamp.
From S2P Require Import Logging.

#[local] Open Scope Z_scope.

(** ** Constants of poll.h *)

Definition POLLIN : Z := 1.
Definition POLLPRI : Z := 2.
Definition POLLOUT : Z := 4.
Definition POLLERR : Z := 8.
Definition POLLHUP : Z := 16.
Definition POLLNVAL : Z := 32.
Definition POLLRDHUP : Z := 8192.

Definition kNoneEvent : Z := 0.
Definition kReadEvent : Z := Z.lor POLLIN POLLPRI.
Definition kWriteEvent : Z := POLLOUT.

(** [flags & mask] as a condition. *)
Definition has (flags mask : Z) : bool := negb (Z.land flags mask =? 0).

(** ** The object *)

(** [CB] and [RCB] are the client's EventCallbacks and ReadEventCallbacks,
    [Owner] the object that a weak pointer may designate. *)
Record Channel {CB RCB Owner : Type} := mkChannel {
  fd_ : Z;
  index_ : Z;
  events_ : Z;
  revents_ : Z;
  logHup_ : bool;
  tie_ : option Owner;
  tied_ : bool;
  eventHandling_ : bool;
  addedToLoop_ : bool;
  readCallback_ : option RCB;
  writeCallback_ : option CB;
  closeCallback_ : option CB;
  errorCallback_ : option CB
}.
Arguments Channel : clear implicits.

(** The functions of the event loop that a channel uses. *)
Class EventLoop (CB RCB Owner W : Type) := {
  isInLoopThread : W -> bool;
  hasChannel : Channel CB RCB Owner -> W -> bool;
  updateChannel : Channel CB RCB Owner -> W -> outcome (Channel CB RCB Owner * W);
  removeChannel : Channel CB RCB Owner -> W -> outcome (Channel CB RCB Owner * W)
}.

(** How callbacks run, what a weak pointer's object is, and where log lines go. *)
Class Client (CB RCB Owner W : Type) := {
  run_cb : CB -> Channel CB RCB Owner -> W -> outcome (Channel CB RCB Owner * W);
  run_read : RCB -> Timestamp -> Channel CB RCB Owner -> W -> outcome (Channel CB RCB Owner * W);
  alive : Owner -> W -> bool;
  log_line : LogLevel -> bytes -> W -> W
}.

Section Channel.
Context {CB RCB Owner W : Type}.
Abbreviation channel := (Channel CB RCB Owner).

Definition Channel_new (fd : Z) : channel :=
  mkChannel CB RCB Owner fd (-1) 0 0 true None false false false None None None None.

Definition set_events (e : Z) (c : channel) : channel :=
  mkChannel CB RCB Owner (fd_ c) (index_ c) e (revents_ c) (logHup_ c) (tie_ c) (tied_ c)
    (eventHandling_ c) (addedToLoop_ c) (readCallback_ c) (writeCallback_ c) (closeCallback_ c)
    (errorCallback_ c).
Definition set_revents (revents : Z) (c : channel) : channel :=
  mkChannel CB RCB Owner (fd_ c) (index_ c) (events_ c) revents (logHup_ c) (tie_ c) (tied_ c)
    (eventHandling_ c) (addedToLoop_ c) (readCallback_ c) (writeCallback_ c) (closeCallback_ c)
    (errorCallback_ c).
Definition set_index (idx : Z) (c : channel) : channel :=
  mkChannel CB RCB Owner (fd_ c) idx (events_ c) (revents_ c) (logHup_ c) (tie_ c) (tied_ c)
    (eventHandling_ c) (addedToLoop_ c) (readCallback_ c) (writeCallback_ c) (closeCallback_ c)
    (errorCallback_ c).
Definition set_handling (b : bool) (c : channel) : channel :=
  mkChannel CB RCB Owner (fd_ c) (index_ c) (events_ c) (revents_ c) (logHup_ c) (tie_ c) (tied_ c)
    b (addedToLoop_ c) (readCallback_ c) (writeCallback_ c) (closeCallback_ c) (errorCallback_ c).
Definition set_added (b : bool) (c : channel) : channel :=
  mkChannel CB RCB Owner (fd_ c) (index_ c) (events_ c) (revents_ c) (logHup_ c) (tie_ c) (tied_ c)
    (eventHandling_ c) b (readCallback_ c) (writeCallback_ c) (closeCallback_ c) (errorCallback_ c).
Definition doNotLogHup (c : channel) : channel :=
  mkChannel CB RCB Owner (fd_ c) (index_ c) (events_ c) (revents_ c) false (tie_ c) (tied_ c)
    (eventHandling_ c) (addedToLoop_ c) (readCallback_ c) (writeCallback_ c) (closeCallback_ c)
    (errorCallback_ c).
Definition tie (obj : Owner) (c : channel) : channel :=
  mkChannel CB RCB Owner (fd_ c) (index_ c) (events_ c) (revents_ c) (logHup_ c) (Some obj) true
    (eventHandling_ c) (addedToLoop_ c) (readCallback_ c) (writeCallback_ c) (closeCallback_ c)
    (errorCallback_ c).
Definition setReadCallback (cb : RCB) (c : channel) : channel :=
  mkChannel CB RCB Owner (fd_ c) (index_ c) (events_ c) (revents_ c) (logHup_ c) (tie_ c) (tied_ c)
    (eventHandling_ c) (addedToLoop_ c) (Some cb) (writeCallback_ c) (closeCallback_ c)
    (errorCallback_ c).
Definition setWriteCallback (cb : CB) (c : channel) : channel :=
  mkChannel CB RCB Owner (fd_ c) (index_ c) (events_ c) (revents_ c) (logHup_ c) (tie_ c) (tied_ c)
    (eventHandling_ c) (addedToLoop_ c) (readCallback_ c) (Some cb) (closeCallback_ c)
    (errorCallback_ c).
Definition setErrorCallback (cb : CB) (c : channel) : channel :=
  mkChannel CB RCB Owner (fd_ c) (index_ c) (events_ c) (revents_ c) (logHup_ c) (tie_ c) (tied_ c)
    (eventHandling_ c) (addedToLoop_ c) (readCallback_ c) (writeCallback_ c) (closeCallback_ c)
    (Some cb).
Definition setCloseCallback (cb : CB) (c : channel) : channel :=
  mkChannel CB RCB Owner (fd_ c) (index_ c) (events_ c) (revents_ c) (logHup_ c) (tie_ c) (tied_ c)
    (eventHandling_ c) (addedToLoop_ c) (readCallback_ c) (writeCallback_ c) (Some cb)
    (errorCallback_ c).

Definition fd (c : channel) : Z := fd_ c.
Definition events (c : channel) : Z := events_ c.
Definition index_of (c : channel) : Z := index_ c.
Definition isNoneEvent (c : channel) : bool := events_ c =? kNoneEvent.
Definition isWriting (c : channel) : bool := has (events_ c) kWriteEvent.

(** reventsToString: [fd_] and the names of the events, each followed by a space. *)
Definition reventsToString (c : channel) : bytes :=
  let oss := dec_of_Z (fd_ c) ++ lit ": " in
  let oss := if has (revents_ c) POLLIN then oss ++ lit "IN " else oss in
  let oss := if has (revents_ c) POLLPRI then oss ++ lit "PRI " else oss in
  let oss := if has (revents_ c) POLLOUT then oss ++ lit "OUT " else oss in
  let oss := if has (revents_ c) POLLHUP then oss ++ lit "HUP " else oss in
  let oss := if has (revents_ c) POLLRDHUP then oss ++ lit "RDHUP " else oss in
  let oss := if has (revents_ c) POLLERR then oss ++ lit "ERR " else oss in
  if has (revents_ c) POLLNVAL then oss ++ lit "NVAL " else oss.

(** *** Registration *)

Section Registration.
Context `{EventLoop CB RCB Owner W}.

Definition update (c : channel) (w : W) : outcome (channel * W) := updateChannel (set_added true c) w.

Definition enableReading (c : channel) (w : W) : outcome (channel * W) :=
  update (set_events (Z.lor (events_ c) kReadEvent) c) w.
Definition disableReading (c : channel) (w : W) : outcome (channel * W) :=
  update (set_events (Z.lor (events_ c) (Z.lnot kReadEvent)) c) w.
Definition enableWriting (c : channel) (w : W) : outcome (channel * W) :=
  update (set_events (Z.lor (events_ c) kWriteEvent) c) w.
Definition disableWriting (c : channel) (w : W) : outcome (channel * W) :=
  update (set_events (Z.lor (events_ c) (Z.lnot kWriteEvent)) c) w.
Definition disableAll (c : channel) (w : W) : outcome (channel * W) :=
  update (set_events kNoneEvent c) w.

Definition remove (c : channel) (w : W) : outcome (channel * W) :=
  _ ← assert_ (isNoneEvent c);
  removeChannel (set_added false c) w.

(** ~Channel *)
Definition Channel_delete (c : channel) (w : W) : outcome unit :=
  _ ← assert_ (negb (eventHandling_ c));
  _ ← assert_ (negb (addedToLoop_ c));
  if isInLoopThread w then assert_ (negb (hasChannel c w)) else Ok tt.
End Registration.

(** *** Dispatch *)

Section Dispatch.
Context `{Client CB RCB Owner W}.

(** if (cb) cb(); *)
Definition call (cb : option CB) (c : channel) (w : W) : outcome (channel * W) :=
  match cb with Some f => run_cb f c w | None => Ok (c, w) end.
Definition call_read (cb : option RCB) (receiveTime : Timestamp) (c : channel) (w : W)
  : outcome (channel * W) :=
  match cb with Some f => run_read f receiveTime c w | None => Ok (c, w) end.

Definition handleEventWithGuard (receiveTime : Timestamp) (c : channel) (w : W)
  : outcome (channel * W) :=
  let c := set_handling true c in
  let w := log_line TRACE (reventsToString c) w in
  '(c, w) ←
    (if has (revents_ c) POLLHUP && negb (has (revents_ c) POLLIN) then
       let w := if logHup_ c then log_line WARN (lit "Channel::handle_event() POLLHUP") w else w in
       call (closeCallback_ c) c w
     else Ok (c, w));
  let w := if has (revents_ c) POLLNVAL
           then log_line WARN (lit "Channel::handle_event() POLLNVAL") w else w in
  '(c, w) ←
    (if has (revents_ c) (Z.lor POLLERR POLLNVAL) then call (errorCallback_ c) c w else Ok (c, w));
  '(c, w) ←
    (if has (revents_ c) (Z.lor (Z.lor POLLIN POLLPRI) POLLRDHUP)
     then call_read (readCallback_ c) receiveTime c w else Ok (c, w));
  '(c, w) ←
    (if has (revents_ c) POLLOUT then call (writeCallback_ c) c w else Ok (c, w));
  Ok (set_handling false c, w).

(** handleEvent: [tie_.lock()] gives a pointer if the object still exists. *)
Definition handleEvent (receiveTime : Timestamp) (c : channel) (w : W) : outcome (channel * W) :=
  if tied_ c then
    if match tie_ c with Some obj => alive obj w | None => false end
    then handleEventWithGuard receiveTime c w
    else Ok (c, w)
  else handleEventWithGuard receiveTime c w.
End Dispatch.
End Channel.

(** ** What the loop promises *)

Class EventLoopLaws (CB RCB Owner W : Type) `{EventLoop CB RCB Owner W} := {
  (* a channel is known by its descriptor *)
  hasChannel_fd : forall (c c' : Channel CB RCB Owner) w, fd_ c = fd_ c' -> hasChannel c w = hasChannel c' w;
  updateChannel_ok : forall (c : Channel CB RCB Owner) w, exists idx w',
    updateChannel c w = Ok (set_index idx c, w') /\ hasChannel c w' = true;
  removeChannel_ok : forall (c : Channel CB RCB Owner) w,
    hasChannel c w = true -> isNoneEvent c = true -> exists idx w',
    removeChannel c w = Ok (set_index idx c, w') /\ hasChannel c w' = false;
  (* registering does not change threads *)
  updateChannel_thread : forall (c c' : Channel CB RCB Owner) w w',
    updateChannel c w = Ok (c', w') -> isInLoopThread w' = isInLoopThread w;
  removeChannel_thread : forall (c c' : Channel CB RCB Owner) w w',
    removeChannel c w = Ok (c', w') -> isInLoopThread w' = isInLoopThread w
}.

(** A loop that keeps the events of the registered descriptors. *)
Record poll_loop := mkLoop { pl_channels : gmap Z Z; pl_in_loop : bool }.

#[export] Instance poll_event_loop {CB RCB Owner} : EventLoop CB RCB Owner poll_loop := {
  isInLoopThread := pl_in_loop;
  hasChannel := fun c w => bool_decide (is_Some (pl_channels w !! fd_ c));
  updateChannel := fun c w => Ok (set_index (Z.of_nat (size (pl_channels w))) c,
    mkLoop (<[fd_ c := events_ c]> (pl_channels w)) (pl_in_loop w));
  removeChannel := fun c w =>
    _ ← assert_ (bool_decide (is_Some (pl_channels w !! fd_ c)));
    _ ← assert_ (isNoneEvent c);
    Ok (set_index (-1) c, mkLoop (delete (fd_ c) (pl_channels w)) (pl_in_loop w))
}.

#[export] Instance poll_event_loop_laws {CB RCB Owner} : EventLoopLaws CB RCB Owner poll_loop.
Proof.
  split.
  - intros c c' w Hfd. cbn. by rewrite Hfd.
  - intros c w. do 2 eexists. split; [done|]. cbn. apply bool_decide_eq_true.
    rewrite lookup_insert_eq. by eexists.
  - intros c w Hin Hev. cbn in *. rewrite Hin, Hev. do 2 eexists. split; [done|].
    apply bool_decide_eq_false. cbn. rewrite lookup_delete_eq. by intros [].
  - intros c c' w w' E. cbn in E. by simplify_eq.
  - intros c c' w w' E. cbn in E. repeat case_bool_decide; cbn in E; try done.
    destruct (isNoneEvent c); cbn in E; by simplify_eq.
Qed.

(** ** Lemmas *)

(** Testing one bit, and testing several. *)
Lemma has_bit r k : 0 <= k -> has r (2 ^ k) = Z.testbit r k.
Proof.
  intros Hk. unfold has. rewrite (Z.testbit_true r k Hk) || idtac.
  destruct (Z.testbit r k) eqn:Hb.
  - apply negb_true_iff, Z.eqb_neq. intros H0.
    assert (Ht : Z.testbit (Z.land r (2 ^ k)) k = true)
      by (rewrite Z.land_spec, Z.pow2_bits_true by done; by rewrite Hb).
    rewrite H0, Z.bits_0 in Ht. done.
  - apply negb_false_iff, Z.eqb_eq. apply Z.bits_inj'. intros n Hn.
    rewrite Z.land_spec, Z.bits_0.
    destruct (Z.eq_dec n k) as [->|Hne]; [by rewrite Hb|].
    rewrite (Z.pow2_bits_false k n) by congruence. by rewrite andb_false_r.
Qed.

Lemma has_lor r a b : has r (Z.lor a b) = has r a || has r b.
Proof.
  unfold has. rewrite Z.land_lor_distr_r.
  destruct (Z.eqb_spec (Z.land r a) 0) as [->|Ha], (Z.eqb_spec (Z.land r b) 0) as [->|Hb];
    cbn [negb orb]; rewrite ?Z.lor_0_l, ?Z.lor_0_r; try done.
  - apply negb_true_iff. by apply Z.eqb_neq.
  - apply negb_true_iff. by apply Z.eqb_neq.
  - apply negb_true_iff, Z.eqb_neq. intros H0. apply Z.lor_eq_0_iff in H0. tauto.
Qed.

(** The events by name. *)
Definition pIN r := Z.testbit r 0.
Definition pPRI r := Z.testbit r 1.
Definition pOUT r := Z.testbit r 2.
Definition pERR r := Z.testbit r 3.
Definition pHUP r := Z.testbit r 4.
Definition pNVAL r := Z.testbit r 5.
Definition pRDHUP r := Z.testbit r 13.

Lemma has_events r :
  has r POLLIN = pIN r /\ has r POLLPRI = pPRI r /\ has r POLLOUT = pOUT r /\
  has r POLLERR = pERR r /\ has r POLLHUP = pHUP r /\ has r POLLNVAL = pNVAL r /\
  has r POLLRDHUP = pRDHUP r.
Proof.
  change POLLIN with (2 ^ 0). change POLLPRI with (2 ^ 1). change POLLOUT with (2 ^ 2).
  change POLLERR with (2 ^ 3). change POLLHUP with (2 ^ 4). change POLLNVAL with (2 ^ 5).
  change POLLRDHUP with (2 ^ 13). rewrite !has_bit by done. done.
Qed.

(** The text that names the events of [r]. *)
Definition event_names (r : Z) : bytes :=
  List.concat (List.map snd (List.filter fst
    [(pIN r, lit "IN "); (pPRI r, lit "PRI "); (pOUT r, lit "OUT "); (pHUP r, lit "HUP ");
     (pRDHUP r, lit "RDHUP "); (pERR r, lit "ERR "); (pNVAL r, lit "NVAL ")])).

Lemma reventsToString_names {CB RCB Owner} (c : Channel CB RCB Owner) :
  reventsToString c = dec_of_Z (fd_ c) ++ lit ": " ++ event_names (revents_ c).
Proof.
  unfold reventsToString, event_names.
  destruct (has_events (revents_ c)) as (-> & -> & -> & -> & -> & -> & ->).
  destruct (pIN _), (pPRI _), (pOUT _), (pHUP _), (pRDHUP _), (pERR _), (pNVAL _);
    cbn [List.filter List.map List.concat fst snd]; by rewrite ?app_nil_r, <- ?app_assoc.
Qed.

(** *** The actions that a set of events calls for *)

Inductive action :=
| Log (level : LogLevel) (text : bytes)
| CallClose | CallError | CallRead | CallWrite.

Definition when (b : bool) (l : list action) : list action := if b then l else [].

Definition actions (fd r : Z) (logHup : bool) : list action :=
  [Log TRACE (dec_of_Z fd ++ lit ": " ++ event_names r)] ++
  when (pHUP r && negb (pIN r))
    (when logHup [Log WARN (lit "Channel::handle_event() POLLHUP")] ++ [CallClose]) ++
  when (pNVAL r) [Log WARN (lit "Channel::handle_event() POLLNVAL")] ++
  when (pERR r || pNVAL r) [CallError] ++
  when (pIN r || pPRI r || pRDHUP r) [CallRead] ++
  when (pOUT r) [CallWrite].

Section Actions.
Context {CB RCB Owner W : Type} `{Client CB RCB Owner W}.
Abbreviation channel := (Channel CB RCB Owner).

(** The callbacks of [cs] are those that are called. *)
Definition perform (cs : channel) (t : Timestamp) (a : action) (c : channel) (w : W)
  : outcome (channel * W) :=
  match a with
  | Log l text => Ok (c, log_line l text w)
  | CallClose => call (closeCallback_ cs) c w
  | CallError => call (errorCallback_ cs) c w
  | CallRead => call_read (readCallback_ cs) t c w
  | CallWrite => call (writeCallback_ cs) c w
  end.

Fixpoint perform_all (cs : channel) (t : Timestamp) (l : list action) (c : channel) (w : W)
  : outcome (channel * W) :=
  match l with
  | [] => Ok (c, w)
  | a :: l => '(c, w) ← perform cs t a c w; perform_all cs t l c w
  end.

(** Callbacks that leave the events being handled and the callbacks alone (they
    may change everything else of the channel, and the world). *)
Definition same_setup (c c' : channel) : Prop :=
  revents_ c' = revents_ c /\ logHup_ c' = logHup_ c /\ readCallback_ c' = readCallback_ c /\
  writeCallback_ c' = writeCallback_ c /\ closeCallback_ c' = closeCallback_ c /\
  errorCallback_ c' = errorCallback_ c.
Definition tame : Prop :=
  (forall f c w c' w', run_cb f c w = Ok (c', w') -> same_setup c c') /\
  (forall f t c w c' w', run_read f t c w = Ok (c', w') -> same_setup c c').

Lemma perform_all_app cs t l1 l2 c w :
  perform_all cs t (l1 ++ l2) c w =
    ('(c, w) ← perform_all cs t l1 c w; perform_all cs t l2 c w).
Proof.
  revert c w. induction l1 as [|a l1 IH]; intros c w; [done|]. cbn [app perform_all].
  unfold_monad. destruct (perform cs t a c w) as [[c' w']|]; [apply IH|done].
Qed.

Lemma perform_same (Ht : tame) cs t a c w c' w' : same_setup cs c ->
  perform cs t a c w = Ok (c', w') -> same_setup cs c'.
Proof.
  destruct Ht as [Hcb Hrd]. unfold same_setup in *. intros Hc Hp.
  assert (Hcall : forall cb, call cb c w = Ok (c', w') -> same_setup c c').
  { intros [f|] Hf; [by eapply Hcb|]. cbn in Hf. injection Hf as <- <-. by repeat split. }
  assert (Hs : same_setup c c').
  { destruct a; cbn [perform] in Hp; try by eapply Hcall.
    - injection Hp as <- <-. by repeat split.
    - destruct (readCallback_ cs) as [f|]; [by eapply Hrd|]. injection Hp as <- <-. by repeat split. }
  unfold same_setup in Hs. intuition congruence.
Qed.
End Actions.

Section Performing.
Context {CB RCB Owner W : Type} `{Client CB RCB Owner W}.

Lemma when_call (cs : Channel CB RCB Owner) t b a c w :
  perform_all cs t (when b [a]) c w = if b then perform cs t a c w else Ok (c, w).
Proof.
  destruct b; [|done]. cbn [when perform_all]. unfold_monad.
  by destruct (perform cs t a c w) as [[c' w']|].
Qed.

Lemma when_log (cs : Channel CB RCB Owner) t b l text c w :
  perform_all cs t (when b [Log l text]) c w = Ok (c, if b then log_line l text w else w).
Proof. by destruct b. Qed.

Lemma perform_close (cs : Channel CB RCB Owner) t b lh l text c w :
  perform_all cs t (when b (when lh [Log l text] ++ [CallClose])) c w =
    if b then call (closeCallback_ cs) c (if lh then log_line l text w else w) else Ok (c, w).
Proof.
  destruct b; [|done]. cbn [when]. rewrite perform_all_app, when_log. unfold_monad.
  exact (when_call cs t true CallClose c _).
Qed.
End Performing.

(** *** A life in the loop *)

Inductive interest_op :=
| OEnableReading | ODisableReading | OEnableWriting | ODisableWriting | ODisableAll.

Section Life.
Context {CB RCB Owner W : Type} `{EventLoopLaws CB RCB Owner W}.
Abbreviation channel := (Channel CB RCB Owner).

Definition interest (o : interest_op) : channel -> W -> outcome (channel * W) :=
  match o with
  | OEnableReading => enableReading
  | ODisableReading => disableReading
  | OEnableWriting => enableWriting
  | ODisableWriting => disableWriting
  | ODisableAll => disableAll
  end.

(** A channel knows whether it is registered. *)
Definition registered_ok (c : channel) (w : W) : Prop :=
  addedToLoop_ c = hasChannel c w /\ eventHandling_ c = false.

Lemma update_ok c w : exists idx w',
  update c w = Ok (set_index idx (set_added true c), w') /\
  hasChannel (set_index idx (set_added true c)) w' = true.
Proof.
  unfold update. destruct (updateChannel_ok (set_added true c) w) as (idx & w' & Hu & Hh).
  exists idx, w'. split; [done|]. rewrite <- Hh. by apply hasChannel_fd.
Qed.

Lemma interest_ok o c w : eventHandling_ c = false ->
  exists c' w', interest o c w = Ok (c', w') /\ registered_ok c' w' /\ addedToLoop_ c' = true /\
    (o = ODisableAll -> isNoneEvent c' = true).
Proof.
  intros He. unfold interest, enableReading, disableReading, enableWriting, disableWriting, disableAll.
  destruct o;
    match goal with |- context [update ?c ?w] => destruct (update_ok c w) as (idx & w' & Hu & Hh) end;
    rewrite Hu; do 2 eexists; (split; [done|]); (split; [split; [by rewrite Hh|done]|]); done.
Qed.

Lemma shutdown_ok c w : eventHandling_ c = false ->
  exists c' w', ('(c, w) ← disableAll c w; remove c w) = Ok (c', w') /\
    addedToLoop_ c' = false /\ hasChannel c' w' = false /\ eventHandling_ c' = false.
Proof.
  intros He. destruct (interest_ok ODisableAll c w He) as (c1 & w1 & E & [Hr He1] & Ha & Hn).
  cbn [interest] in E. rewrite E. unfold_monad. unfold remove. rewrite (Hn eq_refl).
  cbn [assert_]. unfold_monad.
  destruct (removeChannel_ok (set_added false c1) w1) as (idx & w2 & E2 & Hh2).
  - rewrite <- Ha, Hr. by apply hasChannel_fd.
  - by apply Hn.
  - rewrite E2. do 2 eexists. split; [done|]. cbn. split; [done|]. split; [|done].
    rewrite <- Hh2. by apply hasChannel_fd.
Qed.
End Life.

(** *** What a channel asks of its loop *)

(** The event loop is not in the repository, so the calls that a channel makes to
    it are taken as what it does: this loop writes them down. *)
Inductive request := Update (fd events : Z) | Remove (fd : Z).
Record loop_log := mkLog { ll_in_loop : bool; ll_requests : list request }.

(** A channel is in the loop when the last request about it was an update. *)
Definition asked_for (fd : Z) (l : list request) : bool :=
  foldl (fun b r => match r with
                    | Update f _ => if f =? fd then true else b
                    | Remove f => if f =? fd then false else b
                    end) false l.

#[export] Instance recording_loop {CB RCB Owner} : EventLoop CB RCB Owner loop_log := {
  isInLoopThread := ll_in_loop;
  hasChannel := fun c w => asked_for (fd_ c) (ll_requests w);
  updateChannel := fun c w =>
    Ok (c, mkLog (ll_in_loop w) (ll_requests w ++ [Update (fd_ c) (events_ c)]));
  removeChannel := fun c w => Ok (c, mkLog (ll_in_loop w) (ll_requests w ++ [Remove (fd_ c)]))
}.

Inductive channel_call := Interest (o : interest_op) | RemoveCall.

Section Asking.
Context {CB RCB Owner : Type}.
Abbreviation channel := (Channel CB RCB Owner).

Definition channel_do (o : channel_call) : channel -> loop_log -> outcome (channel * loop_log) :=
  match o with Interest o => interest o | RemoveCall => remove end.
Fixpoint channel_run (l : list channel_call) (c : channel) (w : loop_log)
  : outcome (channel * loop_log) :=
  match l with
  | [] => Ok (c, w)
  | o :: l => '(c, w) ← channel_do o c w; channel_run l c w
  end.

(** The specification: the interests expressed since the last disableAll, ... *)
Definition note (pend : list interest_op) (o : interest_op) : list interest_op :=
  match o with ODisableAll => [] | _ => pend ++ [o] end.
(** ... the events that they enable, bit by bit (0 and 1 are POLLIN and POLLPRI, 2
    is POLLOUT), disabling one kind enabling everything else, ... *)
Definition enables (n : Z) (o : interest_op) : bool :=
  match o with
  | OEnableReading => n <? 2
  | OEnableWriting => n =? 2
  | ODisableReading => negb (n <? 2)
  | ODisableWriting => negb (n =? 2)
  | ODisableAll => false
  end.
Definition has_mask (pend : list interest_op) (e : Z) : Prop :=
  forall n, 0 <= n -> Z.testbit e n = existsb (enables n) pend.
(** ... whether every remove comes when no interest is left, ... *)
Fixpoint legal (pend : list interest_op) (l : list channel_call) : bool :=
  match l with
  | [] => true
  | Interest o :: l => legal (note pend o) l
  | RemoveCall :: l => match pend with [] => legal [] l | _ => false end
  end.
(** ... the requests, one for each call, ... *)
Fixpoint requests_ok (fd : Z) (pend : list interest_op) (l : list channel_call) (rs : list request) : Prop :=
  match l, rs with
  | [], [] => True
  | Interest o :: l, Update f e :: rs =>
      f = fd /\ has_mask (note pend o) e /\ requests_ok fd (note pend o) l rs
  | RemoveCall :: l, Remove f :: rs => f = fd /\ requests_ok fd pend l rs
  | _, _ => False
  end.
(** ... and whether the last call left the channel in the loop. *)
Definition pending (l : list channel_call) : list interest_op :=
  foldl (fun pend o => match o with Interest o => note pend o | RemoveCall => pend end) [] l.
Definition in_loop (l : list channel_call) : bool :=
  foldl (fun _ o => match o with Interest _ => true | RemoveCall => false end) false l.

Lemma mask_bits e n : 0 <= n ->
  Z.testbit (Z.lor e kReadEvent) n = Z.testbit e n || (n <? 2) /\
  Z.testbit (Z.lor e kWriteEvent) n = Z.testbit e n || (n =? 2) /\
  Z.testbit (Z.lor e (Z.lnot kReadEvent)) n = Z.testbit e n || negb (n <? 2) /\
  Z.testbit (Z.lor e (Z.lnot kWriteEvent)) n = Z.testbit e n || negb (n =? 2).
Proof.
  intros Hn. rewrite !Z.lor_spec, !Z.lnot_spec by done.
  change kReadEvent with (Z.ones 2). change kWriteEvent with (2 ^ 2).
  rewrite Z.testbit_ones_nonneg by lia. rewrite Z.pow2_bits_eqb by lia. rewrite (Z.eqb_sym 2). done.
Qed.

(** A call that expresses an interest always succeeds. *)
Lemma interest_asks o pend (c : channel) w : has_mask pend (events_ c) ->
  exists c', interest o c w =
      Ok (c', mkLog (ll_in_loop w) (ll_requests w ++ [Update (fd_ c) (events_ c')])) /\
    has_mask (note pend o) (events_ c') /\ fd_ c' = fd_ c /\ addedToLoop_ c' = true /\
    eventHandling_ c' = eventHandling_ c.
Proof.
  intros Hm. unfold interest, enableReading, disableReading, enableWriting, disableWriting, disableAll, update.
  destruct o; (eexists; split; [reflexivity|]); cbn [events_ set_events set_added note];
    (split; [intros n Hn|by repeat split]); try (by rewrite Z.bits_0);
    destruct (mask_bits (events_ c) n Hn) as (E1 & E2 & E3 & E4);
    rewrite existsb_app; cbn [existsb enables]; rewrite orb_false_r, <- (Hm n Hn); done.
Qed.

(** The mask is 0 exactly if no interest is left. *)
Lemma mask_none pend (c : channel) : Forall (fun o => o <> ODisableAll) pend ->
  has_mask pend (events_ c) -> isNoneEvent c = match pend with [] => true | _ => false end.
Proof.
  intros Hd Hm. unfold isNoneEvent. destruct pend as [|o pend].
  - apply Z.eqb_eq, Z.bits_inj'. intros n Hn. by rewrite (Hm n Hn), Z.bits_0.
  - apply Z.eqb_neq. intros E. apply Forall_cons in Hd as [Ho _].
    assert (Hz : forall n, 0 <= n -> enables n o = false).
    { intros n Hn. specialize (Hm n Hn). rewrite E, Z.bits_0 in Hm. cbn [existsb] in Hm.
      by symmetry in Hm; apply orb_false_iff in Hm as [? _]. }
    pose proof (Hz 0 ltac:(lia)) as H0. pose proof (Hz 2 ltac:(lia)) as H2. by destruct o.
Qed.

Lemma note_no_disableAll pend o : Forall (fun o => o <> ODisableAll) pend ->
  Forall (fun o => o <> ODisableAll) (note pend o).
Proof.
  intros Hp. destruct o; cbn [note]; try done;
    (apply Forall_app; split; [done|]; apply Forall_cons; split; [done|constructor]).
Qed.

Lemma asked_for_snoc fd l r : asked_for fd (l ++ [r]) =
  match r with
  | Update f _ => if f =? fd then true else asked_for fd l
  | Remove f => if f =? fd then false else asked_for fd l
  end.
Proof. unfold asked_for. by rewrite foldl_app. Qed.

Lemma channel_run_ok l : forall pend (c : channel) w,
  Forall (fun o => o <> ODisableAll) pend -> has_mask pend (events_ c) -> eventHandling_ c = false ->
  addedToLoop_ c = asked_for (fd_ c) (ll_requests w) ->
  if legal pend l then
    exists c' rs, channel_run l c w = Ok (c', mkLog (ll_in_loop w) (ll_requests w ++ rs)) /\
      requests_ok (fd_ c) pend l rs /\
      has_mask (foldl (fun pend o => match o with Interest o => note pend o | RemoveCall => pend end) pend l)
        (events_ c') /\
      fd_ c' = fd_ c /\ eventHandling_ c' = false /\
      addedToLoop_ c' = foldl (fun _ o => match o with Interest _ => true | RemoveCall => false end)
        (addedToLoop_ c) l /\
      addedToLoop_ c' = asked_for (fd_ c) (ll_requests w ++ rs)
  else channel_run l c w = Fault AssertFail.
Proof.
  induction l as [|[o|] l IH]; intros pend c w Hd Hm He Ha; cbn [legal channel_run channel_do foldl].
  - exists c, []. rewrite app_nil_r. destruct w. by split_and!.
  - destruct (interest_asks o pend c w Hm) as (c1 & E & Hm1 & Hf & Ha1 & He1). rewrite E. unfold_monad.
    specialize (IH (note pend o) c1 (mkLog (ll_in_loop w) (ll_requests w ++ [Update (fd_ c) (events_ c1)]))
      (note_no_disableAll _ _ Hd) Hm1 ltac:(by rewrite He1)).
    cbn [ll_requests ll_in_loop] in IH. rewrite Hf, asked_for_snoc, Z.eqb_refl in IH. specialize (IH Ha1).
    destruct (legal (note pend o) l); [|done]. destruct IH as (c' & rs & -> & Hr & H1 & H2 & H3 & H4 & H5).
    exists c', (Update (fd_ c) (events_ c1) :: rs). rewrite <- app_assoc in H5 |- *.
    rewrite Ha1 in H4. split; [done|]. by repeat (split; [done|]).
  - unfold remove. rewrite (mask_none pend c Hd Hm). destruct pend as [|o0 pend]; cbn [assert_]; [|done].
    cbn [removeChannel recording_loop]. unfold_monad.
    specialize (IH [] (set_added false c) (mkLog (ll_in_loop w) (ll_requests w ++ [Remove (fd_ c)])) Hd Hm He).
    cbn [ll_requests ll_in_loop fd_ set_added addedToLoop_] in IH.
    rewrite asked_for_snoc, Z.eqb_refl in IH. specialize (IH eq_refl).
    destruct (legal [] l); [|exact IH]. destruct IH as (c' & rs & E & Hr & H1 & H2 & H3 & H4 & H5).
    exists c', (Remove (fd_ c) :: rs). rewrite <- app_assoc in E, H5. split; [exact E|].
    by repeat (split; [done|]).
Qed.
End Asking.

(** ** Properties *)

Section Properties.
Context {CB RCB Owner W : Type}.
Abbreviation channel := (Channel CB RCB Owner).

(** C14. Handling an event is equivalent to performing a fixed list of actions.
    With callbacks that leave the events being handled and the callbacks
    alone, handleEvent logs the names of all events, then calls, each at most
    once and in this order, the close callback on POLLHUP without POLLIN, the
    error callback on POLLERR or POLLNVAL, the read callback on POLLIN,
    POLLPRI or POLLRDHUP, the write callback on POLLOUT, with the two warnings
    in between, and marks the channel as handling events throughout; a channel
    tied to an object that no longer exists does nothing. *)
Theorem handleEvent_performs `{Client CB RCB Owner W} (c : channel) t w : tame ->
  let gone := tied_ c && negb (match tie_ c with Some obj => alive obj w | None => false end) in
  handleEvent t c w =
    if gone then Ok (c, w)
    else '(c', w') ← perform_all c t (actions (fd_ c) (revents_ c) (logHup_ c)) (set_handling true c) w;
         Ok (set_handling false c', w').
Proof.
  intros Htame. cbv zeta. unfold handleEvent.
  assert (Hg : handleEventWithGuard t c w =
    '(c', w') ← perform_all c t (actions (fd_ c) (revents_ c) (logHup_ c)) (set_handling true c) w;
    Ok (set_handling false c', w')).
  2: { destruct (tied_ c); cbn [andb]; [|done].
       destruct (match tie_ c with Some obj => alive obj w | None => false end); done. }
  unfold handleEventWithGuard, actions. rewrite reventsToString_names.
  change (fd_ (set_handling true c)) with (fd_ c).
  change (revents_ (set_handling true c)) with (revents_ c).
  cbn [app perform_all perform]. unfold_monad.
  set (w1 := log_line TRACE _ w).
  assert (H1 : same_setup c (set_handling true c)) by by repeat split.
  change (logHup_ (set_handling true c)) with (logHup_ c).
  change (closeCallback_ (set_handling true c)) with (closeCallback_ c).
  generalize dependent (set_handling true c). intros c1 H1.
  destruct (has_events (revents_ c)) as (Ein & Epri & Eout & Eerr & Ehup & Envl & Erd).
  rewrite Ein, Ehup, !perform_all_app, perform_close. unfold_monad.
  set (s1 := if pHUP _ && _ then _ else _). destruct s1 as [[c2 w2]|] eqn:E1; [|done].
  assert (H2 : same_setup c c2).
  { unfold s1 in E1. destruct (pHUP _ && _); [|by injection E1 as <- <-].
    by eapply (perform_same Htame c t CallClose c1). }
  clear s1 E1 w1 H1 c1. pose proof H2 as (R & _ & Rr & Rw & _ & Re).
  rewrite R, Envl, has_lor, Eerr, Envl, perform_all_app, when_log. unfold_monad.
  set (w3 := if pNVAL _ then _ else _). rewrite perform_all_app, when_call, Re. unfold_monad.
  cbn [perform]. set (s1 := if _ || _ then _ else _). destruct s1 as [[c3 w4]|] eqn:E1; [|done].
  assert (H3 : same_setup c c3).
  { unfold s1 in E1. destruct (_ || _); [|by injection E1 as <- <-].
    by apply (perform_same Htame c t CallError c2 w3 c3 w4). }
  clear s1 E1 H2 R Rr Rw Re w3. pose proof H3 as (R & _ & Rr & Rw & _ & _).
  rewrite R, !has_lor, Ein, Epri, Erd, Rr, perform_all_app, when_call. unfold_monad. cbn [perform].
  set (s1 := if _ || _ then _ else _). destruct s1 as [[c4 w5]|] eqn:E1; [|done].
  assert (H4 : same_setup c c4).
  { unfold s1 in E1. destruct (_ || _); [|by injection E1 as <- <-].
    by apply (perform_same Htame c t CallRead c3 w4 c4 w5). }
  destruct H4 as (R' & _ & _ & Rw' & _ & _). rewrite R', Eout, Rw', when_call. done.
Qed.
End Properties.

(** A client whose callbacks record that they are called; every object is alive
    but number 0. *)
Inductive recorded := RCall (f : nat) | RRead (f : nat) (t : Timestamp) | RLog (l : LogLevel) (s : bytes).

#[export] Instance recorder : Client nat nat nat (list recorded) := {
  run_cb := fun f c w => Ok (c, w ++ [RCall f]);
  run_read := fun f t c w => Ok (c, w ++ [RRead f t]);
  alive := fun o _ => negb (o =? 0)%nat;
  log_line := fun l s w => w ++ [RLog l s]
}.

Lemma recorder_tame : tame (CB := nat) (RCB := nat) (Owner := nat) (W := list recorded).
Proof. split; intros; cbn in *; simplify_eq; by repeat split. Qed.

(** A channel with all its callbacks and POLLHUP and POLLOUT to handle. *)
Definition demo_channel : Channel nat nat nat :=
  set_revents 20 (tie 7%nat (setReadCallback 1%nat (setWriteCallback 2%nat
    (setCloseCallback 3%nat (setErrorCallback 4%nat (Channel_new 9)))))).

Lemma handleEvent_performs_witness :
  handleEvent (mkTimestamp 5) demo_channel [] =
    '(c', w') ← perform_all demo_channel (mkTimestamp 5) (actions 9 20 true)
                  (set_handling true demo_channel) [];
    Ok (set_handling false c', w').
Proof. exact (handleEvent_performs demo_channel (mkTimestamp 5) [] recorder_tame). Defined.

Lemma handleEvent_example :
  handleEvent (mkTimestamp 5) demo_channel [] =
    Ok (demo_channel, [RLog TRACE (lit "9: OUT HUP "); RLog WARN (lit "Channel::handle_event() POLLHUP");
                       RCall 3; RCall 2]).
Proof. reflexivity. Qed.


(** Disabling one kind of events is not enough to remove a channel. *)
Lemma disabled_not_removable :
  channel_run [Interest OEnableReading; Interest ODisableReading; RemoveCall]
    (Channel_new 9 : Channel nat nat nat) (mkLog true []) = Fault AssertFail /\
  match channel_run [Interest OEnableReading; Interest ODisableAll; RemoveCall]
    (Channel_new 9 : Channel nat nat nat) (mkLog true []) with
  | Ok (_, w) => ll_requests w
  | Fault _ => []
  end = [Update 9 3; Update 9 0; Remove 9].
Proof. by vm_compute. Qed.

(** Enabling adds the events, to whatever is enabled; disableAll removes all. *)
Lemma enable_adds {CB RCB Owner W} `{EventLoopLaws CB RCB Owner W} (c : Channel CB RCB Owner) w c' w' :
  (enableWriting c w = Ok (c', w') -> isWriting c' = true /\
     has (events_ c') kReadEvent = has (events_ c) kReadEvent) /\
  (enableReading c w = Ok (c', w') -> has (events_ c') kReadEvent = true /\
     isWriting c' = isWriting c).
Proof.
  assert (Hu : forall e, update (set_events e c) w = Ok (c', w') -> events_ c' = e).
  { intros e. destruct (update_ok (set_events e c) w) as (idx & w1 & -> & _). intros E.
    by injection E as <- <-. }
  split; intros E; apply Hu in E; unfold isWriting; rewrite E; unfold has.
  - split.
    + apply negb_true_iff, Z.eqb_neq. rewrite Z.land_lor_distr_l. intros Hz.
      apply Z.lor_eq_0_iff in Hz as [_ Hz]. discriminate Hz.
    + rewrite Z.land_lor_distr_l. change (Z.land kWriteEvent kReadEvent) with 0.
      by rewrite Z.lor_0_r.
  - split.
    + apply negb_true_iff, Z.eqb_neq. rewrite Z.land_lor_distr_l. intros Hz.
      apply Z.lor_eq_0_iff in Hz as [_ Hz]. discriminate Hz.
    + rewrite Z.land_lor_distr_l. change (Z.land kReadEvent kWriteEvent) with 0.
      by rewrite Z.lor_0_r.
Qed.

(** ** Behaviour that callers may not expect *)

(** disableReading does not disable reading: it enables everything else. *)
Lemma disableReading_enables {CB RCB Owner W} `{EventLoopLaws CB RCB Owner W}
    (c : Channel CB RCB Owner) w c' w' :
  disableReading c w = Ok (c', w') ->
  has (events_ c') kReadEvent = has (events_ c) kReadEvent /\ isWriting c' = true.
Proof.
  intros E. unfold disableReading in E.
  destruct (update_ok (set_events (Z.lor (events_ c) (Z.lnot kReadEvent)) c) w) as (idx & w1 & Hu & _).
  rewrite Hu in E. injection E as <- <-. unfold isWriting, has. cbn [events_ set_index set_added set_events].
  split.
  - rewrite Z.land_lor_distr_l, (Z.land_comm (Z.lnot _)), Z.land_lnot_diag. by rewrite Z.lor_0_r.
  - apply negb_true_iff, Z.eqb_neq. rewrite Z.land_lor_distr_l. intros Hz.
    apply Z.lor_eq_0_iff in Hz as [_ Hz]. discriminate Hz.
Qed.
