(* ===== verification/Acceptor.v ===== *)
(** Accepting connections: net/Acceptor.h and net/Acceptor.cc.

    An acceptor owns a listening socket (Sockets.v), the channel that watches it
    (Channel.v) and a spare descriptor.  Its world has three parts: the system,
    the event loop and the client whose callback receives new connections.  The
    last section says what becomes of it in a build with NO_ACCEPT4. *)
From Stdlib Require Import ZArith Lia Ascii String.
From stdpp Require Import base list strings gmap sets.
From S2P Require Import Prelude.
From S2P Require Import CLib.
From S2P Require Import Timestamp.
From S2P Require Import Logging.
From S2P Require Import Sockets.
From S2P Require Import SocketVariants.
From S2P Require Import Channel.

#[local] Open Scope Z_scope.

Definition O_RDONLY : Z := 0.
Definition O_CLOEXEC : Z := 524288.

Record world {K L C : Type} := mkWorld { wk : K; wl : L; wc : C }.
Arguments world : clear implicits.
Arguments mkWorld {K L C} wk wl wc.

Record Acceptor {CB RCB Owner NCB : Type} := mkAcceptor {
  acceptSocket_ : Socket;
  acceptChannel_ : Channel CB RCB Owner;
  newConnectionCallback_ : option NCB;
  listenning_ : bool;
  idleFd_ : Z
}.
Arguments Acceptor : clear implicits.

Section Acceptor.
Context {CB RCB Owner NCB K L C : Type} `{Kernel K} `{EventLoop CB RCB Owner L}.
Abbreviation acceptor := (Acceptor CB RCB Owner NCB).
Abbreviation world := (world K L C).

(** boost::bind(&Acceptor::handleRead, this), the client's callback, the output
    of LOG_SYSERR (a macro the repository does not define), and the memory of
    an uninitialised InetAddress. *)
Variable bind_handleRead : RCB.
Variable newConnection : NCB -> Z -> InetAddress -> world -> outcome world.
Variable log_syserr : bytes -> world -> world.
Variable log : LogLevel -> bytes -> world -> world.
Variable junk_addr : InetAddress.

(** Running an operation on the system, respectively the loop. *)
Definition on_kernel {A} (f : K -> A * K) (w : world) : A * world :=
  let '(a, k) := f (wk w) in (a, mkWorld k (wl w) (wc w)).
Definition on_kernel_ (f : K -> K) (w : world) : world := mkWorld (f (wk w)) (wl w) (wc w).
Definition on_loop {A} (f : L -> outcome (A * L)) (w : world) : outcome (A * world) :=
  '(a, l) ← f (wl w); Ok (a, mkWorld (wk w) l (wc w)).

Definition dev_null (w : world) : Z * world :=
  on_kernel (sys_open (lit "/dev/null") (Z.lor O_RDONLY O_CLOEXEC)) w.

(** The constructor. *)
Definition Acceptor_new (listenAddr : InetAddress) (reuseport : bool) (w : world)
  : outcome (acceptor * world) :=
  let '(sockfd, w) := on_kernel createNonBlockingOrDie w in
  let sock := mkSocket sockfd in
  let chan := Channel_new (socket_fd sock) in
  let '(idle, w) := dev_null w in
  _ ← assert_ (0 <=? idle);
  let w := on_kernel_ (setReuseAddr true sock) w in
  let w := on_kernel_ (setReusePort reuseport sock) w in
  let w := on_kernel_ (bindAddress listenAddr sock) w in
  Ok (mkAcceptor CB RCB Owner NCB sock (setReadCallback bind_handleRead chan) None false idle, w).

(** The destructor: its body, then the members in reverse order. *)
Definition Acceptor_delete (a : acceptor) (w : world) : outcome world :=
  '(c, w) ← on_loop (disableAll (acceptChannel_ a)) w;
  '(c, w) ← on_loop (remove c) w;
  let w := on_kernel_ (fun k => snd (sys_close (idleFd_ a) k)) w in
  _ ← Channel_delete c (wl w);
  Ok (on_kernel_ (Socket_delete (acceptSocket_ a)) w).

Definition setNewConnectionCallback (cb : NCB) (a : acceptor) : acceptor :=
  mkAcceptor CB RCB Owner NCB (acceptSocket_ a) (acceptChannel_ a) (Some cb) (listenning_ a) (idleFd_ a).
Definition listenning (a : acceptor) : bool := listenning_ a.

Definition listen (a : acceptor) (w : world) : outcome (acceptor * world) :=
  _ ← assert_ (isInLoopThread (wl w));
  let w := on_kernel_ (socket_listen (acceptSocket_ a)) w in
  '(c, w) ← on_loop (enableReading (acceptChannel_ a)) w;
  Ok (mkAcceptor CB RCB Owner NCB (acceptSocket_ a) c (newConnectionCallback_ a) true (idleFd_ a), w).

Definition set_idleFd (fd : Z) (a : acceptor) : acceptor :=
  mkAcceptor CB RCB Owner NCB (acceptSocket_ a) (acceptChannel_ a) (newConnectionCallback_ a)
    (listenning_ a) fd.

Definition handleRead (a : acceptor) (w : world) : outcome (acceptor * world) :=
  _ ← assert_ (isInLoopThread (wl w));
  let peerAddr := junk_addr in
  let '(connfd, peerAddr, k) := socket_accept peerAddr (acceptSocket_ a) (wk w) in
  let w := mkWorld k (wl w) (wc w) in
  if 0 <=? connfd then
    match newConnectionCallback_ a with
    | Some cb => w ← newConnection cb connfd peerAddr w; Ok (a, w)
    | None => Ok (a, on_kernel_ (close connfd) w)
    end
  else
    let w := log_syserr (lit "in Acceptor::handleRead") w in
    if errno (wk w) =? EMFILE then
      let w := on_kernel_ (fun k => snd (sys_close (idleFd_ a) k)) w in
      let '(idle, w) :=
        on_kernel (fun k => let '(r, _, k) := sys_accept (socket_fd (acceptSocket_ a)) 0 k in (r, k)) w in
      let w := on_kernel_ (fun k => snd (sys_close idle k)) w in
      let '(idle, w) := dev_null w in
      Ok (set_idleFd idle a, w)
    else Ok (a, w).

(** What the acceptor's channel calls: handleRead, the one callback that is set. *)
#[local] Instance acceptor_client : Client CB RCB Owner (acceptor * world) := {
  run_cb := fun _ c aw => Ok (c, aw);
  run_read := fun _ _ c aw => aw ← handleRead (fst aw) (snd aw); Ok (c, aw);
  alive := fun _ _ => true;
  log_line := fun l text aw => (fst aw, log l text (snd aw))
}.

Definition set_channel (c : Channel CB RCB Owner) (a : acceptor) : acceptor :=
  mkAcceptor CB RCB Owner NCB (acceptSocket_ a) c (newConnectionCallback_ a) (listenning_ a) (idleFd_ a).

(** The loop has found [revents] on the socket: it tells the channel. *)
Definition poll_event (t : Timestamp) (revents : Z) (a : acceptor) (w : world)
  : outcome (acceptor * world) :=
  '(c, (a, w)) ← handleEvent t (set_revents revents (acceptChannel_ a)) (a, w);
  Ok (set_channel c a, w).

Fixpoint poll_events (l : list (Timestamp * Z)) (a : acceptor) (w : world) : outcome (acceptor * world) :=
  match l with
  | [] => Ok (a, w)
  | (t, revents) :: l => '(a, w) ← poll_event t revents a w; poll_events l a w
  end.
End Acceptor.

(** ** Lemmas *)

(** Of the open descriptors [F], [s] and [i] are the acceptor's (-1 for none)
    and [B] the others. *)
Definition held (s i : Z) (F B : gset Z) : Prop :=
  (-1 ∉ F) /\ (s = -1 \/ (s ∈ F) /\ s <> i) /\ (i = -1 \/ (i ∈ F)) /\ F ∖ {[s; i]} = B.

Lemma held_more s i F B r : 0 <= r -> r ∉ F -> held s i F B -> held s i ({[r]} ∪ F) ({[r]} ∪ B).
Proof.
  intros H0 Hr (Hneg & Hs & Hi & <-). assert (r <> s) by (destruct Hs as [->|[? _]]; [lia|congruence]).
  assert (r <> i) by (destruct Hi as [->|?]; [lia|congruence]).
  repeat split; [|destruct Hs; [by left|right]|destruct Hi; [by left|right]|]; set_solver by lia.
Qed.

Lemma held_drop_idle s i F B : held s i F B -> held s (-1) (F ∖ {[i]}) B.
Proof.
  intros (Hneg & Hs & Hi & <-). repeat split; [set_solver| |by left|].
  - destruct Hs as [->|[Hs Hsi]]; [by left|]. destruct (decide (s = -1)); [by left|right].
    split; [set_solver|done].
  - apply set_eq. intros x. rewrite !elem_of_difference, !elem_of_union, !elem_of_singleton.
    split; [tauto|]. intros [Hx Hn]. split; [tauto|]. intros [->| ->]; [tauto|done].
Qed.

Lemma held_new_idle s F B r : 0 <= r -> r ∉ F -> held s (-1) F B -> held s r ({[r]} ∪ F) B.
Proof.
  intros H0 Hr (Hneg & Hs & _ & <-).
  assert (Hne : s = -1 \/ s <> r) by (destruct Hs as [->|[Hs _]]; [by left|right; congruence]).
  repeat split; [set_solver by lia| |right; set_solver|].
  - destruct Hs as [->|[Hs _]]; [by left|]. destruct Hne; [by left|right; split; [set_solver|done]].
  - apply set_eq. intros x. rewrite !elem_of_difference, !elem_of_union, !elem_of_singleton.
    split; intros [Hx Hn]; (split; [tauto|]); intros [->| ->]; tauto.
Qed.

Lemma held_all_closed s i F B : held s i F B -> F ∖ {[i]} ∖ {[s]} = B.
Proof. intros (_ & _ & _ & <-). set_solver. Qed.

(** A client that keeps the connections it is given open: [handed] are those it
    has.  Neither it nor the log line changes anything else. *)
Section Conservation.
Context {CB RCB Owner NCB K L C : Type} `{KernelLaws K} `{EventLoopLaws CB RCB Owner L}.
Abbreviation acceptor := (Acceptor CB RCB Owner NCB).
Abbreviation world := (world K L C).
Context (bind_handleRead : RCB) (newConnection : NCB -> Z -> InetAddress -> world -> outcome world).
Context (log_syserr : bytes -> world -> world) (log : LogLevel -> bytes -> world -> world).
Context (junk_addr : InetAddress).
Context (handed : C -> gset Z) (base : gset Z).

Definition same_but (w w' : world) (fds : gset Z) : Prop :=
  open_fds (wk w') = open_fds (wk w) /\ wl w' = wl w /\ handed (wc w') = fds.

Definition keeps_connections : Prop := forall cb fd addr w, exists w',
  newConnection cb fd addr w = Ok w' /\ same_but w w' ({[fd]} ∪ handed (wc w)).
Definition logs_only (log : bytes -> world -> world) : Prop :=
  forall text w, same_but w (log text w) (handed (wc w)).

(** The open descriptors are the acceptor's own, those that were open before it
    ([base]) and the client's. *)
Record owns (a : acceptor) (w : world) : Prop := {
  o_held : held (sockfd_ (acceptSocket_ a)) (idleFd_ a) (open_fds (wk w)) (base ∪ handed (wc w));
  o_chan : eventHandling_ (acceptChannel_ a) = false;
  o_loop : isInLoopThread (wl w) = true
}.

Lemma socket_accept_opens peer s (k : K) :
  let '(r, _, k') := socket_accept peer s k in
  (0 <= r /\ (r ∉ open_fds k) /\ open_fds k' = {[r]} ∪ open_fds k) \/
  (r = -1 /\ open_fds k' = open_fds k).
Proof.
  unfold socket_accept, accept. pose proof (accept_opens (sockfd_ s) (Z.lor SOCK_NONBLOCK SOCK_CLOEXEC) k) as Ha.
  cbv beta in Ha.
  destruct (sys_accept _ _ k) as [[r p] k'].
  destruct Ha as [(Hr & Hn & Hf)|[-> Hf]].
  - destruct (Z.ltb_spec r 0); [lia|]. left. split; [done|]. by split.
  - cbn. right. split; [done|]. destruct (_ || _); [by rewrite set_errno_fds|done].
Qed.

Lemma on_kernel_opens f (w : world) : opens open_fds f ->
  let '(r, w') := on_kernel f w in wl w' = wl w /\ wc w' = wc w /\
  ((0 <= r /\ (r ∉ open_fds (wk w)) /\ open_fds (wk w') = {[r]} ∪ open_fds (wk w)) \/
   (r = -1 /\ open_fds (wk w') = open_fds (wk w))).
Proof. intros Hf. specialize (Hf (wk w)). unfold on_kernel. by destruct (f (wk w)) as [r k']. Qed.

(** The connection that cannot be kept is accepted in the place of the spare
    descriptor and closed. *)
Definition refuse (a : acceptor) (w : world) : world :=
  let w := on_kernel_ (fun k => snd (sys_close (idleFd_ a) k)) w in
  let '(idle, w) :=
    on_kernel (fun k => let '(r, _, k) := sys_accept (socket_fd (acceptSocket_ a)) 0 k in (r, k)) w in
  on_kernel_ (fun k => snd (sys_close idle k)) w.

Lemma refuse_same (a : acceptor) (w : world) : wl (refuse a w) = wl w /\ wc (refuse a w) = wc w.
Proof. unfold refuse, on_kernel. by destruct (sys_accept _ _ _) as [[? ?] ?]. Qed.

Lemma refuse_fds (a : acceptor) (w : world) :
  -1 ∉ open_fds (wk w) -> open_fds (wk (refuse a w)) = open_fds (wk w) ∖ {[idleFd_ a]}.
Proof.
  intros Hneg.
  unfold refuse, on_kernel. set (w2 := on_kernel_ _ w).
  pose proof (accept_opens (socket_fd (acceptSocket_ a)) 0 (wk w2)) as Ha. cbv beta in Ha.
  destruct (sys_accept _ 0 (wk w2)) as [[r2 p2] k3]. cbn [on_kernel_ wk]. rewrite close_fds.
  assert (Ho2 : open_fds (wk w2) = open_fds (wk w) ∖ {[idleFd_ a]}) by (unfold w2; cbn; apply close_fds).
  destruct Ha as [(Hr & Hn & ->)|[-> ->]]; rewrite <- Ho2; [set_solver|].
  rewrite Ho2. clear -Hneg. set_solver.
Qed.

Lemma handleRead_owns (Hk : keeps_connections) (Hl : logs_only log_syserr) a w : owns a w ->
  exists a' w', handleRead newConnection log_syserr junk_addr a w = Ok (a', w') /\ owns a' w' /\
    acceptSocket_ a' = acceptSocket_ a.
Proof.
  intros [Hheld Hchan Hloop]. unfold handleRead. rewrite Hloop. cbn [assert_].
  unfold_monad. pose proof (socket_accept_opens junk_addr (acceptSocket_ a) (wk w)) as Ha.
  destruct (socket_accept _ _ _) as [[r peer] k1].
  destruct Ha as [(Hr & Hn & Hf)|[-> Hf]].
  - destruct (Z.leb_spec 0 r); [|lia]. apply (held_more _ _ _ _ r) in Hheld as Hmore; [|done|done].
    destruct (newConnectionCallback_ a) as [cb|].
    + destruct (Hk cb r peer (mkWorld k1 (wl w) (wc w))) as (w' & E & Ho & Hwl & Hh).
      rewrite E. do 2 eexists. split; [done|]. split; [|done]. cbn in Ho, Hwl, Hh.
      constructor; rewrite ?Ho, ?Hwl, ?Hh, ?Hf; try done.
      by replace (base ∪ _) with ({[r]} ∪ (base ∪ handed (wc w))) by set_solver.
    + do 2 eexists. split; [done|]. split; [|done].
      assert (Hc : open_fds (close r k1) = open_fds (wk w)).
      { unfold close. rewrite close_fds, Hf. clear -Hn. set_solver. }
      constructor; cbn [wk wl wc on_kernel_]; rewrite ?Hc; done.
  - cbn [Z.leb Z.compare].
    destruct (Hl (lit "in Acceptor::handleRead") (mkWorld k1 (wl w) (wc w))) as (Ho & Hwl & Hh).
    set (w1 := log_syserr _ _) in *. cbn in Ho, Hwl, Hh. rewrite Hf in Ho. clearbody w1.
    destruct (errno (wk w1) =? EMFILE).
    2: { do 2 eexists. split; [done|]. split; [|done].
         constructor; rewrite ?Ho, ?Hwl, ?Hh; done. }
    apply held_drop_idle in Hheld as Hdrop.
    enough (Hr : exists a' w', (let '(idle, w) := dev_null (refuse a w1) in Ok (set_idleFd idle a, w)) = Ok (a', w') /\
      owns a' w' /\ acceptSocket_ a' = acceptSocket_ a)
      by (revert Hr; unfold refuse, on_kernel; by destruct (sys_accept _ _ _) as [[? ?] ?]).
    pose proof (on_kernel_opens _ (refuse a w1) (open_opens (lit "/dev/null") (Z.lor O_RDONLY O_CLOEXEC))) as Hd.
    fold (dev_null (refuse a w1)) in Hd. rewrite (refuse_fds a w1), Ho in Hd by (rewrite Ho; apply Hheld).
    destruct (dev_null (refuse a w1)) as [r5 w5]. destruct Hd as (Hwl5 & Hwc5 & Hd).
    do 2 eexists. split; [done|]. split; [|done].
    assert (Hlw : wl w5 = wl w) by (rewrite Hwl5, <- Hwl; apply refuse_same).
    assert (Hcw : wc w5 = wc w1) by (rewrite Hwc5; apply refuse_same).
    constructor; cbn [set_idleFd acceptSocket_ acceptChannel_ idleFd_]; rewrite ?Hlw, ?Hcw, ?Hh; try done.
    destruct Hd as [(Hr & Hn & ->)|[-> ->]]; [by apply held_new_idle|done].
Qed.

Lemma logs_owns f text a w : logs_only f -> owns a w -> owns a (f text w).
Proof.
  intros Hl [Hheld Hchan Hloop]. destruct (Hl text w) as (Ho & Hwl & Hh).
  constructor; by rewrite ?Ho, ?Hwl, ?Hh.
Qed.

#[local] Existing Instance acceptor_client.

Lemma guard_owns (Hk : keeps_connections) (Hl : logs_only log_syserr) (Hg : forall l, logs_only (log l))
    t c a w : owns a w ->
  exists c' a' w',
    handleEventWithGuard (H := acceptor_client newConnection log_syserr log junk_addr) t c (a, w) =
      Ok (c', (a', w')) /\ eventHandling_ c' = false /\ owns a' w'.
Proof.
  intros Ho. unfold handleEventWithGuard, call, call_read. cbn [run_cb run_read log_line acceptor_client].
  set (c1 := set_handling true c). cbn [fst snd].
  set (w1 := log TRACE _ w). assert (Ho1 : owns a w1) by by apply logs_owns.
  set (s2 := if has (revents_ c1) POLLHUP && _ then _ else _).
  assert (Hs2 : exists w2, s2 = Ok (c1, (a, w2)) /\ owns a w2).
  { unfold s2. destruct (_ && _), (logHup_ c1), (closeCallback_ c1); cbn [fst snd];
      eexists; (split; [done|]); try done; by apply logs_owns. }
  destruct Hs2 as (w2 & -> & Ho2). unfold_monad.
  set (s3 := if has (revents_ c1) POLLNVAL then _ else _).
  assert (Hs3 : exists w3, s3 = (a, w3) /\ owns a w3).
  { unfold s3. destruct (has _ _); cbn [fst snd]; eexists; (split; [done|]); [by apply logs_owns|done]. }
  destruct Hs3 as (w3 & -> & Ho3).
  replace (if has (revents_ c1) (Z.lor POLLERR POLLNVAL) then _ else _)
    with (Ok (c1, (a, w3)) : outcome (Channel CB RCB Owner * (acceptor * world)))
    by (destruct (has _ _), (errorCallback_ c1); done).
  set (s4 := if has (revents_ c1) (Z.lor _ _) then _ else _).
  assert (Hs4 : exists a4 w4, s4 = Ok (c1, (a4, w4)) /\ owns a4 w4).
  { unfold s4. destruct (has _ _), (readCallback_ c1); cbn [fst snd]; [|by do 2 eexists..].
    destruct (handleRead_owns Hk Hl a w3 Ho3) as (a4 & w4 & E & Ho4 & _).
    rewrite E. by do 2 eexists. }
  destruct Hs4 as (a4 & w4 & -> & Ho4).
  replace (if has (revents_ c1) POLLOUT then _ else _)
    with (Ok (c1, (a4, w4)) : outcome (Channel CB RCB Owner * (acceptor * world)))
    by (destruct (has _ _), (writeCallback_ c1); done).
  by do 3 eexists.
Qed.

Lemma poll_events_owns (Hk : keeps_connections) (Hl : logs_only log_syserr)
    (Hg : forall l, logs_only (log l)) l a w : owns a w ->
  exists a' w', poll_events newConnection log_syserr log junk_addr l a w = Ok (a', w') /\ owns a' w'.
Proof.
  revert a w. induction l as [|[t r] l IH]; intros a w Ho; cbn [poll_events]; [by do 2 eexists|].
  unfold poll_event, handleEvent. set (c := set_revents r (acceptChannel_ a)).
  destruct (guard_owns Hk Hl Hg t c a w Ho) as (c' & a' & w' & E & He & Ho').
  assert (Ho2 : owns (set_channel c' a') w') by (destruct Ho'; by constructor).
  assert (Ho3 : owns (set_channel c a) w) by (destruct Ho; by constructor).
  rewrite E. destruct (tied_ c), (tie_ c); cbn [alive acceptor_client]; unfold_monad; by apply IH.
Qed.

Lemma listen_owns a w : owns a w -> exists a' w', listen a w = Ok (a', w') /\ owns a' w'.
Proof.
  intros [Hheld Hchan Hloop]. unfold listen, on_loop. rewrite Hloop. cbn [assert_]. unfold_monad.
  set (w1 := on_kernel_ _ w).
  assert (Hf : open_fds (wk w1) = open_fds (wk w)) by apply listen_fds.
  destruct (interest_ok OEnableReading (acceptChannel_ a) (wl w1) Hchan)
    as (c' & l' & E & [_ He] & _). cbn [interest] in E. rewrite E. do 2 eexists. split; [done|].
  constructor; cbn [acceptSocket_ acceptChannel_ idleFd_ wk wl wc]; [by rewrite Hf|done|].
  rewrite <- Hloop. unfold enableReading, update in E. by apply updateChannel_thread in E.
Qed.

Lemma Acceptor_delete_closes a w : owns a w -> exists w', Acceptor_delete a w = Ok w' /\
  open_fds (wk w') = base ∪ handed (wc w) /\ wc w' = wc w.
Proof.
  intros [Hheld Hchan _]. unfold Acceptor_delete, on_loop.
  destruct (shutdown_ok (acceptChannel_ a) (wl w) Hchan) as (c' & l' & E & Ha & Hh & He).
  revert E. unfold_monad. destruct (disableAll (acceptChannel_ a) (wl w)) as [[c1 l1]|]; [|done].
  cbn [wl wk wc]. intros ->. cbn [wl wk wc on_kernel_]. unfold Channel_delete.
  rewrite He, Ha, Hh. cbn [negb assert_]. unfold_monad.
  eexists. split; [by destruct (isInLoopThread l')|]. split; [|done].
  unfold Socket_delete, close. cbn [on_kernel_ wk wl wc]. rewrite close_fds. cbn [wk].
  rewrite close_fds. by apply held_all_closed.
Qed.

(** The descriptors that the constructor opens. *)
Lemma Acceptor_new_owns addr reuse (w : world) :
  -1 ∉ open_fds (wk w) -> open_fds (wk w) = base ∪ handed (wc w) -> isInLoopThread (wl w) = true ->
  let no_dev_null := fst (dev_null (snd (on_kernel createNonBlockingOrDie w))) = -1 in
  (no_dev_null /\ Acceptor_new (CB := CB) (Owner := Owner) (NCB := NCB) bind_handleRead addr reuse w = Fault AssertFail) \/
  (~ no_dev_null /\ exists (a : acceptor) w', Acceptor_new bind_handleRead addr reuse w = Ok (a, w') /\ owns a w').
Proof.
  intros Hneg Hb Hloop. cbv zeta. unfold Acceptor_new.
  pose proof (on_kernel_opens createNonBlockingOrDie w (socket_opens _ _ _)) as Hs.
  destruct (on_kernel createNonBlockingOrDie w) as [s w1]. cbn [fst snd].
  pose proof (on_kernel_opens _ w1 (open_opens (lit "/dev/null") (Z.lor O_RDONLY O_CLOEXEC))) as Hd.
  fold (dev_null w1) in Hd. destruct (dev_null w1) as [i w2]. cbn [fst].
  destruct Hs as (Hwl1 & Hwc1 & Hs), Hd as (Hwl & Hwc & Hd).
  assert (Hheld : held s (-1) (open_fds (wk w1)) (open_fds (wk w))).
  { destruct Hs as [(Hs0 & Hsn & ->)|[-> ->]].
    - repeat split; [set_solver by lia|right; split; [set_solver|lia]|by left|set_solver by lia].
    - repeat split; [done|by left|by left|set_solver]. }
  destruct Hd as [(Hi0 & Hin & Hf)|[-> Hf]]; [right|left; done].
  split; [lia|]. destruct (Z.leb_spec 0 i); [|lia]. cbn [assert_]. unfold_monad.
  do 2 eexists. split; [done|].
  constructor; cbn [acceptSocket_ acceptChannel_ idleFd_ sockfd_]; [|done|].
  - unfold bindAddress, bindOrDie, setReusePort, setReuseAddr. cbn [on_kernel_ wk wl wc].
    rewrite bind_fds, !setsockopt_fds, Hwc, Hwc1, Hf, <- Hb. by apply held_new_idle.
  - cbn [on_kernel_ wl]. by rewrite Hwl, Hwl1.
Qed.
End Conservation.

(** ** Properties *)

(** An acceptor from its construction to its destruction, possibly without a
    callback; in between the loop reports [events] of its socket. *)
Definition life {CB RCB Owner NCB K L C} `{Kernel K} `{EventLoop CB RCB Owner L}
    (bind_handleRead : RCB) (newConnection : NCB -> Z -> InetAddress -> world K L C -> outcome (world K L C))
    (log_syserr : bytes -> world K L C -> world K L C) (log : LogLevel -> bytes -> world K L C -> world K L C)
    (junk_addr addr : InetAddress) (reuse : bool) (cb : option NCB) (events : list (Timestamp * Z)) (w : world K L C) : outcome (world K L C) :=
  '(a, w) ← Acceptor_new (CB := CB) (Owner := Owner) bind_handleRead addr reuse w;
  let a := match cb with Some cb => setNewConnectionCallback cb a | None => a end in
  '(a, w) ← listen a w;
  '(a, w) ← poll_events newConnection log_syserr log junk_addr events a w;
  Acceptor_delete a w.

(** C4. An acceptor conserves descriptors.  With a client that keeps the
    connections it is given, whatever the system's calls return (running out
    of descriptors included), an acceptor that is constructed, listens,
    handles any sequence of poll events through its channel and is destroyed
    leaves open exactly the descriptors that were open before and those of the connections handed to
    the callback: every other connection it accepted, its socket and its spare
    descriptor are closed.  The only failure is the assert in the constructor,
    when /dev/null cannot be opened. *)
Theorem acceptor_conserves_descriptors {CB RCB Owner NCB K L C : Type}
    `{KernelLaws K} `{EventLoopLaws CB RCB Owner L}
    (bind_handleRead : RCB) (newConnection : NCB -> Z -> InetAddress -> world K L C -> outcome (world K L C))
    log_syserr log junk_addr (handed : C -> gset Z) addr reuse cb events (w : world K L C) :
  keeps_connections newConnection handed -> logs_only handed log_syserr -> (forall l, logs_only handed (log l)) ->
  -1 ∉ open_fds (wk w) -> handed (wc w) ⊆ open_fds (wk w) -> isInLoopThread (wl w) = true ->
  let run := life (CB := CB) (Owner := Owner) bind_handleRead newConnection log_syserr log junk_addr addr
               reuse cb events w in
  if decide (fst (dev_null (snd (on_kernel createNonBlockingOrDie w))) = -1)
  then run = Fault AssertFail
  else exists w', run = Ok w' /\ open_fds (wk w') = open_fds (wk w) ∪ handed (wc w').
Proof.
  intros Hk Hl Hg Hneg Hsub Hloop run. subst run. unfold life.
  destruct (Acceptor_new_owns (CB := CB) (Owner := Owner) (NCB := NCB) bind_handleRead handed
    (open_fds (wk w)) addr reuse w Hneg) as [[Hno E]|(Hno & a & w1 & E & Ho)];
    [set_solver|done| |]; rewrite E; (destruct (decide _); [|]); try done.
  unfold_monad. set (a1 := match cb with Some _ => _ | None => _ end).
  assert (Ho1 : owns handed (open_fds (wk w)) a1 w1)
    by (destruct Ho; unfold a1; destruct cb; by constructor).
  destruct (listen_owns _ _ a1 w1 Ho1) as (a2 & w2 & -> & Ho2).
  destruct (poll_events_owns newConnection log_syserr log junk_addr handed _ Hk Hl Hg events a2 w2 Ho2)
    as (a3 & w3 & -> & Ho3).
  destruct (Acceptor_delete_closes _ _ a3 w3 Ho3) as (w4 & -> & Hf & Hc).
  exists w4. by rewrite Hf, Hc.
Qed.

(** A client that collects the descriptors it is given. *)
Definition collect {NCB} (cb : NCB) (fd : Z) (peer : InetAddress) (w : world simple_os poll_loop (gset Z))
  : outcome (world simple_os poll_loop (gset Z)) :=
  Ok (mkWorld (wk w) (wl w) ({[fd]} ∪ wc w)).
Definition no_log_level (l : LogLevel) (text : bytes) (w : world simple_os poll_loop (gset Z)) := w.
Definition no_log (text : bytes) (w : world simple_os poll_loop (gset Z)) := w.

Lemma collect_keeps {NCB} : keeps_connections (NCB := NCB) collect id.
Proof. intros cb fd addr w. eexists. split; [done|]. by repeat split. Qed.

(** The events of [n] reads. *)
Definition readable (n : nat) : list (Timestamp * Z) := replicate n (mkTimestamp 0, POLLIN).

(** Three connections arrive at a process that may open five descriptors, and
    has one open. *)
Definition busy_os : simple_os :=
  mkOs [0] 4 [mkSockaddr AF_INET 1 1; mkSockaddr AF_INET 2 2; mkSockaddr AF_INET 3 3] 0.

Lemma acceptor_conserves_descriptors_witness :
  let w := mkWorld busy_os (mkLoop ∅ true) ∅ in
  let addr := mkInetAddress sockaddr_zero in
  let run := life (CB := nat) (Owner := nat) (NCB := unit) 0%nat collect no_log no_log_level addr addr true (Some tt)
    (readable 4 ++ [(mkTimestamp 5, Z.lor POLLHUP POLLOUT)]) w in
  if decide (fst (dev_null (snd (on_kernel createNonBlockingOrDie w))) = -1)
  then run = Fault AssertFail
  else exists w', run = Ok w' /\ open_fds (wk w') = open_fds (wk w) ∪ wc w'.
Proof.
  apply (acceptor_conserves_descriptors (CB := nat) (Owner := nat) (K := simple_os) (L := poll_loop)
    0%nat collect no_log no_log_level (mkInetAddress sockaddr_zero) (fun c => c)).
  - apply collect_keeps.
  - intros text w. by repeat split.
  - intros l text w. by repeat split.
  - set_solver.
  - set_solver.
  - reflexivity.
Defined.

(** Of the three connections the process can keep one; the other two are
    accepted in the place of the spare descriptor and closed, and the fourth
    event finds none.  Descriptor 3 alone remains. *)
Lemma busy_acceptor_example :
  let w := mkWorld busy_os (mkLoop ∅ true) [] in
  let addr := mkInetAddress sockaddr_zero in
  life (CB := nat) (Owner := nat) (NCB := unit) 0%nat (fun _ fd _ w => Ok (mkWorld (wk w) (wl w) (fd :: wc w)))
    (fun _ w => w) (fun _ _ w => w) addr addr true (Some tt) (readable 4) w =
  Ok (mkWorld (mkOs [3; 0] 4 [] EAGAIN) (mkLoop ∅ true) [3]).
Proof. vm_compute. reflexivity. Qed.

(** ** Behaviour that callers may not expect *)

(** In a build without accept4 the spare descriptor is never used: when accept
    fails, errno is EBADF and not EMFILE, so that handleRead leaves everything
    as it is; a connection that cannot be accepted stays in the queue, and the
    loop finds it again. *)
Section NoAccept4.
Context {CB RCB Owner NCB K L C : Type} `{Fcntl K} `{EventLoop CB RCB Owner L}.
Context (newConnection : NCB -> Z -> InetAddress -> world K L C -> outcome (world K L C)).
Context (log_syserr : bytes -> world K L C -> world K L C) (junk_addr : InetAddress) (CLOEXEC : Z).

Lemma no_accept4_keeps_waiting (a : Acceptor CB RCB Owner NCB) (w : world K L C) :
  isInLoopThread (wl w) = true -> -1 ∉ open_fds (wk w) ->
  fst (fst (sys_accept (sockfd_ (acceptSocket_ a)) 0 (wk w))) = -1 ->
  (forall text w, errno (wk (log_syserr text w)) = errno (wk w)) ->
  exists k, handleRead (H := no_accept4 CLOEXEC) newConnection log_syserr junk_addr a w =
    Ok (a, log_syserr (lit "in Acceptor::handleRead") (mkWorld k (wl w) (wc w))) /\
    open_fds k = open_fds (wk w).
Proof.
  intros Hloop Hneg Hacc Hlog. unfold handleRead. rewrite Hloop. cbn [assert_]. unfold_monad.
  unfold socket_accept, accept. cbn [sys_accept no_accept4 errno set_errno].
  change (Z.lor SOCK_NONBLOCK SOCK_CLOEXEC =? 0) with false.
  pose proof (accept_opens (sockfd_ (acceptSocket_ a)) 0 (wk w)) as Ho. cbv beta in Ho.
  destruct (sys_accept (sockfd_ (acceptSocket_ a)) 0 (wk w)) as [[r peer] k]. cbn [fst] in Hacc. subst r.
  destruct Ho as [(? & _)|[_ Ho]]; [lia|].
  destruct (setNonBlock_closed CLOEXEC (-1) k) as (Hf & k' & E); [by rewrite Ho|].
  change (-1 <? 0) with true. change (0 <=? -1) with false. change (0 <? -1) with false.
  rewrite E, errno_set. change (_ || _) with false.
  eexists. rewrite Hlog. cbn [wk]. rewrite errno_set. split; [done|]. by rewrite <- E, Hf.
Qed.
End NoAccept4.

(** The busy process of above: the default build refuses the two connections for
    which it has no descriptors, this one leaves them in the queue. *)
Definition busy_flags : flag_os := mkFlagOs busy_os ∅.
Lemma busy_no_accept4_example :
  let w := mkWorld busy_flags (mkLoop ∅ true) [] in
  let addr := mkInetAddress sockaddr_zero in
  match life (CB := nat) (Owner := nat) (NCB := unit) (H := no_accept4 FD_CLOEXEC) 0%nat
    (fun _ fd _ w => Ok (mkWorld (wk w) (wl w) (fd :: wc w)))
    (fun _ w => w) (fun _ _ w => w) addr addr true (Some tt) (readable 4) w with
  | Ok w => (os_pending (fo_os (wk w)), wc w)
  | Fault _ => ([], [])
  end = ([mkSockaddr AF_INET 2 2; mkSockaddr AF_INET 3 3], [3]).
Proof. vm_compute. reflexivity. Qed.
