(* ===== verification/Connector.v ===== *)
(** Connecting to a server: net/Connector.h and net/Connector.cc.

    The repository declares connecting, retry and removeAndResetChannel but
    does not define them, and the event loop's header is empty: they are
    variables of the Section.  runInLoop and queueInLoop run a task now or
    later; a task is a function on the connector and its world. *)
From Stdlib Require Import ZArith Lia Ascii String.
From stdpp Require Import base list strings gmap sets.
From S2P Require Import Prelude.
From S2P Require Import CLib.
From S2P Require Import Timestamp.
From S2P Require Import Logging.
From S2P Require Import Sockets.
From S2P Require Import Channel.
From S2P Require Import Acceptor.

#[local] Open Scope Z_scope.

Inductive States := kDisconnected | kConnecting | kConnected.
#[export] Instance States_eq_dec : EqDecision States.
Proof. solve_decision. Defined.

Definition kMaxRetryDelayMs : Z := 30 * 1000.
Definition kInitRetryDelayMs : Z := 500.

Record Connector {CB RCB Owner NCB : Type} := mkConnector {
  serverAddr_ : InetAddress;
  connect_ : bool;
  state_ : States;
  channel_ : option (Channel CB RCB Owner);
  connectionCallback_ : option NCB;
  retryDelayMs_ : Z
}.
Arguments Connector : clear implicits.

Section Connector.
Context {CB RCB Owner NCB K L C : Type} `{Kernel K} `{EventLoop CB RCB Owner L}.
Abbreviation connector := (Connector CB RCB Owner NCB).
Abbreviation world := (world K L C).
Abbreviation task := (connector -> world -> outcome (connector * world)).

(** Code that is declared only, and the log. *)
Variable connecting retry : Z -> task.
Variable removeAndResetChannel : connector -> world -> outcome (Z * connector * world).
Variable runInLoop queueInLoop : task -> task.
Variable log : LogLevel -> bytes -> world -> world.
Variable log_syserr : bytes -> world -> world.
(** [<< this] *)
Variable this : bytes.

Definition Connector_new (serverAddr : InetAddress) (w : world) : connector * world :=
  (mkConnector CB RCB Owner NCB serverAddr false kDisconnected None None kInitRetryDelayMs,
   log DEBUG (lit "ctor[" ++ this ++ lit "]") w).

Definition Connector_delete (c : connector) (w : world) : outcome world :=
  let w := log DEBUG (lit "dtor[" ++ this ++ lit "]") w in
  _ ← assert_ (negb (bool_decide (is_Some (channel_ c)))); Ok w.

Definition setConnectionCallback (cb : NCB) (c : connector) : connector :=
  mkConnector CB RCB Owner NCB (serverAddr_ c) (connect_ c) (state_ c) (channel_ c) (Some cb)
    (retryDelayMs_ c).
Definition serverAddress (c : connector) : InetAddress := serverAddr_ c.
Definition setState (s : States) (c : connector) : connector :=
  mkConnector CB RCB Owner NCB (serverAddr_ c) (connect_ c) s (channel_ c) (connectionCallback_ c)
    (retryDelayMs_ c).
Definition set_connect (b : bool) (c : connector) : connector :=
  mkConnector CB RCB Owner NCB (serverAddr_ c) b (state_ c) (channel_ c) (connectionCallback_ c)
    (retryDelayMs_ c).

(** connect(): the switch on the error. *)
Definition connector_connect (c : connector) (w : world) : outcome (connector * world) :=
  let '(sockfd, w) := on_kernel createNonBlockingOrDie w in
  let '(ret, w) := on_kernel (connect sockfd (getSockAddrInet (serverAddr_ c))) w in
  let savedErrno := if ret =? 0 then 0 else errno (wk w) in
  if (savedErrno =? 0) || (savedErrno =? EINPROGRESS) || (savedErrno =? EINTR) ||
     (savedErrno =? EISCONN)
  then connecting sockfd c w
  else if (savedErrno =? EAGAIN) || (savedErrno =? EADDRINUSE) || (savedErrno =? EADDRNOTAVAIL) ||
     (savedErrno =? ECONNREFUSED) || (savedErrno =? ENETUNREACH)
  then retry sockfd c w
  else if (savedErrno =? EACCES) || (savedErrno =? EPERM) || (savedErrno =? EAFNOSUPPORT) ||
     (savedErrno =? EALREADY) || (savedErrno =? EBADF) || (savedErrno =? EFAULT) ||
     (savedErrno =? ENOTSOCK)
  then
    let w := log_syserr (lit "connect error in Connector::startInLoop " ++ dec_of_Z savedErrno) w in
    Ok (c, on_kernel_ (close sockfd) w)
  else
    let w := log_syserr (lit "Unexpected error in Connector::startInLoop " ++ dec_of_Z savedErrno) w in
    Ok (c, on_kernel_ (close sockfd) w).

Definition startInLoop (c : connector) (w : world) : outcome (connector * world) :=
  _ ← assert_ (isInLoopThread (wl w));
  _ ← assert_ (bool_decide (state_ c = kDisconnected));
  if connect_ c then connector_connect c w
  else Ok (c, log DEBUG (lit "do not connect") w).

Definition connector_start (c : connector) (w : world) : outcome (connector * world) :=
  runInLoop startInLoop (set_connect true c) w.

Definition stopInLoop (c : connector) (w : world) : outcome (connector * world) :=
  _ ← assert_ (isInLoopThread (wl w));
  if bool_decide (state_ c = kConnected) then
    let c := setState kDisconnected c in
    '(sockfd, c, w) ← removeAndResetChannel c w;
    retry sockfd c w
  else Ok (c, w).

Definition connector_stop (c : connector) (w : world) : outcome (connector * world) :=
  queueInLoop stopInLoop (set_connect false c) w.
End Connector.

(** ** What becomes of the socket *)

Inductive fate := Handed | Retried | Closed.
#[export] Instance fate_eq_dec : EqDecision fate.
Proof. solve_decision. Defined.

Definition under_way : list Z := [0; EINPROGRESS; EINTR; EISCONN].
Definition worth_retrying : list Z := [EAGAIN; EADDRINUSE; EADDRNOTAVAIL; ECONNREFUSED; ENETUNREACH].
Definition fate_of (err : Z) : fate :=
  if decide (err ∈ under_way) then Handed
  else if decide (err ∈ worth_retrying) then Retried else Closed.

Section Fate.
Context {CB RCB Owner NCB K L C : Type} `{KernelLaws K} `{EventLoop CB RCB Owner L}.
Abbreviation connector := (Connector CB RCB Owner NCB).
Abbreviation world := (world K L C).
Abbreviation task := (connector -> world -> outcome (connector * world)).
Context (connecting retry : Z -> task) (runInLoop : task -> task).
Context (log : LogLevel -> bytes -> world -> world) (log_syserr : bytes -> world -> world).

(** Logging opens and closes nothing. *)
Definition log_keeps_descriptors : Prop := forall text w,
  open_fds (wk (log_syserr text w)) = open_fds (wk w).

(** connect fails on a descriptor that socket could not create. *)
Definition connect_needs_socket : Prop := forall addr (k : K),
  let '(ret, k') := connect (-1) addr k in ret = -1 /\ errno k' = EBADF.

(** The socket, the error of connect, and the world after both. *)
Definition attempt (c : connector) (w : world) : Z * Z * world :=
  let '(fd, w) := on_kernel createNonBlockingOrDie w in
  let '(ret, w) := on_kernel (connect fd (getSockAddrInet (serverAddr_ c))) w in
  (fd, if ret =? 0 then 0 else errno (wk w), w).

Lemma eqb_orb_elem e l : foldr orb false (map (Z.eqb e) l) = bool_decide (e ∈ l).
Proof.
  induction l as [|x l IH]; [by rewrite bool_decide_eq_false_2 by apply not_elem_of_nil|].
  cbn [map foldr]. rewrite IH. apply eq_true_iff_eq.
  rewrite orb_true_iff, Z.eqb_eq, !bool_decide_eq_true, elem_of_cons. done.
Qed.

Lemma connect_by_fate (c : connector) (w : world) :
  connector_connect connecting retry log_syserr c w =
    let '(fd, err, w1) := attempt c w in
    match fate_of err with
    | Handed => connecting fd c w1
    | Retried => retry fd c w1
    | Closed =>
        Ok (c, on_kernel_ (close fd) (log_syserr
          ((if decide (err ∈ [EACCES; EPERM; EAFNOSUPPORT; EALREADY; EBADF; EFAULT; ENOTSOCK])
            then lit "connect error in Connector::startInLoop "
            else lit "Unexpected error in Connector::startInLoop ") ++ dec_of_Z err) w1))
    end.
Proof.
  unfold connector_connect, attempt.
  destruct (on_kernel createNonBlockingOrDie w) as [fd w0].
  destruct (on_kernel (connect fd _) w0) as [ret w1]. cbv zeta beta.
  set (err := if ret =? 0 then _ else _). clearbody err.
  rewrite <- !orb_assoc. unfold fate_of.
  pose proof (eqb_orb_elem err under_way) as E1. cbn [under_way map foldr] in E1.
  pose proof (eqb_orb_elem err worth_retrying) as E2. cbn [worth_retrying map foldr] in E2.
  pose proof (eqb_orb_elem err [EACCES; EPERM; EAFNOSUPPORT; EALREADY; EBADF; EFAULT; ENOTSOCK]) as E3.
  cbn [map foldr] in E3. rewrite !orb_false_r in E1, E2, E3. rewrite E1, E2, E3.
  repeat case_bool_decide; repeat (destruct (decide _); try done).
Qed.

Lemma attempt_fds c (w : world) : connect_needs_socket -> let '(fd, err, w1) := attempt c w in
  wl w1 = wl w /\ wc w1 = wc w /\
  ((0 <= fd /\ (fd ∉ open_fds (wk w)) /\ open_fds (wk w1) = {[fd]} ∪ open_fds (wk w)) \/
   (fd = -1 /\ fate_of err = Closed /\ open_fds (wk w1) = open_fds (wk w))).
Proof.
  intros Hbad. unfold attempt.
  pose proof (on_kernel_opens createNonBlockingOrDie w (socket_opens _ _ _)) as Hs.
  destruct (on_kernel createNonBlockingOrDie w) as [fd w1]. destruct Hs as (Hl & Hc & Hs).
  unfold on_kernel. specialize (Hbad (getSockAddrInet (serverAddr_ c)) (wk w1)).
  pose proof (connect_fds fd (getSockAddrInet (serverAddr_ c)) (wk w1)) as Hf.
  unfold connect in *.
  destruct Hs as [(Hpos & Hn & Hs)|[-> Hs]].
  - destruct (sys_connect fd _ (wk w1)) as [ret k]. cbn [snd wl wc wk] in *.
    split; [done|]. split; [done|]. left. by rewrite Hf.
  - destruct (sys_connect (-1) _ (wk w1)) as [ret k]. cbn [snd wl wc wk] in *.
    split; [done|]. split; [done|]. right. destruct Hbad as [-> ->]. by rewrite Hf.
Qed.
End Fate.

(** ** Properties *)

(** C17. startInLoop dispatches on the error of connect.  Outside its loop's thread,
    or when a connection has been made or is under way, it fails an assert; when
    stop was called before it, it does nothing but log.  Otherwise it opens at
    most one socket and connects it once.  If the error is none, EINPROGRESS,
    EINTR or EISCONN it ends in a call of connecting with that socket, and if it
    is EAGAIN, EADDRINUSE, EADDRNOTAVAIL, ECONNREFUSED or ENETUNREACH in a call of
    retry with it; in both cases the socket is new and still open, and it is the
    only descriptor opened.  On any other error, and when no socket could be
    created, it logs the error and closes the socket, so that the descriptors are
    those of before.  What connecting and retry do is not assumed. *)
Theorem connector_dispatches_error {CB RCB Owner NCB K L C : Type}
    `{KernelLaws K} `{EventLoop CB RCB Owner L}
    (connecting retry : Z -> Connector CB RCB Owner NCB -> world K L C ->
       outcome (Connector CB RCB Owner NCB * world K L C))
    log log_syserr (c : Connector CB RCB Owner NCB) (w : world K L C) :
  log_keeps_descriptors log_syserr -> connect_needs_socket (K := K) -> -1 ∉ open_fds (wk w) ->
  let r := startInLoop connecting retry log log_syserr c w in
  if negb (isInLoopThread (wl w)) || negb (bool_decide (state_ c = kDisconnected))
  then r = Fault AssertFail
  else if connect_ c then
    let '(fd, err, w1) := attempt c w in
    let only_new := 0 <= fd /\ (fd ∉ open_fds (wk w)) /\ open_fds (wk w1) = {[fd]} ∪ open_fds (wk w) in
    match fate_of err with
    | Handed => r = connecting fd c w1 /\ only_new
    | Retried => r = retry fd c w1 /\ only_new
    | Closed => (only_new \/ fd = -1) /\
        exists text w', r = Ok (c, on_kernel_ (close fd) (log_syserr text w1)) /\
          r = Ok (c, w') /\ open_fds (wk w') = open_fds (wk w)
    end
  else r = Ok (c, log DEBUG (lit "do not connect") w).
Proof.
  intros Hlog Hbad Hneg. cbv zeta. unfold startInLoop.
  destruct (isInLoopThread (wl w)); [|done]. destruct (bool_decide _); [|done].
  cbn [negb orb assert_]. unfold_monad. destruct (connect_ c); [|done].
  rewrite connect_by_fate. pose proof (attempt_fds c w Hbad) as Ha.
  destruct (attempt c w) as [[fd err] w1]. destruct Ha as (_ & _ & Ha).
  assert (Hclose : (0 <= fd /\ (fd ∉ open_fds (wk w)) /\ open_fds (wk w1) = {[fd]} ∪ open_fds (wk w)) \/
      (fd = -1 /\ open_fds (wk w1) = open_fds (wk w)) ->
    forall text, open_fds (wk (on_kernel_ (close fd) (log_syserr text w1))) = open_fds (wk w)).
  { intros Hf text. cbn [on_kernel_ wk]. unfold close. rewrite close_fds, Hlog.
    destruct Hf as [(_ & Hn & ->)|[-> ->]]; set_solver. }
  destruct Ha as [Hnew|(-> & -> & Hf)].
  - destruct (fate_of err); [done|done|]. split; [by left|].
    do 2 eexists. split; [done|]. split; [done|]. apply Hclose. by left.
  - split; [by right|]. do 2 eexists. split; [done|]. split; [done|]. apply Hclose. by right.
Qed.

(** A world whose client collects descriptors, and handlers for it. *)
Definition os_world := world simple_os poll_loop (gset Z).
Definition collecting (fd : Z) (c : Connector nat nat nat unit) (w : os_world) :=
  Ok (setState kConnecting c, mkWorld (wk w) (wl w) ({[fd]} ∪ wc w)).
Definition giving_up (fd : Z) (c : Connector nat nat nat unit) (w : os_world) :=
  Ok (setState kDisconnected c, on_kernel_ (close fd) w).
Definition quiet {A} (l : A) (text : bytes) (w : os_world) := w.
Definition demo_world : os_world := mkWorld busy_os (mkLoop ∅ true) ∅.
Definition demo_connector : Connector nat nat nat unit :=
  set_connect true (fst (Connector_new quiet [] (mkInetAddress sockaddr_zero) demo_world)).

Lemma connector_dispatches_error_witness :
  let '(fd, _, w1) := attempt demo_connector demo_world in
  startInLoop collecting giving_up quiet no_log demo_connector demo_world =
    collecting fd demo_connector w1 /\
  0 <= fd /\ (fd ∉ open_fds (wk demo_world)) /\
  open_fds (wk w1) = {[fd]} ∪ open_fds (wk demo_world).
Proof.
  refine (connector_dispatches_error collecting giving_up quiet no_log demo_connector demo_world _ _ _).
  - intros text w. reflexivity.
  - intros addr k. by split.
  - set_solver.
Defined.

(** start runs startInLoop, at once in the thread of the loop. *)
Lemma start_in_thread {CB RCB Owner NCB K L C} `{Kernel K} `{EventLoop CB RCB Owner L}
    connecting retry runInLoop log log_syserr (c : Connector CB RCB Owner NCB) (w : world K L C) :
  (forall task c w, isInLoopThread (wl w) = true -> runInLoop task c w = task c w) ->
  isInLoopThread (wl w) = true ->
  connector_start connecting retry runInLoop log log_syserr c w =
    startInLoop connecting retry log log_syserr (set_connect true c) w.
Proof. intros Hrun Hl. unfold connector_start. by rewrite Hrun. Qed.

(** A start that has not run yet when the connector is stopped opens nothing. *)
Lemma stopped_before_start {CB RCB Owner NCB K L C} `{Kernel K} `{EventLoop CB RCB Owner L}
    connecting retry log log_syserr (c : Connector CB RCB Owner NCB) (w : world K L C) :
  isInLoopThread (wl w) = true -> state_ c = kDisconnected ->
  startInLoop connecting retry log log_syserr (set_connect false c) w =
    Ok (set_connect false c, log DEBUG (lit "do not connect") w).
Proof. intros Hl Hs. unfold startInLoop. by rewrite Hl, bool_decide_eq_true_2. Qed.

(** ** Behaviour that callers may not expect *)

(** Stopping while the connection is under way cancels nothing: stopInLoop
    acts on kConnected only. *)
Lemma stop_while_connecting {CB RCB Owner NCB K L C} `{Kernel K} `{EventLoop CB RCB Owner L}
    retry removeAndResetChannel (c : Connector CB RCB Owner NCB) (w : world K L C) :
  isInLoopThread (wl w) = true -> state_ c = kConnecting ->
  stopInLoop retry removeAndResetChannel c w = Ok (c, w).
Proof. intros Hl Hs. unfold stopInLoop. rewrite Hl, bool_decide_eq_false_2; [done|by rewrite Hs]. Qed.
