(* ===== verification/AsyncLogging.v ===== *)
(** Asynchronous logging: base/AsyncLogging.h and base/AsyncLogging.cc.

    Front-end threads append lines under a mutex to a current buffer, with one
    spare; the logging thread takes the filled buffers in a critical section and
    writes them to a log outside it.  [step] interleaves the critical sections,
    the writing and the calls of the owner: a timed wait may end at any time, so
    the exchange of buffers may happen whenever the thread is at the top of its
    loop; start waits for the latch, stop and the destructor for the end of the
    thread.  The thread object is that of Threads.v; the latch is its count, as
    Latch.v proves that its waiters are woken up.  SIZE is kLargeBuffer in the
    code.

    [LogSink] is what the thread needs of a LogFile and [LogSinkLaws] what that
    promises: [file_log_laws] proves it of LogFile.v, with a mutex (as the code
    makes it, when it may deadlock) or without. *)
From Stdlib Require Import ZArith Lia Ascii String.
From stdpp Require Import base list strings.
From S2P Require Import Prelude.
From S2P Require Import CLib.
From S2P Require Import Threads.
From S2P Require Import FileUtil.
From S2P Require Import ProcessInfo.
From S2P Require Import Date.
From S2P Require Import Timestamp.
From S2P Require Import LogFile.
From S2P Require Import LogStream.

#[local] Open Scope Z_scope.

Class LogSink (T : Type) := {
  sink_append : bytes -> T -> outcome T;
  sink_flush : T -> outcome T
}.

(** Text that is appended is kept, in order, unless the call fails in one of the
    ways [log_fails]. *)
Class LogSinkLaws (T : Type) `{LogSink T} := {
  log_good : T -> Prop;
  log_text : T -> bytes;
  log_max : Z;
  log_fails : fault -> Prop;
  append_ok : forall d t, log_good t -> zlen d <= log_max ->
    match sink_append d t with
    | Ok t' => log_good t' /\ log_text t' = log_text t ++ d
    | Fault f => log_fails f
    end;
  flush_ok : forall t, log_good t ->
    match sink_flush t with
    | Ok t' => log_good t' /\ log_text t' = log_text t
    | Fault f => log_fails f
    end
}.

(** The members that the threads share.  A pointer is null or owns a buffer. *)
Record AsyncLogging := mkAsync {
  m_running : bool;
  m_curbuff : option FixedBuffer;
  m_nextbuff : option FixedBuffer;
  m_buffs : list FixedBuffer
}.

(** The logging thread: its place in ThreadFunc and its local variables there. *)
Inductive logging_thread {T : Type} :=
| NotStarted
| Started
| Opening                                                               (* m_latch is counted down *)
| AtTop (logout : T) (firstBuffer secondBuffer : option FixedBuffer)     (* before the loop's test *)
| InLoop (logout : T) (firstBuffer secondBuffer : option FixedBuffer)    (* after it *)
| Writing (logout : T) (firstBuffer secondBuffer : option FixedBuffer) (buffsToWrite : list FixedBuffer)
| Finished (logout : T).
Arguments logging_thread : clear implicits.

Section AsyncLogging.
Variable SIZE : Z.
Context {T : Type} `{LogSink T}.

(** The memory of new buffers, the LogFile that the thread constructs, the text
    of the current time and the bytes of the unset array temp. *)
Variable mem : bytes.
Variable open_log : outcome T.
Variable now_text : bytes.
Variable garbage : bytes.

Definition new_buffer : FixedBuffer := FixedBuffer_new mem.

Definition AsyncLogging_new : AsyncLogging :=
  mkAsync false (Some (bzero SIZE new_buffer)) (Some (bzero SIZE new_buffer)) [].

(** Dereferencing a pointer. *)
Definition deref {A} (p : option A) : outcome A :=
  match p with Some x => Ok x | None => Fault Undefined end.

(** push_back(p.release()): a ptr_vector takes no null pointer. *)
Definition push_back (bs : list FixedBuffer) (p : option FixedBuffer) : outcome (list FixedBuffer) :=
  b ← deref p; Ok (bs ++ [b]).

Definition async_append (logline : bytes) (a : AsyncLogging) : outcome AsyncLogging :=
  cur ← deref (m_curbuff a);
  if zlen logline <? avail SIZE cur then
    cur ← fixed_put SIZE logline cur;
    Ok (mkAsync (m_running a) (Some cur) (m_nextbuff a) (m_buffs a))
  else
    buffs ← push_back (m_buffs a) (m_curbuff a);
    '(cur, next) ←
      match m_nextbuff a with
      | Some b => Ok (b, None)
      | None => b ← deref None; Ok (reset b, None)
      end;
    cur ← fixed_put SIZE logline cur;
    Ok (mkAsync (m_running a) (Some cur) next buffs).

(** The critical section of ThreadFunc: the object, firstBuffer, secondBuffer
    and buffsToWrite, which is empty before. *)
Definition exchange (a : AsyncLogging) (firstBuffer secondBuffer : option FixedBuffer)
  : outcome (AsyncLogging * option FixedBuffer * option FixedBuffer * list FixedBuffer) :=
  buffs ← push_back (m_buffs a) (m_curbuff a);
  let '(next, second) :=
    match m_nextbuff a with Some b => (Some b, secondBuffer) | None => (secondBuffer, None) end in
  Ok (mkAsync (m_running a) firstBuffer next [], None, second, buffs).

Fixpoint write_all (buffs : list FixedBuffer) (logout : T) : outcome T :=
  match buffs with
  | [] => Ok logout
  | b :: buffs => d ← asString b; logout ← sink_append d logout; write_all buffs logout
  end.

(** A spare buffer that was given away is replaced by a written one. *)
Definition refill (spare : option FixedBuffer) (buffs : list FixedBuffer)
  : outcome (option FixedBuffer * list FixedBuffer) :=
  match spare with
  | Some b => Ok (Some b, buffs)
  | None =>
      _ ← assert_ (negb (zlen buffs =? 0));
      b ← deref (last buffs);
      Ok (Some (reset b), removelast buffs)
  end.

(** ThreadFunc after the critical section, up to the top of the loop. *)
Definition write_out (logout : T) (firstBuffer secondBuffer : option FixedBuffer)
  (buffsToWrite : list FixedBuffer) : outcome (T * option FixedBuffer * option FixedBuffer) :=
  _ ← assert_ (0 <? zlen buffsToWrite);
  '(logout, buffs) ←
    (if 25 <? zlen buffsToWrite then
       let temp := splice 0 (snprintf_stored 256 (lit "Drop some log at " ++ now_text ++ lit ", " ++
                     dec_of_Z (zlen buffsToWrite - 2))) garbage in
       logout ← sink_append temp logout; Ok (logout, take 2 buffsToWrite)
     else Ok (logout, buffsToWrite));
  logout ← write_all buffs logout;
  let buffs := if 2 <? zlen buffs then take 2 buffs else buffs in
  '(first, buffs) ← refill firstBuffer buffs;
  '(second, buffs) ← refill secondBuffer buffs;
  logout ← sink_flush logout;
  Ok (logout, first, second).

(** ** The threads together *)

(** The thread that owns the object: it waits in start for the latch, in stop or
    in the destructor for the logging thread to end, or is in no call; or it has
    destroyed the object. *)
Inductive owner_pc := Idle | InStart | InStop (deleting : bool) | Gone.

Record system := mkSystem {
  obj : AsyncLogging;
  thread : logging_thread T;
  m_loggingThread : Thread;
  m_latch : Z;
  owner : owner_pc
}.

Inductive event :=
| EAppend (line : bytes)   (* append, by any thread *)
| EStart (created : bool)  (* start() up to the latch; whether pthread_create succeeds *)
| EStarted                 (* the end of start() *)
| EBegin                   (* ThreadFunc up to countDown *)
| EOpen                    (* ThreadFunc from there to the loop *)
| ECheck                   (* the loop's test, when m_running is set *)
| EExchange                (* the critical section *)
| EWrite                   (* the rest of the loop's body *)
| EStop                    (* stop() up to the wait of join *)
| EDelete                  (* the destructor up to that wait *)
| EJoined                  (* the end of stop() or of the destructor *)
| EExit.                   (* the end of the loop and the last flush *)

Definition set_running (b : bool) (a : AsyncLogging) : AsyncLogging :=
  mkAsync b (m_curbuff a) (m_nextbuff a) (m_buffs a).

Definition start (created : bool) (a : AsyncLogging) (th : Thread) : outcome (AsyncLogging * Thread) :=
  let a := set_running true a in
  th ← Threads.start created th; Ok (a, th).
Definition stop (a : AsyncLogging) (th : Thread) : outcome (AsyncLogging * Thread) :=
  let a := set_running false a in
  th ← Threads.join th; Ok (a, th).

(** The object, its thread and where the destructor then is. *)
Definition AsyncLogging_delete (a : AsyncLogging) (th : Thread)
  : outcome (AsyncLogging * Thread * owner_pc) :=
  if m_running a then '(a, th) ← stop a th; Ok (a, th, InStop true)
  else Ok (a, th, Gone).

Definition begin_thread (a : AsyncLogging) (latch : Z) : outcome Z :=
  _ ← assert_ (m_running a); isub latch 1.
Definition open_thread : outcome (logging_thread T) :=
  logout ← open_log; Ok (AtTop logout (Some new_buffer) (Some new_buffer)).

(** The events that can happen, with what they lead to. *)
Inductive step : system -> event -> outcome system -> Prop :=
| step_append line a t th la o : o <> Gone ->
    step (mkSystem a t th la o) (EAppend line) (a ← async_append line a; Ok (mkSystem a t th la o))
| step_start created a t th la :
    step (mkSystem a t th la Idle) (EStart created)
      ('(a, th) ← start created a th; Ok (mkSystem a (if created then Started else t) th la InStart))
| step_started a t th la : la <= 0 ->
    step (mkSystem a t th la InStart) EStarted (Ok (mkSystem a t th la Idle))
| step_begin a th la o :
    step (mkSystem a Started th la o) EBegin
      (la ← begin_thread a la; Ok (mkSystem a Opening th la o))
| step_open a th la o :
    step (mkSystem a Opening th la o) EOpen (t ← open_thread; Ok (mkSystem a t th la o))
| step_check a l f s th la o :
    m_running a = true ->
    step (mkSystem a (AtTop l f s) th la o) ECheck (Ok (mkSystem a (InLoop l f s) th la o))
| step_exchange a l f s th la o :
    step (mkSystem a (InLoop l f s) th la o) EExchange
      ('(a, f, s, buffs) ← exchange a f s; Ok (mkSystem a (Writing l f s buffs) th la o))
| step_write a l f s buffs th la o :
    step (mkSystem a (Writing l f s buffs) th la o) EWrite
      ('(l, f, s) ← write_out l f s buffs; Ok (mkSystem a (AtTop l f s) th la o))
| step_stop a t th la :
    step (mkSystem a t th la Idle) EStop
      ('(a, th) ← stop a th; Ok (mkSystem a t th la (InStop false)))
| step_delete a t th la :
    step (mkSystem a t th la Idle) EDelete
      ('(a, th, o) ← AsyncLogging_delete a th; Ok (mkSystem a t th la o))
| step_joined a l th la deleting :
    step (mkSystem a (Finished l) th la (InStop deleting)) EJoined
      (Ok (mkSystem a (Finished l) th la (if deleting then Gone else Idle)))
| step_exit a l f s th la o :
    m_running a = false ->
    step (mkSystem a (AtTop l f s) th la o) EExit
      (l ← sink_flush l; Ok (mkSystem a (Finished l) th la o)).

Definition init : system :=
  mkSystem AsyncLogging_new NotStarted (mkThread 0 (lit "LoggingThread") false false []) 1 Idle.

(** The systems that a sequence of events leads to. *)
Inductive run : list event -> system -> Prop :=
| run_init : run [] init
| run_step es s e s' : run es s -> step s e (Ok s') -> run (es ++ [e]) s'.
End AsyncLogging.

(** ** Lemmas *)

(** What appended lines contribute: a line longer than a buffer is lost. *)
Definition fits (SIZE : Z) (line : bytes) : bytes := if zlen line <=? SIZE then line else [].
Definition logged (SIZE : Z) (es : list event) : bytes :=
  List.concat (List.map (fun e => match e with EAppend line => fits SIZE line | _ => [] end) es).
Definition texts (bs : list FixedBuffer) : bytes := List.concat (List.map fb_text bs).

Section Invariant.
Context (SIZE : Z) {T : Type} `{LogSinkLaws T}.
Context (mem : bytes) (open_log : outcome T) (now_text garbage : bytes).
Hypothesis SIZE_ok : 0 < SIZE < 2 ^ 63.
Hypothesis SIZE_max : SIZE <= log_max.
Hypothesis mem_ok : zlen mem = SIZE.
Hypothesis open_ok : match open_log with
                     | Ok l => log_good l /\ log_text l = []
                     | Fault f => log_fails f
                     end.

(** A buffer with nothing in it. *)
Definition blank (b : FixedBuffer) : Prop := fb_good SIZE b /\ fb_text b = [].

Lemma blank_new : blank (new_buffer mem).
Proof. split; [|done]. split; [done|]. simpl. lia. Qed.

Lemma blank_zero : blank (bzero SIZE (new_buffer mem)).
Proof.
  split; [|done]. split; [|simpl; lia]. cbn [bzero m_buff]. rewrite zlen_replicate. lia.
Qed.

Lemma blank_reset b : fb_good SIZE b -> blank (reset b).
Proof. intros (H1 & H2 & H3). split; [|done]. split; [done|]. simpl. lia. Qed.

(** The shared members, holding [text]. *)
Record shared (a : AsyncLogging) (text : bytes) : Prop := {
  sh_cur : exists c, m_curbuff a = Some c /\ fb_good SIZE c /\ text = texts (m_buffs a) ++ fb_text c;
  sh_spare : (exists n, m_nextbuff a = Some n /\ blank n /\ m_buffs a = []) \/
             (m_nextbuff a = None /\ exists b, m_buffs a = [b] /\ fb_good SIZE b)
}.

Definition some_blank (p : option FixedBuffer) : Prop := exists b, p = Some b /\ blank b.

(** What the logging thread has written, and what it is about to write. *)
Definition thread_inv (t : logging_thread T) (done todo : bytes) : Prop :=
  match t with
  | NotStarted | Started | Opening => done = [] /\ todo = []
  | AtTop l f s | InLoop l f s => log_good l /\ done = log_text l /\ todo = [] /\ some_blank f /\ some_blank s
  | Writing l f s bs =>
      log_good l /\ done = log_text l /\ todo = texts bs /\ f = None /\ Forall (fb_good SIZE) bs /\
      ((some_blank s /\ length bs = 1%nat) \/ (s = None /\ length bs = 2%nat))
  | Finished l => log_good l /\ done = log_text l /\ todo = []
  end.

Definition texts_inv (s : system (T := T)) (text : bytes) : Prop := exists don todo rest,
  thread_inv (thread s) don todo /\ shared (obj s) rest /\ text = don ++ todo ++ rest.

(** The owner leaves start when the latch has been counted down, so that the
    thread finds m_running set. *)
Definition owner_inv (s : system (T := T)) : Prop :=
  match thread s with
  | NotStarted => m_latch s = 1 /\ m_started (m_loggingThread s) = false /\
      m_joined (m_loggingThread s) = false /\
      (owner s = InStart \/ (owner s = Idle \/ owner s = Gone) /\ m_running (obj s) = false)
  | Started => m_latch s = 1 /\ m_started (m_loggingThread s) = true /\
      m_joined (m_loggingThread s) = false /\ owner s = InStart /\ m_running (obj s) = true
  | _ => m_latch s = 0 /\ m_started (m_loggingThread s) = true /\
      m_running (obj s) = negb (m_joined (m_loggingThread s)) /\
      (owner s = InStart -> m_joined (m_loggingThread s) = false) /\
      (forall deleting, owner s = InStop deleting -> m_joined (m_loggingThread s) = true)
  end.

Definition inv (s : system (T := T)) (text : bytes) : Prop := texts_inv s text /\ owner_inv s.

(** Since the thread last came by, one buffer has been filled and the second has
    no room for the line. *)
Definition exhausted (line : bytes) (a : AsyncLogging) : Prop :=
  m_nextbuff a = None /\ m_buffs a <> [] /\ exists c, m_curbuff a = Some c /\ avail SIZE c <= zlen line.

Lemma append_shared line a text : shared a text ->
  (exists a', async_append SIZE line a = Ok a' /\ shared a' (text ++ fits SIZE line) /\
     m_running a' = m_running a) \/
  (exhausted line a /\ async_append SIZE line a = Fault Undefined).
Proof.
  intros [(c & Hc & Gc & Ht) Hs]. unfold async_append, exhausted. rewrite Hc. cbn [deref]. unfold_monad.
  pose proof (zlen_nonneg line). pose proof (fixed_bounded SIZE c Gc) as Hb.
  rewrite (avail_eq SIZE c Gc) in *. rewrite (zlen_fb_text SIZE c Gc) in Hb.
  destruct (Z.ltb_spec (zlen line) (SIZE - m_cur c)) as [Hlt|Hge].
  - left. destruct (fixed_put_ok SIZE line c Gc) as (c' & -> & Gc' & Tc').
    rewrite (zlen_fb_text SIZE c Gc) in Tc'. revert Tc'. case_tests. intros Tc'.
    eexists. split; [done|]. split; [|done]. destruct Gc as (_ & Hm & _).
    constructor; cbn [m_curbuff m_nextbuff m_buffs]; [|done].
    exists c'. split; [done|]. split; [done|]. rewrite Tc', Ht. unfold fits.
    case_tests. by rewrite app_assoc.
  - unfold push_back. cbn [deref]. unfold_monad.
    destruct Hs as [(n & Hn & [Gn Tn] & Hbs)|[Hn (b & Hbs & Gb)]]; rewrite Hn.
    + left. destruct (fixed_put_ok SIZE line n Gn) as (n' & -> & Gn' & Tn').
      eexists. split; [done|]. split; [|done].
      constructor; cbn [m_curbuff m_nextbuff m_buffs].
      * exists n'. split; [done|]. split; [done|]. rewrite Tn', Tn, Ht, Hbs, zlen_nil. unfold fits, texts.
        cbn [List.map List.concat app]. rewrite app_nil_r. by case_tests.
      * right. split; [done|]. exists c. by rewrite Hbs.
    + right. split; [|done]. split; [done|]. split; [by rewrite Hbs|]. exists c. split; [done|]. by rewrite (avail_eq SIZE c Gc).
Qed.

Lemma exchange_shared a text f s : shared a text -> some_blank f -> some_blank s ->
  exists a' s' bs, exchange a f s = Ok (a', None, s', bs) /\ shared a' [] /\
    m_running a' = m_running a /\ texts bs = text /\ Forall (fb_good SIZE) bs /\
    ((some_blank s' /\ length bs = 1%nat) \/ (s' = None /\ length bs = 2%nat)).
Proof.
  intros [(c & Hc & Gc & Ht) Hs] (fb & -> & Gf & Tf) (sb & -> & Bs).
  unfold exchange, push_back. rewrite Hc. cbn [deref]. unfold_monad.
  assert (Htext : texts (m_buffs a ++ [c]) = text).
  { rewrite Ht. unfold texts. rewrite List.map_app, List.concat_app. cbn. by rewrite app_nil_r. }
  destruct Hs as [(n & Hn & Bn & Hbs)|[Hn (b & Hbs & Gb)]]; rewrite Hn; do 3 eexists;
    (split; [done|]); (split; [|split; [done|split; [done|]]]).
  1, 3: constructor; cbn [m_curbuff m_nextbuff m_buffs]; [by exists fb|left; by eexists].
  - rewrite Hbs. split; [by apply Forall_app_2; [|apply Forall_singleton]|]. left. split; [by exists sb|done].
  - rewrite Hbs. split; [by apply Forall_app_2; apply Forall_singleton|]. by right.
Qed.

Lemma write_all_ok bs l : log_good l -> Forall (fb_good SIZE) bs ->
  match write_all bs l with
  | Ok l' => log_good l' /\ log_text l' = log_text l ++ texts bs
  | Fault e => log_fails e
  end.
Proof.
  revert l. induction bs as [|b bs IH]; intros l Hl Hbs; cbn [write_all].
  - by rewrite app_nil_r.
  - apply Forall_cons in Hbs as [Gb Hbs].
    assert (Ha : asString b = Ok (fb_text b)).
    { destruct Gb as (H1 & H2 & H3). unfold asString, fb_length, fb_text.
      rewrite wrapU_small; [apply read_at_ok; lia|]. split; [lia|].
      apply Z.lt_trans with (2 ^ 63); [lia|done]. }
    rewrite Ha. unfold_monad.
    pose proof (append_ok (fb_text b) l Hl) as Hap.
    pose proof (fixed_bounded SIZE b Gb). specialize (Hap ltac:(lia)).
    destruct (sink_append (fb_text b) l) as [l1|]; [|done]. destruct Hap as [Hl1 Ht1].
    specialize (IH l1 Hl1 Hbs). destruct (write_all bs l1); [|done].
    unfold texts in *. cbn [List.map List.concat]. by rewrite app_assoc, <- Ht1.
Qed.

(** The loop's body after the critical section: its asserts hold, nothing is
    dropped, and both spare buffers are there again. *)
Lemma write_out_ok l s bs : log_good l -> Forall (fb_good SIZE) bs ->
  ((some_blank s /\ length bs = 1%nat) \/ (s = None /\ length bs = 2%nat)) ->
  match write_out now_text garbage l None s bs with
  | Ok (l', f', s') => log_good l' /\ log_text l' = log_text l ++ texts bs /\
                       some_blank f' /\ some_blank s'
  | Fault e => log_fails e
  end.
Proof.
  intros Hl Hbs Hs. unfold write_out.
  assert (Hlen : 0 < zlen bs <= 2) by (unfold zlen; destruct Hs as [[_ ->]|[_ ->]]; simpl; lia).
  destruct (Z.ltb_spec 0 (zlen bs)); [|lia]. destruct (Z.ltb_spec 25 (zlen bs)); [lia|].
  unfold_monad. pose proof (write_all_ok bs l Hl Hbs) as Hw.
  destruct (write_all bs l) as [l1|]; [|done]. destruct Hw as [Hl1 Ht1].
  destruct (Z.ltb_spec 2 (zlen bs)); [lia|]. pose proof (flush_ok l1 Hl1) as Hf.
  destruct Hs as [[(sb & -> & Bs) Hn]|[-> Hn]].
  - destruct bs as [|b [|]]; try done. unfold refill. change (zlen [b] =? 0) with false. cbn.
    destruct (sink_flush l1) as [l2|]; [|done]. destruct Hf as [Hl2 Ht2].
    apply Forall_cons in Hbs as [Gb _]. rewrite Ht2.
    repeat split; try done; [by exists (reset b); split; [|apply blank_reset]|by exists sb].
  - destruct bs as [|b [|b' []]]; try done. unfold refill.
    change (zlen [b; b'] =? 0) with false. cbn. change (zlen [b] =? 0) with false. cbn.
    destruct (sink_flush l1) as [l2|]; [|done]. destruct Hf as [Hl2 Ht2].
    rewrite Ht2. repeat (apply Forall_cons in Hbs as [? Hbs]).
    repeat split; try done;
      [by exists (reset b'); split; [|apply blank_reset]|by exists (reset b); split; [|apply blank_reset]].
Qed.

Lemma shared_running b a text : shared a text -> shared (set_running b a) text.
Proof. intros [H1 H2]. by constructor. Qed.

Lemma inv_init : inv (init SIZE mem) [].
Proof.
  split; [|by repeat split; auto].
  exists [], [], []. split; [done|]. split; [|done]. constructor; cbn [obj init AsyncLogging_new].
  - eexists. split; [done|]. split; [apply blank_zero|]. symmetry. apply blank_zero.
  - left. eexists. split; [done|]. split; [apply blank_zero|done].
Qed.

(** What an event adds to the log. *)
Definition event_text (e : event) : bytes :=
  match e with EAppend line => fits SIZE line | _ => [] end.

(** Each event preserves the invariant; the faults that remain. *)
Definition known_fault (s : system (T := T)) (e : event) (f : fault) : Prop :=
  log_fails f \/
  (f = Undefined /\ exists line, e = EAppend line /\ exhausted line (obj s)) \/
  (f = AssertFail /\ exists created, e = EStart created /\ m_started (m_loggingThread s) = true) \/
  (f = AssertFail /\ e = EStop /\
     (m_started (m_loggingThread s) = false \/ m_joined (m_loggingThread s) = true)).

(** The calls of start, stop and the destructor. *)
Lemma start_step created a t th la text : inv (mkSystem a t th la Idle) text ->
  match start created a th with
  | Ok (a', th') => inv (mkSystem a' (if created then Started else t) th' la InStart) text
  | Fault f => known_fault (mkSystem a t th la Idle) (EStart created) f
  end.
Proof.
  intros [(don & todo & rest & Ht & Hsh & Htx) Ho]. unfold start, Threads.start, owner_inv in *.
  cbn [obj thread m_loggingThread m_latch owner] in *.
  destruct (m_started th) eqn:Hst; cbn [negb assert_]; unfold_monad.
  - right; right; left. split; [done|]. by exists created.
  - destruct t; [|by destruct_and? Ho..]. destruct Ho as (Hla & _ & Hj & _).
    split; [exists don, todo, rest; split; [by destruct created|by split; [apply shared_running|]]|].
    destruct created; unfold owner_inv; cbn; split_and!; auto.
Qed.

Lemma stop_ok a t th la text deleting : inv (mkSystem a t th la Idle) text -> m_started th = true ->
  m_joined th = false ->
  exists a' th', stop a th = Ok (a', th') /\ inv (mkSystem a' t th' la (InStop deleting)) text.
Proof.
  intros [(don & todo & rest & Ht & Hsh & Htx) Ho] Hs Hj. unfold stop, Threads.join. rewrite Hs, Hj.
  cbn [negb assert_]. unfold_monad. do 2 eexists. split; [done|].
  split; [exists don, todo, rest; split; [done|by split; [apply shared_running|]]|].
  unfold owner_inv in *. cbn [obj thread m_loggingThread m_latch owner] in *.
  destruct t; cbn; destruct_and? Ho; try congruence; split_and!; auto; done.
Qed.

Lemma stop_step a t th la text : inv (mkSystem a t th la Idle) text ->
  match stop a th with
  | Ok (a', th') => inv (mkSystem a' t th' la (InStop false)) text
  | Fault f => known_fault (mkSystem a t th la Idle) EStop f
  end.
Proof.
  intros Hi. destruct (m_started th) eqn:Hs; [destruct (m_joined th) eqn:Hj|].
  2: by destruct (stop_ok a t th la text false Hi Hs Hj) as (a' & th' & -> & Hi').
  all: unfold stop, Threads.join; rewrite Hs, ?Hj; right; right; right; split_and!; auto.
Qed.

Lemma delete_step a t th la text : inv (mkSystem a t th la Idle) text ->
  exists a' th' o, AsyncLogging_delete a th = Ok (a', th', o) /\ inv (mkSystem a' t th' la o) text.
Proof.
  intros Hi. unfold AsyncLogging_delete. destruct (m_running a) eqn:Hr.
  - assert (Hs : m_started th = true /\ m_joined th = false).
    { destruct Hi as [_ Ho]. unfold owner_inv in Ho. cbn [obj thread m_loggingThread m_latch owner] in Ho.
      rewrite Hr in Ho. destruct t; destruct_and? Ho; try done;
        try (destruct (m_joined th); done). naive_solver. }
    destruct (stop_ok a t th la text true Hi (proj1 Hs) (proj2 Hs)) as (a' & th' & -> & Hi').
    unfold_monad. by do 3 eexists.
  - do 3 eexists. split; [done|]. destruct Hi as [Ht Ho]. split; [exact Ht|].
    unfold owner_inv in *. cbn [obj thread m_loggingThread m_latch owner] in *. rewrite Hr in *.
    destruct t; destruct_and? Ho; split_and!; auto; done.
Qed.

Lemma inv_step s e r text : inv s text -> step SIZE mem open_log now_text garbage s e r ->
  match r with
  | Ok s' => inv s' (text ++ event_text e)
  | Fault f => known_fault s e f
  end.
Proof.
  intros Hi Hstep.
  destruct Hstep as [line a t th la o Hgone|created a t th la|a t th la Hla|a th la o|a th la o
    |a l f sp th la o Hr|a l f sp th la o|a l f sp bs th la o|a t th la|a t th la|a l th la deleting
    |a l f sp th la o Hr]; cbn [event_text]; rewrite ?app_nil_r.
  2: pose proof (start_step created _ _ _ _ _ Hi); unfold_monad; by destruct (start created a th) as [[]|].
  8: pose proof (stop_step _ _ _ _ _ Hi); unfold_monad; by destruct (stop a th) as [[]|].
  8: by destruct (delete_step _ _ _ _ _ Hi) as (a' & th' & o & -> & Hi').
  all: destruct Hi as [(don & todo & rest & Ht & Hsh & ->) Ho]; unfold known_fault, owner_inv in *;
    cbn [obj thread m_loggingThread m_latch owner] in *.
  - destruct (append_shared line a rest Hsh) as [(a' & E & Hsh' & Hrun)|[Hex E]]; rewrite E; unfold_monad.
    + split; [|unfold owner_inv; cbn [obj thread m_loggingThread m_latch owner]; by rewrite Hrun].
      exists don, todo, (rest ++ fits SIZE line). split; [done|]. split; [done|]. by rewrite !app_assoc.
    + right. left. split; [done|]. by exists line.
  - split; [by exists don, todo, rest|]. unfold owner_inv. cbn [obj thread m_loggingThread m_latch owner].
    destruct t; destruct_and? Ho; split_and!; auto; lia || done.
  - destruct Ho as (-> & Hs & Hj & -> & Hr). unfold begin_thread. rewrite Hr. cbn [assert_]. unfold_monad.
    unfold isub. rewrite ckS_ok by lia. split; [by exists don, todo, rest|].
    unfold owner_inv. cbn. rewrite Hj. by split_and!.
  - unfold open_thread. unfold_monad. destruct open_log as [l|f0]; [|by left].
    destruct open_ok as [Hl Hlt]. destruct Ht as [-> ->]. split; [|exact Ho].
    exists [], [], rest. split; [|by split].
    cbn. rewrite Hlt. repeat split; try done; eexists; (split; [done|apply blank_new]).
  - split; [by exists don, todo, rest|exact Ho].
  - destruct Ht as (Hl & -> & -> & Hf & Hs2).
    destruct (exchange_shared a rest f sp Hsh Hf Hs2) as (a' & s' & bs & E & Hsh' & Hrun & Htx & Hg & Hc).
    rewrite E. unfold_monad.
    split; [|unfold owner_inv; cbn [obj thread m_loggingThread m_latch owner]; by rewrite Hrun].
    exists (log_text l), (texts bs), []. rewrite app_nil_r, Htx.
    split; [|by split]. cbn. by rewrite Htx.
  - destruct Ht as (Hl & -> & -> & -> & Hg & Hc).
    pose proof (write_out_ok l sp bs Hl Hg Hc) as Hw. unfold_monad.
    destruct (write_out now_text garbage l None sp bs) as [[[l' f'] s']|]; [|by left].
    destruct Hw as (Hl' & Hlt & Hf & Hs). split; [|exact Ho]. exists (log_text l'), [], rest.
    split; [done|]. split; [done|]. by rewrite Hlt, <- app_assoc.
  - split; [by exists don, todo, rest|]. unfold owner_inv. cbn [obj thread m_loggingThread m_latch owner].
    destruct_and? Ho. by destruct deleting; split_and!.
  - destruct Ht as (Hl & -> & -> & Hf & Hs2). pose proof (flush_ok l Hl) as Hfl. unfold_monad.
    destruct (sink_flush l) as [l'|]; [|by left]. destruct Hfl as [Hl' Hlt]. split; [|exact Ho].
    exists (log_text l'), [], rest. split; [done|]. split; [done|]. by rewrite Hlt.
Qed.

Lemma inv_run es s : run SIZE mem open_log now_text garbage es s -> inv s (logged SIZE es).
Proof.
  induction 1 as [|es s e s' Hr IH Hs]; [exact inv_init|].
  unfold logged. rewrite List.map_app, List.concat_app. cbn [List.map List.concat].
  rewrite app_nil_r. exact (inv_step s e (Ok s') _ IH Hs).
Qed.
End Invariant.

(** *** LogFile is such a log *)

Section FileSink.
Context (time : nat -> Z) (fopen_ok : bytes -> bool) (fwrite_unlocked : nat -> bytes -> nat * bool).
Context (host_name : option bytes) (host : bytes) (pid : Z) (fuel : nat).
Hypothesis clock_in_range : forall i, clock_ok (time i).
Hypothesis fopen_succeeds : forall name, fopen_ok name = true.
Hypothesis fwrite_progresses : fwrite_progress fwrite_unlocked.
Hypothesis host_known : hostname host_name = Ok host.
Hypothesis pid_in_range : 0 <= pid < 2 ^ 31.

Definition file_log : LogSink (LogFile * env) := {|
  sink_append := fun d le =>
    '(_, l, e) ← LogFile.append time fopen_ok fwrite_unlocked host_name pid fuel d (fst le) (snd le);
    Ok (l, e);
  sink_flush := fun le => '(_, l, e) ← LogFile.flush (fst le) (snd le); Ok (l, e)
|}.

(** The texts of the files, in the order in which they were opened. *)
Definition file_text (le : LogFile * env) : bytes :=
  List.concat (List.map (content (e_world (snd le))) (opened (e_world (snd le)))).
Definition file_good (le : LogFile * env) : Prop :=
  (exists text, keeping host pid (fst le) (snd le) text) /\ m_mutexLock (fst le) <> Some true.
Definition file_max : Z := Z.min (Z.of_nat fuel - 1) (2 ^ 64 - 1).

Lemma file_append_ok d le : file_good le -> zlen d <= file_max ->
  match @sink_append _ file_log d le with
  | Ok le' => file_good le' /\ file_text le' = file_text le ++ d
  | Fault f => f = Deadlock
  end.
Proof.
  destruct le as [l e]. intros [[text Hk] Hmu] Hd. unfold file_max in Hd. cbn [sink_append file_log fst snd].
  cbn [fst snd] in Hk, Hmu.
  destruct (append_keeps time fopen_ok fwrite_unlocked host_name host pid fuel clock_in_range
    fopen_succeeds fwrite_progresses host_known pid_in_range l e text d Hk Hmu)
    as [(l' & e' & -> & Hk' & Hmu')|[_ ->]]; [unfold zlen in Hd; lia|lia| |done].
  unfold_monad. split.
  - split; [by eexists|]. cbn [fst]. by rewrite Hmu'.
  - unfold file_text. cbn [snd]. by rewrite (k_text _ _ _ _ _ Hk'), (k_text _ _ _ _ _ Hk).
Qed.

Lemma file_flush_ok le : file_good le ->
  match @sink_flush _ file_log le with
  | Ok le' => file_good le' /\ file_text le' = file_text le
  | Fault f => f = Deadlock
  end.
Proof.
  destruct le as [l e]. intros [[text Hk] Hmu]. cbn [sink_flush file_log fst snd].
  cbn [fst snd] in Hk, Hmu. unfold LogFile.flush, guarded, FileUtil.flush.
  assert (Hk' : forall mu, keeping host pid (mkLogFile mu (m_scpFile l) (m_startPeriod l) (m_lastFlush l)
    (m_lastRoll l) (m_bThreadSafe l) (m_appendCount l) (m_rollSize l) (m_basename l)
    (m_flushInterval l) (m_checkEveryN l)) e text) by (intros mu; destruct Hk; by constructor).
  destruct (m_mutexLock l) as [[|]|] eqn:Emu; [done| |]; unfold_monad; cbn [set_mutex m_scpFile];
    rewrite (k_valid _ _ _ _ _ Hk); (split; [split; [exists text|]|done]); cbn [fst snd].
  - destruct (Hk' (Some false)). by constructor.
  - done.
  - destruct Hk. by constructor.
  - by rewrite Emu.
Qed.

Definition file_log_laws : @LogSinkLaws _ file_log := {|
  log_good := file_good;
  log_text := file_text;
  log_max := file_max;
  log_fails := fun f => f = Deadlock;
  append_ok := file_append_ok;
  flush_ok := file_flush_ok
|}.
End FileSink.

(** ** Properties *)

(** The text in the log, and the text on its way there. *)
Definition delivered {T} `{LogSinkLaws T} (s : system (T := T)) : bytes :=
  match thread s with
  | NotStarted | Started | Opening => []
  | AtTop l _ _ | InLoop l _ _ | Writing l _ _ _ | Finished l => log_text l
  end.
Definition pending {T} (s : system (T := T)) : bytes :=
  match thread s with Writing _ _ _ bs => texts bs | _ => [] end ++ texts (m_buffs (obj s)) ++
  match m_curbuff (obj s) with Some c => fb_text c | None => [] end.

Lemma inv_texts {T} `{LogSinkLaws T} SIZE (s : system (T := T)) text :
  inv SIZE s text -> delivered s ++ pending s = text.
Proof.
  intros [(don & todo & rest & Ht & [(c & Hc & _ & ->) _] & ->) _]. unfold delivered, pending. rewrite Hc.
  destruct (thread s); cbn in Ht; destruct_and? Ht; simplify_eq; done.
Qed.

(** C3. Asynchronous logging keeps every line, in order.  However the appends of
    any number of threads, the exchanges and the writing interleave, and
    whatever the size of the buffers, what is in the log followed by what is
    still in buffers is exactly the appended lines in the order of their
    critical sections (but for lines longer than a buffer): the branch that
    drops buffers is never taken and the asserts of the logging thread hold.
    Three faults remain: a failure of the log itself, an append when both
    front-end buffers are used up, which follows a null pointer, and the asserts
    of the Thread object when start is called a second time, or stop without a
    running thread; the destructor is safe in any case. *)
Theorem async_log_keeps_lines {T} `{LogSinkLaws T} SIZE mem open_log now_text garbage es s :
  0 < SIZE < 2 ^ 63 -> SIZE <= log_max -> zlen mem = SIZE ->
  match open_log with Ok l => log_good l /\ log_text l = [] | Fault f => log_fails f end ->
  run SIZE mem open_log now_text garbage es s ->
  delivered s ++ pending s = logged SIZE es /\
  forall e f, step SIZE mem open_log now_text garbage s e (Fault f) -> known_fault SIZE s e f.
Proof.
  intros Hs Hm Hmem Hopen Hrun.
  pose proof (inv_run SIZE mem open_log now_text garbage Hs Hm Hmem Hopen es s Hrun) as Hi.
  split; [by eapply inv_texts|]. intros e f Hf.
  exact (inv_step SIZE mem open_log now_text garbage Hs Hm Hmem Hopen s e (Fault f) _ Hi Hf).
Qed.

(** What a run can go on to: the state reached after [es'], or a failure of the
    log on the way. *)
Definition leads_to {T} `{LogSinkLaws T} SIZE mem open_log now_text garbage (es es' : list event)
  (P : system (T := T) -> Prop) : Prop :=
  (exists s, run SIZE mem open_log now_text garbage (es ++ es') s /\ P s) \/
  (exists es1 e es2 s f, es' = es1 ++ e :: es2 /\
     run SIZE mem open_log now_text garbage (es ++ es1) s /\
     step SIZE mem open_log now_text garbage s e (Fault f) /\ log_fails f).

Section Leads.
Context {T} `{LogSinkLaws T} (SIZE : Z) (mem : bytes) (open_log : outcome T) (now_text garbage : bytes).
#[local] Abbreviation run := (run SIZE mem open_log now_text garbage).
#[local] Abbreviation step := (step SIZE mem open_log now_text garbage).
#[local] Abbreviation leads_to := (leads_to SIZE mem open_log now_text garbage).

Lemma leads_nil es s (P : system -> Prop) : run es s -> P s -> leads_to es [] P.
Proof. intros Hr HP. left. exists s. by rewrite app_nil_r. Qed.

Lemma leads_cons es e es' s r (P : system -> Prop) : run es s -> step s e r ->
  match r with
  | Ok s' => run (es ++ [e]) s' -> leads_to (es ++ [e]) es' P
  | Fault f => log_fails f
  end -> leads_to es (e :: es') P.
Proof.
  intros Hr Hs Hn. destruct r as [s'|f].
  - destruct (Hn (run_step _ _ _ _ _ _ _ _ _ Hr Hs)) as [(s2 & Hr2 & HP)|(es1 & e1 & es2 & s2 & f & -> & Hr2 & Hf & Hl)].
    + left. exists s2. by rewrite <- app_assoc in Hr2.
    + right. exists (e :: es1), e1, es2, s2, f. by rewrite <- app_assoc in Hr2.
  - right. exists [], e, es', s, f. by rewrite app_nil_r.
Qed.

Hypothesis SIZE_ok : 0 < SIZE < 2 ^ 63.
Hypothesis SIZE_max : SIZE <= log_max.
Hypothesis mem_ok : zlen mem = SIZE.
Hypothesis open_ok : match open_log with
                     | Ok l => log_good l /\ log_text l = []
                     | Fault f => log_fails f
                     end.

Definition returned (deleting : bool) (s : system (T := T)) : Prop :=
  owner s = if deleting then Gone else Idle.

Lemma finished_returns es a l th la deleting :
  run es (mkSystem a (Finished l) th la (InStop deleting)) -> leads_to es [EJoined] (returned deleting).
Proof.
  intros Hr. eapply leads_cons; [exact Hr|apply step_joined|]. intros Hr1. by eapply leads_nil.
Qed.

Lemma top_returns es a l f sp th la deleting :
  run es (mkSystem a (AtTop l f sp) th la (InStop deleting)) ->
  leads_to es [EExit; EJoined] (returned deleting).
Proof.
  intros Hr.
  destruct (inv_run SIZE mem open_log now_text garbage SIZE_ok SIZE_max mem_ok open_ok es _ Hr)
    as [(don & todo & rest & (Hl & _) & _) (_ & _ & Hrun & _ & Hj)].
  cbn [obj m_loggingThread owner] in Hrun, Hj. rewrite (Hj deleting eq_refl) in Hrun.
  eapply leads_cons; [exact Hr|by apply step_exit|]. pose proof (flush_ok l Hl) as Hf. unfold_monad.
  destruct (sink_flush l) as [l'|]; [|done]. intros Hr1. by eapply finished_returns.
Qed.

Lemma writing_returns es a l f sp bs th la deleting :
  run es (mkSystem a (Writing l f sp bs) th la (InStop deleting)) ->
  leads_to es [EWrite; EExit; EJoined] (returned deleting).
Proof.
  intros Hr.
  destruct (inv_run SIZE mem open_log now_text garbage SIZE_ok SIZE_max mem_ok open_ok es _ Hr)
    as [(don & todo & rest & (Hl & _ & _ & -> & Hg & Hc) & _) _].
  eapply leads_cons; [exact Hr|apply step_write|].
  pose proof (write_out_ok SIZE now_text garbage SIZE_ok SIZE_max l sp bs Hl Hg Hc) as Hw. unfold_monad.
  destruct (write_out now_text garbage l None sp bs) as [[[l' f'] s2]|]; [|done].
  intros Hr1. by eapply top_returns.
Qed.

(** Wherever the thread is when the owner waits for it. *)
Lemma stop_returns es a t th la deleting :
  run es (mkSystem a t th la (InStop deleting)) -> exists es', leads_to es es' (returned deleting).
Proof.
  intros Hr.
  destruct (inv_run SIZE mem open_log now_text garbage SIZE_ok SIZE_max mem_ok open_ok es _ Hr)
    as [(don & todo & rest & Ht & Hsh & _) Ho]. unfold owner_inv in Ho.
  cbn [thread obj m_loggingThread m_latch owner] in *.
  destruct t as [| | |l f sp|l f sp|l f sp bs|l].
  - by destruct Ho as (_ & _ & _ & [?|[[?|?] _]]).
  - by destruct Ho as (_ & _ & _ & ? & _).
  - exists [EOpen; EExit; EJoined]. eapply leads_cons; [exact Hr|apply step_open|].
    unfold open_thread. unfold_monad. pose proof open_ok as Hop. pose proof top_returns as Htop.
    destruct open_log as [l|]; [|done]. intros Hr1. by eapply Htop.
  - eexists. by eapply top_returns.
  - exists [EExchange; EWrite; EExit; EJoined]. destruct Ht as (Hl & _ & _ & Hf & Hsp).
    destruct (exchange_shared SIZE a rest f sp Hsh Hf Hsp) as (a' & s' & bs & E & _).
    eapply leads_cons; [exact Hr|apply step_exchange|]. rewrite E. unfold_monad. intros Hr1.
    by eapply writing_returns.
  - eexists. by eapply writing_returns.
  - eexists. by eapply finished_returns.
Qed.
End Leads.

(** C25. The logging thread delivers, and stop returns.  At the top of its loop,
    while the logging runs, the thread can enter the loop, exchange buffers and
    write them, and then, unless the log fails, every line appended before is in
    the log and nothing is pending.  When the owner waits in stop or in the
    destructor, the thread can go on until it has ended and the owner returns,
    unless the log fails, wherever the thread is. *)
Theorem async_round_delivers {T} `{LogSinkLaws T} SIZE mem open_log now_text garbage es s :
  0 < SIZE < 2 ^ 63 -> SIZE <= log_max -> zlen mem = SIZE ->
  match open_log with Ok l => log_good l /\ log_text l = [] | Fault f => log_fails f end ->
  run SIZE mem open_log now_text garbage es s ->
  (forall l f sp, thread s = AtTop l f sp -> m_running (obj s) = true ->
     leads_to SIZE mem open_log now_text garbage es [ECheck; EExchange; EWrite]
       (fun s' => delivered s' = logged SIZE es /\ pending s' = [])) /\
  (forall deleting, owner s = InStop deleting ->
     exists es', leads_to SIZE mem open_log now_text garbage es es'
       (fun s' => owner s' = if deleting then Gone else Idle)).
Proof.
  intros Hs Hm Hmem Hopen Hrun.
  pose proof (inv_run SIZE mem open_log now_text garbage Hs Hm Hmem Hopen es _ Hrun) as Hi.
  destruct s as [a t th la o]. cbn [thread obj owner]. split.
  - intros l f sp -> Hrn.
    destruct Hi as [(don & todo & rest & (Hl & -> & -> & Hf & Hsp) & Hsh & Htx) _]. cbn [obj] in Hsh.
    destruct (exchange_shared SIZE a rest f sp Hsh Hf Hsp)
      as (a' & s' & bs & E & Hsh' & _ & Htx' & Hg & Hc).
    eapply leads_cons; [exact Hrun|by apply step_check|]. intros Hr1.
    eapply leads_cons; [exact Hr1|apply step_exchange|]. rewrite E. unfold_monad. intros Hr2.
    eapply leads_cons; [exact Hr2|apply step_write|].
    pose proof (write_out_ok SIZE now_text garbage Hs Hm l s' bs Hl Hg Hc) as Hw. unfold_monad.
    destruct (write_out now_text garbage l None s' bs) as [[[l' f'] s2]|]; [|done].
    destruct Hw as (_ & Hlt & _). intros Hr3. eapply leads_nil; [exact Hr3|]. split.
    + unfold delivered. cbn [thread]. by rewrite Hlt, Htx, Htx'.
    + destruct Hsh' as [(c & Hc' & _ & Hnil) _]. unfold pending. cbn [thread obj app].
      by rewrite Hc', <- Hnil.
  - intros deleting ->. by eapply stop_returns.
Qed.

(** ** Runs that can be computed *)

Section Exec.
Context (SIZE : Z) {T : Type} `{LogSink T} (mem : bytes) (open_log : outcome T) (now_text garbage : bytes).

(** [None] when the event cannot happen. *)
Definition exec_event (e : event) (s : system (T := T)) : option (outcome (system (T := T))) :=
  let '(mkSystem a t th la o) := s in
  match e, t, o with
  | EAppend line, _, Gone => None
  | EAppend line, _, _ => Some (a ← async_append SIZE line a; Ok (mkSystem a t th la o))
  | EStart created, _, Idle =>
      Some ('(a, th) ← start created a th; Ok (mkSystem a (if created then Started else t) th la InStart))
  | EStarted, _, InStart => if la <=? 0 then Some (Ok (mkSystem a t th la Idle)) else None
  | EBegin, Started, _ => Some (la ← begin_thread a la; Ok (mkSystem a Opening th la o))
  | EOpen, Opening, _ => Some (t ← open_thread mem open_log; Ok (mkSystem a t th la o))
  | ECheck, AtTop l f sp, _ => if m_running a then Some (Ok (mkSystem a (InLoop l f sp) th la o)) else None
  | EExchange, InLoop l f sp, _ =>
      Some ('(a, f, sp, buffs) ← exchange a f sp; Ok (mkSystem a (Writing l f sp buffs) th la o))
  | EWrite, Writing l f sp buffs, _ =>
      Some ('(l, f, sp) ← write_out now_text garbage l f sp buffs;
            Ok (mkSystem a (AtTop l f sp) th la o))
  | EStop, _, Idle => Some ('(a, th) ← stop a th; Ok (mkSystem a t th la (InStop false)))
  | EDelete, _, Idle => Some ('(a, th, o) ← AsyncLogging_delete a th; Ok (mkSystem a t th la o))
  | EJoined, Finished l, InStop deleting =>
      Some (Ok (mkSystem a (Finished l) th la (if deleting then Gone else Idle)))
  | EExit, AtTop l f sp, _ =>
      if m_running a then None else Some (l ← sink_flush l; Ok (mkSystem a (Finished l) th la o))
  | _, _, _ => None
  end.

Fixpoint exec (es : list event) (s : system) : option (outcome system) :=
  match es with
  | [] => Some (Ok s)
  | e :: es =>
      match exec_event e s with Some (Ok s) => exec es s | r => r end
  end.

Lemma exec_event_step e s r : exec_event e s = Some r -> step SIZE mem open_log now_text garbage s e r.
Proof.
  destruct s as [a t th la o].
  destruct e, t, o; cbn [exec_event]; intros E; try discriminate E;
    try (destruct (m_running a) eqn:Hr; try discriminate E);
    try (destruct (Z.leb_spec la 0); try discriminate E);
    injection E as <-; by constructor.
Qed.

Lemma exec_run es s : exec es (init SIZE mem) = Some (Ok s) ->
  run SIZE mem open_log now_text garbage es s.
Proof.
  enough (H' : forall es' s', run SIZE mem open_log now_text garbage es' s' -> exec es s' = Some (Ok s) ->
    run SIZE mem open_log now_text garbage (es' ++ es) s)
    by (intros E; apply (H' [] _ (run_init _ _ _ _ _) E)).
  induction es as [|e es IH]; intros es' s' Hr E; cbn [exec] in E.
  - simplify_eq. by rewrite app_nil_r.
  - destruct (exec_event e s') as [[s1|]|] eqn:E1; simplify_eq.
    rewrite (app_assoc es' [e] es : es' ++ e :: es = (es' ++ [e]) ++ es).
    apply IH with s1; [|done]. eapply run_step; [done|]. by apply exec_event_step.
Qed.
End Exec.

(** The log of the code, a LogFile with a mutex, and buffers of 8 bytes. *)
Definition demo_log : LogSink (LogFile * env) :=
  file_log ticking (fun _ => true) two_bytes None 7 10.
Definition demo_laws : @LogSinkLaws _ demo_log :=
  file_log_laws ticking (fun _ => true) two_bytes None (lit "unknownhost") 7 10 ticking_ok
    (fun _ => eq_refl) two_bytes_progress eq_refl (conj (Pos2Z.is_nonneg 7) eq_refl).
Definition demo_open : outcome (LogFile * env) :=
  LogFile_new ticking (fun _ => true) None 7 0 0 0 0 true 100 (lit "log") 3 1024 env0.
Definition demo_mem : bytes := replicate 8 "?"%char.

Lemma demo_open_ok :
  match demo_open with
  | Ok l => @log_good _ _ demo_laws l /\ @log_text _ _ demo_laws l = []
  | Fault f => @log_fails _ _ demo_laws f
  end.
Proof.
  destruct (LogFile_new_keeps ticking (fun _ => true) None (lit "unknownhost") 7 ticking_ok
    (fun _ => eq_refl) eq_refl ltac:(lia) 0 0 0 0 true 100 (lit "log") 3 1024)
    as (l & e & E & Hk & Hmu); [lia..|]. unfold demo_open. rewrite E. split.
  - split; [by exists []|]. cbn [fst]. by rewrite Hmu.
  - exact (k_text _ _ _ _ _ Hk).
Qed.

(** Appends before and after the thread starts, one while it writes. *)
Definition demo_events : list event :=
  [EAppend (lit "early "); EStart true; EBegin; EOpen; EStarted; EAppend (lit "first "); ECheck; EExchange; EAppend (lit "second ");
   EWrite; EAppend (lit "third")].

Abbreviation demo_final :=
  (@exec 8 _ demo_log demo_mem demo_open [] [] demo_events (init 8 demo_mem)).

Lemma demo_final_ok :
  match demo_final with
  | Some (Ok s) => match thread s with AtTop _ _ _ => m_running (obj s) | _ => false end
  | _ => false
  end = true.
Proof. vm_compute. reflexivity. Qed.

Lemma async_log_keeps_lines_witness :
  exists s, demo_final = Some (Ok s) /\
    @delivered _ _ demo_laws s ++ pending s = logged 8 demo_events /\
    forall e f, @step 8 _ demo_log demo_mem demo_open [] [] s e (Fault f) ->
      @known_fault 8 _ _ demo_laws s e f.
Proof.
  pose proof demo_final_ok as Hf. destruct demo_final as [[s|f]|] eqn:E; try discriminate Hf.
  exists s. split; [reflexivity|].
  apply (@async_log_keeps_lines _ demo_log demo_laws 8 demo_mem demo_open [] [] demo_events s).
  - lia.
  - vm_compute. discriminate.
  - reflexivity.
  - exact demo_open_ok.
  - apply exec_run. exact E.
Defined.

Lemma async_round_delivers_witness :
  exists s, demo_final = Some (Ok s) /\
    @leads_to _ demo_log demo_laws 8 demo_mem demo_open [] [] demo_events [ECheck; EExchange; EWrite]
      (fun s' => @delivered _ _ demo_laws s' = logged 8 demo_events /\ pending s' = []).
Proof.
  pose proof demo_final_ok as Hf. destruct demo_final as [[s|f]|] eqn:E; try discriminate Hf.
  destruct (thread s) as [| | |l f sp| | |] eqn:Et; try discriminate Hf.
  exists s. split; [reflexivity|].
  apply (@async_round_delivers _ demo_log demo_laws 8 demo_mem demo_open [] [] demo_events s) with l f sp.
  - lia.
  - vm_compute. discriminate.
  - reflexivity.
  - exact demo_open_ok.
  - apply exec_run. exact E.
  - exact Et.
  - exact Hf.
Defined.

(** ** Behaviour that callers may not expect *)

(** A third buffer before the logging thread has come by: the third branch of
    append resets the pointer that it has just released. *)
Lemma append_beyond_two_buffers :
  @exec 8 _ demo_log demo_mem demo_open [] []
    [EAppend (lit "12345678"); EAppend (lit "12345678"); EAppend (lit "12345678")] (init 8 demo_mem) =
  Some (Fault Undefined).
Proof. vm_compute. reflexivity. Qed.

(** Lines appended after the last exchange are lost when the logging stops. *)
Lemma stop_loses_lines :
  match @exec 8 _ demo_log demo_mem demo_open [] []
          (demo_events ++ [EStop; EExit; EJoined]) (init 8 demo_mem) with
  | Some (Ok s) => (@delivered _ _ demo_laws s, pending s,
                    match thread s with Finished _ => true | _ => false end)
  | _ => ([], [], false)
  end = (lit "early first ", lit "second third", true).
Proof. vm_compute. reflexivity. Qed.

(** When pthread_create fails, start waits for ever: from then on other threads
    can append, and nothing else can happen. *)
Lemma start_without_thread {T} `{LogSink T} SIZE mem open_log now_text garbage a th :
  step SIZE mem open_log now_text garbage (init SIZE mem) (EStart false)
    (Ok (mkSystem a NotStarted th 1 InStart)) ->
  forall e r, step SIZE mem open_log now_text garbage (mkSystem a NotStarted th 1 InStart) e r ->
    exists line, e = EAppend line /\
      forall s, r = Ok s -> exists a', s = mkSystem a' NotStarted th 1 InStart.
Proof.
  intros _ e r Hst. inversion Hst as [line a1 t th1 la o Hg| | | | | | | | | | |]; subst; [|lia].
  exists line. split; [done|]. intros s Hs. unfold_monad. revert Hs.
  destruct (async_append SIZE line a); [|done]. intros [= <-]. by eexists.
Qed.
