(* ===== verification/Globals.v ===== *)
(** Objects that exist once, or once per thread, and exceptions:
    base/Singleton.h, base/ThreadLocal.h, base/ThreadLocalSingleton.h and
    base/Exception.h, base/Exception.cc.

    Objects are numbered in the order in which they are made.  A pthread key is
    a map from threads to pointers: when a thread ends, its pointer is cleared
    and the key's destructor is called with it.  pthread_once runs its function
    once, before any call of it returns.  The destructors delete a key itself;
    the sources pass its address, which does not compile.

    The three templates check that T is complete, but the wrong way round: the
    check rejects every type whose size is not 0 ([complete_type_rejected]).  A
    function that contains it takes the size of T, and is a fault when the check
    fails; what the templates do otherwise is proved for the size 0, which a
    struct may have in GNU C++. *)
From Stdlib Require Import ZArith Lia Ascii String.
From stdpp Require Import base list strings gmap sets.
From S2P Require Import Prelude.
From S2P Require Import CLib.

(** ** new and delete *)

Record heap := mkHeap { made : nat; live : gset nat; deleted : list nat }.
Definition heap0 : heap := mkHeap 0 ∅ [].

Definition new_T (h : heap) : nat * heap :=
  (made h, mkHeap (S (made h)) ({[made h]} ∪ live h) (deleted h)).
Definition delete_T (p : nat) (h : heap) : outcome heap :=
  if bool_decide (p ∈ live h) then Ok (mkHeap (made h) (live h ∖ {[p]}) (deleted h ++ [p]))
  else Fault Undefined.

(** typedef char TMustBeCompleteType[sizeof(T) ? -1 : 1]: an array may not have a
    negative size. *)
Definition TMustBeCompleteType (sizeof_T : Z) : outcome unit :=
  let size := if negb (sizeof_T =? 0)%Z then (-1)%Z else 1%Z in
  if (size <? 0)%Z then Fault DoesNotCompile else Ok tt.

(** ** Singleton *)

(** Whether Init has run, m_value, and how often Destroy is registered with
    atexit. *)
Record singleton := mkSingleton { m_ponce : bool; m_value : option nat; at_exit : nat }.
Definition singleton0 : singleton := mkSingleton false None 0.

Definition Singleton_Init (s : singleton) (h : heap) : singleton * heap :=
  let '(p, h) := new_T h in (mkSingleton (m_ponce s) (Some p) (S (at_exit s)), h).

Definition Singleton_instance (s : singleton) (h : heap) : outcome (nat * singleton * heap) :=
  let '(s, h) :=
    if m_ponce s then (s, h)
    else let '(s, h) := Singleton_Init s h in (mkSingleton true (m_value s) (at_exit s), h) in
  match m_value s with Some p => Ok (p, s, h) | None => Fault Undefined end.

Definition Singleton_Destroy (sizeof_T : Z) (s : singleton) (h : heap) : outcome heap :=
  _ ← TMustBeCompleteType sizeof_T;
  match m_value s with Some p => delete_T p h | None => Ok h end.

(** ** ThreadLocal *)

Abbreviation thread := nat (only parsing).
Abbreviation key := (gmap nat nat).

Record ThreadLocal := mkThreadLocal { m_pkey : key }.

Definition ThreadLocal_new : ThreadLocal := mkThreadLocal ∅.
Definition ThreadLocal_value (t : thread) (l : ThreadLocal) (h : heap) : outcome (nat * ThreadLocal * heap) :=
  match m_pkey l !! t with
  | Some value => Ok (value, l, h)
  | None =>
      let '(new_value, h) := new_T h in
      Ok (new_value, mkThreadLocal (<[t := new_value]> (m_pkey l)), h)
  end.
Definition ThreadLocal_destructor (sizeof_T : Z) (obj : nat) (h : heap) : outcome heap :=
  _ ← TMustBeCompleteType sizeof_T;
  delete_T obj h.

(** The end of a thread. *)
Definition ThreadLocal_exit (sizeof_T : Z) (t : thread) (l : ThreadLocal) (h : heap)
  : outcome (ThreadLocal * heap) :=
  match m_pkey l !! t with
  | Some obj => h ← ThreadLocal_destructor sizeof_T obj h; Ok (mkThreadLocal (delete t (m_pkey l)), h)
  | None => Ok (l, h)
  end.

(** The destructor.  pthread_key_delete forgets the pointers without calling the
    key's destructor on them, then or when their threads end; it takes the key,
    where the code passes its address. *)
Definition ThreadLocal_delete (l : ThreadLocal) : ThreadLocal := mkThreadLocal ∅.

(** ** ThreadLocalSingleton *)

(** m_t_value in each thread, and the key of m_deleter. *)
Record ThreadLocalSingleton := mkTLS { m_t_value : gmap nat nat; m_deleter : key }.
Definition tls0 : ThreadLocalSingleton := mkTLS ∅ ∅.

Definition Deleter_set (t : thread) (obj : nat) (s : ThreadLocalSingleton) : outcome ThreadLocalSingleton :=
  _ ← assert_ (bool_decide (m_deleter s !! t = None));
  Ok (mkTLS (m_t_value s) (<[t := obj]> (m_deleter s))).

(** ~Deleter, at the end of the program. *)
Definition Deleter_delete (s : ThreadLocalSingleton) : ThreadLocalSingleton :=
  mkTLS (m_t_value s) ∅.

Definition pointer (t : thread) (s : ThreadLocalSingleton) : option nat := m_t_value s !! t.

Definition TLS_instance (t : thread) (s : ThreadLocalSingleton) (h : heap)
  : outcome (nat * ThreadLocalSingleton * heap) :=
  '(s, h) ←
    match m_t_value s !! t with
    | Some _ => Ok (s, h)
    | None =>
        let '(p, h) := new_T h in
        let s := mkTLS (<[t := p]> (m_t_value s)) (m_deleter s) in
        s ← Deleter_set t p s; Ok (s, h)
    end;
  match m_t_value s !! t with Some p => Ok (p, s, h) | None => Fault Undefined end.

Definition TLS_destructor (sizeof_T : Z) (t : thread) (obj : nat) (s : ThreadLocalSingleton) (h : heap)
  : outcome heap :=
  _ ← assert_ (bool_decide (Some obj = m_t_value s !! t));
  _ ← TMustBeCompleteType sizeof_T;
  delete_T obj h.

(** The end of a thread; its __thread variables end with it. *)
Definition TLS_exit (sizeof_T : Z) (t : thread) (s : ThreadLocalSingleton) (h : heap)
  : outcome (ThreadLocalSingleton * heap) :=
  match m_deleter s !! t with
  | Some obj =>
      let s := mkTLS (m_t_value s) (delete t (m_deleter s)) in
      h ← TLS_destructor sizeof_T t obj s h;
      Ok (mkTLS (delete t (m_t_value s)) (m_deleter s), h)
  | None => Ok (mkTLS (delete t (m_t_value s)) (m_deleter s), h)
  end.

(** ** Exception *)

Record Exception := mkException { message_ : bytes; stack_ : bytes }.

(** The loop of fillStackTrack, over what backtrace_symbols returns for the
    at most 200 innermost frames; None is a null pointer. *)
Definition fillStackTrack (strings : option (list bytes)) (e : Exception) : Exception :=
  match strings with
  | Some frames =>
      mkException (message_ e) (foldl (fun s f => s ++ f ++ ["010"%char]) (stack_ e) (take 200 frames))
  | None => e
  end.
Definition Exception_new (strings : option (list bytes)) (what_str : bytes) : Exception :=
  fillStackTrack strings (mkException what_str []).
(** The const char* that what() and stackTrace() return, as a C string. *)
Definition what (e : Exception) : outcome bytes := c_string (message_ e ++ [NUL]).
Definition stackTrace (e : Exception) : outcome bytes := c_string (stack_ e ++ [NUL]).

(** ** What per-thread objects promise *)

(** [pt_key]: the object of each thread. *)
Class PerThread (T : Type) := {
  pt_new : T;
  pt_get : thread -> T -> heap -> outcome (nat * T * heap);
  pt_end : thread -> T -> heap -> outcome (T * heap);
  pt_wf : T -> Prop;
  pt_key : T -> key;
  pt_new_ok : pt_wf pt_new /\ pt_key pt_new = ∅;
  pt_get_owned : forall t s h p, pt_wf s -> pt_key s !! t = Some p -> pt_get t s h = Ok (p, s, h);
  pt_get_fresh : forall t s h, pt_wf s -> pt_key s !! t = None -> exists s',
    pt_get t s h = Ok (fst (new_T h), s', snd (new_T h)) /\ pt_wf s' /\
    pt_key s' = <[t := fst (new_T h)]> (pt_key s);
  pt_end_ok : forall t s h, pt_wf s -> exists s', pt_wf s' /\ pt_key s' = delete t (pt_key s) /\
    pt_end t s h = match pt_key s !! t with
                   | Some p => h ← delete_T p h; Ok (s', h)
                   | None => Ok (s', h)
                   end
}.

#[export, refine] Instance thread_local_per_thread : PerThread ThreadLocal := {
  pt_new := ThreadLocal_new;
  pt_get := ThreadLocal_value;
  pt_end := ThreadLocal_exit 0;
  pt_wf := fun _ => True;
  pt_key := m_pkey
}.
Proof.
  - done.
  - intros t s h p _ Hp. unfold ThreadLocal_value. by rewrite Hp.
  - intros t s h _ Hp. unfold ThreadLocal_value. rewrite Hp. by eexists.
  - intros t [l] h _. unfold ThreadLocal_exit, ThreadLocal_destructor. cbn [m_pkey].
    exists (mkThreadLocal (delete t l)). split; [done|]. split; [done|].
    destruct (l !! t) eqn:E; [done|]. by rewrite delete_id.
Defined.

#[export, refine] Instance tls_per_thread : PerThread ThreadLocalSingleton := {
  pt_new := tls0;
  pt_get := TLS_instance;
  pt_end := TLS_exit 0;
  pt_wf := fun s => m_t_value s = m_deleter s;
  pt_key := m_t_value
}.
Proof.
  - done.
  - intros t s h p _ Hp. unfold TLS_instance. unfold_monad. by rewrite !Hp.
  - intros t s h Hw Hp. unfold TLS_instance, Deleter_set. rewrite Hp. cbn [new_T m_deleter m_t_value].
    rewrite <- Hw, bool_decide_eq_true_2 by done. unfold_monad. cbn [m_t_value].
    rewrite lookup_insert_eq. eexists. split; [done|]. cbn. by rewrite Hw.
  - intros t s h Hw. unfold TLS_exit, TLS_destructor. cbn [m_t_value m_deleter].
    exists (mkTLS (delete t (m_t_value s)) (delete t (m_deleter s))).
    split; [cbn; by rewrite Hw|]. split; [done|]. rewrite <- Hw.
    destruct (m_t_value s !! t) as [p|] eqn:E.
    + rewrite bool_decide_eq_true_2 by done. done.
    + by rewrite (delete_id (m_t_value s)) by done.
Defined.

(** Threads use their object, and end. *)
Inductive pt_event := Use (t : thread) | End (t : thread).

(** The objects that the uses return, in order. *)
Fixpoint pt_run {T} `{PerThread T} (evs : list pt_event) (s : T) (h : heap)
  : outcome (list nat * T * heap) :=
  match evs with
  | [] => Ok ([], s, h)
  | Use t :: evs => '(p, s, h) ← pt_get t s h; '(ps, s, h) ← pt_run evs s h; Ok (p :: ps, s, h)
  | End t :: evs => '(s, h) ← pt_end t s h; pt_run evs s h
  end.

(** The specification: [m] is the object of each thread, [n] how many there
    have been. *)
Fixpoint owners_run (evs : list pt_event) (m : gmap nat nat) (n : nat) : list nat * gmap nat nat * nat :=
  match evs with
  | [] => ([], m, n)
  | Use t :: evs =>
      match m !! t with
      | Some p => let '(ps, m, n) := owners_run evs m n in (p :: ps, m, n)
      | None => let '(ps, m, k) := owners_run evs (<[t := n]> m) (S n) in (n :: ps, m, k)
      end
  | End t :: evs => owners_run evs (delete t m) n
  end.

(** Every object has one owner or has been deleted, once. *)
Record owned (m : gmap nat nat) (n : nat) (h : heap) : Prop := {
  ow_made : made h = n;
  ow_live : forall p, p ∈ live h <-> exists t, m !! t = Some p;
  ow_one : forall t1 t2 p, m !! t1 = Some p -> m !! t2 = Some p -> t1 = t2;
  ow_once : NoDup (deleted h);
  ow_all : forall p, p < n <-> (p ∈ live h) \/ (p ∈ deleted h);
  ow_apart : forall p, p ∈ live h -> p ∉ deleted h
}.

Lemma owned0 : owned ∅ 0 heap0.
Proof.
  constructor; cbn; [done| |by intros t1 t2 p H|by apply NoDup_nil_2| |].
  - intros p. split; [set_solver|]. intros [t Ht]. by rewrite lookup_empty in Ht.
  - intros p. split; [lia|]. intros [H|H]; [set_solver|by apply not_elem_of_nil in H].
  - intros p H. set_solver.
Qed.

Lemma owned_new m n h t : owned m n h -> m !! t = None ->
  owned (<[t := n]> m) (S n) (snd (new_T h)).
Proof.
  intros [Hm Hl Ho Hd Ha Hx] Ht. cbn [new_T snd].
  assert (Hn : forall t', m !! t' <> Some n).
  { intros t' H. assert (n ∈ live h) as Hin by (apply Hl; by exists t').
    pose proof (proj2 (Ha n) (or_introl Hin)). lia. }
  constructor; cbn [made live deleted]; rewrite ?Hm; [done| | |done| |].
  - intros p. rewrite elem_of_union, elem_of_singleton, Hl. split.
    + intros [->|[t' H]]; [exists t; by rewrite lookup_insert_eq|].
      exists t'. rewrite lookup_insert_ne; [done|]. congruence.
    + intros [t' H]. apply lookup_insert_Some in H as [[_ ->]|[_ H]]; [by left|right; by exists t'].
  - intros t1 t2 p H1 H2. apply lookup_insert_Some in H1 as [[<- <-]|[_ H1]];
      apply lookup_insert_Some in H2 as [[<- H2]|[_ H2]]; try done; [by apply Hn in H2| |by eapply Ho].
    subst p. by apply Hn in H1.
  - intros p. rewrite elem_of_union, elem_of_singleton. rewrite Nat.lt_succ_r, Nat.le_lteq, Ha. tauto.
  - intros p Hp Hin. apply elem_of_union in Hp as [Hp|Hp]; [|by apply (Hx p)].
    apply elem_of_singleton in Hp as ->. pose proof (proj2 (Ha n) (or_intror Hin)). lia.
Qed.

Lemma owned_end m n h t p : owned m n h -> m !! t = Some p ->
  exists h', delete_T p h = Ok h' /\ owned (delete t m) n h'.
Proof.
  intros [Hm Hl Ho Hd Ha Hx] Ht. unfold delete_T.
  assert (Hp : p ∈ live h) by (apply Hl; by exists t).
  rewrite bool_decide_eq_true_2 by done. eexists. split; [done|].
  constructor; cbn [made live deleted]; [done| | | | |].
  - intros q. rewrite elem_of_difference, elem_of_singleton, Hl. split.
    + intros [[t' H] Hq]. exists t'. rewrite lookup_delete_ne; [done|]. intros <-. congruence.
    + intros [t' H]. apply lookup_delete_Some in H as [Hne H]. split; [by exists t'|].
      intros ->. apply Hne. by eapply Ho.
  - intros t1 t2 q H1 H2. apply lookup_delete_Some in H1 as [_ H1], H2 as [_ H2]. by eapply Ho.
  - apply NoDup_app. split; [done|]. split; [|by apply NoDup_singleton].
    intros q Hq Hs. apply list_elem_of_singleton in Hs as ->. by apply (Hx p).
  - intros q. rewrite elem_of_difference, elem_of_app, list_elem_of_singleton, elem_of_singleton, Ha.
    destruct (decide (q = p)) as [->|]; tauto.
  - intros q Hq. apply elem_of_difference in Hq as [Hq Hne]. rewrite elem_of_app, list_elem_of_singleton.
    intros [H|H]; [by apply (Hx q)|]. apply Hne. by apply elem_of_singleton.
Qed.

Lemma pt_run_ok {T} `{PerThread T} evs : forall s h n, pt_wf s -> owned (pt_key s) n h ->
  let '(ps, m, n') := owners_run evs (pt_key s) n in
  exists s' h', pt_run evs s h = Ok (ps, s', h') /\ pt_key s' = m /\ owned m n' h'.
Proof.
  induction evs as [|[t|t] evs IH]; intros s h n Hw Ho; cbn [owners_run pt_run].
  - by do 2 eexists.
  - destruct (pt_key s !! t) as [p|] eqn:E.
    + rewrite (pt_get_owned t s h p Hw E). unfold_monad. specialize (IH s h n Hw Ho).
      destruct (owners_run evs _ n) as [[ps m] n']. destruct IH as (s' & h' & -> & Hk & Ho').
      by do 2 eexists.
    + destruct (pt_get_fresh t s h Hw E) as (s1 & -> & Hw1 & Hk1). unfold_monad.
      rewrite (ow_made _ _ _ Ho : fst (new_T h) = n) in *.
      assert (Ho1 : owned (pt_key s1) (S n) (snd (new_T h))) by (rewrite Hk1; by apply owned_new).
      specialize (IH s1 (snd (new_T h)) (S n) Hw1 Ho1). rewrite Hk1 in IH.
      destruct (owners_run evs _ (S n)) as [[ps m] n']. destruct IH as (s' & h' & -> & Hk & Ho').
      by do 2 eexists.
  - destruct (pt_end_ok t s h Hw) as (s1 & Hw1 & Hk1 & ->). rewrite <- Hk1.
    destruct (pt_key s !! t) as [p|] eqn:E.
    + destruct (owned_end _ _ _ _ _ Ho E) as (h1 & -> & Ho1). unfold_monad.
      rewrite <- Hk1 in Ho1. by apply IH.
    + unfold_monad. apply IH; [done|]. by rewrite Hk1, delete_id.
Qed.

(** ** Properties *)

(** Objects per thread stay with their threads, for a type of size 0.  ThreadLocal and
    ThreadLocalSingleton behave alike, however the threads' uses and ends
    interleave: no assert fails and nothing is deleted twice; the uses return
    the objects of the specification, by which a thread gets an object at its
    first use and the same one until it ends; no two threads share an object;
    and every object made is owned by one thread or has been deleted, once. *)
Theorem per_thread_objects evs :
  let '(objects, m, n) := owners_run evs ∅ 0 in
  (exists l h, pt_run evs ThreadLocal_new heap0 = Ok (objects, l, h) /\ m_pkey l = m /\ owned m n h) /\
  (exists s h, pt_run evs tls0 heap0 = Ok (objects, s, h) /\ m_t_value s = m /\ owned m n h).
Proof.
  pose proof (pt_run_ok (T := ThreadLocal) evs ThreadLocal_new heap0 0 I owned0) as H1.
  pose proof (pt_run_ok (T := ThreadLocalSingleton) evs tls0 heap0 0 eq_refl owned0) as H2.
  cbn [pt_key thread_local_per_thread tls_per_thread] in H1, H2.
  change (m_pkey ThreadLocal_new) with (∅ : gmap nat nat) in H1.
  change (m_t_value tls0) with (∅ : gmap nat nat) in H2.
  destruct (owners_run evs ∅ 0) as [[ps m] n]. by split.
Qed.

Lemma per_thread_example :
  owners_run [Use 7; Use 8; Use 7; End 7; Use 7] ∅ 0 = ([0; 1; 0; 2], <[7 := 2]> {[8 := 1]}, 3) /\
  match pt_run [Use 7; Use 8; Use 7; End 7; Use 7; End 8] tls0 heap0 with
  | Ok (_, _, h) => deleted h
  | Fault _ => []
  end = [0; 1].
Proof. split; vm_compute; reflexivity. Qed.

(** When the key has been deleted, the threads that still run keep their objects,
    and their ends no longer delete them: the objects that were live remain. *)
Lemma deleted_key_leaks threads l s h :
  pt_run (map End threads) (ThreadLocal_delete l) h = Ok ([], ThreadLocal_delete l, h) /\
  exists s', pt_run (map End threads) (Deleter_delete s) h = Ok ([], s', h) /\
    forall t p, pointer t (Deleter_delete s) = Some p ->
      pt_get t (Deleter_delete s) h = Ok (p, Deleter_delete s, h).
Proof.
  split; [|].
  - induction threads as [|t ts IH]; [done|]. cbn [map pt_run pt_end thread_local_per_thread].
    unfold ThreadLocal_exit. cbn [ThreadLocal_delete m_pkey]. rewrite lookup_empty. exact IH.
  - assert (Hends : forall m, exists s', pt_run (map End threads) (mkTLS m ∅) h = Ok ([], s', h)).
    { induction threads as [|t ts IH]; intros m; [by eexists|]. cbn [map pt_run pt_end tls_per_thread].
      unfold TLS_exit. cbn [m_deleter m_t_value]. rewrite lookup_empty. apply IH. }
    destruct (Hends (m_t_value s)) as [s' E]. exists s'. split; [exact E|].
    intros t p Hp. cbn [pt_get tls_per_thread]. unfold TLS_instance, pointer, Deleter_delete in *.
    cbn [m_t_value] in *. rewrite Hp. unfold_monad. cbn [m_t_value]. by rewrite Hp.
Qed.

(** The check fails for every other size, so that the destructors of the three
    templates are ill-formed for every T that has members. *)
Lemma complete_type_rejected sizeof_T : sizeof_T <> 0%Z ->
  (forall s h, Singleton_Destroy sizeof_T s h = Fault DoesNotCompile) /\
  (forall obj h, ThreadLocal_destructor sizeof_T obj h = Fault DoesNotCompile) /\
  (forall t obj s h, m_t_value s !! t = Some obj ->
     TLS_destructor sizeof_T t obj s h = Fault DoesNotCompile).
Proof.
  intros Hs. assert (Hc : TMustBeCompleteType sizeof_T = Fault DoesNotCompile).
  { unfold TMustBeCompleteType. by destruct (Z.eqb_spec sizeof_T 0). }
  unfold Singleton_Destroy, ThreadLocal_destructor, TLS_destructor. rewrite Hc.
  split_and!; [done|done|]. intros t obj s h ->. by rewrite bool_decide_eq_true_2.
Qed.

(** A singleton's object is made by the first call and returned by all, and the
    one handler that is registered deletes it. *)
Lemma singleton_once k :
  let fix calls k s h :=
    match k with
    | O => Ok ([], s, h)
    | S k => '(p, s, h) ← Singleton_instance s h; '(ps, s, h) ← calls k s h; Ok (p :: ps, s, h)
    end in
  exists s h, calls (S k) singleton0 heap0 = Ok (repeat 0 (S k), s, h) /\ at_exit s = 1 /\
    Singleton_Destroy 0 s h = Ok (mkHeap 1 ∅ [0]).
Proof.
  intros calls.
  assert (Hc : forall h, calls k (mkSingleton true (Some 0) 1) h =
    Ok (repeat 0 k, mkSingleton true (Some 0) 1, h)).
  { intros h. clear. induction k as [|k IH]; [done|]. cbn [calls]. unfold Singleton_instance.
    cbn [m_ponce m_value]. unfold_monad. fold calls. by rewrite IH. }
  change (calls (S k) singleton0 heap0) with
    ('(ps, s, h) ← calls k (mkSingleton true (Some 0) 1) (snd (new_T heap0)); Ok (0 :: ps, s, h)).
  rewrite Hc. do 2 eexists. split; [done|]. split; [done|]. vm_compute. reflexivity.
Qed.

(** what() gives back the text of an exception, and the stack trace is one
    line for each frame. *)
Lemma exception_texts strings text : NUL ∉ text -> Forall (fun f => NUL ∉ f) strings ->
  length strings <= 200 ->
  let e := Exception_new (Some strings) text in
  what e = Ok text /\ stackTrace e = Ok (List.concat (map (fun f => f ++ ["010"%char]) strings)).
Proof.
  intros Ht Hs Hl. unfold Exception_new, fillStackTrack, what, stackTrace. cbn [message_ stack_].
  rewrite firstn_all2 by done. rewrite (c_string_app text []) by done. split; [done|].
  assert (Hf : forall acc, foldl (fun s f => s ++ f ++ ["010"%char]) acc strings =
    acc ++ List.concat (map (fun f => f ++ ["010"%char]) strings)).
  { clear. induction strings as [|f l IH]; intros acc; cbn; [by rewrite app_nil_r|].
    by rewrite IH, <- !app_assoc. }
  rewrite Hf. cbn [app]. rewrite c_string_app; [done|].
  induction Hs as [|f l Hf1 _ IH]; [by apply not_elem_of_nil|]. cbn.
  rewrite !not_elem_of_app. split; [split; [done|by apply (bool_decide_unpack _)]|].
  apply IH; [cbn in Hl; lia|]. clear. induction l as [|f l IH]; intros acc; cbn; [by rewrite app_nil_r|].
  by rewrite IH, <- !app_assoc.
Qed.
