(* ===== verification/LogFileTest.v ===== *)
(** The logger writing to a log file: base/tests/LogFile_test.cc.

    The program composes base/Logging, base/LogStream, base/Timestamp,
    base/LogFile and base/FileUtil: its main makes a thread-safe LogFile,
    installs functions that pass lines and flushes to it, and logs in a loop.
    What its output functions act on ([world]) is the log file, or the fault in
    which a call of it has ended.  The theorem holds for any number of
    iterations; the program makes [iterations]. *)
From Stdlib Require Import ZArith Lia Ascii String.
From stdpp Require Import base list strings gmap.
From S2P Require Import Prelude CLib Date LogStream Timestamp TimeZone FileUtil ProcessInfo LogFile.
From S2P Require Import Threads Logging.

#[local] Open Scope Z_scope.

(** strncpy(name, s, n) into n bytes, and the GNU basename. *)
Definition strncpy (s : bytes) (n : nat) : bytes := take n (s ++ replicate n NUL).
Definition basename (path : bytes) : bytes :=
  match strrchr path "/" with Some slash => drop (slash + 1) path | None => path end.

(** g_logfile. *)
Abbreviation world := (outcome (LogFile * env)).

Section Program.
(** The system of LogFile.v and the environment of Logging.v. *)
Variable time : nat -> Z.
Variable fopen_ok : bytes -> bool.
Variable fwrite_unlocked : nat -> bytes -> nat * bool.
Variable host_name : option bytes.
Variable pid : Z.
Variable fuel : nat.
Variable gettid : Z.
Variable strerror : Z -> bytes.
Variable junk : bytes.
Variable junk_tm : tm.
(** gettimeofday in each iteration, and __FILE__. *)
Variable clock : Z -> timeval.
Variable file : bytes.

Definition outputFunc (logline : bytes) (w : world) : world :=
  '(l, e) ← w;
  '(_, l, e) ← append time fopen_ok fwrite_unlocked host_name pid fuel logline l e;
  Ok (l, e).

Definition flushFunc (w : world) : world :=
  '(l, e) ← w;
  '(_, l, e) ← flush l e;
  Ok (l, e).

Definition line : bytes := lit "0123456789abcdefghijklmnopqrstuvwxyz".
Definition iterations : nat := 100000.

(** for(int i ...) { LOG_INFO << line << i; usleep(100); }, with [n] iterations
    left. *)
Fixpoint loop (g : @globals world) (n : nat) (i : Z) (t : log_tls) (w : world)
  : outcome (log_tls * world) :=
  match n with
  | O => Ok (t, w)
  | S n =>
      '(t, (w, _)) ← LOG_INFO gettid strerror junk junk_tm g (clock i) file 27
                       [IString line; IInt i] t w;
      loop g n (i + 1) t w
  end.

(** main; [start] to [count] are what the unset members of the LogFile happen to
    hold.  A fault of the log file's constructor ends the program. *)
Definition test_main (g : @globals world) (start flush0 roll count : Z) (argv0 : bytes) (n : nat)
  : outcome (log_tls * world) :=
  name ← c_string (strncpy argv0 256);
  w ← LogFile_new time fopen_ok host_name pid start flush0 roll count true (10 * 1024)
        (basename name) 3 1024 env0;
  loop (setFlush flushFunc (setOutput outputFunc g)) n 0 log_tls_init (Ok w).

(** ** Lemmas *)

(** The text that an iteration logs. *)
Definition logged_pieces (base : bytes) (i : Z) : list piece :=
  head_pieces strerror gettid (tv_sec (clock i)) (tv_usec (clock i)) 0 INFO ++
  List.map item_piece [IString line; IInt i] ++ tail_pieces base 27.
Definition logged (base : bytes) (i : Z) : bytes :=
  List.concat (List.map repr (logged_pieces base i)).

Variable host : bytes.
Variable base : bytes.
Hypothesis clock_in_range : forall i, clock_ok (time i).
Hypothesis clock_steps : forall i, time (S i) - time i < 3.
Hypothesis fopen_succeeds : forall name, fopen_ok name = true.
Hypothesis fwrite_progresses : fwrite_progress fwrite_unlocked.
Hypothesis host_known : hostname host_name = Ok host.
Hypothesis pid_in_range : 0 <= pid < 2 ^ 31.
Hypothesis enough_fuel : kSmallBuffer < Z.of_nat fuel.
Hypothesis gettid_in_range : 0 < gettid < 2 ^ 31.
Hypothesis strerror_text : NUL ∉ strerror 0.
Hypothesis junk_size : zlen junk = kSmallBuffer.
Hypothesis times_of_day : forall i, 0 <= i < 2 ^ 31 ->
  log_clock_ok (tv_sec (clock i)) /\ 0 <= tv_usec (clock i) < 1000000.
Hypothesis file_name : base_name file base /\ (NUL ∉ file) /\ zlen file < 1000.

Lemma logged_size i : 0 <= i < 2 ^ 31 ->
  total_need (logged_pieces base i) <= kSmallBuffer /\ 36 <= zlen (logged base i) <= kSmallBuffer.
Proof.
  intros Hi. destruct (times_of_day i Hi) as [Hsec Hus]. unfold log_clock_ok in Hsec.
  destruct (time_text_ok (tv_sec (clock i)) ltac:(lia)) as [H17 _].
  destruct (fmt_0wd_field 6 (tv_usec (clock i)) ltac:(simpl; lia) ltac:(lia)) as [H6 _].
  destruct (tid_text_ok gettid gettid_in_range) as [Htid _].
  pose proof (zlen_dec i ltac:(simpl in *; lia)) as Hdec.
  destruct file_name as ([_ Hb] & _ & Hlen).
  assert (Hbase : 0 <= zlen base < 1000).
  { split; [apply zlen_nonneg|]. destruct Hb as [<-|[dir ->]]; [done|].
    rewrite zlen_app, zlen_cons in Hlen. pose proof (zlen_nonneg dir). lia. }
  assert (H10 : zlen (lit "." ++ fmt_0wd 6 (tv_usec (clock i)) ++ lit "Z ") = 9)
    by (unfold zlen; rewrite !length_app, H6; done).
  assert (Hlogged : logged base i =
    time_text (gmtime_r (tv_sec (clock i))) ++
    (lit "." ++ fmt_0wd 6 (tv_usec (clock i)) ++ lit "Z ") ++ tid_text gettid ++ lit "INFO  " ++
    line ++ dec_of_Z i ++ lit "-" ++ base ++ lit ":" ++ dec_of_Z 27 ++ ["010"%char]) by reflexivity.
  split.
  - unfold logged_pieces, head_pieces, error_pieces, tail_pieces, text_piece, number_piece.
    cbn [Z.eqb app total_need need List.map item_piece text_piece number_piece]. rewrite H17, H10. unfold kMaxNumericSize, kSmallBuffer.
    change (zlen line) with 36. cbn [default LogLevelName level_value].
    change (zlen (default [] _)) with 6. change (zlen (lit "-")) with 1.
    change (zlen (lit ":")) with 1. change (zlen ["010"%char]) with 1. lia.
  - rewrite Hlogged, !zlen_app in *. rewrite H17, H10. unfold kSmallBuffer.
    change (zlen (lit "INFO  ")) with 6. change (zlen line) with 36. change (zlen (lit "-")) with 1.
    change (zlen (lit ":")) with 1. change (zlen ["010"%char]) with 1.
    change (zlen (dec_of_Z 27)) with 2. lia.
Qed.

(** One iteration, in a program that has logged [text]. *)
Lemma iteration g i t l e text :
  TimeZone.valid (g_logTimeZone g) = false -> level_value (logLevel g) <= level_value INFO ->
  0 <= i < 2 ^ 31 -> log_ok gettid t -> keeping host pid l e text -> calm time 10 l e (zlen text) ->
  m_mutexLock l = Some false -> zlen text < 2 ^ 63 ->
  exists t' l' e',
    LOG_INFO gettid strerror junk junk_tm (setFlush flushFunc (setOutput outputFunc g)) (clock i) file
      27 [IString line; IInt i] t (Ok (l, e)) = Ok (t', (Ok (l', e'), false)) /\
    log_ok gettid t' /\ keeping host pid l' e' (text ++ logged base i) /\
    calm time 10 l' e' (zlen (text ++ logged base i)) /\ m_mutexLock l' = Some false.
Proof.
  intros Htz Hlevel Hi Ht Hk Hc Hmu Htext. destruct (times_of_day i Hi) as [Hsec Hus].
  destruct file_name as (Hb & Hnul & Hlen). destruct (logged_size i Hi) as [Hneed Hsize].
  destruct (log_statement_prints (setFlush flushFunc (setOutput outputFunc g)) gettid strerror junk
    junk_tm (tv_sec (clock i)) (tv_usec (clock i)) INFO 0 file base 27 [IString line; IInt i] t
    (Ok (l, e)) Htz Hsec Hus Ht gettid_in_range junk_size ltac:(lia) strerror_text Hb Hnul
    ltac:(simpl in *; lia) ltac:(lia)) as (f & t' & msg & Hf & Hlog & Hmsg & Hall & Ht').
  { constructor; [done|constructor; [cbn; lia|constructor]]. }
  assert (msg = logged base i) as -> by exact (Hall Hneed). clear Hmsg Hall.
  rewrite decide_False in Hlog by done.
  destruct (append_calm time fopen_ok fwrite_unlocked host_name host pid fuel clock_in_range
    fopen_succeeds fwrite_progresses host_known pid_in_range 10 ltac:(lia) l e text (logged base i)
    (zlen text) Hk Hc) as (l' & e' & Happ & Hk' & Hc' & Hmu').
  { by rewrite Hmu. } { unfold zlen in Hsize. lia. } { lia. }
  { unfold kSmallBuffer in *. simpl in *. lia. }
  exists t', l', e'. unfold LOG_INFO. change (logLevel (setFlush _ _)) with (logLevel g).
  destruct (Z.leb_spec (level_value (logLevel g)) (level_value INFO)); [|lia].
  rewrite Hf. unfold_monad. unfold Logger_info. destruct (clock i) as [sec us] eqn:Hclk.
  cbn [tv_sec tv_usec] in Hlog. rewrite Hlog. cbn [g_output setFlush setOutput]. unfold outputFunc.
  unfold_monad. rewrite Happ. rewrite zlen_app. by rewrite Hmu', Hmu.
Qed.

Lemma loop_writes g n i t l e text :
  TimeZone.valid (g_logTimeZone g) = false -> level_value (logLevel g) <= level_value INFO ->
  0 <= i -> i + Z.of_nat n <= 2 ^ 31 -> log_ok gettid t -> keeping host pid l e text ->
  calm time 10 l e (zlen text) -> m_mutexLock l = Some false -> zlen text <= i * kSmallBuffer ->
  exists t' l' e',
    loop (setFlush flushFunc (setOutput outputFunc g)) n i t (Ok (l, e)) = Ok (t', Ok (l', e')) /\
    keeping host pid l' e' (text ++ List.concat (List.map (logged base) (seqZ i (Z.of_nat n)))).
Proof.
  intros Htz Hlevel. revert i t l e text.
  induction n as [|n IH]; intros i t l e text Hi Hn Ht Hk Hc Hmu Htext.
  - do 3 eexists. split; [done|]. cbn. by rewrite app_nil_r.
  - destruct (iteration g i t l e text Htz Hlevel ltac:(lia) Ht Hk Hc Hmu)
      as (t1 & l1 & e1 & Hlog & Ht1 & Hk1 & Hc1 & Hmu1).
    { unfold kSmallBuffer in *. simpl in *. lia. }
    destruct (logged_size i ltac:(lia)) as [_ Hsize].
    destruct (IH (i + 1) t1 l1 e1 (text ++ logged base i)) as (t2 & l2 & e2 & Hloop & Hk2);
      [lia|lia|done|done|done|done|rewrite zlen_app; lia|].
    exists t2, l2, e2. cbn [loop]. rewrite Hlog. unfold_monad. split; [exact Hloop|].
    rewrite seqZ_cons by lia. cbn [List.map List.concat]. rewrite app_assoc.
    by replace (Z.pred (Z.of_nat (S n))) with (Z.of_nat n) by lia.
Qed.

Lemma c_string_strncpy s n : (length s < n)%nat -> NUL ∉ s -> c_string (strncpy s n) = Ok s.
Proof.
  intros Hlen Hn. unfold strncpy. rewrite take_app, (take_ge s) by lia.
  destruct (n - length s)%nat as [|k] eqn:Hk; [lia|]. destruct n as [|n]; [lia|].
  cbn [replicate take]. by apply c_string_app.
Qed.

(** ** Results *)

(** C10. The test program writes what it logs: for any number of iterations and any
    program name, if fewer than three seconds pass between consecutive readings
    of the clock by the log file and what the unset members of the LogFile hold
    lets its constructor open a file, no assert fails and the thread-safe log file
    does not lock itself out, and at the end the files that were opened, read
    in the order in which they were opened, hold exactly the lines of all
    iterations in order, each with its time, thread number, level, text, number
    and source line; no file was opened twice. *)
Theorem logfile_test_writes_all g start flush0 roll count argv0 n :
  TimeZone.valid (g_logTimeZone g) = false -> level_value (logLevel g) <= level_value INFO ->
  - 2 ^ 62 <= flush0 <= 2 ^ 62 -> roll < time 0 -> - 2 ^ 31 <= count < 2 ^ 31 - 1 ->
  (length argv0 < 256)%nat -> NUL ∉ argv0 -> Z.of_nat n <= 2 ^ 31 ->
  exists t l e, test_main g start flush0 roll count argv0 n = Ok (t, Ok (l, e)) /\
    List.concat (List.map (content (e_world e)) (opened (e_world e))) =
      List.concat (List.map (logged base) (seqZ 0 (Z.of_nat n))) /\
    NoDup (opened (e_world e)).
Proof.
  intros Htz Hlevel Hflush Hroll Hcount Hname Hnul Hn. unfold test_main.
  rewrite c_string_strncpy by done. unfold_monad.
  destruct (LogFile_new_keeps time fopen_ok host_name host pid clock_in_range fopen_succeeds host_known
    pid_in_range start flush0 roll count true (10 * 1024) (basename argv0) 3 1024 Hcount ltac:(lia)
    Hflush) as (l & e & Hnew & Hk & Hmu).
  pose proof (LogFile_new_calm time fopen_ok host_name host pid clock_in_range fopen_succeeds host_known
    pid_in_range 10 start flush0 roll count true (10 * 1024) (basename argv0) 3 1024 l e
    Hroll ltac:(lia) clock_steps Hnew) as Hc.
  rewrite Hnew.
  destruct (loop_writes g n 0 log_tls_init l e [] Htz Hlevel ltac:(lia) ltac:(lia)
    (log_tls_init_ok gettid) Hk Hc Hmu ltac:(rewrite zlen_nil; lia)) as (t & l' & e' & Hloop & Hk').
  exists t, l', e'. split; [exact Hloop|]. split; [exact (k_text _ _ _ _ _ Hk')|exact (k_nodup _ _ _ _ _ Hk')].
Qed.
End Program.

(** Two iterations, in a process that starts with the default globals. *)
Definition test_globals : @globals (outcome (LogFile * env)) :=
  mkGlobals (initLogLevel false true) (fun _ w => w) (fun w => w) TimeZone_default.
Definition each_second (i : nat) : Z := 1700000000 + Z.of_nat (Nat.min i 1000).
Definition iteration_clock (i : Z) : timeval := mkTimeval (1700000000 + i / 10000) (100 * (i mod 10000)).

Lemma logfile_test_writes_all_witness :
  exists t l e,
    test_main each_second (fun _ => true) two_bytes None 7 4001 4711 (fun _ => lit "Success")
      (replicate (Z.to_nat kSmallBuffer) "?"%char) (mkTm 0 0 0 0 0 0) iteration_clock
      (lit "base/tests/LogFile_test.cc") test_globals 0 0 0 0 (lit "./LogFile_test") 2
    = Ok (t, Ok (l, e)) /\
    List.concat (List.map (content (e_world e)) (opened (e_world e))) =
      List.concat (List.map (logged 4711 (fun _ => lit "Success") iteration_clock
        (lit "LogFile_test.cc")) (seqZ 0 (Z.of_nat 2))) /\
    NoDup (opened (e_world e)).
Proof.
  apply (logfile_test_writes_all each_second (fun _ => true) two_bytes None 7 4001 4711
    (fun _ => lit "Success") (replicate (Z.to_nat kSmallBuffer) "?"%char) (mkTm 0 0 0 0 0 0)
    iteration_clock (lit "base/tests/LogFile_test.cc") (lit "unknownhost") (lit "LogFile_test.cc")).
  - intros i. unfold clock_ok, each_second. lia.
  - intros i. unfold each_second. lia.
  - reflexivity.
  - exact two_bytes_progress.
  - reflexivity.
  - lia.
  - reflexivity.
  - lia.
  - apply (bool_decide_unpack _). vm_compute. exact I.
  - reflexivity.
  - intros i Hi. unfold log_clock_ok, iteration_clock. cbn [tv_sec tv_usec].
    pose proof (Z.mod_pos_bound i 10000). pose proof (Z.div_le_upper_bound i 10000 (2 ^ 31)).
    pose proof (Z.div_pos i 10000). lia.
  - split; [|split; [apply (bool_decide_unpack _); vm_compute; exact I|reflexivity]].
    split; [apply (bool_decide_unpack _); vm_compute; exact I|].
    right. exists (lit "base/tests"). reflexivity.
  - reflexivity.
  - cbn. lia.
  - lia.
  - reflexivity.
  - lia.
  - cbn. lia.
  - apply (bool_decide_unpack _). vm_compute. exact I.
  - lia.
Defined.

(** The second of those lines. *)
Lemma logged_example :
  logged 4711 (fun _ => lit "Success") iteration_clock (lit "LogFile_test.cc") 1 =
  lit "20231114 22:13:20.000100Z  4711 INFO  0123456789abcdefghijklmnopqrstuvwxyz1-LogFile_test.cc:27"
    ++ ["010"%char].
Proof. vm_compute. reflexivity. Qed.
