(* ===== verification/UnitTests.v ===== *)
(** The test programs of single components: base/tests/Atomic_unittest.cc,
    base/tests/Date_unittest.cc, base/tests/Exception_test.cc and
    base/tests/LogStream_test.cc.

    An assert that fails is the fault [AssertFail]; the checks of Boost.Test, which
    go on after a failure, are collected in a list.  [date_test_passes] states
    that the test of Date passes, for any range of years and not only the one
    that the program tries; what it prints is left out. *)
From Stdlib Require Import ZArith Lia Ascii String.
From stdpp Require Import base list strings.
From S2P Require Import Globals.
From S2P Require Import Prelude CLib Date LogStream Timestamp Threads.

#[local] Open Scope Z_scope.

(** for (int i = from; ...; ++i) body, with [n] iterations left. *)
Fixpoint for_loop {A} (n : nat) (i : Z) (body : Z -> A -> outcome A) (a : A) : outcome A :=
  match n with
  | O => Ok a
  | S n => a ← body i a; for_loop n (i + 1) body a
  end.
Definition for_to {A} (from to : Z) (body : Z -> A -> outcome A) (a : A) : outcome A :=
  for_loop (Z.to_nat (to - from)) from body a.

Lemma for_loop_invariant {A} (P : Z -> A -> Prop) (body : Z -> A -> outcome A) n i a :
  (forall k a, i <= k < i + Z.of_nat n -> P k a -> exists a', body k a = Ok a' /\ P (k + 1) a') ->
  P i a -> exists a', for_loop n i body a = Ok a' /\ P (i + Z.of_nat n) a'.
Proof.
  revert i a. induction n as [|n IH]; intros i a Hbody Ha; cbn [for_loop].
  - exists a. split; [done|]. by rewrite Z.add_0_r.
  - destruct (Hbody i a ltac:(lia) Ha) as (a1 & E & Ha1). rewrite E. unfold_monad.
    replace (i + Z.of_nat (S n)) with (i + 1 + Z.of_nat n) by lia.
    apply IH; [|done]. intros k a2 Hk. apply Hbody. lia.
Qed.

Lemma for_to_invariant {A} (P : Z -> A -> Prop) (body : Z -> A -> outcome A) from to a :
  from <= to ->
  (forall k a, from <= k < to -> P k a -> exists a', body k a = Ok a' /\ P (k + 1) a') ->
  P from a -> exists a', for_to from to body a = Ok a' /\ P to a'.
Proof.
  intros Hle Hbody Ha. unfold for_to.
  destruct (for_loop_invariant P body (Z.to_nat (to - from)) from a) as (a' & E & Ha'); [|done|].
  - intros k a1 Hk. apply Hbody. lia.
  - exists a'. split; [done|]. by replace to with (from + Z.of_nat (Z.to_nat (to - from))) by lia.
Qed.

(** ** Date_unittest.cc *)
Module DateTest.

Definition kMonthsOfYear : Z := 12.

Definition isLeapYear (year : Z) : Z :=
  if Z.rem year 400 =? 0 then 1
  else if Z.rem year 100 =? 0 then 0
  else if Z.rem year 4 =? 0 then 1
  else 0.

Definition days : list (list Z) :=
  [[0; 31; 28; 31; 30; 31; 30; 31; 31; 30; 31; 30; 31];
   [0; 31; 29; 31; 30; 31; 30; 31; 31; 30; 31; 30; 31]].
Definition daysOfMonth (year month : Z) : outcome Z :=
  row ← index days (isLeapYear year); index row month.

(** The asserts about the date [d] of the day whose number and day of the week
    have been counted. *)
Definition check_date (year month day weekDay julianDayNumber : Z) (d : Date) : outcome unit :=
  y ← Date.year d; _ ← assert_ (year =? y);
  m ← Date.month d; _ ← assert_ (month =? m);
  n ← Date.day d; _ ← assert_ (day =? n);
  w ← Date.weekDay d; _ ← assert_ (weekDay =? w);
  assert_ (julianDayNumber =? Date.julianDayNumber d).

(** The loops, over julianDayNumber and weekDay. *)
Definition day_body (year month day : Z) (st : Z * Z) : outcome (Z * Z) :=
  let '(julianDayNumber, weekDay) := st in
  d ← Date_of_ymd year month day;
  _ ← check_date year month day weekDay julianDayNumber d;
  _ ← check_date year month day weekDay julianDayNumber (mkDate julianDayNumber);
  julianDayNumber ← iadd julianDayNumber 1;
  weekDay ← (t ← iadd weekDay 1; irem t 7);
  Ok (julianDayNumber, weekDay).

Definition month_body (year month : Z) (st : Z * Z) : outcome (Z * Z) :=
  last ← daysOfMonth year month;
  for_to 1 (last + 1) (day_body year month) st.

Definition year_body (year : Z) (st : Z * Z) : outcome (Z * Z) :=
  march ← Date_of_ymd year 3 1;
  february ← Date_of_ymd year 2 29;
  diff ← isub (Date.julianDayNumber march) (Date.julianDayNumber february);
  _ ← assert_ (diff =? isLeapYear year);
  for_to 1 (kMonthsOfYear + 1) (month_body year) st.

(** main's loop over the years [first] to [last] - 1. *)
Definition date_test (first last julianDayNumber weekDay : Z) : outcome (Z * Z) :=
  for_to first last year_body (julianDayNumber, weekDay).

(** What has been counted when the loops reach the day of number [j]. *)
Definition counted (j : Z) : Z * Z := (j, (j + 1) mod 7).

Lemma isLeapYear_is_leap y : isLeapYear y = Z.b2z (is_leap y).
Proof.
  unfold isLeapYear, is_leap.
  assert (H : forall k, 0 < k -> (Z.rem y k =? 0) = (y mod k =? 0)).
  { intros k Hk. apply eq_true_iff_eq. rewrite !Z.eqb_eq, Z.rem_divide, Z.mod_divide by lia. done. }
  rewrite !H by lia. repeat case_match; done.
Qed.

Lemma daysOfMonth_ok y m : 1 <= m <= 12 -> daysOfMonth y m = Ok (days_of_month y m).
Proof.
  intros Hm. unfold daysOfMonth. rewrite isLeapYear_is_leap. unfold days_of_month.
  destruct (is_leap y); cbn [Z.b2z];
    destruct (month_cases m Hm) as [->|[->|[->|[->|[->|[->|[->|[->|[->|[->|[->| ->]]]]]]]]]]]; reflexivity.
Qed.

Lemma check_date_ok d : valid_ymd d -> in_range d -> -4712 <= ymd_year d ->
  check_date (ymd_year d) (ymd_month d) (ymd_day d) ((julian d + 1) mod 7) (julian d)
    (mkDate (julian d)) = Ok tt.
Proof.
  intros Hv Hr Hy. pose proof (julian_range d Hv Hr) as Hj. pose proof (julian_nonneg d Hv Hy) as Hnn.
  unfold check_date, Date.year, Date.month, Date.day, toYearMonthDay, julianDayNumber.
  cbn [m_nJulianDayNum]. rewrite (getYearMonthDay_ok _ Hj), (civil_julian _ Hv Hr). unfold jdn_range in Hj.
  rewrite weekDay_ok by lia. unfold_monad. by rewrite !Z.eqb_refl.
Qed.

Lemma day_body_ok d : valid_ymd d -> in_range d -> -4712 <= ymd_year d ->
  day_body (ymd_year d) (ymd_month d) (ymd_day d) (counted (julian d)) = Ok (counted (julian d + 1)).
Proof.
  intros Hv Hr Hy. pose proof (julian_range d Hv Hr) as Hj. pose proof (julian_nonneg d Hv Hy) as Hnn.
  unfold day_body, counted, Date_of_ymd, jdn_range in *. rewrite getJulianDayNum_ok by done. unfold_monad.
  rewrite check_date_ok by done. pose proof (Z.mod_pos_bound (julian d + 1) 7 ltac:(lia)).
  rewrite !iadd_ok by lia. unfold irem. unfold_monad. rewrite idiv_nonneg by lia.
  rewrite Z.rem_mod_nonneg by lia. by rewrite Z.add_mod_idemp_l by lia.
Qed.

Lemma julian_day y m d : julian (mkYMD y m d) = julian (mkYMD y m 1) + (d - 1).
Proof. unfold julian. cbn. lia. Qed.

Lemma month_body_ok y m : 1 <= m <= 12 -> -4712 <= y <= 1465000 ->
  month_body y m (counted (julian (mkYMD y m 1))) =
    Ok (counted (julian (mkYMD y m 1) + days_of_month y m)).
Proof.
  intros Hm Hy. unfold month_body. rewrite daysOfMonth_ok by done. unfold_monad.
  pose proof (days_of_month_bounds y m) as Hd.
  destruct (for_to_invariant (fun d st => st = counted (julian (mkYMD y m d))) (day_body y m) 1
    (days_of_month y m + 1) (counted (julian (mkYMD y m 1)))) as (st & E & ->); [lia| |done|].
  - intros d st Hk ->. eexists. split.
    + apply (day_body_ok (mkYMD y m d)); [split; cbn; lia|unfold in_range; cbn; lia|cbn; lia].
    + f_equal. rewrite (julian_day y m d), (julian_day y m (d + 1)). lia.
  - rewrite E. f_equal. f_equal. rewrite julian_day. lia.
Qed.

(** The first day of the month after month [m] of year [y]. *)
Lemma julian_next_month y m : 1 <= m <= 12 ->
  julian (mkYMD y m 1) + days_of_month y m =
    julian (if m <? 12 then mkYMD y (m + 1) 1 else mkYMD (y + 1) 1 1).
Proof.
  intros Hm. pose proof (days_of_month_bounds y m).
  assert (Hv : valid_ymd (mkYMD y m (days_of_month y m))) by (split; cbn; lia).
  apply julian_next_day in Hv. unfold next_day in Hv. cbn [ymd_year ymd_month ymd_day] in Hv.
  rewrite Z.ltb_irrefl in Hv. rewrite Hv, (julian_day y m (days_of_month y m)). lia.
Qed.

Lemma leap_day_gap y : julian (mkYMD y 3 1) - julian (mkYMD y 2 29) = Z.b2z (is_leap y).
Proof.
  unfold julian, month_offset, year_offset, shift_m, shift_y, shift_a.
  cbn [ymd_year ymd_month ymd_day]. unfold is_leap.
  destruct (Z.eqb_spec (y mod 400) 0), (Z.eqb_spec (y mod 100) 0), (Z.eqb_spec (y mod 4) 0);
    cbn [Z.b2z]; divlia.
Qed.

Lemma year_body_ok y : -4712 <= y < 1465000 ->
  year_body y (counted (julian (mkYMD y 1 1))) = Ok (counted (julian (mkYMD (y + 1) 1 1))).
Proof.
  intros Hy. unfold year_body, Date_of_ymd.
  assert (Hnum : forall m d, 1 <= m <= 12 -> 1 <= d <= 31 ->
    getJulianDayNum y m d = Ok (julian (mkYMD y m d))).
  { intros m d Hm Hd. apply (getJulianDayNum_value (mkYMD y m d)); unfold in_range; cbn; lia. }
  rewrite !Hnum by lia. unfold_monad. unfold julianDayNumber. cbn [m_nJulianDayNum]. pose proof (leap_day_gap y) as Hgap.
  rewrite isub_ok by (rewrite Hgap; destruct (is_leap y); cbn; lia).
  rewrite Hgap, isLeapYear_is_leap, Z.eqb_refl. cbn [assert_]. unfold_monad.
  destruct (for_to_invariant (fun m st => st = counted (julian
      (if m <? 13 then mkYMD y m 1 else mkYMD (y + 1) 1 1))) (month_body y) 1 13
    (counted (julian (mkYMD y 1 1)))) as (st & E & ->); [lia| |done|exact E].
  intros m st Hm ->. destruct (Z.ltb_spec m 13); [|lia]. eexists. split; [apply month_body_ok; lia|].
  rewrite julian_next_month by lia. f_equal. f_equal.
  destruct (Z.ltb_spec m 12), (Z.ltb_spec (m + 1) 13); done || lia.
Qed.

(** C22. The unit test of Date passes: for every range of years in which the day
    numbers are not negative and fit, whatever the years, every assert about the
    length of February, about the date of each day (constructed from year, month
    and day, and from its number) and about its day of the week holds, and at
    the end the numbers counted are those of the first day after the range;
    main runs it from 1900, day 2415021, a Monday, up to 2499. *)
Theorem date_test_passes first last :
  -4712 <= first <= last -> last <= 1465000 ->
  date_test first last (julian (mkYMD first 1 1)) ((julian (mkYMD first 1 1) + 1) mod 7)
    = Ok (julian (mkYMD last 1 1), (julian (mkYMD last 1 1) + 1) mod 7) /\
  date_test 1900 2500 2415021 1 = Ok (2634167, 5).
Proof.
  assert (Htest : forall first last, -4712 <= first <= last -> last <= 1465000 ->
    date_test first last (julian (mkYMD first 1 1)) ((julian (mkYMD first 1 1) + 1) mod 7)
      = Ok (counted (julian (mkYMD last 1 1)))).
  { clear first last. intros first last Hf Hl. unfold date_test.
    destruct (for_to_invariant (fun y st => st = counted (julian (mkYMD y 1 1))) year_body first last
      (counted (julian (mkYMD first 1 1)))) as (st & E & ->); [lia| |done|exact E].
    intros y st Hy ->. eexists. split; [apply year_body_ok; lia|done]. }
  intros Hf Hl. split; [by apply Htest|]. exact (Htest 1900 2500 ltac:(lia) ltac:(lia)).
Qed.

Lemma date_test_passes_witness : date_test 2023 2025 2459946 0 = Ok (2460677, 3).
Proof. apply (date_test_passes 2023 2025); lia. Defined.
End DateTest.

(** ** Atomic_unittest.cc *)
Module AtomicTest.

Definition main_32 : outcome unit :=
  let a32 := AtomicIntegerT_default in
  let '(r, a32) := get a32 in _ ← assert_ (r =? 0);
  let '(r, a32) := getAndSet 1 a32 in _ ← assert_ (r =? 0);
  let '(r, a32) := addAndGet 32 1 a32 in _ ← assert_ (r =? 2);
  '(r, a32) ← getAndAdd 32 1 a32; _ ← assert_ (r =? 2);
  let '(r, a32) := get a32 in _ ← assert_ (r =? 3);
  let a32 := inc 32 a32 in
  let '(r, a32) := get a32 in _ ← assert_ (r =? 4);
  let '(r, a32) := incAndGet 32 a32 in _ ← assert_ (r =? 5);
  let '(r, a32) := subAndGet 32 5 a32 in _ ← assert_ (r =? 0);
  let '(r, a32) := decAndGet 32 a32 in _ ← assert_ (r =? -1);
  let a32 := dec 32 a32 in
  let '(r, a32) := addAndGet 32 (-1) a32 in _ ← assert_ (r =? -3);
  let '(r, a32) := subAndGet 32 (-3) a32 in assert_ (r =? 0).

Definition main_64 : outcome unit :=
  let a64 := AtomicIntegerT_default in
  let '(r, a64) := get a64 in _ ← assert_ (r =? 0);
  let '(r, a64) := subAndGet 64 (-3) a64 in _ ← assert_ (r =? 3);
  let '(r, a64) := addAndGet 64 (-1) a64 in _ ← assert_ (r =? 2);
  let a64 := dec 64 a64 in
  let '(r, a64) := decAndGet 64 a64 in _ ← assert_ (r =? 0);
  let '(r, a64) := subAndGet 64 5 a64 in _ ← assert_ (r =? -5);
  let '(r, a64) := incAndGet 64 a64 in _ ← assert_ (r =? -4);
  let '(r, a64) := get a64 in _ ← assert_ (r =? -4);
  let a64 := inc 64 a64 in
  let '(r, a64) := getAndSet 5 a64 in _ ← assert_ (r =? -3);
  let '(r, a64) := get a64 in assert_ (r =? 5).

Lemma atomic_test_passes : main_32 = Ok tt /\ main_64 = Ok tt.
Proof. split; reflexivity. Qed.
End AtomicTest.

(** ** Exception_test.cc *)
Module ExceptionTest.

(** ATest::test and call, which throw an Exception; [strings] is what
    backtrace_symbols returns. *)
Definition test {A} (strings : option (list bytes)) : Exception + A :=
  inl (Exception_new strings (lit "oops")).
Definition call {A} (strings : option (list bytes)) : Exception + A := test strings.

(** main, and what it prints. *)
Definition main (strings : option (list bytes)) : outcome bytes :=
  match call strings with
  | inl e =>
      w ← what e;
      t ← stackTrace e;
      Ok (lit "exception message : " ++ w ++ ["010"%char] ++
          lit "exception stack: " ++ t ++ ["010"%char])
  | inr tt => Ok []
  end.

Lemma exception_test_prints frames : Forall (fun f => NUL ∉ f) frames -> (length frames <= 200)%nat ->
  main (Some frames) =
    Ok (lit "exception message : oops" ++ ["010"%char] ++ lit "exception stack: " ++
        List.concat (List.map (fun f => f ++ ["010"%char]) frames) ++ ["010"%char]).
Proof.
  intros Hf Hl. unfold main, call, test.
  destruct (exception_texts frames (lit "oops") (nul_notin (lit "oops") eq_refl) Hf Hl) as [Hw Ht].
  rewrite Hw, Ht. done.
Qed.
End ExceptionTest.

(** ** LogStream_test.cc *)
Module LogStreamTest.

(** BOOST_CHECK_EQUAL on strings. *)
Definition check_string (s t : bytes) : bool := bool_decide (s = t).
Definition INT_MAX : Z := 2 ^ 31 - 1.
Definition INT_MIN : Z := - 2 ^ 31.
Definition LLONG_MAX : Z := 2 ^ 63 - 1.
(** atoll and atoi agree where the value fits, which is where they are used. *)
Definition atoll : bytes -> Z := atoi.

(** The results of the checks of each test case; [mem] is the memory in which the
    buffer is constructed. *)
Definition testFixedBuffer (mem : bytes) : outcome (list bool) :=
  let size := 10 in
  let data := lit "123456" ++ [NUL] in
  let buffer := FixedBuffer_new mem in
  s0 ← asString buffer;
  len ← strlen data;
  '(r1, buffer) ← append size data len buffer;
  s1 ← asString buffer;
  '(r2, buffer) ← append size data len buffer;
  s2 ← asString buffer;
  '(r3, buffer) ← appendPartial size data len buffer;
  '(r4, buffer) ← appendPartial size data len buffer;
  Ok [check_string s0 []; r1 =? len; check_string s1 (lit "123456"); r2 =? 0;
      check_string s2 (lit "123456"); r3 =? 4; r4 =? 0; fb_length buffer =? size].

Definition testLogStreamBooleans (mem : bytes) : outcome (list bool) :=
  let os := LogStream_new mem in
  s0 ← asString (ls_buff os);
  os ← put_bool true os; s1 ← asString (ls_buff os);
  os ← put_bool false os; s2 ← asString (ls_buff os);
  os ← put_char "010" os; s3 ← asString (ls_buff os);
  os ← put_bool true os; s4 ← asString (ls_buff os);
  Ok [check_string s0 []; check_string s1 (lit "1"); check_string s2 (lit "10");
      check_string s3 (lit "10" ++ ["010"%char]); check_string s4 (lit "10" ++ ["010"%char] ++ lit "1")].

Definition testLogStreamInteger {double} (fmt_12g : double -> bytes) (d123_45 d_minus_10_2 : double)
  (mem : bytes) : outcome (list bool) :=
  let os := LogStream_new mem in
  os ← put_int 123 os; s1 ← asString (ls_buff os);
  os ← put_char " " os; os ← put_double double fmt_12g d123_45 os; s2 ← asString (ls_buff os);
  os ← put_double double fmt_12g d_minus_10_2 os; s3 ← asString (ls_buff os);
  let os := resetBuffer os in
  os ← put_int 10 os; os ← put_cstr (lit "-" ++ [NUL]) os; os ← put_int (-20) os;
  s4 ← asString (ls_buff os);
  Ok [check_string s1 (lit "123"); check_string s2 (lit "123 123.45");
      check_string s3 (lit "123 123.45-10.2"); check_string s4 (lit "10--20"); 1 =? 2].

Definition testLogStreamIntegerLimit (mem : bytes) : outcome (list bool) :=
  let os := LogStream_new mem in
  os ← put_int INT_MAX os; s1 ← asString (ls_buff os);
  let os := resetBuffer os in
  os ← put_int INT_MIN os; s2 ← asString (ls_buff os);
  let os := resetBuffer os in
  os ← put_llong LLONG_MAX os; s3 ← asString (ls_buff os);
  Ok [atoi s1 =? INT_MAX; atoi s2 =? INT_MIN; atoll s3 =? LLONG_MAX].

Definition testLogStreamPtr (mem : bytes) : outcome (list bool) :=
  let os := LogStream_new mem in
  os ← put_ptr 0 os; s1 ← asString (ls_buff os);
  Ok [check_string s1 (lit "0x0")].

(** An insertion into a stream that has room. *)
Lemma insert_step op p s text : inserts op p -> ls_good s -> ls_text s = text ->
  zlen text + need p <= kSmallBuffer ->
  exists s', op s = Ok s' /\ ls_good s' /\ ls_text s' = text ++ repr p.
Proof.
  intros [_ Hi] G <- Hn. destruct (Hi s G) as (s' & E & G' & T). exists s'. split; [done|].
  split; [done|]. rewrite T. by destruct (Z.leb_spec (zlen (ls_text s) + need p) kSmallBuffer); [|lia].
Qed.

Lemma new_stream mem : zlen mem = kSmallBuffer ->
  ls_good (LogStream_new mem) /\ ls_text (LogStream_new mem) = [].
Proof. intros H. split; [|done]. split; [exact H|]. cbn. unfold kSmallBuffer. lia. Qed.

Lemma reset_stream s : ls_good s -> ls_good (resetBuffer s) /\ ls_text (resetBuffer s) = [].
Proof. intros (Hz & Hcur & Hsz). split; [|done]. split; [exact Hz|]. cbn. lia. Qed.

Ltac put lem :=
  match goal with
  | G : ls_good ?s, T : ls_text ?s = _ |- _ =>
      let s' := fresh "s" in let E := fresh "E" in let G' := fresh "G" in let T' := fresh "T" in
      destruct (insert_step _ _ _ _ lem G T) as (s' & E & G' & T');
        [vm_compute; discriminate|rewrite E; clear G T E; unfold_monad]
  end.
Ltac check_text :=
  match goal with
  | G : ls_good ?s, T : ls_text ?s = _ |- _ => rewrite (asString_text _ _ G T); unfold_monad
  end.

Lemma booleans_result mem : zlen mem = kSmallBuffer ->
  testLogStreamBooleans mem = Ok [true; true; true; true; true].
Proof.
  intros H. destruct (new_stream mem H) as [G T]. unfold testLogStreamBooleans. cbv zeta.
  check_text. put (put_bool_inserts true). check_text. put (put_bool_inserts false). check_text.
  put (put_char_inserts "010"). check_text. put (put_bool_inserts true). check_text. reflexivity.
Qed.

Ltac reset_text :=
  match goal with
  | G : ls_good ?s, T : ls_text ?s = _ |- _ =>
      let G' := fresh "G" in let T' := fresh "T" in
      destruct (reset_stream s G) as [G' T']; clear G T
  end.

Lemma integer_result {double} (fmt_12g : double -> bytes) d1 d2 mem : zlen mem = kSmallBuffer ->
  fmt_12g d1 = lit "123.45" -> fmt_12g d2 = lit "-10.2" ->
  testLogStreamInteger fmt_12g d1 d2 mem = Ok [true; true; true; true; false].
Proof.
  intros H H1 H2. destruct (new_stream mem H) as [G T]. unfold testLogStreamInteger, put_int. cbv zeta.
  pose proof (put_double_inserts fmt_12g d1 ltac:(rewrite H1; done)) as D1. rewrite H1 in D1.
  pose proof (put_double_inserts fmt_12g d2 ltac:(rewrite H2; done)) as D2. rewrite H2 in D2.
  put (formatInteger_inserts 123 ltac:(lia)). check_text. put (put_char_inserts " ").
  put D1. check_text. put D2. check_text. reset_text.
  put (formatInteger_inserts 10 ltac:(lia)).
  put (put_cstr_inserts (lit "-") [] (nul_notin (lit "-") eq_refl)).
  put (formatInteger_inserts (-20) ltac:(lia)). check_text. reflexivity.
Qed.

Lemma limits_result mem : zlen mem = kSmallBuffer ->
  testLogStreamIntegerLimit mem = Ok [true; true; true].
Proof.
  intros H. destruct (new_stream mem H) as [G T]. unfold testLogStreamIntegerLimit, put_int, put_llong.
  cbv zeta. put (formatInteger_inserts INT_MAX ltac:(unfold INT_MAX; lia)). check_text. reset_text.
  put (formatInteger_inserts INT_MIN ltac:(unfold INT_MIN; lia)). check_text. reset_text.
  put (formatInteger_inserts LLONG_MAX ltac:(unfold LLONG_MAX; lia)). check_text. reflexivity.
Qed.

Lemma ptr_result mem : zlen mem = kSmallBuffer -> testLogStreamPtr mem = Ok [true].
Proof.
  intros H. destruct (new_stream mem H) as [G T]. unfold testLogStreamPtr. cbv zeta.
  put (put_ptr_inserts 0 ltac:(lia)). check_text. reflexivity.
Qed.

Lemma buffer_result mem : length mem = 10%nat ->
  testFixedBuffer mem = Ok [true; true; true; true; true; true; true; true].
Proof.
  intros H. do 10 (destruct mem as [|? mem]; [done|]). destruct mem; [|done]. reflexivity.
Qed.

(** The checks of the unit test of LogStream: whatever the memory of the
    buffers holds before, and if "%.12g" prints 123.45 and -10.2 as such, every
    check of the five test cases succeeds except for the last of
    testLogStreamInteger, which compares 1 with 2 on purpose. *)
Theorem logstream_test_results {double} (fmt_12g : double -> bytes) d1 d2 mem10 mem :
  length mem10 = 10%nat -> zlen mem = kSmallBuffer ->
  fmt_12g d1 = lit "123.45" -> fmt_12g d2 = lit "-10.2" ->
  testFixedBuffer mem10 = Ok (replicate 8 true) /\
  testLogStreamBooleans mem = Ok (replicate 5 true) /\
  testLogStreamInteger fmt_12g d1 d2 mem = Ok (replicate 4 true ++ [false]) /\
  testLogStreamIntegerLimit mem = Ok (replicate 3 true) /\
  testLogStreamPtr mem = Ok [true].
Proof.
  intros H10 H H1 H2. split_and!; [by apply buffer_result|by apply booleans_result
    |by apply integer_result|by apply limits_result|by apply ptr_result].
Qed.

Lemma logstream_test_results_witness :
  testFixedBuffer (lit "0123456789") = Ok (replicate 8 true).
Proof.
  apply (logstream_test_results (fun b : bool => if b then lit "123.45" else lit "-10.2") true false
    (lit "0123456789") (replicate (Z.to_nat kSmallBuffer) "?"%char)); reflexivity.
Defined.
End LogStreamTest.
