(* ===== verification/QueueTests.v ===== *)
(** The test programs of the queues: base/tests/BlockingQueue_unittest.cc,
    base/tests/BoundedBlockingQueue_unittest.cc and
    base/tests/BlockingQueue_bench_test.cc.

    Each composes a queue, a CountDownLatch and threads: workers count the latch
    down and take elements until they find a stop element; main starts them,
    waits for the latch, puts the elements and one stop per worker, and joins.
    The two objects have a mutex each, so an operation is taken as what its code
    does from lock to unlock when its guard lets it pass ([section]), computed
    from the commands of Latch.v, BlockingQueue.v and BoundedBlockingQueue.v;
    those files prove that sections of an object do not overlap, and that a
    waiter whose guard has become false is woken up.  [TestQueue] is what the
    programs need of a queue, and both queues are instances.  What the programs
    print is left out, as are the delays that the benchmark counts. *)
From Stdlib Require Import ZArith Lia Ascii String.
From stdpp Require Import base tactics list relations.
From S2P Require Import Prelude CLib Monitor QueueEvents Latch BlockingQueue BoundedBlockingQueue.
From S2P Require Import Timestamp.

#[local] Open Scope Z_scope.

(** ** Critical sections as single steps *)

Inductive section_result (S E : Type) :=
| Blocked                        (* the guard makes the thread wait *)
| Fails                          (* an assert fails or the update is undefined *)
| Completes (s : S) (es : list E).
Arguments Blocked {S E}.
Arguments Fails {S E}.
Arguments Completes {S E} s es.

(** A command from pthread_mutex_lock to pthread_mutex_unlock, run on the data
    without interference; notifications only concern other threads. *)
Fixpoint section {S E} (c : cmd S E) (s : S) : section_result S E :=
  match c with
  | PLock k | Assign k | Unassign k | Signal _ k | Broadcast _ k => section k s
  | PUnlock _ => Completes s []
  | WhileWait b _ k => if b s then Blocked else section k s
  | Assert b k => if b s then section k s else Fails
  | Act f k =>
      match f s with
      | Ok (s', es) =>
          match section (k s) s' with
          | Completes s'' es' => Completes s'' (es ++ es')
          | Blocked => Blocked
          | Fails => Fails
          end
      | Fault _ => Fails
      end
  | _ => Fails
  end.

(** ** What the programs need of a queue *)

Class TestQueue (Q A : Type) := {
  tq_put : A -> Q -> section_result Q (QueueEvents.event A);
  tq_get : Q -> section_result Q (QueueEvents.event A)
}.

Class TestQueueLaws (Q A : Type) `{TestQueue Q A} := {
  tq_good : Q -> Prop;
  tq_items : Q -> list A;
  put_spec v q : tq_good q ->
    match tq_put v q with
    | Completes q' es => tq_good q' /\ tq_items q' = tq_items q ++ [v] /\ es = [EvPut v]
    | Blocked => tq_items q <> []
    | Fails => False
    end;
  get_spec q : tq_good q ->
    match tq_get q with
    | Completes q' es => tq_good q' /\ exists v, tq_items q = v :: tq_items q' /\ es = [EvGot v]
    | Blocked => tq_items q = []
    | Fails => False
    end
}.

#[export] Instance blocking_queue A : TestQueue (list A) A := {
  tq_put v := section (BlockingQueue.put v Done);
  tq_get := section (BlockingQueue.get Done)
}.

#[export, refine] Instance blocking_queue_laws A : TestQueueLaws (list A) A := {
  tq_good _ := True;
  tq_items q := q
}.
Proof.
  - intros v q _. cbn. done.
  - intros [|v q] _; cbn; [done|]. split; [done|]. by exists v.
Defined.

#[export] Instance bounded_queue {A B} `{CircularBuffer A B} : TestQueue B A := {
  tq_put v := section (BoundedBlockingQueue.put v Done);
  tq_get := section (BoundedBlockingQueue.get Done)
}.

#[export, refine] Instance bounded_queue_laws {A B} `{CircularBufferLaws A B} : TestQueueLaws B A := {
  tq_good b := zlen (contents b) <= cb_capacity b /\ 0 < cb_capacity b;
  tq_items b := contents b
}.
Proof.
  - intros v b [Hb Hc]. cbn. rewrite full_spec.
    destruct (Z.eqb_spec (zlen (contents b)) (cb_capacity b)) as [Hf|Hf]; cbn.
    + intros Hn. rewrite Hn, zlen_nil in Hf. lia.
    + rewrite push_capacity, push_contents by lia. rewrite zlen_app, zlen_cons, zlen_nil. split; [lia|done].
  - intros b [Hb Hc]. cbn. rewrite empty_spec, front_spec.
    destruct (contents b) as [|v l] eqn:E; cbn.
    + done.
    + rewrite zlen_cons. pose proof (zlen_nonneg l). destruct (Z.eqb_spec (1 + zlen l) 0); [lia|]. cbn.
      rewrite pop_capacity, pop_contents, E. cbn. rewrite zlen_cons in Hb.
      split; [lia|]. by exists v.
Defined.

(** ** The programs *)

Inductive worker_pc {A : Type} :=
| WCount                 (* latch_.countDown() *)
| WGet                   (* queue_.get() *)
| WTest (tmp : A)        (* running = ... *)
| WDone.
Arguments worker_pc : clear implicits.

Inductive main_pc {A : Type} :=
| MStart (i : nat)       (* the constructor: i threads are started *)
| MWait                  (* run: latch_.wait() *)
| MPut (rest : list A)   (* run: elements still to be put *)
| MStop (i : nat)        (* joinAll: i stop elements are put *)
| MJoin (i : nat)        (* joinAll: i threads are joined *)
| MDone.
Arguments main_pc : clear implicits.

Section Program.
Context {Q A : Type} `{TestQueueLaws Q A}.
Variable numThreads : nat.
Variable elements : list A.            (* what run(times) puts *)
Variable stop_element : A.
Variable is_stop : A -> bool.          (* the test that ends a worker *)
Variable queue_new : Q.

(** [own]: what the worker has taken; [taken]: what all have, in the order of the
    gets. *)
Record worker := mkWorker { pc : worker_pc A; own : list A }.
Record state := mkState {
  main : main_pc A;
  workers : list worker;
  latch_ : Z;
  queue_ : Q;
  taken : list A
}.

Definition test_start : state := mkState (MStart 0) [] (Z.of_nat numThreads) queue_new [].

Inductive step (st : state) : state -> Prop :=
| T_start i : main st = MStart i -> (i < numThreads)%nat ->
    step st (mkState (MStart (Datatypes.S i)) (workers st ++ [mkWorker WCount []]) (latch_ st)
      (queue_ st) (taken st))
| T_started i : main st = MStart i -> (numThreads <= i)%nat ->
    step st (mkState MWait (workers st) (latch_ st) (queue_ st) (taken st))
| T_wait c es : main st = MWait -> section (wait_latch Done) (latch_ st) = Completes c es ->
    step st (mkState (MPut elements) (workers st) c (queue_ st) (taken st))
| T_put v rest q es : main st = MPut (v :: rest) -> tq_put v (queue_ st) = Completes q es ->
    step st (mkState (MPut rest) (workers st) (latch_ st) q (taken st))
| T_put_all : main st = MPut [] ->
    step st (mkState (MStop 0) (workers st) (latch_ st) (queue_ st) (taken st))
| T_stop i q es : main st = MStop i -> (i < length (workers st))%nat ->
    tq_put stop_element (queue_ st) = Completes q es ->
    step st (mkState (MStop (Datatypes.S i)) (workers st) (latch_ st) q (taken st))
| T_stop_all i : main st = MStop i -> (length (workers st) <= i)%nat ->
    step st (mkState (MJoin 0) (workers st) (latch_ st) (queue_ st) (taken st))
| T_join i w : main st = MJoin i -> workers st !! i = Some w -> pc w = WDone ->
    step st (mkState (MJoin (Datatypes.S i)) (workers st) (latch_ st) (queue_ st) (taken st))
| T_join_all i : main st = MJoin i -> (length (workers st) <= i)%nat ->
    step st (mkState MDone (workers st) (latch_ st) (queue_ st) (taken st))
| T_count k w c es : workers st !! k = Some w -> pc w = WCount ->
    section (countDown Done) (latch_ st) = Completes c es ->
    step st (mkState (main st) (<[k := mkWorker WGet (own w)]> (workers st)) c (queue_ st) (taken st))
| T_get k w q v : workers st !! k = Some w -> pc w = WGet ->
    tq_get (queue_ st) = Completes q [EvGot v] ->
    step st (mkState (main st) (<[k := mkWorker (WTest v) (own w ++ [v])]> (workers st)) (latch_ st) q
      (taken st ++ [v]))
| T_test k w v : workers st !! k = Some w -> pc w = WTest v ->
    step st (mkState (main st)
      (<[k := mkWorker (if is_stop v then WDone else WGet) (own w)]> (workers st)) (latch_ st)
      (queue_ st) (taken st)).

Definition test_reachable (st : state) : Prop := rtc step test_start st.

(** Every thread has ended. *)
Definition finished (st : state) : Prop :=
  main st = MDone /\ forall k w, workers st !! k = Some w -> pc w = WDone.

(** ** Invariant *)

Definition stops (l : list A) : Z := zlen (List.filter is_stop l).

(** What main has put so far. *)
Definition put_so_far (m : main_pc A) (l : list A) : Prop :=
  match m with
  | MStart _ | MWait => l = []
  | MPut rest => elements = l ++ rest
  | MStop i => (i <= numThreads)%nat /\ l = elements ++ replicate i stop_element
  | MJoin _ | MDone => l = elements ++ replicate numThreads stop_element
  end.

Definition worker_ok (w : worker) : Prop :=
  match pc w with
  | WCount => own w = []
  | WGet => stops (own w) = 0
  | WTest v => exists l, own w = l ++ [v] /\ stops l = 0
  | WDone => exists l v, own w = l ++ [v] /\ stops l = 0 /\ is_stop v = true
  end.

Definition counting (w : worker) : Z := match pc w with WCount => 1 | _ => 0 end.

Record Inv (st : state) : Prop := {
  i_len : match main st with
          | MStart i => (i <= numThreads)%nat /\ length (workers st) = i
          | _ => length (workers st) = numThreads
          end;
  i_latch : latch_ st = Z.of_nat numThreads - zlen (workers st) + total counting (workers st);
  i_counted : match main st with MStart _ | MWait => True | _ => total counting (workers st) = 0 end;
  i_good : tq_good (queue_ st);
  i_fifo : put_so_far (main st) (taken st ++ tq_items (queue_ st));
  i_taken : taken st ≡ₚ List.concat (List.map own (workers st));
  i_workers : forall k w, workers st !! k = Some w -> worker_ok w;
  i_joined : match main st with
             | MJoin i => forall k w, (k < i)%nat -> workers st !! k = Some w -> pc w = WDone
             | MDone => forall k w, workers st !! k = Some w -> pc w = WDone
             | _ => True
             end
}.

Hypothesis threads_fit : Z.of_nat numThreads < 2 ^ 31.
Hypothesis queue_good : tq_good queue_new.
Hypothesis queue_empty : tq_items queue_new = [].

Lemma test_start_inv : Inv test_start.
Proof.
  split; cbn; rewrite ?queue_empty; try done; [lia|]. unfold zlen, total. cbn. lia.
Qed.

(** A worker that goes from [w] to [w']. *)
Lemma own_insert l k w w' x : l !! k = Some w -> own w' = own w ++ x ->
  List.concat (List.map own (<[k := w']> l)) ≡ₚ List.concat (List.map own l) ++ x.
Proof.
  intros Hk Hown. rewrite (insert_take_drop _ _ _ (lookup_lt_Some _ _ _ Hk)).
  rewrite <- (take_drop_middle _ _ _ Hk) at 3. rewrite !List.map_app, !List.concat_app. cbn.
  rewrite Hown, <- !app_assoc. f_equiv. f_equiv. apply Permutation_app_comm.
Qed.

Lemma section_wait c : section (wait_latch Done) c = if 0 <? c then Blocked else Completes c [Passed].
Proof. reflexivity. Qed.

Lemma section_countDown c : - 2 ^ 31 < c < 2 ^ 31 ->
  section (countDown Done) c = Completes (c - 1) [Counted].
Proof.
  intros Hc. cbn. unfold isub. rewrite ckS_ok by (simpl in *; lia). cbn.
  by destruct (c - 1 =? 0).
Qed.

Lemma counting_nonneg w : 0 <= counting w.
Proof. unfold counting. destruct (pc w); lia. Qed.

(** A step of worker [k]. *)
Lemma inv_worker st k w w' c q x : Inv st -> workers st !! k = Some w -> pc w <> WDone ->
  own w' = own w ++ x -> worker_ok w' -> counting w' <= counting w ->
  c - latch_ st = counting w' - counting w -> tq_good q ->
  (taken st ++ x) ++ tq_items q = taken st ++ tq_items (queue_ st) ->
  Inv (mkState (main st) (<[k := w']> (workers st)) c q (taken st ++ x)).
Proof.
  intros [Hlen Hlatch Hcnt Hgood Hfifo Htaken Hw Hj] Hk Hpc Hown Hok Hle Hc Hq Hx.
  assert (Hlook : forall k0 w0, <[k := w']> (workers st) !! k0 = Some w0 ->
    (k0 = k /\ w0 = w') \/ workers st !! k0 = Some w0).
  { intros k0 w0 Hl. destruct (decide (k = k0)) as [<-|Hne].
    - left. rewrite list_lookup_insert_eq in Hl by (by eapply lookup_lt_Some). by injection Hl as <-.
    - right. by rewrite list_lookup_insert_ne in Hl. }
  pose proof (counting_nonneg w) as Hn. pose proof (counting_nonneg w') as Hn'.
  assert (Hsum : counting w <= total counting (workers st)).
  { pose proof (total_insert counting _ _ _ (mkWorker WGet []) Hk) as Hi.
    pose proof (total_nonneg counting (<[k := mkWorker WGet []]> (workers st)) counting_nonneg) as Hz.
    change (counting (mkWorker WGet [])) with 0 in Hi. lia. }
  split; cbn [main workers latch_ queue_ taken].
  - by rewrite length_insert.
  - unfold zlen. rewrite length_insert, (total_insert _ _ _ _ _ Hk). unfold zlen in Hlatch. lia.
  - rewrite (total_insert _ _ _ _ _ Hk). destruct (main st); try done; lia.
  - done.
  - by rewrite Hx.
  - rewrite (own_insert _ _ _ _ _ Hk Hown). by rewrite Htaken.
  - intros k0 w0 [[-> ->]|Hl]%Hlook; [done|by eapply Hw].
  - destruct (main st); try done.
    + intros k0 w0 Hlt [[-> ->]|Hl]%Hlook; [|by eapply Hj]. by rewrite (Hj k w Hlt Hk) in Hpc.
    + intros k0 w0 [[-> ->]|Hl]%Hlook; [|by eapply Hj]. by rewrite (Hj k w Hk) in Hpc.
Qed.

(** A step of main that leaves the workers alone. *)
Lemma inv_main st m c q : Inv st -> c = latch_ st -> tq_good q ->
  (match m with MStart _ => False | _ => length (workers st) = numThreads end) ->
  (match m with MStart _ | MWait => True | _ => total counting (workers st) = 0 end) ->
  put_so_far m (taken st ++ tq_items q) ->
  (match m with
   | MJoin i => forall k w, (k < i)%nat -> workers st !! k = Some w -> pc w = WDone
   | MDone => forall k w, workers st !! k = Some w -> pc w = WDone
   | _ => True
   end) ->
  Inv (mkState m (workers st) c q (taken st)).
Proof.
  intros [Hlen Hlatch Hcnt Hgood Hfifo Htaken Hw Hj] -> Hq Hl Hc Hp Hjm. split; cbn; try done.
  by destruct m.
Qed.

Lemma inv_start st i : Inv st -> main st = MStart i -> (i < numThreads)%nat ->
  Inv (mkState (MStart (Datatypes.S i)) (workers st ++ [mkWorker WCount []]) (latch_ st)
    (queue_ st) (taken st)).
Proof.
  intros [Hlen Hlatch Hcnt Hgood Hfifo Htaken Hw Hj] Hm Hi. rewrite Hm in *.
  split; cbn [main workers latch_ queue_ taken]; try done.
  - rewrite length_app. cbn. lia.
  - rewrite total_app, zlen_app. unfold total at 2, zlen at 2. cbn. lia.
  - rewrite List.map_app, List.concat_app. cbn. by rewrite app_nil_r.
  - intros k w [Hk|[_ Hk]]%lookup_app_Some; [by eapply Hw|].
    by apply list_lookup_singleton_Some in Hk as [_ <-].
Qed.

Lemma total_counting_le l : total counting l <= zlen l.
Proof.
  induction l as [|w l IH]; [done|]. rewrite total_cons, zlen_cons. unfold counting at 1.
  destruct (pc w); lia.
Qed.

Lemma stops_app l l' : stops (l ++ l') = stops l + stops l'.
Proof. unfold stops. by rewrite List.filter_app, zlen_app. Qed.

(** The steps of a worker. *)
Lemma inv_count st k w c es : Inv st -> workers st !! k = Some w -> pc w = WCount ->
  section (countDown Done) (latch_ st) = Completes c es ->
  Inv (mkState (main st) (<[k := mkWorker WGet (own w)]> (workers st)) c (queue_ st) (taken st)).
Proof.
  intros HI Hk Hp Hs. pose proof HI as [Hlen Hlatch Hcnt Hgood Hfifo Htaken Hw Hj].
  rewrite <- (app_nil_r (taken st)). pose proof (lookup_lt_Some _ _ _ Hk) as Hlt.
  pose proof (total_nonneg counting (workers st) counting_nonneg) as Hnn.
  assert (Hn : (length (workers st) <= numThreads)%nat) by (destruct (main st); lia).
  pose proof (total_counting_le (workers st)) as Hle. unfold zlen in *.
  rewrite section_countDown in Hs by lia. injection Hs as <- <-.
  pose proof (Hw k w Hk) as Hok. unfold worker_ok in Hok. rewrite Hp in Hok.
  apply (inv_worker st k w); try done.
  - by rewrite Hp.
  - by rewrite app_nil_r.
  - unfold worker_ok. cbn. by rewrite Hok.
  - unfold counting. rewrite Hp. cbn. lia.
  - unfold counting. rewrite Hp. cbn. lia.
  - by rewrite app_nil_r.
Qed.

Lemma inv_get st k w q v : Inv st -> workers st !! k = Some w -> pc w = WGet ->
  tq_get (queue_ st) = Completes q [EvGot v] ->
  Inv (mkState (main st) (<[k := mkWorker (WTest v) (own w ++ [v])]> (workers st)) (latch_ st) q
    (taken st ++ [v])).
Proof.
  intros HI Hk Hp Hq. pose proof HI as [Hlen Hlatch Hcnt Hgood Hfifo Htaken Hw Hj].
  pose proof (get_spec (queue_ st) Hgood) as Hget. rewrite Hq in Hget.
  destruct Hget as (Hq' & v' & Hitems & [= <-]).
  pose proof (Hw k w Hk) as Hok. unfold worker_ok in Hok. rewrite Hp in Hok.
  apply (inv_worker st k w); try done.
  - by rewrite Hp.
  - by exists (own w).
  - unfold counting. by rewrite Hp.
  - unfold counting. rewrite Hp. cbn. lia.
  - by rewrite Hitems, <- app_assoc.
Qed.

Lemma inv_test st k w v : Inv st -> workers st !! k = Some w -> pc w = WTest v ->
  Inv (mkState (main st)
    (<[k := mkWorker (if is_stop v then WDone else WGet) (own w)]> (workers st)) (latch_ st)
    (queue_ st) (taken st)).
Proof.
  intros HI Hk Hp. pose proof HI as [Hlen Hlatch Hcnt Hgood Hfifo Htaken Hw Hj].
  rewrite <- (app_nil_r (taken st)).
  pose proof (Hw k w Hk) as Hok. unfold worker_ok in Hok. rewrite Hp in Hok.
  destruct Hok as (l & Hown & Hl).
  apply (inv_worker st k w); try done.
  - by rewrite Hp.
  - by rewrite app_nil_r.
  - unfold worker_ok. destruct (is_stop v) eqn:Hv; cbn; [by exists l, v|].
    rewrite Hown, stops_app, Hl. unfold stops. cbn. by rewrite Hv.
  - unfold counting. rewrite Hp. by destruct (is_stop v).
  - unfold counting. rewrite Hp. destruct (is_stop v); cbn; lia.
  - by rewrite app_nil_r.
Qed.

Lemma test_step_inv st st' : Inv st -> step st st' -> Inv st'.
Proof.
  intros HI Hst. pose proof HI as [Hlen Hlatch Hcnt Hgood Hfifo Htaken Hw Hj].
  destruct Hst as [i Hm Hi|i Hm Hi|c es Hm Hs|v rest q es Hm Hq|Hm|i q es Hm Hi Hq|i Hm Hi
    |i w Hm Hk Hp|i Hm Hi|k w c es Hk Hp Hs|k w q v Hk Hp Hq|k w v Hk Hp].
  1: by apply inv_start.
  9: by eapply inv_count.
  9: by eapply inv_get.
  9: by eapply inv_test.
  all: rewrite Hm in *; cbn [put_so_far] in Hfifo.
  all: apply inv_main; try done; try lia.
  - rewrite section_wait in Hs. by destruct (0 <? latch_ st); [|injection Hs as <- _].
  - rewrite section_wait in Hs. destruct (Z.ltb_spec 0 (latch_ st)); [done|].
    pose proof (total_nonneg counting (workers st) counting_nonneg). unfold zlen in Hlatch. lia.
  - by rewrite Hfifo.
  - pose proof (put_spec v (queue_ st) Hgood) as Hput. rewrite Hq in Hput. by destruct Hput.
  - pose proof (put_spec v (queue_ st) Hgood) as Hput. rewrite Hq in Hput.
    destruct Hput as (_ & -> & _). cbn. by rewrite app_assoc, <- app_assoc.
  - split; [lia|]. by rewrite app_nil_r in *.
  - pose proof (put_spec stop_element (queue_ st) Hgood) as Hput. rewrite Hq in Hput. by destruct Hput.
  - pose proof (put_spec stop_element (queue_ st) Hgood) as Hput. rewrite Hq in Hput.
    destruct Hput as (_ & -> & _). destruct Hfifo as [_ Hfifo]. split; [lia|].
    rewrite app_assoc, Hfifo, replicate_S_end. by rewrite app_assoc.
  - destruct Hfifo as [Hle ->]. cbn. by replace numThreads with i by lia.
  - intros k w0 Hlt Hk0. destruct (decide (k = i)) as [->|Hne]; [|by apply (Hj k w0); [lia|]].
    rewrite Hk in Hk0. by injection Hk0 as <-.
  - intros k w0 Hk0. apply (Hj k w0); [|done]. apply lookup_lt_Some in Hk0. lia.
Qed.

Lemma test_inv st : test_reachable st -> Inv st.
Proof.
  intros Hr. refine (rtc_ind_r (fun st => Inv st) test_start test_start_inv _ st Hr).
  intros st1 st2 _ Hst HI. by eapply test_step_inv.
Qed.

(** ** Progress *)

Hypothesis some_thread : (0 < numThreads)%nat.
Hypothesis stop_stops : is_stop stop_element = true.
Hypothesis elements_go : stops elements = 0.

Lemma stops_nonneg l : 0 <= stops l.
Proof. apply zlen_nonneg. Qed.

Lemma stops_replicate i : stops (replicate i stop_element) = Z.of_nat i.
Proof.
  unfold stops. induction i as [|i IH]; [done|]. cbn. rewrite stop_stops, zlen_cons, IH. lia.
Qed.

Lemma stops_concat l : stops (List.concat (List.map own l)) = total (fun w => stops (own w)) l.
Proof. induction l as [|w l IH]; [done|]. cbn [List.map List.concat]. by rewrite stops_app, total_cons, IH. Qed.

Lemma stops_list_cons x l : stops (x :: l) = stops [x] + stops l.
Proof. exact (stops_app [x] l). Qed.

Lemma stops_perm l l' : l ≡ₚ l' -> stops l = stops l'.
Proof.
  induction 1 as [|x l l' _ IH|x y l|l l1 l2 _ IH1 _ IH2]; [done| | |congruence].
  - rewrite (stops_list_cons x l), (stops_list_cons x l'). lia.
  - rewrite (stops_list_cons y (x :: l)), (stops_list_cons x l), (stops_list_cons x (y :: l)), (stops_list_cons y l). lia.
Qed.

Definition ended (w : worker) : Z := match pc w with WDone => 1 | _ => 0 end.

(** No worker is counting down or testing what it has taken. *)
Definition quiet (st : state) : Prop :=
  forall k w, workers st !! k = Some w -> pc w = WGet \/ pc w = WDone.

Lemma quiet_stops st : Inv st -> quiet st -> stops (taken st) = total ended (workers st).
Proof.
  intros HI Hq. rewrite (stops_perm _ _ (i_taken _ HI)), stops_concat.
  pose proof (i_workers _ HI) as Hw. unfold quiet in Hq. revert Hw Hq.
  induction (workers st) as [|w l IH]; intros Hw Hq; [done|]. rewrite !total_cons.
  rewrite IH; [|intros k w0; by apply (Hw (Datatypes.S k))|intros k w0; by apply (Hq (Datatypes.S k))].
  f_equal. pose proof (Hw 0%nat w eq_refl) as Hok. unfold worker_ok in Hok. unfold ended.
  destruct (Hq 0%nat w eq_refl) as [Hp|Hp]; rewrite Hp in Hok |- *; [done|].
  destruct Hok as (l0 & v & -> & Hl & Hv). rewrite stops_app, Hl. unfold stops. cbn. by rewrite Hv.
Qed.

Lemma all_ended l : zlen l <= total ended l -> forall k w, l !! k = Some w -> pc w = WDone.
Proof.
  assert (Hle : forall l, total ended l <= zlen l).
  { clear l. induction l as [|w l IH]; [done|]. rewrite total_cons, zlen_cons. unfold ended at 1.
    destruct (pc w); lia. }
  induction l as [|w l IH]; intros Hn k w0 Hk; [done|]. rewrite total_cons, zlen_cons in Hn.
  specialize (Hle l). unfold ended at 1 in Hn. destruct k as [|k].
  - injection Hk as <-. destruct (pc w); try done; lia.
  - apply (IH ltac:(destruct (pc w); lia) k w0 Hk).
Qed.

Lemma ended_all l : (forall k w, l !! k = Some w -> pc w = WDone) -> total ended l = zlen l.
Proof.
  induction l as [|w l IH]; intros Hl; [done|]. rewrite total_cons, zlen_cons.
  rewrite IH by (intros k w0; apply (Hl (Datatypes.S k))). unfold ended. by rewrite (Hl 0%nat w eq_refl).
Qed.

(** A quiet system can run, or its workers have ended, if the queue holds something. *)
Lemma quiet_gets st : Inv st -> quiet st -> tq_items (queue_ st) <> [] ->
  (exists st', step st st') \/ forall k w, workers st !! k = Some w -> pc w = WDone.
Proof.
  intros HI Hq Hne. pose proof (get_spec (queue_ st) (i_good _ HI)) as Hget.
  destruct (tq_get (queue_ st)) as [| |q es] eqn:E; [done|done|].
  destruct Hget as (_ & v & _ & ->).
  destruct (decide (Exists (fun w => ended w = 0) (workers st))) as [Hex|Hno].
  - apply Exists_exists in Hex as (w & Hin & Hz). apply list_elem_of_lookup in Hin as [k Hk].
    destruct (Hq k w Hk) as [Hp|Hp]; [|unfold ended in Hz; by rewrite Hp in Hz].
    left. eexists. by eapply T_get.
  - right. intros k w Hk. destruct (Hq k w Hk) as [Hp|]; [|done]. exfalso. apply Hno.
    apply Exists_exists. exists w. split; [by eapply list_elem_of_lookup_2|]. unfold ended. by rewrite Hp.
Qed.

Lemma busy_runs st k w : Inv st -> workers st !! k = Some w ->
  (exists st', step st st') \/ pc w = WGet \/ pc w = WDone.
Proof.
  intros HI Hk. destruct (pc w) as [| |v|] eqn:Hp; [left|by right; left|left|by right; right].
  - pose proof (i_latch _ HI) as Hl. pose proof (i_len _ HI) as Hlen.
    pose proof (total_counting_le (workers st)). pose proof (total_nonneg counting (workers st) counting_nonneg).
    assert (Hn : (length (workers st) <= numThreads)%nat) by (destruct (main st); lia).
    eexists. eapply T_count; [done|done|]. apply section_countDown. unfold zlen in *. lia.
  - eexists. by eapply T_test.
Qed.

Lemma runs_or_quiet st : Inv st -> (exists st', step st st') \/ quiet st.
Proof.
  intros HI. destruct (decide (Exists (fun w => counting w + (if pc w is WTest _ then 1 else 0) <> 0)
    (workers st))) as [Hex|Hno].
  - apply Exists_exists in Hex as (w & Hin & Hz). apply list_elem_of_lookup in Hin as [k Hk].
    destruct (busy_runs st k w HI Hk) as [?|[Hp|Hp]]; [by left|..]; unfold counting in Hz;
      by rewrite Hp in Hz.
  - right. intros k w Hk. destruct (busy_runs st k w HI Hk) as [_|?]; [|done].
    destruct (pc w) eqn:Hp; [exfalso|by left|exfalso|by right]; apply Hno, Exists_exists; exists w;
      (split; [by eapply list_elem_of_lookup_2|]); unfold counting; by rewrite Hp.
Qed.

Lemma test_progress st : Inv st -> (exists st', step st st') \/ finished st.
Proof.
  intros HI. destruct (runs_or_quiet st HI) as [?|Hq]; [by left|].
  pose proof (quiet_stops st HI Hq) as Hstops. pose proof (quiet_gets st HI Hq) as Hgets.
  pose proof HI as [Hlen Hlatch Hcnt Hgood Hfifo _ _ Hj].
  assert (Hall : (forall k w, workers st !! k = Some w -> pc w = WDone) ->
    length (workers st) = numThreads -> stops (taken st) = Z.of_nat numThreads).
  { intros Hd Hl. rewrite Hstops, (ended_all _ Hd). unfold zlen. lia. }
  pose proof (stops_nonneg (tq_items (queue_ st))) as Hnn.
  assert (Hput : forall v, (forall q es, tq_put v (queue_ st) = Completes q es -> exists st', step st st') ->
    length (workers st) = numThreads -> stops (taken st) < Z.of_nat numThreads -> exists st', step st st').
  { intros v Hv Hl Hs. pose proof (put_spec v (queue_ st) Hgood) as Hspec.
    destruct (tq_put v (queue_ st)) as [| |q es] eqn:E; [|done|by eapply Hv].
    destruct (Hgets Hspec) as [?|Hd]; [done|]. specialize (Hall Hd Hl). lia. }
  destruct (main st) as [i| |[|v rest]|i|i|] eqn:Hm; cbn in Hfifo.
  - left. destruct (decide (i < numThreads)%nat); eexists; [by eapply T_start|eapply T_started; [done|lia]].
  - left. assert (Hz : total counting (workers st) = 0).
    { unfold quiet in Hq. revert Hq. clear. induction (workers st) as [|w l IH]; intros Hq; [done|].
      rewrite total_cons, IH by (intros k w0; apply (Hq (Datatypes.S k))). unfold counting.
      destruct (Hq 0%nat w eq_refl) as [-> | ->]; done. }
    eexists. eapply T_wait; [done|]. rewrite section_wait.
    destruct (Z.ltb_spec 0 (latch_ st)); [unfold zlen in *; lia|done].
  - left. eexists. by eapply T_put_all.
  - left. apply (Hput v); [intros q es E; eexists; by eapply T_put|done|].
    assert (Hs : stops elements = 0) by done. rewrite Hfifo, !stops_app in Hs.
    pose proof (stops_nonneg (taken st)). pose proof (stops_nonneg (v :: rest)). lia.
  - left. destruct (decide (i < length (workers st))%nat) as [Hi|Hi]; [|eexists; eapply T_stop_all; [done|lia]].
    apply (Hput stop_element); [intros q es E; eexists; by eapply T_stop|done|].
    destruct Hfifo as [_ Hfifo]. apply (f_equal stops) in Hfifo.
    rewrite !stops_app, stops_replicate, elements_go in Hfifo. lia.
  - left. destruct (workers st !! i) as [w|] eqn:Hw.
    2: { apply lookup_ge_None in Hw. eexists. by eapply T_join_all. }
    destruct (Hq i w Hw) as [Hp|Hp]; [|eexists; by eapply T_join].
    destruct (decide (tq_items (queue_ st) = [])) as [He|Hne].
    + exfalso. rewrite He, app_nil_r in Hfifo. apply (f_equal stops) in Hfifo.
      rewrite stops_app, stops_replicate, elements_go in Hfifo.
      pose proof (all_ended (workers st)) as Hd. rewrite <- Hstops in Hd.
      specialize (Hd ltac:(unfold zlen; lia) i w Hw). congruence.
    + destruct (Hgets Hne) as [?|Hd]; [done|]. specialize (Hd i w Hw). congruence.
  - right. by split.
Qed.

(** At the end: what the workers have taken, in the order of the gets, is what was
    put, and each of them has taken one stop element, the last. *)
Lemma finished_result st : Inv st -> finished st ->
  taken st = elements ++ replicate numThreads stop_element /\ tq_items (queue_ st) = [] /\
  taken st ≡ₚ List.concat (List.map own (workers st)) /\
  length (workers st) = numThreads /\
  (forall k w, workers st !! k = Some w ->
     exists l v, own w = l ++ [v] /\ stops l = 0 /\ is_stop v = true).
Proof.
  intros HI [Hm Hd]. pose proof HI as [Hlen _ _ _ Hfifo Ht Hw _]. rewrite Hm in Hlen, Hfifo. cbn in Hfifo.
  assert (Hq : quiet st) by (intros k w Hk; right; by eapply Hd).
  pose proof (quiet_stops st HI Hq) as Hs. rewrite (ended_all _ Hd) in Hs.
  assert (He : tq_items (queue_ st) = []).
  { destruct (tq_items (queue_ st)) as [|v q _] using rev_ind; [done|]. exfalso.
    assert (Hv : is_stop v = true /\ (length (taken st) < length elements + numThreads)%nat).
    { split.
      - destruct numThreads as [|n]; [lia|]. rewrite replicate_S_end, !app_assoc in Hfifo.
        apply app_inj_tail in Hfifo as [_ ->]. done.
      - apply (f_equal length) in Hfifo. rewrite !length_app, length_replicate in Hfifo. cbn in Hfifo. lia. }
    apply (f_equal stops) in Hfifo. rewrite !stops_app, stops_replicate, elements_go in Hfifo.
    assert (Hone : stops [v] = 1) by (unfold stops; cbn; by rewrite (proj1 Hv)).
    pose proof (stops_nonneg q). unfold zlen in Hs. lia. }
  rewrite He, app_nil_r in Hfifo. split_and!; try done. intros k w Hk. pose proof (Hw k w Hk) as Hok.
  unfold worker_ok in Hok. by rewrite (Hd k w Hk) in Hok.
Qed.

(** ** Termination *)

Definition left_of (i : nat) : Z := Z.max 0 (Z.of_nat numThreads - Z.of_nat i).
Definition main_work (m : main_pc A) : Z :=
  let n := Z.of_nat numThreads in
  match m with
  | MStart i => 2 * left_of i + 3 * zlen elements + 4 * n + 5
  | MWait => 3 * zlen elements + 4 * n + 4
  | MPut rest => 3 * zlen rest + 4 * n + 3
  | MStop i => 3 * left_of i + n + 2
  | MJoin i => left_of i + 1
  | MDone => 0
  end.
Definition worker_work (w : worker) : Z := match pc w with WCount | WTest _ => 1 | _ => 0 end.
Definition test_work (st : state) : Z :=
  main_work (main st) + 2 * zlen (tq_items (queue_ st)) + total worker_work (workers st).

Lemma test_work_nonneg st : 0 <= test_work st.
Proof.
  unfold test_work. pose proof (zlen_nonneg (tq_items (queue_ st))).
  pose proof (total_nonneg worker_work (workers st) ltac:(intros w; unfold worker_work; destruct (pc w); lia)).
  pose proof (zlen_nonneg elements). unfold main_work, left_of. destruct (main st) as [i| |rest|i|i|];
    try (pose proof (zlen_nonneg rest)); lia.
Qed.

Lemma step_works st st' : Inv st -> step st st' -> test_work st' < test_work st.
Proof.
  intros HI Hst. pose proof HI as [Hlen _ _ Hgood _ _ _ _]. pose proof (zlen_nonneg elements) as Hel.
  unfold test_work.
  destruct Hst as [i Hm Hi|i Hm Hi|c es Hm Hs|v rest q es Hm Hq|Hm|i q es Hm Hi Hq|i Hm Hi
    |i w Hm Hk Hp|i Hm Hi|k w c es Hk Hp Hs|k w q v Hk Hp Hq|k w v Hk Hp];
    cbn [main workers queue_]; try rewrite Hm in *; unfold main_work, left_of; try lia.
  - rewrite total_app. unfold total at 2. cbn. lia.
  - pose proof (put_spec v (queue_ st) Hgood) as Hput. rewrite Hq in Hput.
    destruct Hput as (_ & -> & _). rewrite zlen_app, !zlen_cons, zlen_nil. lia.
  - change (zlen []) with 0. lia.
  - pose proof (put_spec stop_element (queue_ st) Hgood) as Hput. rewrite Hq in Hput.
    destruct Hput as (_ & -> & _). rewrite zlen_app, !zlen_cons. change (zlen []) with 0. lia.
  - apply lookup_lt_Some in Hk. lia.
  - rewrite (total_insert _ _ _ _ _ Hk). unfold worker_work at 2 3. rewrite Hp. cbn. lia.
  - pose proof (get_spec (queue_ st) Hgood) as Hget. rewrite Hq in Hget.
    destruct Hget as (_ & v' & -> & _). rewrite zlen_cons, (total_insert _ _ _ _ _ Hk).
    unfold worker_work at 2 3. rewrite Hp. cbn. lia.
  - rewrite (total_insert _ _ _ _ _ Hk). unfold worker_work at 2 3. rewrite Hp.
    destruct (is_stop v); cbn; lia.
Qed.

(** The program can go on until all threads have ended, and then has done its work;
    every step uses up a part of a finite amount of work. *)
Definition ends_well (st : state) : Prop :=
  ((exists st', step st st') \/
   finished st /\
   taken st = elements ++ replicate numThreads stop_element /\ tq_items (queue_ st) = [] /\
   taken st ≡ₚ List.concat (List.map own (workers st)) /\ length (workers st) = numThreads /\
   (forall k w, workers st !! k = Some w ->
      exists l v, own w = l ++ [v] /\ stops l = 0 /\ is_stop v = true)) /\
  0 <= test_work st /\ forall st', step st st' -> test_work st' < test_work st.

Lemma program_ends st : test_reachable st -> ends_well st.
Proof.
  intros Hr. pose proof (test_inv st Hr) as HI. split.
  - destruct (test_progress st HI) as [?|Hf]; [by left|right]. split; [done|by apply finished_result].
  - split; [apply test_work_nonneg|]. intros st'. by apply step_works.
Qed.
End Program.

(** *** The unit tests *)

(** snprintf(buf, sizeof(buf), "hello %d", i), which put makes a string of. *)
Definition hello_text (i : nat) : bytes := lit "hello " ++ dec_of_Z (Z.of_nat i).
Definition hello (i : nat) : outcome bytes := c_string (snprintf_stored 32 (hello_text i)).
Definition STOP : bytes := lit "STOP".
(** !(tmp != "STOP") *)
Definition is_STOP (tmp : bytes) : bool := bool_decide (tmp = STOP).

(** The states of the three programs with [n] threads: [vs] are the texts that run
    puts, [nows] the times. *)
Definition unit_test (n : nat) (vs : list bytes) (st : @state (list bytes) bytes) : Prop :=
  test_reachable n vs STOP is_STOP [] st.
Definition bounded_test `{CircularBuffer bytes B} (n : nat) (vs : list bytes)
  (st : @state B bytes) : Prop :=
  test_reachable n vs STOP is_STOP (cb_new 20) st.
Definition not_valid (t : Timestamp) : bool := negb (Timestamp.valid t).
Definition bench_test (n : nat) (nows : list Timestamp) (st : @state (list Timestamp) Timestamp) : Prop :=
  test_reachable n nows Timestamp.invalid not_valid [] st.

Lemma hello_ok i : Z.of_nat i < 2 ^ 31 -> hello i = Ok (hello_text i).
Proof.
  intros Hi. pose proof (dec_of_Z_digits (Z.of_nat i) ltac:(lia)) as Hd.
  pose proof (length_dec_of_Z 10 (Z.of_nat i) ltac:(simpl; lia) ltac:(lia)) as Hl.
  unfold hello, hello_text. apply c_string_snprintf.
  - unfold zlen. rewrite length_app. cbn [lit list_ascii_of_string length]. lia.
  - apply not_elem_of_app. split; [by apply (bool_decide_unpack _)|].
    by apply (nul_free_digits (Z.of_nat i)).
Qed.

Lemma hello_goes times vs : Z.of_nat times <= 2 ^ 31 ->
  Forall2 (fun i v => hello i = Ok v) (seq 0 times) vs -> stops is_STOP vs = 0.
Proof.
  intros Hn Hvs. assert (Hall : Forall (fun v => is_STOP v = false) vs).
  { apply Forall_lookup. intros k v Hk. destruct (Forall2_lookup_r _ _ _ _ _ Hvs Hk) as (i & Hi & Hv).
    apply lookup_seq in Hi as [-> Hi]. rewrite hello_ok in Hv by lia. injection Hv as <-.
    apply bool_decide_eq_false. done. }
  unfold stops. clear Hvs Hn. induction Hall as [|v vs Hv _ IH]; [done|]. cbn. by rewrite Hv.
Qed.

(** C11. The test programs of the queues finish and pass everything on: with any
    positive number of threads, for the unit tests of BlockingQueue and of
    BoundedBlockingQueue with any number of elements and for the benchmark with
    any valid time stamps, in every state that is reached some thread can run or
    all have ended, no interleaving goes on for ever, and at the end the workers
    have taken all elements in the order in which main put them, each of them
    then exactly one stop element as its last, and the queue is empty. *)
Theorem queue_tests_finish {B} `{CircularBufferLaws bytes B} n times vs nows :
  (0 < n)%nat -> Z.of_nat n < 2 ^ 31 -> Z.of_nat times <= 2 ^ 31 ->
  Forall2 (fun i v => hello i = Ok v) (seq 0 times) vs ->
  Forall (fun t => Timestamp.valid t = true) nows ->
  (forall st, unit_test n vs st -> ends_well n vs STOP is_STOP st) /\
  (forall st : @state B bytes, bounded_test n vs st -> ends_well n vs STOP is_STOP st) /\
  (forall st, bench_test n nows st -> ends_well n nows Timestamp.invalid not_valid st).
Proof.
  intros Hn Hfit Htimes Hvs Hnows. pose proof (hello_goes times vs Htimes Hvs) as Hgo. split_and!.
  - intros st. by apply program_ends.
  - intros st. apply program_ends; try done; cbn; rewrite new_contents by lia; [|done].
    rewrite new_capacity by lia. by split.
  - intros st. apply program_ends; try done. unfold stops. induction Hnows as [|t l Ht _ IH]; [done|].
    cbn. unfold not_valid. by rewrite Ht.
Qed.

(** One worker and one element, over the ring of BoundedBlockingQueue.v. *)
Definition one_hello : list bytes := [hello_text 0].
Definition test_end : @state (ring bytes) bytes :=
  mkState MDone [mkWorker WDone [hello_text 0; STOP]] 0 (mkRing 20 []) [hello_text 0; STOP].

Tactic Notation "go" uconstr(rule) := eapply rtc_l; [eapply rule; (reflexivity || (cbn; lia))|cbn].

Lemma test_end_reachable : bounded_test (B := ring bytes) 1 one_hello test_end.
Proof.
  unfold bounded_test, test_reachable, test_start.
  go T_start. go T_started. go (T_count _ _ _ _ _ 0%nat). go T_wait. go T_put. go T_put_all.
  go (T_get _ _ _ _ _ 0%nat). go T_stop. go (T_test _ _ _ _ _ 0%nat).
  go (T_get _ _ _ _ _ 0%nat). go T_stop_all. go (T_test _ _ _ _ _ 0%nat). go T_join. go T_join_all.
  apply rtc_refl.
Qed.

Lemma queue_tests_finish_witness :
  taken test_end = one_hello ++ replicate 1 STOP /\ tq_items (queue_ test_end) = [].
Proof.
  destruct (queue_tests_finish (B := ring bytes) 1 1 one_hello [mkTimestamp 5]) as (_ & Hb & _).
  - lia.
  - lia.
  - lia.
  - repeat constructor.
  - repeat constructor.
  - destruct (Hb test_end test_end_reachable) as [[[st' Hst]|(_ & Ht & Hq & _)] _]; [|by split].
    exfalso. inversion Hst as [| | | | | | | | |k w c es Hk Hp|k w q v Hk Hp|k w v Hk Hp]; subst; try done;
      destruct k as [|k]; cbn in Hk; try done; injection Hk as <-; done.
Defined.
